(* ===== verification/_CoqProject ===== *)
-Q . S2P
Prelude.v
GoStd.v
GoPath.v
FilePath.v
MachineId.v
ConcurrentMap.v
Values.v
Wamp.v
LogText.v
Accessors.v
Decoding.v
Sample.v
Permissions.v
Peers.v
PeerClose.v
PeerRefine.v
LocalPeer.v
WsPeer.v
Acceptor.v
Auth.v
NxtAuth.v
Relay.v
Splice.v
Credentials.v
Dialing.v
DemoConnect.v
Framing.v
DeviceAuth.v
DeviceExamples.v
Realm.v
Router.v
RouterEnds.v
Server.v
RawServing.v
Listeners.v
Certificates.v
Streams.v
Multiplex.v
Meta.v
Session.v
MuxSessions.v
EndToEnd.v
Progressive.v
Requests.v
Management.v
Stats.v
NxtConfig.v
Demos.v
DemoClients.v
Bridge.v
Cloud.v
Wiring.v
DemoServers.v
Commands.v
RealmExamples.v
RouterExamples.v
ServerExamples.v
BridgeExamples.v
CloudExamples.v
NxtExamples.v
MetaExamples.v
SessionExamples.v
RequestsExamples.v
WiringExamples.v
CommandsExamples.v
DialingExamples.v
FramingExamples.v
RawServingExamples.v
EndToEndExamples.v
LogExamples.v
DemoExamples.v
DemoClientExamples.v
