(* ===== verification/Prelude.v ===== *)
(** * A verification development for xconn-go

    xconn-go is a WAMP router and client library (the root package), a
    configurable router (nxt/) and a device agent (xconn/).  The protocol
    itself, its messages, serializers, broker, dealer, acceptor and joiner, is
    wampproto-go, a separate module: here it is a set of classes, whose laws
    are what the documentation of that module and the WAMP specification say,
    and every theorem holds for all their instances.  [Sample] is one
    instance, at which the examples evaluate the theorems.

    ** How a program of the library is put together

    A connection becomes a peer (peer.go), a handshake on the peer makes a
    base session (acceptor.go), the router attaches the session to a realm
    (router.go, realm.go) and feeds it what it reads (server.go).  A realm asks
    the broker and the dealer who is to get a message and writes to the peers
    of those sessions without waiting.  Clients (session.go, types.go) build
    requests, send them, and wait for the answers that a reader goroutine hands
    out.  The meta and the management API (meta.go, management.go) are clients
    of the router in the same process.

    ** How Go is modelled

    A call that changes state is a computation of the monad [M] below: a
    function of the state to a new state and an outcome, which is a value, an
    error, a panic ([Crash]) or waiting for ever ([Blocks]).  An [error] is its
    text.  Integers are [Z], with the conversions of [Values] written out;
    floats are IEEE (Values, GoStd).  Maps are [gmap]s; a range over one goes
    through its entries in an order that is an argument ([MapRange]).  Pointers
    are numbers into a store where aliasing matters: realms (Router), session
    states (Realm), principals (DeviceAuth), maps of options (Requests).  A
    method that holds a lock from beginning to end is one step.  Where
    goroutines interleave, the model is a transition system whose steps are
    channel operations, critical sections and calls (PeerClose,
    LocalPeer, WsPeer, Relay, Splice, Multiplex, Credentials, Stats, Cloud).
    Sockets, files and connections are numbers in the state of their owner, so
    that a theorem can say which are open (Listeners, Dialing, Wiring, Commands).

    Where a call can wait for another party, the state says whether that party goes on:
    [stalled] of a peer, that its writer is in a write that does not return, which
    [Close] of a raw-socket peer then waits for; [takes] of a reader, how many pongs
    its writer takes; [takes] of an end of a splice, how much is still read there.  A
    call of a peer is one step, taken when the call has the lock: what may hold the lock
    meanwhile is in PeerClose and LocalPeer.

    ** The files

    - [Prelude]: errors, outcomes, the monad and its lemmas, the tactics
      ([go_effect] and the hint database [go]).  [GoStd]: the standard library
      that the code uses.  [GoPath]: [path.Match], with the language that its
      patterns describe.  [FilePath]: [Clean], [Join] and [Dir] of [filepath].  [ConcurrentMap] (internal/map.go): a finite map.
    - [Values] (parser.go: [Value], [List], [Dict]), [Accessors] (parser.go,
      types.go: [Invocation], [Event], [ProgressResult], [CallResponse],
      [Error]).  Conversions are exact or fail, and what passes by mistake.
      [Decoding]: their decoding through JSON, by position and by name.
    - [Wamp]: the interface of wampproto-go.  [Sample]: an instance.  [LogText]
      (helpers.go): the texts that are published for the messages of a session; each
      begins with the name of its type.
    - [Permissions] (types.go): what a permission covers, against a
      declarative reading of the three match policies.
    - [Peers] (peer.go): the queues of the three peers, base sessions, and the
      class [SessionOps] through which a realm sees them.  [PeerClose]: the
      goroutines of a raw-socket peer; order, at most one close, when closing
      ends and when it deadlocks.  [PeerRefine]: they refine the atomic queue
      of [Peers] ([peer_op]).  [LocalPeer]: one end of an in-memory pair, which
      refines it too; nothing is lost by a closing that waits.  [WsPeer]: the
      goroutines of a WebSocket peer, with its pings; closing always returns,
      a write that it overtakes may not.  [Framing]: the bytes of a raw socket;
      what is written is read, in whatever pieces it arrives, unless pings that
      nobody takes the answers of stop the reader.
    - [Realm] (realm.go): authorization, routing, publication and errors.
      [Router] (router.go, client.go): realms by name, aliases, the invariant of
      every reachable router, closing.  [RouterEnds]: no operation panics, and
      what the ones that close a session may wait for.
    - [Meta] and [Management]: the procedures of the two APIs.  [Stats]
      (management.go): the statistics and the goroutines that log them.
    - [Session] (session.go, types.go): requests and answers of a client.
      [Requests] (types.go): building and sending the request objects.
      [Progressive]: calls whose arguments come in several messages.
    - [Acceptor] (acceptor.go, joiner.go, helpers.go): registries of
      serializers and the handshakes.  [Dialing] (client.go, joiner.go,
      acceptor.go, quic.go, webtransport.go): what a client dials, the handshake
      bytes and subprotocols of both ends, and the streams and connections of
      multiplexed sessions.  [MuxSessions] (quic.go, webtransport.go): the sessions on
      these streams, and how one of them is closed.  [Server] (server.go): [HandleClient],
      which composes the handshake, the router and the peers: every connection
      that is served is detached in the end, unless its writer is stuck.  [RawServing]: the same from the bytes
      of a raw socket: what a client sends, in whatever pieces, is routed once and in
      order.  [EndToEnd]: sessions, connections and router together, and calls and
      publications from one client to another.  [Certificates] (quic.go,
      webtransport.go): the self-signed certificates.  [Listeners] (server.go,
      webtransport.go): the sockets of a process and the stale files of Unix
      sockets.  [Streams]: a stream is served as a raw socket is.  [Multiplex] (server.go,
      webtransport.go, streamauth.go): QUIC and WebTransport listeners; no
      panic, authenticated raw streams, shutting down, also when nobody receives.
    - [Auth]: the requests of an authenticator.  [NxtAuth]
      (nxt/authenticator.go), [NxtConfig] (nxt/config.go, nxt/util.go): who is let
      in, which configurations are valid, and the router that a valid one gives.
    - [DeviceAuth] (xconn/auth.go, xconn/router.go): the principals of a device,
      the key events and the file.  [Relay] (xconn/relay.go): frames and the two
      directions of a data channel.  [Splice] (xconn/helpers.go, xconn/relay.go):
      spliced streams, which end with either side unless the other
      takes nothing, and a whole relayed data channel.  [Bridge] (xconn/bridge.go, xconn/xconn.go):
      what remote clients may do, and the sessions the bridge opens for them.
      [Credentials] (xconn/credentials.go): waiting for the device to be attached, when
      that is noticed and when not.
      [Cloud] (xconn/run.go): how a device starts, reconnects and stops.
    - [Wiring] (nxt/util.go, xconn/router.go, xconn/standalone.go, xconn/xconn.go,
      xconn/webrtc.go): routers with their listeners, and what is closed on every
      path.  [Commands] (cmd/nxt/main.go, cmd/xconn/main.go): the command lines.
      [MachineId] (xconn/machineid_*.go): the identifier of the host.
    - [Demos], [DemoClients], [DemoConnect] and [DemoServers] (examples/): the handlers
      and senders of the example programs, their clients from one end to the other, the
      ways of connecting, and the servers; what three of them get wrong.
    - [RealmExamples], [RouterExamples], [ServerExamples], [BridgeExamples],
      [NxtExamples], [DeviceExamples], [CloudExamples], [MetaExamples],
      [SessionExamples], [RequestsExamples], [WiringExamples], [CommandsExamples],
      [DialingExamples], [FramingExamples], [RawServingExamples], [EndToEndExamples],
      [LogExamples], [DemoExamples], [DemoClientExamples]: the theorems applied to concrete states.

    The main theorems have a comment that starts with C and a number.  Some
    state how the code fails: their comment says what happens, and a correct
    version of the code would not satisfy them.

    ** Bounds

    Five definitions run on fuel.  The scanner of [GoPath] consumes a byte of
    the pattern at each step and starts with the length of the pattern;
    [NxtAuth.hex_of] prints the at most 16 digits of a 64-bit number;
    [Framing.RawSocketPeer_Read] calls itself once for every frame, which is four
    bytes or more, and starts with the number of bytes that are left
    ([read_terminates]); [RawServing.peer_reads] calls it once for every message and
    starts with one more than the bytes that are left, which [peer_reads_run] shows
    to be enough; and the loop of [Demos.download_handler] makes eleven rounds and
    starts with twelve ([download_tells_its_progress]).  A connection that is read is a list of results; a read
    after the last one waits.

    ** What is not modelled, and why

    TLS, keys and signatures, the exchange of an HTTP upgrade, and the inside of
    QUIC, WebTransport and WebRTC are the work of other modules: what they
    deliver is an argument.  The text of JSON and YAML is left out: [Decoding]
    keeps the value that a text denotes, and configurations and relay headers are
    read by a function that is an argument.  What goes to the log of a process, or is printed on the way, is left
    out.  Time is left out: a timeout is an event that may
    happen.  Data races are not modelled: where the code reads without its lock,
    the model takes one of the two orders. *)

From stdpp Require Export base gmap strings list pretty.
From Stdlib Require Export ZArith Ascii.

Declare Scope go_scope.
Delimit Scope go_scope with go.

(** ** Errors and panics

    A Go [error] value is modelled by the text its [Error] method returns; a
    Go function with results [(v, err)] of which only one is meaningful is a
    [result].  A function that may panic returns an [outcome]. *)

Abbreviation error := string (only parsing).

Inductive result (A : Type) : Type :=
| Ok (a : A)
| Err (e : error).
Arguments Ok {A} a.
Arguments Err {A} e.

Inductive outcome (A : Type) : Type :=
| Returns (a : A)
| Panics (why : string).
Arguments Returns {A} a.
Arguments Panics {A} why.

Definition rbind {A B} (r : result A) (k : A → result B) : result B :=
  match r with Ok a => k a | Err e => Err e end.

Definition rmap {A B} (f : A → B) (r : result A) : result B :=
  match r with Ok a => Ok (f a) | Err e => Err e end.

(** [fmt.Errorf("prefix: %w", err)]. *)
Definition wrap {A} (prefix : string) (r : result A) : result A :=
  match r with Ok a => Ok a | Err e => Err (prefix +:+ e) end.

Definition result_or {A} (d : A) (r : result A) : A :=
  match r with Ok a => a | Err _ => d end.

Definition is_ok {A} (r : result A) : bool :=
  match r with Ok _ => true | Err _ => false end.

Notation "'let*' x ':=' e 'in' k" := (rbind e (λ x, k))
  (at level 10, x pattern, e at level 200, k at level 200) : go_scope.
Notation "'check*' e 'in' k" := (rbind e (λ _ : unit, k))
  (at level 10, e at level 200, k at level 200) : go_scope.

(** A loop over a slice that returns at the first error. *)
Fixpoint for_each {A} (f : A → result unit) (l : list A) : result unit :=
  match l with
  | [] => Ok tt
  | x :: l => match f x with Ok _ => for_each f l | Err e => Err e end
  end.

(** A loop over a slice threading a state. *)
Fixpoint for_state {S A} (f : S → A → S) (l : list A) (s : S) : S :=
  match l with
  | [] => s
  | x :: l => for_state f l (f s x)
  end.

Global Instance result_eq_dec `{EqDecision A} : EqDecision (result A).
Proof. solve_decision. Defined.
Global Instance outcome_eq_dec `{EqDecision A} : EqDecision (outcome A).
Proof. solve_decision. Defined.

(** ** Automation *)

Create HintDb go.
Create Rewrite HintDb go.

(** Case analysis on every match of the goal and of the hypotheses. *)
Ltac go_cases := repeat (case_match; simplify_eq/=; try done).

(** Split a conjunction of booleans in the hypotheses. *)
Ltac go_bools :=
  repeat match goal with
  | H : (_ && _) = true |- _ => apply andb_true_iff in H as [? ?]
  | H : (_ || _) = false |- _ => apply orb_false_iff in H as [? ?]
  | H : bool_decide _ = true |- _ => apply bool_decide_eq_true in H
  | H : bool_decide _ = false |- _ => apply bool_decide_eq_false in H
  | H : negb _ = true |- _ => apply negb_true_iff in H
  | H : negb _ = false |- _ => apply negb_false_iff in H
  end.

(** ** Lemmas on strings and results *)

Lemma string_app_assoc (a b c : string) : (a +:+ b) +:+ c = a +:+ (b +:+ c).
Proof.
  induction a as [|x a IH]; [done|].
  change (String x ((a +:+ b) +:+ c) = String x (a +:+ (b +:+ c))). by rewrite IH.
Qed.


Lemma rbind_Ok {A B} (r : result A) (k : A → result B) b :
  rbind r k = Ok b ↔ ∃ a, r = Ok a ∧ k a = Ok b.
Proof. destruct r; naive_solver. Qed.

Lemma wrap_Ok {A} p (r : result A) a : wrap p r = Ok a ↔ r = Ok a.
Proof. destruct r; naive_solver. Qed.

Lemma for_each_Ok {A} (f : A → result unit) l :
  for_each f l = Ok tt ↔ Forall (λ x, f x = Ok tt) l.
Proof.
  induction l as [|x l IH]; simpl; [done|].
  rewrite Forall_cons. destruct (f x) as [[]|e]; naive_solver.
Qed.

(** The error returned is that of the first element that has one. *)
Lemma for_each_Err {A} (f : A → result unit) l e :
  for_each f l = Err e ↔
  ∃ l1 x l2, l = l1 ++ x :: l2 ∧ Forall (λ y, f y = Ok tt) l1 ∧ f x = Err e.
Proof.
  induction l as [|x l IH]; simpl.
  - split; [done|]. intros (l1 & x & l2 & H & _). by destruct l1.
  - destruct (f x) as [[]|e'] eqn:Hx.
    + rewrite IH. split.
      * intros (l1 & y & l2 & -> & ? & ?). exists (x :: l1), y, l2.
        repeat split; auto.
      * intros (l1 & y & l2 & Heq & Hl & Hy).
        destruct l1 as [|z l1]; simplify_eq/=; inversion Hl; subst; eauto 10; congruence.
    + split.
      * intros [= <-]. exists [], x, l. auto.
      * intros (l1 & y & l2 & Heq & Hl & Hy).
        destruct l1 as [|z l1]; simplify_eq/=; [congruence|]. inversion Hl. congruence.
Qed.

Lemma for_state_app {S A} (f : S → A → S) l1 l2 s :
  for_state f (l1 ++ l2) s = for_state f l2 (for_state f l1 s).
Proof. revert s. induction l1; simpl; auto. Qed.

(** A property kept by every iteration is kept by the loop. *)
Lemma for_state_inv {S A} (P : S → Prop) (f : S → A → S) l s :
  P s → (∀ s x, x ∈ l → P s → P (f s x)) → P (for_state f l s).
Proof.
  revert s. induction l as [|x l IH]; simpl; intros s Hs Hf; [done|].
  apply IH; [|set_solver]. apply Hf; [set_solver|done].
Qed.

#[export] Hint Rewrite @rbind_Ok @wrap_Ok @for_each_Ok : go.

(** ** Effectful code

    A call on shared state: it changes the state and then returns a value,
    returns an error, panics, or waits for another goroutine. *)

Inductive exec (A : Type) : Type :=
| Val (a : A)
| Fail (e : error)
| Crash (why : string)
| Blocks.
Arguments Val {A} a.
Arguments Fail {A} e.
Arguments Crash {A} why.
Arguments Blocks {A}.

Definition M (W A : Type) : Type := W → W * exec A.

Global Instance M_ret W : MRet (M W) := λ A a w, (w, Val a).
Global Instance M_bind W : MBind (M W) := λ A B k m w,
  match m w with
  | (w, Val a) => k a w
  | (w, Fail e) => (w, Fail e)
  | (w, Crash s) => (w, Crash s)
  | (w, Blocks) => (w, Blocks)
  end.

Definition fail {W A} (e : error) : M W A := λ w, (w, Fail e).
Definition crash {W A} (why : string) : M W A := λ w, (w, Crash why).
Definition get {W A} (f : W → A) : M W A := λ w, (w, Val (f w)).
Definition modify {W} (f : W → W) : M W unit := λ w, (f w, Val tt).

(** A Go call whose error is looked at by the caller: [v, err := m()]. *)
Definition try {W A} (m : M W A) : M W (result A) := λ w,
  match m w with
  | (w, Val a) => (w, Val (Ok a))
  | (w, Fail e) => (w, Val (Err e))
  | (w, Crash s) => (w, Crash s)
  | (w, Blocks) => (w, Blocks)
  end.

(** [_ = m()]: the error is dropped. *)
Definition ignore {W A} (m : M W A) : M W unit := try m;; mret tt.

Definition of_result {W A} (r : result A) : M W A :=
  match r with Ok a => mret a | Err e => fail e end.

(** A [for range] loop whose body may return from the function by an error. *)
Fixpoint for_M {W A} (f : A → M W unit) (l : list A) : M W unit :=
  match l with
  | [] => mret tt
  | x :: l => f x;; for_M f l
  end.

(** Run a call on one component of a larger state. *)
Definition zoom {V W A} (view : W → V) (set : V → W → W) (m : M V A) : M W A := λ w,
  let '(v, r) := m (view w) in (set v w, r).

Lemma for_M_app {W A} (f : A → M W unit) l1 l2 w :
  for_M f (l1 ++ l2) w = (for_M f l1;; for_M f l2) w.
Proof.
  revert w. induction l1 as [|x l1 IH]; intros w; [done|]. simpl.
  unfold mbind, M_bind in *. destruct (f x w) as [w' []]; done || apply IH.
Qed.

(** ** Reasoning about effectful code *)

Lemma bind_Val {W A B} (m : M W A) (k : A → M W B) w w' a :
  m w = (w', Val a) → (m ≫= k) w = k a w'.
Proof. unfold mbind, M_bind. by intros ->. Qed.

Lemma bind_Fail {W A B} (m : M W A) (k : A → M W B) w w' e :
  m w = (w', Fail e) → (m ≫= k) w = (w', Fail e).
Proof. unfold mbind, M_bind. by intros ->. Qed.

Lemma bind_effect {W A B} (m : M W A) (k : A → M W B) w :
  (m ≫= k) w =
  match (m w).2 with
  | Val a => k a (m w).1
  | Fail e => ((m w).1, Fail e)
  | Crash s => ((m w).1, Crash s)
  | Blocks => ((m w).1, Blocks)
  end.
Proof. unfold mbind, M_bind. by destruct (m w) as [? []]. Qed.

Lemma bind_Fail_inv {W A B} (m : M W A) (k : A → M W B) w w' e :
  (x ← m; k x) w = (w', Fail e) →
  m w = (w', Fail e) ∨ ∃ x w1, m w = (w1, Val x) ∧ k x w1 = (w', Fail e).
Proof.
  unfold mbind, M_bind. destruct (m w) as [w1 [x|e'|why|]]; intros Hr; simplify_eq; eauto.
Qed.

Lemma bind_bind {W A B C} (m : M W A) (k : A → M W B) (k' : B → M W C) w :
  ((m ≫= k) ≫= k') w = (m ≫= λ a, k a ≫= k') w.
Proof. unfold mbind, M_bind. by destruct (m w) as [w' []]. Qed.

Lemma bind_Val_inv {W A B} (m : M W A) (k : A → M W B) w w' b :
  (m ≫= k) w = (w', Val b) → ∃ w1 a, m w = (w1, Val a) ∧ k a w1 = (w', Val b).
Proof.
  unfold mbind, M_bind. destruct (m w) as [w1 [a|e|s|]] eqn:Hm; intros; simplify_eq. eauto.
Qed.

Lemma try_Val {W A} (m : M W A) w w' a : m w = (w', Val a) → try m w = (w', Val (Ok a)).
Proof. unfold try. by intros ->. Qed.

Lemma zoom_run {V W A} (view : W → V) set (m : M V A) w :
  zoom view set m w = (set (m (view w)).1 w, (m (view w)).2).
Proof. unfold zoom. by destruct (m (view w)). Qed.

(** The call returns, with a value or an error: no panic and no waiting. *)
Definition ends {W A} (m : M W A) : Prop :=
  ∀ w, (∃ a, (m w).2 = Val a) ∨ (∃ e, (m w).2 = Fail e).

(** The call returned, or it waits, and then [P] says for what. *)
Definition returns_or {A} (P : Prop) (v : exec A) : Prop :=
  (∃ a, v = Val a) ∨ (∃ e, v = Fail e) ∨ (v = Blocks ∧ P).

Lemma ends_returns {W A} (m : M W A) P w : ends m → returns_or P (m w).2.
Proof. intros Hm. destruct (Hm w); [by left|by right; left]. Qed.

Lemma returns_bind {W A B} (m : M W A) (k : A → M W B) P w :
  returns_or P (m w).2 → (∀ a, returns_or P (k a (m w).1).2) → returns_or P ((m ≫= k) w).2.
Proof.
  unfold mbind, M_bind. destruct (m w) as [w' v]. simpl.
  intros [[a ->]|[[e ->]|[-> HP]]] Hk; [apply Hk|right; left; by eexists|by right; right].
Qed.

(** The call relates the states before and after it, however it ends. *)
Definition keeps {W A} (R : W → W → Prop) (m : M W A) : Prop := ∀ w, R w (m w).1.

Lemma ends_ret {W A} (a : A) : ends (W := W) (mret a).
Proof. intros w. left. by exists a. Qed.

Lemma ends_fail {W A} e : ends (fail (W := W) (A := A) e).
Proof. intros w. right. by exists e. Qed.

Lemma ends_get {W A} (f : W → A) : ends (get f).
Proof. intros w. left. by exists (f w). Qed.

Lemma ends_modify {W} (f : W → W) : ends (modify f).
Proof. intros w. left. by exists tt. Qed.

Lemma ends_bind {W A B} (m : M W A) (k : A → M W B) :
  ends m → (∀ a, ends (k a)) → ends (m ≫= k).
Proof.
  intros Hm Hk w. unfold mbind, M_bind. specialize (Hm w).
  destruct (m w) as [w' [a|e|s|]]; simpl in *; [apply Hk|eauto|naive_solver..].
Qed.

Lemma ends_try {W A} (m : M W A) : ends m → ends (try m).
Proof.
  intros Hm w. unfold try. specialize (Hm w).
  destruct (m w) as [w' [a|e|s|]]; simpl in *; naive_solver.
Qed.

Lemma ends_ignore {W A} (m : M W A) : ends m → ends (ignore m).
Proof. intros. apply ends_bind; [by apply ends_try|intros; apply ends_ret]. Qed.

Lemma ends_of_result {W A} (r : result A) : ends (W := W) (of_result r).
Proof. destruct r; [apply ends_ret|apply ends_fail]. Qed.

Lemma ends_for_M {W A} (f : A → M W unit) l : (∀ x, ends (f x)) → ends (for_M f l).
Proof. intros. induction l; simpl; [apply ends_ret|by apply ends_bind]. Qed.

Lemma ends_zoom {V W A} (view : W → V) set (m : M V A) : ends m → ends (zoom view set m).
Proof. intros Hm w. rewrite zoom_run. apply Hm. Qed.

Section keeps.
Context {W : Type} (R : W → W → Prop) `{!PreOrder R}.

Lemma keeps_ret {A} (a : A) : keeps R (mret a).
Proof. intros w. simpl. done. Qed.

Lemma keeps_fail {A} e : keeps R (fail (A := A) e).
Proof. intros w. simpl. done. Qed.

Lemma keeps_crash {A} s : keeps R (crash (A := A) s).
Proof. intros w. simpl. done. Qed.

Lemma keeps_get {A} (f : W → A) : keeps R (get f).
Proof. intros w. simpl. done. Qed.

Lemma keeps_modify (f : W → W) : (∀ w, R w (f w)) → keeps R (modify f).
Proof. intros Hf w. apply Hf. Qed.

Lemma keeps_bind {A B} (m : M W A) (k : A → M W B) :
  keeps R m → (∀ a, keeps R (k a)) → keeps R (m ≫= k).
Proof.
  intros Hm Hk w. unfold mbind, M_bind. specialize (Hm w).
  destruct (m w) as [w' [a|e|s|]]; simpl in *; [|done..].
  etrans; [done|apply Hk].
Qed.

Lemma keeps_try {A} (m : M W A) : keeps R m → keeps R (try m).
Proof.
  intros Hm w. unfold try. specialize (Hm w).
  by destruct (m w) as [w' [a|e|s|]]; simpl in *.
Qed.

Lemma keeps_ignore {A} (m : M W A) : keeps R m → keeps R (ignore m).
Proof. intros. apply keeps_bind; [by apply keeps_try|intros; apply keeps_ret]. Qed.

Lemma keeps_for_M {A} (f : A → M W unit) l : (∀ x, keeps R (f x)) → keeps R (for_M f l).
Proof. intros. induction l; simpl; [apply keeps_ret|by apply keeps_bind]. Qed.

Lemma keeps_zoom {V A} (view : W → V) set (m : M V A) :
  (∀ v w, R w (set v w)) → keeps R (zoom view set m).
Proof. intros Hset w. rewrite zoom_run. apply Hset. Qed.

Lemma keeps_result {A} (r : result A) : keeps R (of_result r).
Proof. intros w. by destruct r. Qed.

Lemma keeps_of_result {A B} (r : result A) (k : A → M W B) :
  (∀ a, r = Ok a → keeps R (k a)) → keeps R (of_result r ≫= k).
Proof. intros Hk w. destruct r as [a|e]; [by apply Hk|]. simpl. done. Qed.

End keeps.

Lemma ignore_run {W A} (m : M W A) w : ends m → ignore m w = ((m w).1, Val tt).
Proof.
  intros Hm. specialize (Hm w). unfold ignore, try, mbind, M_bind, mret, M_ret.
  destruct (m w) as [w' []]; naive_solver.
Qed.

Lemma for_M_map {W A B} (f : B → M W unit) (g : A → B) l w :
  for_M f (map g l) w = for_M (λ x, f (g x)) l w.
Proof.
  revert w. induction l as [|x l IH]; intros w; [done|]. simpl.
  unfold mbind, M_bind. destruct (f (g x) w) as [w' []]; auto.
Qed.

(** ** Counting the entries of a map *)

Section Count.
Context {A : Type}.
Implicit Types (P : A → bool) (m : gmap nat A).

Definition count P m : nat := size (filter (λ e, P e.2 = true) m).

Lemma count_new P m k a :
  m !! k = None → count P (<[k := a]> m) = (Nat.b2n (P a) + count P m)%nat.
Proof.
  intros Hk. unfold count. rewrite map_filter_insert. simpl. case_decide as Ha.
  - rewrite map_size_insert_None; [by rewrite Ha|]. apply map_lookup_filter_None. by left.
  - destruct (P a); [done|]. simpl. by rewrite delete_id.
Qed.

Lemma count_update P m k a b :
  m !! k = Some a →
  (count P (<[k := b]> m) + Nat.b2n (P a) = count P m + Nat.b2n (P b))%nat.
Proof.
  intros Hk. rewrite <-(insert_delete_id m k a Hk). rewrite insert_insert_eq.
  rewrite !count_new by apply lookup_delete_eq. lia.
Qed.

Lemma count_delete P m k a :
  m !! k = Some a → (count P (delete k m) + Nat.b2n (P a) = count P m)%nat.
Proof.
  intros Hk. rewrite <-(insert_delete_id m k a Hk) at 2.
  rewrite count_new by apply lookup_delete_eq. lia.
Qed.

Lemma count_pos P m k a : m !! k = Some a → P a = true → (0 < count P m)%nat.
Proof. intros Hk Ha. pose proof (count_delete P m k a Hk). rewrite Ha in *. simpl in *. lia. Qed.

Lemma count_none P m :
  (∀ i a, m !! i = Some a → P a = false) → count P m = 0%nat.
Proof.
  intros Hm. unfold count. apply map_size_empty_iff, map_empty_filter_2.
  intros i a Hi. simpl. by rewrite (Hm i a Hi).
Qed.

Lemma count_empty P m :
  count P m = 0%nat → ∀ i a, m !! i = Some a → P a = false.
Proof.
  intros Hc i a Hi. destruct (P a) eqn:Ha; [|done]. pose proof (count_pos P m i a Hi Ha). lia.
Qed.

Lemma count_find P m n :
  count P m = S n → ∃ i a, m !! i = Some a ∧ P a = true.
Proof.
  intros Hc. destruct (decide (map_Forall (λ _ a, P a = false) m)) as [Hall|Hex].
  - by rewrite (count_none P m Hall) in Hc.
  - apply map_not_Forall in Hex as (i & a & Hi & Ha); [|apply _].
    exists i, a. split; [done|]. by destruct (P a).
Qed.

End Count.

(** ** Transition systems *)

Lemma rtc_invariant {A} (R : A → A → Prop) (I : A → Prop) x y :
  (∀ x y, R x y → I x → I y) → rtc R x y → I x → I y.
Proof. intros Hstep. induction 1; eauto. Qed.

(** A map that sends every step from an invariant to a step or to nothing. *)
Lemma rtc_simulation {A B} (R : A → A → Prop) (Q : B → B → Prop) (f : A → B) (I : A → Prop) x y :
  (∀ x y, R x y → I x → I y) →
  (∀ x y, I x → R x y → f y = f x ∨ Q (f x) (f y)) →
  rtc R x y → I x → rtc Q (f x) (f y).
Proof.
  intros Hinv Hstep. induction 1 as [|x y z Hxy _ IH]; intros Hx; [done|].
  specialize (IH (Hinv _ _ Hxy Hx)).
  destruct (Hstep _ _ Hx Hxy) as [<-|]; [done|by eapply rtc_l].
Qed.

#[export] Hint Resolve ends_ret ends_fail ends_get ends_modify ends_of_result ends_ignore
  ends_try : go.

(** Show that a call [ends] or [keeps] a relation from its structure. *)
Ltac go_effect :=
  repeat match goal with
  | |- ends (_ ≫= _) => apply ends_bind; [|intros ?]
  | |- ends (ignore _) => apply ends_ignore
  | |- ends (try _) => apply ends_try
  | |- ends (for_M _ _) => apply ends_for_M; intros ?
  | |- ends (mret _) => apply ends_ret
  | |- ends (fail _) => apply ends_fail
  | |- ends (get _) => apply ends_get
  | |- ends (modify _) => apply ends_modify
  | |- ends (of_result _) => apply ends_of_result
  | |- keeps _ (_ ≫= _) => apply keeps_bind; [apply _| |intros ?]
  | |- keeps _ (ignore _) => apply keeps_ignore; [apply _|]
  | |- keeps _ (try _) => apply keeps_try
  | |- keeps _ (for_M _ _) => apply keeps_for_M; [apply _|intros ?]
  | |- keeps _ (mret _) => apply keeps_ret; apply _
  | |- keeps _ (fail _) => apply keeps_fail; apply _
  | |- keeps _ (crash _) => apply keeps_crash; apply _
  | |- keeps _ (get _) => apply keeps_get; apply _
  | |- keeps _ (of_result _) => apply keeps_result; apply _
  | |- context [match ?x with _ => _ end] => destruct x eqn:?
  | _ => progress eauto with go
  end.
