(* ===== verification/GoStd.v ===== *)
(** * The parts of the Go language and standard library the source relies on

    Dynamic values ([any]), IEEE floats with their conversions, the string
    helpers, and the pattern matcher [path.Match].  Nothing here is code of
    the repository; every definition follows the behaviour of the Go
    standard library that the modelled code calls. *)

From Stdlib Require Import SpecFloat.
From S2P Require Import Prelude.

Local Open Scope Z_scope.

(** ** Machine integers *)

Definition MaxInt64 : Z := 2 ^ 63 - 1.
Definition MinInt64 : Z := - 2 ^ 63.
Definition MaxUint64 : Z := 2 ^ 64 - 1.

Definition in_int64 (z : Z) : Prop := MinInt64 ≤ z ≤ MaxInt64.
Definition in_uint64 (z : Z) : Prop := 0 ≤ z ≤ MaxUint64.

(** Wrap-around of the arithmetic on [int64] and [uint64]. *)
Definition wrap_int64 (z : Z) : Z := (z + 2 ^ 63) mod 2 ^ 64 - 2 ^ 63.
Definition wrap_uint64 (z : Z) : Z := z mod 2 ^ 64.

Lemma wrap_int64_id z : in_int64 z → wrap_int64 z = z.
Proof.
  unfold in_int64, wrap_int64, MinInt64, MaxInt64. intros.
  rewrite Z.mod_small; lia.
Qed.

Lemma wrap_int64_range z : in_int64 (wrap_int64 z).
Proof.
  unfold in_int64, wrap_int64, MinInt64, MaxInt64.
  pose proof (Z.mod_pos_bound (z + 2 ^ 63) (2 ^ 64)). lia.
Qed.

(** ** Floats

    [float64] and [float32] are the values of [SpecFloat] at their precision. *)

Definition float64_of_int (z : Z) : spec_float := binary_normalize 53 1024 z 0 false.
Definition float32_of_int (z : Z) : spec_float := binary_normalize 24 128 z 0 false.

(** [float64(f)] for a [float32] value: exact. *)
Definition float64_of_float32 (f : spec_float) : spec_float :=
  match f with
  | S754_finite s m e => binary_normalize 53 1024 (if s then Zneg m else Zpos m) e s
  | _ => f
  end.

(** The integer part of a finite float, rounded towards zero. *)
Definition float_trunc (f : spec_float) : option Z :=
  match f with
  | S754_zero _ => Some 0
  | S754_finite s m e =>
      let a := if (0 <=? e) then Zpos m * 2 ^ e else Zpos m / 2 ^ (- e) in
      Some (if s then - a else a)
  | _ => None
  end.

(** Converting a float whose integer part does not fit is left to the
    implementation by the Go specification: the class names what it returns. *)
Class FloatConv := {
  oor_int64 : spec_float → Z;
  oor_uint64 : spec_float → Z;
}.

Definition int64_of_float `{FloatConv} (f : spec_float) : Z :=
  match float_trunc f with
  | Some z => if bool_decide (MinInt64 ≤ z ∧ z ≤ MaxInt64) then z else oor_int64 f
  | None => oor_int64 f
  end.

Definition uint64_of_float `{FloatConv} (f : spec_float) : Z :=
  match float_trunc f with
  | Some z => if bool_decide (0 ≤ z ∧ z ≤ MaxUint64) then z else oor_uint64 f
  | None => oor_uint64 f
  end.

(** The [%f] verb on the values the source prints with it: infinities, and
    finite floats of magnitude at least [2^52], which are integers. *)
Definition fmt_f (f : spec_float) : string :=
  match f with
  | S754_infinity false => "+Inf"
  | S754_infinity true => "-Inf"
  | S754_nan => "NaN"
  | _ => pretty (default 0 (float_trunc f)) +:+ ".000000"
  end.

(** ** Dynamic values

    A value of type [any] with its dynamic type.  [AOther] is a value of a
    type no code here looks into. *)

Inductive any :=
| ANil
| ABool (b : bool)
| AString (s : string)
| AInt (z : Z) | AInt8 (z : Z) | AInt16 (z : Z) | AInt32 (z : Z) | AInt64 (z : Z)
| AUint (z : Z) | AUint8 (z : Z) | AUint16 (z : Z) | AUint32 (z : Z) | AUint64 (z : Z)
| AFloat32 (f : spec_float)
| AFloat64 (f : spec_float)
| ABytes (b : string)
| ASlice (l : list any)
| AMap (m : gmap string any)
| AUint64s (l : list Z)
| AStrings (l : list string)
| AMaps (l : list (gmap string any))
| ADuration (ns : Z)
| AOther (type_name : string).

Abbreviation dict := (gmap string any).

(** The [%T] verb. *)
Definition fmt_T (v : any) : string :=
  match v with
  | ANil => "<nil>"
  | ABool _ => "bool"
  | AString _ => "string"
  | AInt _ => "int" | AInt8 _ => "int8" | AInt16 _ => "int16"
  | AInt32 _ => "int32" | AInt64 _ => "int64"
  | AUint _ => "uint" | AUint8 _ => "uint8" | AUint16 _ => "uint16"
  | AUint32 _ => "uint32" | AUint64 _ => "uint64"
  | AFloat32 _ => "float32" | AFloat64 _ => "float64"
  | ABytes _ => "[]uint8"
  | ASlice _ => "[]interface {}"
  | AMap _ => "map[string]interface {}"
  | AUint64s _ => "[]uint64"
  | AStrings _ => "[]string"
  | AMaps _ => "[]map[string]interface {}"
  | ADuration _ => "time.Duration"
  | AOther t => t
  end.

(** The [%v] verb.  Of its output only the text of a string is relied on. *)
Class FmtV := {
  fmt_v : any → string;
  fmt_v_string s : fmt_v (AString s) = s;
}.

(** The integer payloads fit their type. *)
Definition any_fits (v : any) : Prop :=
  match v with
  | AInt z | AInt64 z => in_int64 z
  | AInt8 z => - 2 ^ 7 ≤ z < 2 ^ 7
  | AInt16 z => - 2 ^ 15 ≤ z < 2 ^ 15
  | AInt32 z => - 2 ^ 31 ≤ z < 2 ^ 31
  | AUint z | AUint64 z => in_uint64 z
  | AUint8 z => 0 ≤ z < 2 ^ 8
  | AUint16 z => 0 ≤ z < 2 ^ 16
  | AUint32 z => 0 ≤ z < 2 ^ 32
  | _ => True
  end.

(** [x, _ := m[key].(bool)]: false when absent or not a boolean. *)
Definition bool_at (key : string) (m : dict) : bool :=
  match m !! key with Some (ABool b) => b | _ => false end.

(** ** Maps

    [range] over a map and [sync.Map.Range] visit the entries in an unspecified
    order. *)
Class MapRange := {
  range_entries {K V} `{Countable K} : gmap K V → list (K * V);
  range_entries_perm {K V} `{Countable K} (m : gmap K V) :
    range_entries m ≡ₚ map_to_list m;
}.

(** ** Strings *)

Abbreviation quote_mark := (String (ascii_of_nat 34) EmptyString).

Local Open Scope string_scope.

Definition hex_digit (n : nat) : ascii :=
  default "0"%char (String.get n "0123456789abcdef").

(** [strconv.Quote] of one byte; bytes above 0x7f are copied, which is what
    [Quote] does with the encoding of a printable rune. *)
Definition quote_byte (c : ascii) : string :=
  let n := nat_of_ascii c in
  if bool_decide (n = 34)%nat then String "\" quote_mark
  else if bool_decide (n = 92)%nat then "\\"
  else if bool_decide (n = 7)%nat then "\a" else if bool_decide (n = 8)%nat then "\b"
  else if bool_decide (n = 12)%nat then "\f" else if bool_decide (n = 10)%nat then "\n"
  else if bool_decide (n = 13)%nat then "\r" else if bool_decide (n = 9)%nat then "\t"
  else if bool_decide (n = 11)%nat then "\v"
  else if bool_decide (n < 32 ∨ n = 127)%nat
  then String "\" (String "x" (String (hex_digit (n / 16)) (String (hex_digit (n mod 16)) "")))
  else String c "".

Fixpoint quote_body (s : string) : string :=
  match s with EmptyString => "" | String c s => quote_byte c +:+ quote_body s end.

Definition fmt_q (s : string) : string := quote_mark +:+ quote_body s +:+ quote_mark.

(** [len(s)]. *)
Fixpoint blen (s : string) : Z :=
  match s with EmptyString => 0 | String _ s => 1 + blen s end.

(** [strings.HasPrefix s p]. *)
Fixpoint HasPrefix (s p : string) {struct p} : bool :=
  match p with
  | EmptyString => true
  | String c p =>
      match s with
      | EmptyString => false
      | String d s => bool_decide (c = d) && HasPrefix s p
      end
  end.

Lemma HasPrefix_app p s : HasPrefix (p +:+ s) p = true.
Proof.
  induction p as [|c p IH]; [by destruct s|].
  change (String c p +:+ s) with (String c (p +:+ s)). cbn [HasPrefix].
  by rewrite bool_decide_true, IH.
Qed.

Fixpoint contains_byte (c : ascii) (s : string) : bool :=
  match s with
  | EmptyString => false
  | String d s => bool_decide (c = d) || contains_byte c s
  end.

(** [strings.Join parts sep]. *)
Fixpoint Join (parts : list string) (sep : string) : string :=
  match parts with
  | [] => ""
  | [p] => p
  | p :: ps => p +:+ sep +:+ Join ps sep
  end.

(** ASCII white space as [strings.TrimSpace] sees it. *)
Definition is_space (c : ascii) : bool :=
  let n := nat_of_ascii c in bool_decide (9 ≤ n ≤ 13 ∨ n = 32)%nat.

(** [strings.TrimSpace(s) == ""] on ASCII input. *)
Fixpoint is_blank (s : string) : bool :=
  match s with EmptyString => true | String c s => is_space c && is_blank s end.

(** [strings.ToLower] on ASCII input. *)
Definition lower (c : ascii) : ascii :=
  let n := nat_of_ascii c in
  if bool_decide (65 ≤ n ≤ 90)%nat then ascii_of_nat (n + 32) else c.
Fixpoint ToLower (s : string) : string :=
  match s with EmptyString => "" | String c s => String (lower c) (ToLower s) end.

(** [strings.TrimSpace] on ASCII input. *)
Fixpoint trim_left (s : string) : string :=
  match s with
  | EmptyString => ""
  | String c s' => if is_space c then trim_left s' else s
  end.
Fixpoint trim_right (s : string) : string :=
  match s with
  | EmptyString => ""
  | String c s => if is_blank (String c s) then "" else String c (trim_right s)
  end.
Definition TrimSpace (s : string) : string := trim_right (trim_left s).

Local Close Scope string_scope.

(** ** Slices and durations *)

(** [items[lo:hi]] of a slice whose capacity is its length. *)
Definition slice {A} (items : list A) (lo hi : Z) : outcome (list A) :=
  if bool_decide (0 ≤ lo ≤ hi ∧ hi ≤ Z.of_nat (length items))
  then Returns (take (Z.to_nat (hi - lo)) (drop (Z.to_nat lo) items))
  else Panics "slice bounds out of range".

Definition Millisecond : Z := 1000000.
Definition Second : Z := 1000000000.
