(* ===== verification/GoPath.v ===== *)
(** * Go's [path.Match]

    The matcher of the standard library, in two stages: [scan] splits a
    pattern into chunks at its stars and decodes each chunk into tokens (the
    malformed patterns of [ErrBadPattern] have no decoding), and [match_from]
    is the library's search: a chunk after a star is placed at its leftmost
    position and the search never comes back to it.  [Glob] is the declarative
    meaning of the patterns built from literals and stars, and [Match_glob]
    proves that the search decides it. *)

From S2P Require Import Prelude GoStd.

Local Open Scope string_scope.

(** ** Runes *)

Definition byte_at (n : nat) (s : string) : option Z :=
  (λ c, Z.of_nat (nat_of_ascii c)) <$> String.get n s.

Definition is_cont (o : option Z) : bool :=
  match o with Some b => bool_decide (128 ≤ b ≤ 191)%Z | None => false end.

Definition low6 (o : option Z) : Z := Z.land (default 0%Z o) 63.

(** [utf8.DecodeRuneInString] on a non-empty string: the rune and its width,
    [RuneError] (U+FFFD) of width 1 on an invalid encoding. *)
Definition DecodeRune (s : string) : Z * nat :=
  let b0 := default 0%Z (byte_at 0 s) in
  let b1 := byte_at 1 s in let b2 := byte_at 2 s in let b3 := byte_at 3 s in
  if bool_decide (b0 < 128)%Z then (b0, 1%nat)
  else if bool_decide (194 ≤ b0 ≤ 223)%Z && is_cont b1
  then ((Z.land b0 31 * 64 + low6 b1)%Z, 2%nat)
  else if bool_decide (224 ≤ b0 ≤ 239)%Z && is_cont b1 && is_cont b2
          && bool_decide (b0 = 224 → 160 ≤ default 0 b1)%Z
          && bool_decide (b0 = 237 → default 0 b1 ≤ 159)%Z
  then ((Z.land b0 15 * 4096 + low6 b1 * 64 + low6 b2)%Z, 3%nat)
  else if bool_decide (240 ≤ b0 ≤ 244)%Z && is_cont b1 && is_cont b2 && is_cont b3
          && bool_decide (b0 = 240 → 144 ≤ default 0 b1)%Z
          && bool_decide (b0 = 244 → default 0 b1 ≤ 143)%Z
  then ((Z.land b0 7 * 262144 + low6 b1 * 4096 + low6 b2 * 64 + low6 b3)%Z, 4%nat)
  else (65533%Z, 1%nat).

Fixpoint drop_bytes (n : nat) (s : string) : string :=
  match n, s with
  | 0, _ => s
  | S n, EmptyString => EmptyString
  | S n, String _ s => drop_bytes n s
  end.

(** ** Tokens *)

Inductive tok :=
| TLit (c : ascii)
| TAny
| TClass (negated : bool) (ranges : list (Z * Z)).

(** A chunk and whether a star comes before it. *)
Abbreviation chunk := (bool * list tok)%type.

(** [getEsc]: one rune of a character class, escaped or not. *)
Definition get_esc (s : string) : option (Z * string) :=
  match s with
  | EmptyString => None
  | String c s' =>
      if bool_decide (c = "-" ∨ c = "]")%char then None
      else
        let s := if bool_decide (c = "\")%char then s' else s in
        match s with
        | EmptyString => None
        | _ =>
            let '(r, n) := DecodeRune s in
            let rest := drop_bytes n s in
            if bool_decide (r = 65533%Z ∧ n = 1) then None
            else if bool_decide (rest = EmptyString) then None
            else Some (r, rest)
        end
  end.

(** The ranges of a character class, up to its closing bracket. *)
Fixpoint scan_ranges (fuel : nat) (s : string) (acc : list (Z * Z))
    : option (list (Z * Z) * string) :=
  match fuel with
  | 0 => None
  | S fuel =>
      match s with
      | String "]" s' =>
          if bool_decide (acc = []) then None else Some (reverse acc, s')
      | _ =>
          match get_esc s with
          | None => None
          | Some (lo, String "-" s') =>
              match get_esc s' with
              | None => None
              | Some (hi, s'') => scan_ranges fuel s'' ((lo, hi) :: acc)
              end
          | Some (lo, s') => scan_ranges fuel s' ((lo, lo) :: acc)
          end
      end
  end.

Definition add_tok (t : tok) (cs : option (list tok * list chunk))
    : option (list tok * list chunk) :=
  match cs with None => None | Some (ts, cs) => Some (t :: ts, cs) end.

(** The tokens up to the first star, and the chunks after it.  A run of stars
    is one star. *)
Fixpoint scan_toks (fuel : nat) (s : string) : option (list tok * list chunk) :=
  match fuel with
  | 0 => None
  | S fuel =>
      match s with
      | EmptyString => Some ([], [])
      | String "*" (String "*" _ as s') => scan_toks fuel s'
      | String "*" s' =>
          match scan_toks fuel s' with
          | None => None
          | Some (ts, cs) => Some ([], (true, ts) :: cs)
          end
      | String "?" s' => add_tok TAny (scan_toks fuel s')
      | String "\" EmptyString => None
      | String "\" (String c s') => add_tok (TLit c) (scan_toks fuel s')
      | String "[" (String "^" s') =>
          match scan_ranges fuel s' [] with
          | None => None
          | Some (rs, rest) => add_tok (TClass true rs) (scan_toks fuel rest)
          end
      | String "[" s' =>
          match scan_ranges fuel s' [] with
          | None => None
          | Some (rs, rest) => add_tok (TClass false rs) (scan_toks fuel rest)
          end
      | String c s' => add_tok (TLit c) (scan_toks fuel s')
      end
  end.

(** Each step consumes a byte of the pattern, so its length is enough fuel. *)
Definition scan (pattern : string) : option (list tok * list chunk) :=
  scan_toks (S (String.length pattern)) pattern.

(** ** The search *)

Definition in_ranges (r : Z) (rs : list (Z * Z)) : bool :=
  existsb (λ '(lo, hi), bool_decide (lo ≤ r ≤ hi)%Z) rs.

(** [matchChunk]: what is left of the name after the chunk. *)
Fixpoint match_chunk (ts : list tok) (name : string) : option string :=
  match ts with
  | [] => Some name
  | t :: ts =>
      match name with
      | EmptyString => None
      | String c name' =>
          match t with
          | TLit d => if bool_decide (c = d) then match_chunk ts name' else None
          | TAny =>
              if bool_decide (c = "/"%char) then None
              else match_chunk ts (drop_bytes (snd (DecodeRune name)) name)
          | TClass negated rs =>
              let '(r, n) := DecodeRune name in
              if xorb negated (in_ranges r rs)
              then match_chunk ts (drop_bytes n name) else None
          end
      end
  end.

(** The loop that moves a starred chunk over the name; [last] when no pattern
    is left, in which case the name must be exhausted too. *)
Fixpoint star_search (last : bool) (ts : list tok) (name : string) : option string :=
  match name with
  | EmptyString => None
  | String c name' =>
      if bool_decide (c = "/"%char) then None
      else
        match match_chunk ts name' with
        | Some t =>
            if last && negb (bool_decide (t = EmptyString))
            then star_search last ts name' else Some t
        | None => star_search last ts name'
        end
  end.

Definition is_nil {A} (l : list A) : bool := match l with [] => true | _ => false end.

Fixpoint match_chunks (cs : list chunk) (name : string) : bool :=
  match cs with
  | [] => bool_decide (name = EmptyString)
  | (star, ts) :: rest =>
      if star && is_nil ts then negb (contains_byte "/"%char name)
      else
        let searched :=
          if star then
            match star_search (is_nil rest) ts name with
            | Some t => match_chunks rest t
            | None => false
            end
          else false in
        match match_chunk ts name with
        | Some t =>
            if bool_decide (t = EmptyString) || negb (is_nil rest)
            then match_chunks rest t else searched
        | None => searched
        end
  end.

(** [path.Match(pattern, name)]; [None] is [ErrBadPattern]. *)
Definition Match (pattern name : string) : option bool :=
  match scan pattern with
  | None => None
  | Some ([], cs) => Some (match_chunks cs name)
  | Some (ts, cs) => Some (match_chunks ((false, ts) :: cs) name)
  end.

Example match_star : Match "io.*.test" "io.xconn.test" = Some true.
Proof. reflexivity. Qed.
Example match_star_many : Match "io.*.test" "io.a.b.c.test" = Some true.
Proof. reflexivity. Qed.
Example match_class : Match "a[b-d]?e*" "acxe" = Some true.
Proof. reflexivity. Qed.
Example match_bad : Match "a[b" "a" = None.
Proof. reflexivity. Qed.

(** ** The declarative meaning of literals and stars *)

(** A byte that stands for itself in a pattern and may be under a star. *)
Definition plain (c : ascii) : Prop := c ∉ ["*"; "?"; "["; "\"; "/"]%char.

Fixpoint no_slash (s : string) : Prop :=
  match s with EmptyString => True | String c s => c ≠ "/"%char ∧ no_slash s end.

Inductive Glob : string → string → Prop :=
| Glob_nil : Glob "" ""
| Glob_lit c p n : plain c → Glob p n → Glob (String c p) (String c n)
| Glob_star p u n : no_slash u → Glob p n → Glob (String "*" p) (u +:+ n).

Fixpoint simple_pattern (p : string) : Prop :=
  match p with
  | EmptyString => True
  | String c p => (plain c ∨ c = "*"%char) ∧ simple_pattern p
  end.

(** The literal text of a chunk. *)
Fixpoint lits (s : string) : list tok :=
  match s with EmptyString => [] | String c s => TLit c :: lits s end.

(** What a list of literal chunks matches: each starred chunk after any text. *)
Fixpoint ChunkGlob (cs : list (bool * string)) (n : string) : Prop :=
  match cs with
  | [] => n = ""
  | (star, l) :: cs =>
      ∃ u t, n = u +:+ l +:+ t ∧ (star = false → u = "") ∧ ChunkGlob cs t
  end.

Abbreviation to_chunks := (map (λ '(star, l), (star, lits l))).

#[local] Arguments String.append : simpl nomatch.

Lemma string_app_nil_r (a : string) : a +:+ "" = a.
Proof. induction a; simpl; congruence. Qed.

Lemma no_slash_app a b : no_slash (a +:+ b) ↔ no_slash a ∧ no_slash b.
Proof. induction a; simpl; tauto. Qed.

Lemma no_slash_contains n : no_slash n ↔ contains_byte "/"%char n = false.
Proof.
  induction n as [|c n IH]; simpl; [done|].
  rewrite orb_false_iff, bool_decide_eq_false, IH. naive_solver.
Qed.

Lemma match_chunk_lits l n t : match_chunk (lits l) n = Some t ↔ n = l +:+ t.
Proof.
  revert n. induction l as [|c l IH]; intros n; simpl; [naive_solver|].
  destruct n as [|d n]; [done|]. case_bool_decide.
  - subst. rewrite IH. naive_solver.
  - naive_solver.
Qed.

Lemma star_search_sound last l n t :
  star_search last (lits l) n = Some t →
  (∃ u, n = u +:+ l +:+ t) ∧ (last = true → t = "").
Proof.
  induction n as [|c n IH]; simpl; [done|].
  case_bool_decide; [done|]. destruct (match_chunk _ n) as [t'|] eqn:Hm.
  - destruct (last && _) eqn:Hlast.
    + intros [[u ->] ?]%IH. split; [|done]. by exists (String c u).
    + intros [= ->]. apply match_chunk_lits in Hm as ->. split.
      * by exists (String c "").
      * intros ->. simpl in Hlast. by destruct (bool_decide_reflect (t = "")).
  - intros [[u ->] ?]%IH. split; [|done]. by exists (String c u).
Qed.

Lemma string_length_app a b : String.length (a +:+ b) = (String.length a + String.length b)%nat.
Proof. induction a; simpl; lia. Qed.

(** Two splittings of the same name: the longer suffix ends with the shorter. *)
Lemma suffix_of_longer l a t r :
  (String.length t ≤ String.length r)%nat → a +:+ t = l +:+ r → ∃ x, r = x +:+ t.
Proof.
  revert a. induction l as [|c l IH]; intros a Hlen Heq; simpl in *; [by exists a|].
  destruct a as [|d a]; simpl in *.
  - subst. simpl in *. rewrite string_length_app in Hlen. lia.
  - injection Heq as _ Heq. eauto.
Qed.

(** The search finds a place at or before any given one. *)
Lemma star_search_complete last l c u t :
  no_slash (String c u) → (last = true → t = "") →
  ∃ t', star_search last (lits l) (String c u +:+ l +:+ t) = Some t' ∧
        ∃ x, t' = x +:+ t.
Proof.
  intros Hns Hlast. revert c Hns. induction u as [|d u IH]; intros c [Hc Hu];
    cbn [String.append star_search]; (case_bool_decide as Hd; [done|clear Hd]).
  - assert (match_chunk (lits l) (l +:+ t) = Some t) as -> by by apply match_chunk_lits.
    assert (last && negb (bool_decide (t = "")) = false) as ->.
    { destruct last; [|done]. by rewrite Hlast. }
    exists t. split; [done|]. by exists "".
  - destruct (IH d Hu) as (t' & Ht' & x & ->). cbn [String.append] in Ht'.
    destruct (match_chunk _ (String d _)) as [r|] eqn:Hm; [|by eauto].
    destruct (last && _) eqn:Hl; [by eauto|].
    exists r. split; [done|]. apply match_chunk_lits in Hm.
    apply (suffix_of_longer l (String d u +:+ l)); [|by rewrite string_app_assoc].
    apply (f_equal String.length) in Hm. rewrite string_length_app in Hm.
    simpl in Hm. rewrite !string_length_app in Hm. lia.
Qed.

(** ** The search decides the declarative meaning *)

Definition starred (cs : list (bool * string)) : Prop := Forall (λ c, c.1 = true) cs.

(** A starred chunk list that matches a name matches every longer one. *)
Lemma ChunkGlob_longer cs x t :
  starred cs → cs ≠ [] → ChunkGlob cs t → ChunkGlob cs (x +:+ t).
Proof.
  destruct cs as [|[star l] cs]; [done|]. intros Hs _ (u & r & -> & _ & H).
  apply Forall_cons in Hs as [Hs _]. simpl in Hs. subst star.
  exists (x +:+ u), r. by rewrite string_app_assoc.
Qed.

(** A chunk with no literal is the last one: the scanner merges stars. *)
Fixpoint no_empty (cs : list (bool * string)) : Prop :=
  match cs with
  | [] => True
  | (star, l) :: cs => (star = true → l = "" → cs = []) ∧ no_empty cs
  end.

Lemma lits_nil l : is_nil (lits l) = true ↔ l = "".
Proof. by destruct l. Qed.

Lemma match_chunks_sound cs n :
  no_empty cs → no_slash n → match_chunks (to_chunks cs) n = true → ChunkGlob cs n.
Proof.
  revert n. induction cs as [|[star l] cs IH]; intros n; simpl.
  { intros _ _ H. by apply bool_decide_eq_true in H. }
  intros [He Hcs] Hn. destruct (star && is_nil (lits l)) eqn:Hse.
  { apply andb_true_iff in Hse as [-> Hl]. apply lits_nil in Hl as ->.
    rewrite He by done. intros _. exists n, "". simpl.
    by rewrite string_app_nil_r. }
  assert (∀ t, n = l +:+ t → match_chunks (to_chunks cs) t = true →
    ∃ u t, n = u +:+ l +:+ t ∧ (star = false → u = "") ∧ ChunkGlob cs t) as Hhere.
  { intros t -> Ht. exists "", t. split_and!; [done..|]. apply IH; [done| |done].
    by apply no_slash_app in Hn as [_ ?]. }
  assert ((if star then match star_search (is_nil (to_chunks cs)) (lits l) n with
      | Some t => match_chunks (to_chunks cs) t | None => false end else false) = true →
    ∃ u t, n = u +:+ l +:+ t ∧ (star = false → u = "") ∧ ChunkGlob cs t) as Hsearch.
  { destruct star; [|done]. destruct (star_search _ _ n) as [t|] eqn:Hs; [|done].
    apply star_search_sound in Hs as [[u ->] _]. intros Ht.
    exists u, t. split_and!; [done..|]. apply IH; [done| |done].
    apply no_slash_app in Hn as [_ [_ ?]%no_slash_app]. done. }
  destruct (match_chunk (lits l) n) as [t|] eqn:Hm; [|done].
  apply match_chunk_lits in Hm.
  destruct (bool_decide (t = "") || _); [by apply Hhere|exact Hsearch].
Qed.

Lemma match_chunks_complete cs n :
  no_empty cs → starred (tail cs) → no_slash n →
  ChunkGlob cs n → match_chunks (to_chunks cs) n = true.
Proof.
  revert n. induction cs as [|[star l] cs IH]; intros n; simpl.
  { intros _ _ _ ->. done. }
  intros [He Hcs] Hst Hn (u & t & -> & Hu & Ht).
  destruct (star && is_nil (lits l)) eqn:Hse.
  { apply no_slash_contains in Hn. by rewrite Hn. }
  assert (starred (tail cs)) as Hst'
    by (unfold starred in *; destruct Hst; [constructor|done]).
  assert (Hlonger : ∀ x, no_slash (x +:+ t) → cs ≠ [] →
    match_chunks (to_chunks cs) (x +:+ t) = true).
  { intros x ??. apply IH; try done. by apply ChunkGlob_longer. }
  assert (Hlast : is_nil (to_chunks cs) = true → t = "").
  { destruct cs; [|done]. intros _. exact Ht. }
  rewrite !no_slash_app in Hn. destruct Hn as (Hnu & Hnl & Hnt).
  assert (Hend : match_chunks (to_chunks cs) t = true) by by apply IH.
  destruct u as [|c u].
  - simpl. assert (match_chunk (lits l) (l +:+ t) = Some t) as -> by by apply match_chunk_lits.
    destruct (is_nil (to_chunks cs)) eqn:Hnil; simpl.
    + rewrite Hlast by done. simpl. by rewrite <- (Hlast eq_refl).
    + by rewrite orb_true_r.
  - destruct star; [|by discriminate Hu].
    destruct (star_search_complete (is_nil (to_chunks cs)) l c u t Hnu Hlast)
      as (t' & Hs & x & ->).
    pose proof (star_search_sound _ _ _ _ Hs) as [[u' Hu'] Hsl].
    assert (Hns : no_slash (String c u +:+ l +:+ t)) by by rewrite !no_slash_app.
    assert (Hrest : ∀ y r, String c u +:+ l +:+ t = y +:+ l +:+ r → (∃ x, r = x +:+ t) →
      (is_nil (to_chunks cs) = true → r = "") → match_chunks (to_chunks cs) r = true).
    { intros y r Hy [z ->] Hr. destruct cs as [|ch cs]; [by rewrite Hr|].
      apply Hlonger; [|done]. rewrite Hy, !no_slash_app in Hns. rewrite no_slash_app. tauto. }
    rewrite Hs, (Hrest u' (x +:+ t)) by eauto.
    destruct (match_chunk (lits l) _) as [r|] eqn:Hm; [|done].
    case_match eqn:Hr; [|done]. apply match_chunk_lits in Hm.
    apply (Hrest "" r); [done| |].
    + apply (suffix_of_longer l (String c u +:+ l)); [|by rewrite string_app_assoc, Hm].
      apply (f_equal String.length) in Hm. rewrite !string_length_app in Hm. simpl in *. lia.
    + intros Hnil. rewrite Hnil, orb_false_r in Hr. by apply bool_decide_eq_true in Hr.
Qed.

(** ** Scanning a pattern of literals and stars *)

Lemma scan_plain fuel c s :
  plain c → scan_toks (S fuel) (String c s) = add_tok (TLit c) (scan_toks fuel s).
Proof.
  intros Hc. destruct c as [[] [] [] [] [] [] [] []]; try reflexivity;
    exfalso; apply Hc; repeat constructor.
Qed.

Definition starts_star (s : string) : bool :=
  match s with String c _ => bool_decide (c = "*"%char) | _ => false end.

Lemma scan_star fuel s :
  scan_toks (S fuel) (String "*" s) =
  if starts_star s then scan_toks fuel s
  else match scan_toks fuel s with
       | None => None | Some (ts, cs) => Some ([], (true, ts) :: cs) end.
Proof.
  destruct s as [|c s]; [reflexivity|]. simpl starts_star. case_bool_decide.
  - subst. reflexivity.
  - destruct c as [[] [] [] [] [] [] [] []]; try reflexivity; done.
Qed.

Lemma plain_not_star c : plain c → c ≠ "*"%char.
Proof. intros Hc ->. apply Hc. repeat constructor. Qed.

Lemma Glob_plain_inv c p n :
  plain c → Glob (String c p) n ↔ ∃ n', n = String c n' ∧ Glob p n'.
Proof.
  intros Hc. split.
  - inversion 1; subst; [eauto|]. by apply plain_not_star in Hc.
  - intros (n' & -> & ?). by constructor.
Qed.

Lemma Glob_star_inv p n :
  Glob (String "*" p) n ↔ ∃ u t, n = u +:+ t ∧ no_slash u ∧ Glob p t.
Proof.
  split.
  - inversion 1 as [|? ? ? Hc|]; subst; [by apply plain_not_star in Hc|eauto].
  - intros (u & t & -> & ? & ?). by constructor.
Qed.

Lemma Glob_star_star p n : Glob (String "*" (String "*" p)) n ↔ Glob (String "*" p) n.
Proof.
  rewrite !Glob_star_inv. setoid_rewrite Glob_star_inv. split.
  - intros (u & t & -> & ? & v & r & -> & ? & ?). exists (u +:+ v), r.
    rewrite string_app_assoc, no_slash_app. auto.
  - intros (u & t & -> & ? & ?). exists "", (u +:+ t). split_and!; [done..|].
    by exists u, t.
Qed.

Lemma ChunkGlob_false l cs n :
  ChunkGlob ((false, l) :: cs) n ↔ ∃ t, n = l +:+ t ∧ ChunkGlob cs t.
Proof.
  simpl. split.
  - intros (u & t & -> & Hu & ?). rewrite Hu by done. eauto.
  - intros (t & -> & ?). exists "", t. auto.
Qed.

Lemma scan_simple fuel p :
  simple_pattern p → (String.length p < fuel)%nat →
  ∃ l cs, scan_toks fuel p = Some (lits l, to_chunks cs) ∧
    starred cs ∧ no_empty cs ∧ (l = "" → starts_star p = false → cs = []) ∧
    ∀ n, no_slash n → Glob p n ↔ ChunkGlob ((false, l) :: cs) n.
Proof.
  revert p. induction fuel as [|fuel IH]; intros p Hp Hf; [lia|].
  destruct p as [|c p].
  { exists "", []. split_and!; [done|constructor|done..|]. intros n _.
    rewrite ChunkGlob_false. simpl. split.
    - inversion 1. eauto.
    - intros (? & -> & ->). constructor. }
  destruct Hp as [[Hc| ->] Hp]; simpl in Hf;
    destruct (IH p Hp ltac:(lia)) as (l & cs & Hs & Hst & Hne & Hl & Hg).
  - exists (String c l), cs. rewrite scan_plain, Hs by done.
    split_and!; try done. intros n Hn. rewrite Glob_plain_inv, ChunkGlob_false by done.
    split.
    + intros (n' & -> & Hn'). apply Hg in Hn'; [|by destruct Hn].
      apply ChunkGlob_false in Hn' as (t & -> & ?). eauto.
    + intros (t & -> & ?). exists (l +:+ t). split; [done|].
      apply Hg; [by destruct Hn|]. apply ChunkGlob_false. eauto.
  - rewrite scan_star. destruct (starts_star p) eqn:Hss.
    + exists l, cs. split_and!; try done. intros n Hn.
      destruct p as [|c p]; [done|]. simpl in Hss. apply bool_decide_eq_true in Hss as ->.
      by rewrite Glob_star_star, Hg.
    + exists "", ((true, l) :: cs). rewrite Hs. split_and!; try done.
      * by constructor.
      * simpl. auto.
      * intros n Hn. rewrite Glob_star_inv, ChunkGlob_false. simpl. split.
        -- intros (u & t & -> & Hu & Ht). apply no_slash_app in Hn as [_ Hn].
           apply Hg, ChunkGlob_false in Ht as (r & -> & ?); [|done].
           exists (u +:+ l +:+ r). split; [done|]. by exists u, r.
        -- intros (t & -> & u & r & -> & _ & ?). simpl in Hn.
           apply no_slash_app in Hn as [Hu Hn]. exists u, (l +:+ r).
           split_and!; [done..|]. apply Hg; [done|]. apply ChunkGlob_false. eauto.
Qed.

(** On patterns built from literals and stars, the library's search decides
    the declarative meaning of the pattern. *)
Lemma Match_glob p n :
  simple_pattern p → no_slash n → Match p n = Some true ↔ Glob p n.
Proof.
  intros Hp Hn. unfold Match, scan.
  destruct (scan_simple (S (String.length p)) p Hp ltac:(lia))
    as (l & cs & -> & Hst & Hne & Hl & Hg).
  rewrite (Hg n Hn).
  assert (Hm : match_chunks (to_chunks ((false, l) :: cs)) n = true ↔
               ChunkGlob ((false, l) :: cs) n).
  { split.
    - apply match_chunks_sound; simpl; [|done]. by split.
    - apply match_chunks_complete; simpl; [by split|done..]. }
  rewrite <- Hm. destruct l as [|c l]; simpl; [|split; congruence].
  destruct cs as [|ch cs]; simpl; [|rewrite orb_true_r; split; congruence].
  rewrite orb_false_r. destruct (bool_decide (n = "")); split; congruence.
Qed.
