(* ===== verification/FilePath.v ===== *)
(** * Go's [filepath] on Unix

    [Clean], [Join] and [Dir], as the packages xconn and cmd/xconn use them. *)

From S2P Require Import Prelude GoStd.

Local Open Scope string_scope.

Fixpoint split_slash (s : string) : list string :=
  match s with
  | EmptyString => [""]
  | String c s =>
      if bool_decide (c = "/"%char) then "" :: split_slash s
      else match split_slash s with
           | e :: es => String c e :: es
           | [] => [String c ""]
           end
  end.

(** The elements of a cleaned path, last first. *)
Definition clean_step (rooted : bool) (acc : list string) (e : string) : list string :=
  if bool_decide (e = "" ∨ e = ".") then acc
  else if bool_decide (e = "..") then
    match acc with
    | [] => if rooted then [] else [".."]
    | ".." :: _ => ".." :: acc
    | _ :: acc => acc
    end
  else e :: acc.

Definition Clean (p : string) : string :=
  let rooted := HasPrefix p "/" in
  let es := rev (foldl (clean_step rooted) [] (split_slash p)) in
  let s := GoStd.Join es "/" in
  if rooted then "/" +:+ s else if bool_decide (s = "") then "." else s.

Definition filepath_Join (a b : string) : string :=
  if bool_decide (a = "") then (if bool_decide (b = "") then "" else Clean b)
  else Clean (a +:+ "/" +:+ b).

(** What [Dir] cleans: the path up to its last slash, that slash included. *)
Definition dir_part (p : string) : string :=
  match removelast (split_slash p) with
  | [] => ""
  | es => GoStd.Join es "/" +:+ "/"
  end.
Definition filepath_Dir (p : string) : string := Clean (dir_part p).

(** The name of the file within that directory. *)
Definition last_element (p : string) : string := default "" (last (split_slash p)).
