(* ===== verification/MachineId.v ===== *)
(** * The identifier of a machine (xconn/machineid_linux.go, machineid_darwin.go,
    machineid_windows.go)

    A file, the output of a program or a value of the registry: what the system
    answers is an argument. *)

From S2P Require Import Prelude GoStd.

Local Open Scope string_scope.

(** ** Splitting and searching *)

(** [strings.Split(s, sep)] for a separator of one byte *)
Fixpoint Split (sep : ascii) (s : string) : list string :=
  match s with
  | "" => [""]
  | String c s =>
      let parts := Split sep s in
      if bool_decide (c = sep) then "" :: parts
      else match parts with p :: ps => String c p :: ps | [] => [String c ""] end
  end.

(** [strings.Contains(s, part)] *)
Fixpoint Contains (s part : string) : bool :=
  HasPrefix s part || match s with "" => false | String _ s => Contains s part end.

Lemma Split_none sep a : contains_byte sep a = false → Split sep a = [a].
Proof.
  induction a as [|c a IH]; [done|]. cbn [contains_byte Split]. intros [Hc Ha]%orb_false_iff.
  rewrite IH by done. apply bool_decide_eq_false in Hc. by rewrite bool_decide_false by congruence.
Qed.

Lemma Split_app sep a b :
  contains_byte sep a = false → Split sep (a +:+ String sep b) = a :: Split sep b.
Proof.
  induction a as [|c a IH]; cbn [contains_byte].
  - intros _. change ("" +:+ String sep b) with (String sep b). cbn [Split].
    by rewrite bool_decide_true.
  - intros [Hc Ha]%orb_false_iff. change (String c a +:+ String sep b) with (String c (a +:+ String sep b)).
    cbn [Split]. rewrite IH by done. apply bool_decide_eq_false in Hc.
    by rewrite bool_decide_false by congruence.
Qed.

Lemma contains_byte_app c a b :
  contains_byte c (a +:+ b) = contains_byte c a || contains_byte c b.
Proof.
  induction a as [|d a IH]; [done|]. change (String d a +:+ b) with (String d (a +:+ b)).
  cbn [contains_byte]. by rewrite IH, orb_assoc.
Qed.

Lemma Contains_app a part b : Contains (a +:+ part +:+ b) part = true.
Proof.
  induction a as [|c a IH].
  - change ("" +:+ part +:+ b) with (part +:+ b).
    destruct (part +:+ b) eqn:E; cbn [Contains]; by rewrite <-E, HasPrefix_app.
  - change (String c a +:+ part +:+ b) with (String c (a +:+ part +:+ b)).
    cbn [Contains]. rewrite IH. apply orb_true_r.
Qed.

(** ** The three systems *)

(** [data]: what [os.ReadFile("/etc/machine-id")] answers. *)
Definition MachineID_linux (data : result string) : result string := rmap TrimSpace data.

Definition newline : ascii := ascii_of_nat 10.
Definition quote : ascii := ascii_of_nat 34.
Definition marker : string := "IOPlatformUUID".

Fixpoint scan_lines (lines : list string) : result string :=
  match lines with
  | [] => Err "IOPlatformUUID not found"
  | line :: lines =>
      if Contains line marker then
        match Split quote line with
        | _ :: _ :: _ :: id :: _ => Ok id
        | _ => scan_lines lines
        end
      else scan_lines lines
  end.

(** [out]: what [ioreg] prints. *)
Definition MachineID_darwin (out : result string) : result string :=
  match out with Err e => Err e | Ok out => scan_lines (Split newline out) end.

(** The state is the number of registry keys that are open. *)
Definition MachineID_windows (key : result unit) (value : result string) : M nat string :=
  _ ← of_result key;
  modify S;;
  r ← try (of_result value);
  modify pred;;
  of_result r.

(** ** What they return *)

Lemma trim_right_blank s : is_blank s = true → trim_right s = "".
Proof. destruct s as [|c s]; [done|]. intros H. cbn [trim_right]. by rewrite H. Qed.

Lemma trim_right_not_blank s : is_blank s = false → is_blank (trim_right s) = false.
Proof.
  induction s as [|c s IH]; [done|]. intros H. cbn [trim_right]. rewrite H. cbn [is_blank] in *.
  apply andb_false_iff in H as [H|H]; [by rewrite H|]. rewrite (IH H). apply andb_false_r.
Qed.

Lemma trim_right_idemp s : trim_right (trim_right s) = trim_right s.
Proof.
  induction s as [|c s IH]; [done|]. cbn [trim_right].
  destruct (is_blank (String c s)) eqn:Hb; [done|]. cbn [trim_right].
  assert (is_blank (String c (trim_right s)) = false) as ->.
  { cbn [is_blank] in *. apply andb_false_iff in Hb as [Hb|Hb]; [by rewrite Hb|].
    rewrite (trim_right_not_blank _ Hb). apply andb_false_r. }
  by rewrite IH.
Qed.

Lemma trim_left_spec s :
  trim_left s = "" ∨ ∃ c s', trim_left s = String c s' ∧ is_space c = false.
Proof.
  induction s as [|c s IH]; [by left|]. cbn [trim_left].
  destruct (is_space c) eqn:Hc; [done|]. right. by exists c, s.
Qed.

(** Nothing is left to trim. *)
Lemma TrimSpace_idemp s : TrimSpace (TrimSpace s) = TrimSpace s.
Proof.
  unfold TrimSpace. destruct (trim_left_spec s) as [->|(c & s' & -> & Hc)]; [done|].
  cbn [trim_right]. destruct (is_blank (String c s')); [done|]. cbn [trim_left]. rewrite Hc.
  assert (trim_right (String c s') = String c (trim_right s')) as <-.
  { cbn [trim_right is_blank]. by rewrite Hc. }
  apply trim_right_idemp.
Qed.

(** The line of the property among others that do not name it. *)
Lemma scan_finds before line id rest :
  Forall (λ l, Contains l marker = false) before → Contains line marker = true →
  (∃ a b c ps, Split quote line = a :: b :: c :: id :: ps) →
  scan_lines (before ++ line :: rest)%list = Ok id.
Proof.
  intros Hb Hl (a & b & c & ps & Hs). induction Hb as [|l before Hb' _ IH]; cbn [app scan_lines].
  - by rewrite Hl, Hs.
  - by rewrite Hb'.
Qed.

Lemma Split_join before s :
  Forall (λ l, contains_byte newline l = false) before →
  Split newline (foldr (λ l s, l +:+ String newline s) s before) = (before ++ Split newline s)%list.
Proof. induction 1 as [|l before Hl _ IH]; [done|]. cbn [foldr app]. by rewrite Split_app, IH. Qed.

(** The line that [ioreg] prints for the property. *)
Definition property_line (indent id : string) : string :=
  indent +:+ String quote (marker +:+ String quote (" = " +:+ String quote (id +:+ String quote ""))).

Lemma property_line_found indent id :
  contains_byte quote indent = false → contains_byte quote id = false →
  Contains (property_line indent id) marker = true ∧
  ∃ a b c ps, Split quote (property_line indent id) = a :: b :: c :: id :: ps.
Proof.
  intros Hi Hq. unfold property_line. split.
  - change (indent +:+ String quote (marker +:+ ?x)) with (indent +:+ (String quote "" +:+ (marker +:+ x))).
    rewrite <-string_app_assoc. apply Contains_app.
  - exists indent, marker, " = ", [""]. by rewrite !Split_app.
Qed.

(** What each system answers: the file without the white space around it; what
    follows the property in the output of [ioreg], between quotes, wherever its line
    is; the value of the registry.  Errors are passed on, and no key of the registry
    stays open. *)
Theorem machine_id data before indent id rest n key value :
  Forall (λ l, contains_byte newline l = false ∧ Contains l marker = false) before →
  contains_byte newline indent = false → contains_byte quote indent = false →
  contains_byte newline id = false → contains_byte quote id = false →
  (match MachineID_linux data with Ok s => TrimSpace s = s | Err e => data = Err e end) ∧
  MachineID_darwin (Ok (foldr (λ l s, l +:+ String newline s)
    (property_line indent id +:+ String newline rest) before)) = Ok id ∧
  MachineID_windows key value n = (n, match key, value with
    | Ok _, Ok v => Val v | Ok _, Err e | Err e, _ => Fail e end).
Proof.
  intros Hb Hin Hiq Hn Hq. split_and!.
  - destruct data as [s|e]; [apply TrimSpace_idemp|done].
  - unfold MachineID_darwin. rewrite Split_join by (eapply Forall_impl; [done|by intros ? []]).
    assert (contains_byte newline (property_line indent id) = false) as Hl.
    { unfold property_line. rewrite contains_byte_app, Hin. cbn [contains_byte].
      rewrite contains_byte_app. cbn [contains_byte]. rewrite contains_byte_app. cbn [contains_byte].
      by rewrite contains_byte_app, Hn. }
    rewrite Split_app by done. destruct (property_line_found indent id Hiq Hq).
    apply scan_finds; [|done..]. eapply Forall_impl; [done|by intros ? []].
  - unfold MachineID_windows. destruct key as [[]|e]; [|done]. by destruct value.
Qed.

(** A marker without a value is skipped, and an output without any is an error. *)
Theorem machine_id_missing lines :
  Forall (λ l, Contains l marker = false ∨ (length (Split quote l) < 4)%nat) lines →
  scan_lines lines = Err "IOPlatformUUID not found".
Proof.
  induction 1 as [|l lines Hl _ IH]; [done|]. cbn [scan_lines].
  destruct (Contains l marker); [|done]. destruct Hl as [?|Hl]; [done|].
  destruct (Split quote l) as [|? [|? [|? [|? ?]]]]; simpl in Hl; done || lia.
Qed.

Example machine_id_witness :
  MachineID_darwin (Ok (property_line "    " "1234-ABCD" +:+ String newline "}")) = Ok "1234-ABCD".
Proof.
  exact (proj1 (proj2 (machine_id (Ok "id") [] "    " "1234-ABCD" "}" 0 (Ok tt) (Ok "id")
    (Forall_nil_2 _) eq_refl eq_refl eq_refl eq_refl))).
Defined.

Example machine_id_missing_witness : scan_lines [marker; "x"] = Err "IOPlatformUUID not found".
Proof.
  apply machine_id_missing. repeat apply Forall_cons_2; try by apply Forall_nil.
  - right. simpl. lia.
  - by left.
Defined.
