(* ===== verification/ConcurrentMap.v ===== *)
(** * The concurrent map (internal/map.go)

    A typed wrapper of [sync.Map]: every call is atomic, so that it is a finite
    map with these operations.  A key that is missing gives the zero value of the
    type.  [Range] is taken to run while nobody stores. *)

From S2P Require Import Prelude GoStd.

Section Map.
Context {V : Type} (zero : V) `{MapRange}.

(** [K] is [string] or [uint64] in the program; it is [string] here. *)
Record Map := mkMap { m : gmap string V }.
Implicit Types (key : string) (value : V) (s : Map).

Definition Store key value : M Map unit := modify (λ s, mkMap (<[key := value]> (m s))).
Definition Delete key : M Map unit := modify (λ s, mkMap (delete key (m s))).

Definition Load key : M Map (V * bool) := λ s,
  (s, Val match m s !! key with Some v => (v, true) | None => (zero, false) end).

Definition LoadAndDelete key : M Map (V * bool) := λ s,
  (mkMap (delete key (m s)),
   Val match m s !! key with Some v => (v, true) | None => (zero, false) end).

Definition LoadOrStore key value : M Map (V * bool) := λ s,
  match m s !! key with
  | Some v => (s, Val (v, true))
  | None => (mkMap (<[key := value]> (m s)), Val (value, false))
  end.

(** [Range]: the entries for which [f] is called, up to the first for which it
    says that it has seen enough. *)
Fixpoint visit (f : string → V → bool) (entries : list (string * V)) : list (string * V) :=
  match entries with
  | [] => []
  | e :: entries => e :: if f e.1 e.2 then visit f entries else []
  end.
Definition Range (f : string → V → bool) : M Map (list (string * V)) :=
  entries ← get (λ s, range_entries (m s)); mret (visit f entries).

Lemma visit_all f entries : (∀ k v, (k, v) ∈ entries → f k v = true) → visit f entries = entries.
Proof.
  induction entries as [|[k v] entries IH]; intros Hf; simpl; [done|].
  rewrite Hf by by left. f_equal. apply IH. intros k' v' Hin. apply Hf. by right.
Qed.

Lemma visit_prefix f entries : visit f entries `prefix_of` entries.
Proof.
  induction entries as [|e entries IH]; simpl; [done|]. apply prefix_cons.
  destruct (f e.1 e.2); [done|apply prefix_nil].
Qed.

(** The operations are those of a finite map: what is stored is loaded until
    it is deleted, a value is given out as deleted to one caller only, only the
    first of two [LoadOrStore] stores, and [Range] visits entries of the map, none
    twice, and every one unless it is told to stop. *)
Theorem map_is_a_finite_map key value other s f :
  (Load key (Store key value s).1).2 = Val (value, true) ∧
  (Load key (Delete key s).1).2 = Val (zero, false) ∧
  (LoadAndDelete key (LoadAndDelete key s).1).2 = Val (zero, false) ∧
  (LoadAndDelete key s).2 = (Load key s).2 ∧
  (other ≠ key → ∀ op, op ∈ [Store key value; Delete key; LoadAndDelete key ≫= (λ _, mret tt);
                             LoadOrStore key value ≫= (λ _, mret tt)] →
     (Load other (op s).1).2 = (Load other s).2) ∧
  (∃ v, (Load key (LoadOrStore key value s).1).2 = Val (v, true) ∧
     ∀ value', (LoadOrStore key value' (LoadOrStore key value s).1) =
               ((LoadOrStore key value s).1, Val (v, true))) ∧
  ∃ l, Range f s = (s, Val l) ∧ NoDup l.*1 ∧ (∀ k v, (k, v) ∈ l → m s !! k = Some v) ∧
    ((∀ k v, f k v = true) → ∀ k v, m s !! k = Some v → (k, v) ∈ l).
Proof.
  assert (∀ k v, (k, v) ∈ range_entries (m s) ↔ m s !! k = Some v) as Hin.
  { intros k v. rewrite range_entries_perm. apply elem_of_map_to_list. }
  split_and!.
  - cbn. by rewrite lookup_insert_eq.
  - cbn. by rewrite lookup_delete_eq.
  - cbn. by rewrite lookup_delete_eq.
  - done.
  - intros Hne op. rewrite !elem_of_cons. unfold mbind, M_bind, LoadOrStore, LoadAndDelete, Load.
    intros [->|[->|[->|[->|[]%not_elem_of_nil]]]]; cbn.
    + by rewrite lookup_insert_ne.
    + by rewrite lookup_delete_ne.
    + by rewrite lookup_delete_ne.
    + destruct (m s !! key); cbn; [done|]. by rewrite lookup_insert_ne.
  - unfold LoadOrStore. destruct (m s !! key) as [v|] eqn:Hk.
    + exists v. unfold Load. cbn. rewrite Hk. split; [done|]. by intros.
    + exists value. cbn. rewrite lookup_insert_eq. split; [done|]. by intros.
  - eexists. split; [done|]. split_and!.
    + assert (NoDup (range_entries (m s)).*1) as Hnd.
      { rewrite range_entries_perm. apply NoDup_fst_map_to_list. }
      destruct (visit_prefix f (range_entries (m s))) as [k Hk]. rewrite Hk, fmap_app in Hnd.
      by apply NoDup_app in Hnd as [? _].
    + intros k v Hv. apply Hin. destruct (visit_prefix f (range_entries (m s))) as [r ->].
      apply elem_of_app. by left.
    + intros Hf k v Hv. rewrite visit_all by auto. by apply Hin.
Qed.

End Map.
