(* ===== verification/Values.v ===== *)
(** * Dynamic values and their accessors (parser.go)

    [Value], [List] and [Dict] wrap the [any] payloads of WAMP messages and
    convert them to the type a handler asks for.  A conversion that fails is
    an [Err]; the [...Or] accessors replace the failure by a default. *)

From Stdlib Require Import SpecFloat.
From S2P Require Import Prelude GoStd.

Local Open Scope string_scope.
Local Open Scope go_scope.

Record Value_t := NewValue { data : any }.

Abbreviation List_t := (list Value_t).
Abbreviation Dict_t := (gmap string Value_t).

(** ** type Value *)

Module Value.
Section Value.
Context `{FloatConv}.

Definition Raw (v : Value_t) : any := data v.

Definition Str (v : Value_t) : result string :=
  match data v with
  | AString s => Ok s
  | d => Err ("value is not data string, got " +:+ fmt_T d)
  end.

Definition StringOr (v : Value_t) (def : string) : string := result_or def (Str v).

Definition Bool (v : Value_t) : result bool :=
  match data v with
  | ABool b => Ok b
  | d => Err ("value is not data bool, got " +:+ fmt_T d)
  end.

Definition BoolOr (v : Value_t) (def : bool) : bool := result_or def (Bool v).

(** [val > math.MaxInt64 || val < math.MinInt64]: the constants are rounded
    to the float type of [val], both to exact powers of two. *)
Definition float64_overflows (f : spec_float) : bool :=
  SFltb (float64_of_int MaxInt64) f || SFltb f (float64_of_int MinInt64).
Definition float32_overflows (f : spec_float) : bool :=
  SFltb (float32_of_int MaxInt64) f || SFltb f (float32_of_int MinInt64).

Definition Int64 (v : Value_t) : result Z :=
  match data v with
  | AInt64 z => Ok z
  | AUint64 z =>
      if bool_decide (MaxInt64 < z)%Z
      then Err ("uint64 value " +:+ pretty z +:+ " overflows int64") else Ok z
  | AUint8 z | AInt z | AInt8 z | AInt32 z => Ok z
  | AUint z =>
      if bool_decide (MaxInt64 < z)%Z
      then Err ("uint value " +:+ pretty z +:+ " overflows int64") else Ok z
  | AUint16 z | AUint32 z => Ok z
  | AFloat64 f =>
      if float64_overflows f
      then Err ("float64 value " +:+ fmt_f f +:+ " overflows int64")
      else Ok (int64_of_float f)
  | AFloat32 f =>
      if float32_overflows f
      then Err ("float32 value " +:+ fmt_f f +:+ " overflows int64")
      else Ok (int64_of_float f)
  | d => Err ("value cannot be converted to int64, got " +:+ fmt_T d)
  end.

Definition Int64Or (v : Value_t) (def : Z) : Z := result_or def (Int64 v).

Definition Float64 (v : Value_t) : result spec_float :=
  match data v with
  | AFloat64 f => Ok f
  | AFloat32 f => Ok (float64_of_float32 f)
  | AInt64 z | AInt z => Ok (float64_of_int z)
  | d => Err ("value cannot be converted to float64, got " +:+ fmt_T d)
  end.

Definition Float64Or (v : Value_t) (def : spec_float) : spec_float :=
  result_or def (Float64 v).

Definition UInt64 (v : Value_t) : result Z :=
  let no := Err ("value cannot be converted to uint64, got " +:+ fmt_T (data v)) in
  match data v with
  | AUint64 z | AUint z | AUint8 z | AUint16 z | AUint32 z => Ok z
  | AInt64 z | AInt z => if bool_decide (0 ≤ z)%Z then Ok z else no
  | AFloat64 f => if SFleb (S754_zero false) f then Ok (uint64_of_float f) else no
  | _ => no
  end.

Definition UInt64Or (v : Value_t) (def : Z) : Z := result_or def (UInt64 v).

Definition Bytes (v : Value_t) : result string :=
  match data v with
  | ABytes b => Ok b
  | AString s => Ok s
  | d => Err ("value cannot be converted to []byte, got " +:+ fmt_T d)
  end.

Definition BytesOr (v : Value_t) (def : string) : string := result_or def (Bytes v).

Definition List (v : Value_t) : result List_t :=
  match data v with
  | ASlice items => Ok (NewValue <$> items)
  | d => Err ("value is not []any, got " +:+ fmt_T d)
  end.

Definition ListOr (v : Value_t) (def : List_t) : List_t := result_or def (List v).

Definition Dict (v : Value_t) : result Dict_t :=
  match data v with
  | AMap items => Ok (NewValue <$> items)
  | d => Err ("value is not map[string]any, got " +:+ fmt_T d)
  end.

Definition DictOr (v : Value_t) (def : Dict_t) : Dict_t := result_or def (Dict v).

End Value.
End Value.

(** A default of the named type [List] or [Dict] put in an [any]: its dynamic
    type is neither [[]any] nor [map[string]any]. *)
Definition boxed_List : any := AOther "xconn.List".
Definition boxed_Dict : any := AOther "xconn.Dict".

(** ** type List *)

Module List.
Section List.
Context `{FloatConv}.

Definition NewList (values : list any) : List_t := NewValue <$> values.

Definition Len (l : List_t) : Z := Z.of_nat (length l).

Definition Get (l : List_t) (i : Z) : result Value_t :=
  if bool_decide (i < 0 ∨ Len l ≤ i)%Z
  then Err ("index " +:+ pretty i +:+ " out of range [0, " +:+ pretty (Len l) +:+ "]")
  else match l !! Z.to_nat i with Some v => Ok v | None => Err "" end.

Definition GetOr (l : List_t) (i : Z) (def : any) : Value_t :=
  result_or (NewValue def) (Get l i).

Definition Str (l : List_t) (i : Z) : result string := let* v := Get l i in Value.Str v.
Definition StringOr (l : List_t) (i : Z) (def : string) : string :=
  Value.StringOr (GetOr l i (AString def)) def.
Definition Bool (l : List_t) (i : Z) : result bool := let* v := Get l i in Value.Bool v.
Definition BoolOr (l : List_t) (i : Z) (def : bool) : bool :=
  Value.BoolOr (GetOr l i (ABool def)) def.
Definition Int64 (l : List_t) (i : Z) : result Z := let* v := Get l i in Value.Int64 v.
Definition Int64Or (l : List_t) (i : Z) (def : Z) : Z :=
  Value.Int64Or (GetOr l i (AInt64 def)) def.
Definition Float64 (l : List_t) (i : Z) : result spec_float :=
  let* v := Get l i in Value.Float64 v.
Definition Float64Or (l : List_t) (i : Z) (def : spec_float) : spec_float :=
  Value.Float64Or (GetOr l i (AFloat64 def)) def.
Definition UInt64 (l : List_t) (i : Z) : result Z := let* v := Get l i in Value.UInt64 v.
Definition UInt64Or (l : List_t) (i : Z) (def : Z) : Z :=
  Value.UInt64Or (GetOr l i (AUint64 def)) def.
Definition Bytes (l : List_t) (i : Z) : result string := let* v := Get l i in Value.Bytes v.
Definition BytesOr (l : List_t) (i : Z) (def : string) : string :=
  Value.BytesOr (GetOr l i (ABytes def)) def.
Definition List (l : List_t) (i : Z) : result List_t := let* v := Get l i in Value.List v.
Definition ListOr (l : List_t) (i : Z) (def : List_t) : List_t :=
  Value.ListOr (GetOr l i boxed_List) def.
Definition Dict (l : List_t) (i : Z) : result Dict_t := let* v := Get l i in Value.Dict v.
Definition DictOr (l : List_t) (i : Z) (def : Dict_t) : Dict_t :=
  Value.DictOr (GetOr l i boxed_Dict) def.
Definition Raw (l : List_t) : list any := Value.Raw <$> l.

End List.
End List.

(** ** type Dict *)

Module Dict.
Section Dict.
Context `{FloatConv}.

Definition NewDict (values : dict) : Dict_t := NewValue <$> values.

Definition Len (d : Dict_t) : Z := Z.of_nat (size d).

Definition Get (d : Dict_t) (key : string) : result Value_t :=
  match d !! key with
  | Some v => Ok v
  | None => Err ("key " +:+ fmt_q key +:+ " not found")
  end.

Definition GetOr (d : Dict_t) (key : string) (def : any) : Value_t :=
  result_or (NewValue def) (Get d key).

Definition Has (d : Dict_t) (key : string) : bool := bool_decide (is_Some (d !! key)).

Definition Str (d : Dict_t) (key : string) : result string :=
  let* v := Get d key in Value.Str v.
Definition StringOr (d : Dict_t) (key : string) (def : string) : string :=
  Value.StringOr (GetOr d key (AString def)) def.
Definition Bool (d : Dict_t) (key : string) : result bool :=
  let* v := Get d key in Value.Bool v.
Definition BoolOr (d : Dict_t) (key : string) (def : bool) : bool :=
  Value.BoolOr (GetOr d key (ABool def)) def.
Definition Int64 (d : Dict_t) (key : string) : result Z :=
  let* v := Get d key in Value.Int64 v.
Definition Int64Or (d : Dict_t) (key : string) (def : Z) : Z :=
  Value.Int64Or (GetOr d key (AInt64 def)) def.
Definition Float64 (d : Dict_t) (key : string) : result spec_float :=
  let* v := Get d key in Value.Float64 v.
Definition Float64Or (d : Dict_t) (key : string) (def : spec_float) : spec_float :=
  Value.Float64Or (GetOr d key (AFloat64 def)) def.
Definition UInt64 (d : Dict_t) (key : string) : result Z :=
  let* v := Get d key in Value.UInt64 v.
Definition UInt64Or (d : Dict_t) (key : string) (def : Z) : Z :=
  Value.UInt64Or (GetOr d key (AUint64 def)) def.
Definition Bytes (d : Dict_t) (key : string) : result string :=
  let* v := Get d key in Value.Bytes v.
Definition BytesOr (d : Dict_t) (key : string) (def : string) : string :=
  Value.BytesOr (GetOr d key (ABytes def)) def.
Definition List (d : Dict_t) (key : string) : result List_t :=
  let* v := Get d key in Value.List v.
Definition ListOr (d : Dict_t) (key : string) (def : List_t) : List_t :=
  Value.ListOr (GetOr d key boxed_List) def.
Definition Dict (d : Dict_t) (key : string) : result Dict_t :=
  let* v := Get d key in Value.Dict v.
Definition DictOr (d : Dict_t) (key : string) (def : Dict_t) : Dict_t :=
  Value.DictOr (GetOr d key boxed_Dict) def.
Definition Raw (d : Dict_t) : dict := Value.Raw <$> d.

End Dict.
End Dict.

(** ** What the accessors promise *)

Section Accessors.
Context `{FloatConv}.

(** The integer an [any] of one of the supported integer types carries. *)
Definition integer (v : any) : option Z :=
  match v with
  | AInt z | AInt8 z | AInt32 z | AInt64 z
  | AUint z | AUint8 z | AUint16 z | AUint32 z | AUint64 z => Some z
  | _ => None
  end.

(** C40. [Int64] never changes an integer: a value of any supported integer type
    is returned exactly when it lies in the range of [int64], and is an error
    otherwise. *)
Theorem Int64_exact v z :
  any_fits v → integer v = Some z →
  (in_int64 z → Value.Int64 (NewValue v) = Ok z) ∧
  (¬ in_int64 z → is_ok (Value.Int64 (NewValue v)) = false).
Proof.
  unfold in_int64, any_fits, in_uint64, MaxInt64, MinInt64, MaxUint64.
  destruct v; intros Hf Hz; simplify_eq/=; unfold Value.Int64; simpl; split; intros Hr;
    try done; try (exfalso; apply Hr; unfold in_int64, MaxInt64, MinInt64 in *; lia);
    unfold in_int64, MaxInt64, MinInt64 in *; case_bool_decide; done || lia.
Qed.

(** [UInt64] never changes an integer either, where the type is supported:
    the non-negative ones are returned exactly and the negative ones are errors. *)
Theorem UInt64_exact v z :
  match v with AInt8 _ | AInt32 _ => False | _ => True end →
  any_fits v → integer v = Some z →
  (0 ≤ z → Value.UInt64 (NewValue v) = Ok z ∧ in_uint64 z)%Z ∧
  (z < 0 → is_ok (Value.UInt64 (NewValue v)) = false)%Z.
Proof.
  unfold in_int64, any_fits, in_uint64, MaxInt64, MinInt64, MaxUint64.
  destruct v; intros Ht Hf Hz; simplify_eq/=; unfold Value.UInt64; simpl;
    unfold in_int64, MaxInt64, MinInt64 in *;
    split; intros Hr; try lia; try (split; [done|lia]);
    case_bool_decide; try lia; try done; split; done || lia.
Qed.

(** The range check on floats is off by one: the constant [math.MaxInt64]
    rounds to 2^63 as a [float64], so 2^63 itself passes, and NaN compares false
    with both bounds.  What comes back is whatever the conversion of an
    out-of-range float gives on the machine at hand. *)
Theorem Int64_lets_2_63_through :
  let two_63 := float64_of_int (2 ^ 63) in
  float_trunc two_63 = Some (MaxInt64 + 1)%Z ∧
  Value.Int64 (NewValue (AFloat64 two_63)) = Ok (oor_int64 two_63) ∧
  Value.Int64 (NewValue (AFloat64 S754_nan)) = Ok (oor_int64 S754_nan).
Proof. by vm_compute. Qed.

Lemma Get_spec (l : List_t) i :
  List.Get l i =
  match (if bool_decide (0 ≤ i)%Z then l !! Z.to_nat i else None) with
  | Some v => Ok v
  | None => Err ("index " +:+ pretty i +:+ " out of range [0, " +:+ pretty (List.Len l) +:+ "]")
  end.
Proof.
  unfold List.Get, List.Len. case_bool_decide as Hi; case_bool_decide as H0; try done; try lia.
  - destruct (l !! Z.to_nat i) eqn:Hl; [|done]. apply lookup_lt_Some in Hl. lia.
  - destruct (l !! Z.to_nat i) eqn:Hl; [done|]. apply lookup_ge_None in Hl. lia.
Qed.

(** An index is in range exactly when it is at least 0 and below the length. *)
Lemma Get_in_range (l : List_t) i :
  is_ok (List.Get l i) = bool_decide (0 ≤ i < List.Len l)%Z.
Proof.
  unfold List.Get, List.Len. symmetry. case_bool_decide as Hi; case_bool_decide as H0;
    simpl; try lia; try done.
  destruct (l !! Z.to_nat i) eqn:Hl; [done|]. apply lookup_ge_None in Hl. lia.
Qed.

(** The default that an [...Or] accessor boxes converts back to itself. *)
Lemma default_unboxed :
  (∀ d, Value.Str (NewValue (AString d)) = Ok d) ∧
  (∀ d, Value.Bool (NewValue (ABool d)) = Ok d) ∧
  (∀ d, Value.Int64 (NewValue (AInt64 d)) = Ok d) ∧
  (∀ d, Value.UInt64 (NewValue (AUint64 d)) = Ok d) ∧
  (∀ d, Value.Float64 (NewValue (AFloat64 d)) = Ok d) ∧
  (∀ d, Value.Bytes (NewValue (ABytes d)) = Ok d).
Proof. done. Qed.

Lemma or_is_default {A} (conv : Value_t → result A) (get : result Value_t) box (d : A) :
  result_or d (conv (NewValue box)) = d →
  result_or d (conv (result_or (NewValue box) get)) = result_or d (rbind get conv).
Proof. by destruct get. Qed.

(** Each [...Or] accessor of a list returns what the accessor without [Or]
    returns, and the default exactly where that one is an error. *)
Theorem list_Or_accessors (l : List_t) i :
  (∀ d, List.StringOr l i d = result_or d (List.Str l i)) ∧
  (∀ d, List.BoolOr l i d = result_or d (List.Bool l i)) ∧
  (∀ d, List.Int64Or l i d = result_or d (List.Int64 l i)) ∧
  (∀ d, List.UInt64Or l i d = result_or d (List.UInt64 l i)) ∧
  (∀ d, List.Float64Or l i d = result_or d (List.Float64 l i)) ∧
  (∀ d, List.BytesOr l i d = result_or d (List.Bytes l i)) ∧
  (∀ d, List.ListOr l i d = result_or d (List.List l i)) ∧
  (∀ d, List.DictOr l i d = result_or d (List.Dict l i)).
Proof. split_and!; intros d; by apply (or_is_default). Qed.

(** The same for the accessors of a dictionary. *)
Theorem dict_Or_accessors (m : Dict_t) k :
  (∀ d, Dict.StringOr m k d = result_or d (Dict.Str m k)) ∧
  (∀ d, Dict.BoolOr m k d = result_or d (Dict.Bool m k)) ∧
  (∀ d, Dict.Int64Or m k d = result_or d (Dict.Int64 m k)) ∧
  (∀ d, Dict.UInt64Or m k d = result_or d (Dict.UInt64 m k)) ∧
  (∀ d, Dict.Float64Or m k d = result_or d (Dict.Float64 m k)) ∧
  (∀ d, Dict.BytesOr m k d = result_or d (Dict.Bytes m k)) ∧
  (∀ d, Dict.ListOr m k d = result_or d (Dict.List m k)) ∧
  (∀ d, Dict.DictOr m k d = result_or d (Dict.Dict m k)).
Proof. split_and!; intros d; by apply (or_is_default). Qed.


Lemma list_roundtrip (l : list any) : List.Raw (List.NewList l) = l.
Proof.
  unfold List.Raw, List.NewList. rewrite <-list_fmap_compose. by apply list_fmap_id.
Qed.

Lemma dict_roundtrip (m : dict) : Dict.Raw (Dict.NewDict m) = m.
Proof.
  unfold Dict.Raw, Dict.NewDict. rewrite <-map_fmap_compose. by apply map_fmap_id.
Qed.

Lemma nested_roundtrip :
  (∀ l, rmap List.Raw (Value.List (NewValue (ASlice l))) = Ok l) ∧
  (∀ m, rmap Dict.Raw (Value.Dict (NewValue (AMap m))) = Ok m).
Proof.
  split; intros x; simpl; f_equal; [apply list_roundtrip|apply dict_roundtrip].
Qed.

End Accessors.

(** ** Instances *)

Definition sample_floats : FloatConv :=
  {| oor_int64 _ := MinInt64; oor_uint64 _ := 2 ^ 63 |}%Z.

Example Int64_exact_witness :
  Value.Int64 (H := sample_floats) (NewValue (AUint64 MaxInt64)) = Ok MaxInt64 ∧
  is_ok (Value.Int64 (H := sample_floats) (NewValue (AUint64 MaxUint64))) = false.
Proof.
  split.
  - apply (Int64_exact (H := sample_floats) (AUint64 MaxInt64) MaxInt64); [|done|];
      unfold any_fits, in_uint64, in_int64, MaxUint64, MaxInt64, MinInt64; lia.
  - apply (Int64_exact (H := sample_floats) (AUint64 MaxUint64) MaxUint64); [|done|];
      unfold any_fits, in_uint64, in_int64, MaxUint64, MaxInt64, MinInt64; lia.
Defined.

Example UInt64_exact_witness :
  is_ok (Value.UInt64 (H := sample_floats) (NewValue (AInt64 (-1)))) = false.
Proof.
  apply (UInt64_exact (H := sample_floats) (AInt64 (-1)) (-1)); done.
Defined.
