(* ===== verification/Wamp.v ===== *)
(** * The interface to wampproto-go

    The WAMP messages, serializers, broker and dealer are code of the package
    [wampproto-go], which is not part of the repository.  The classes below
    name what the repository uses of it; everything else in the development
    is parametric in them.  The laws ([...Ok]) state the documented behaviour
    that the theorems rely on, and the file [Sample] has a concrete instance at
    which the theorems are witnessed. *)

From S2P Require Import Prelude GoStd.

(** ** Messages

    What the accessor methods of a message struct return.  The arguments of
    an ERROR may be absent (nil). *)

Record call_msg := { call_id : Z; call_procedure : string }.
Record register_msg := { register_id : Z; register_procedure : string }.
Record subscribe_msg := { subscribe_id : Z; subscribe_topic : string }.
Record publish_msg := { publish_id : Z; publish_topic : string; publish_options : dict }.
Record registered_msg := { registered_id : Z; registered_registration : Z }.
Record subscribed_msg := { subscribed_id : Z; subscribed_subscription : Z }.
Record result_msg := {
  result_id : Z; result_args : list any; result_kwargs : dict; result_details : dict }.
Record invocation_msg := {
  invocation_id : Z; invocation_registration : Z;
  invocation_args : list any; invocation_kwargs : dict; invocation_details : dict }.
Record event_msg := {
  event_subscription : Z; event_args : list any; event_kwargs : dict; event_details : dict }.
Record error_msg := {
  error_type : Z; error_id : Z; error_uri : string;
  error_args : option (list any); error_kwargs : option dict }.
Record goodbye_msg := { goodbye_details : dict; goodbye_reason : string }.

(** The dynamic type of a message, for the types the code asserts. *)
Inductive msg_view :=
| VCall (m : call_msg)
| VRegister (m : register_msg)
| VSubscribe (m : subscribe_msg)
| VPublish (m : publish_msg)
| VCancel
| VRegistered (m : registered_msg)
| VUnregistered (request_id : Z)
| VSubscribed (m : subscribed_msg)
| VUnsubscribed (request_id : Z)
| VPublished (request_id : Z)
| VResult (m : result_msg)
| VInvocation (m : invocation_msg)
| VInterrupt (request_id : Z)
| VEvent (m : event_msg)
| VError (m : error_msg)
| VGoodbye (m : goodbye_msg)
| VOther.

Class WampMessages := {
  Message : Type;
  Message_Type : Message → Z;
  view : Message → msg_view;
  (** the [%T] verb *)
  Message_T : Message → string;

  MessageTypeHello : Z; MessageTypeWelcome : Z; MessageTypeAbort : Z;
  MessageTypeChallenge : Z; MessageTypeAuthenticate : Z; MessageTypeGoodbye : Z;
  MessageTypeError : Z; MessageTypePublish : Z; MessageTypePublished : Z;
  MessageTypeSubscribe : Z; MessageTypeSubscribed : Z;
  MessageTypeUnsubscribe : Z; MessageTypeUnsubscribed : Z; MessageTypeEvent : Z;
  MessageTypeCall : Z; MessageTypeCancel : Z; MessageTypeResult : Z;
  MessageTypeRegister : Z; MessageTypeRegistered : Z;
  MessageTypeUnregister : Z; MessageTypeUnregistered : Z;
  MessageTypeInvocation : Z; MessageTypeInterrupt : Z; MessageTypeYield : Z;

  (** [NewError(messageType, requestID, details, uri, args, kwargs)] *)
  NewError : Z → Z → dict → string → list any → dict → Message;
  (** [NewGoodBye(reason, details)] *)
  NewGoodBye : string → dict → Message;
  (** [NewYield(requestID, options, args, kwargs)] *)
  NewYield : Z → dict → list any → dict → Message;
  (** [NewRegister(requestID, options, procedure)] *)
  NewRegister : Z → dict → string → Message;
  (** [NewUnregister(requestID, registrationID)] *)
  NewUnregister : Z → Z → Message;
  (** [NewSubscribe(requestID, options, topic)] *)
  NewSubscribe : Z → dict → string → Message;
  (** [NewUnsubscribe(requestID, subscriptionID)] *)
  NewUnsubscribe : Z → Z → Message;
  (** [NewPublish(requestID, options, topic, args, kwargs)] *)
  NewPublish : Z → dict → string → list any → dict → Message;
  (** [NewCall(requestID, options, procedure, args, kwargs)] *)
  NewCall : Z → dict → string → list any → dict → Message;
  (** [NewCallBinary(requestID, options, procedure, payload, serializer)] *)
  NewCallBinary : Z → dict → string → string → Z → Message;
  (** [NewCancel(requestID, options)] *)
  NewCancel : Z → dict → Message;
}.

Definition message_types `{WampMessages} : list Z :=
  [MessageTypeHello; MessageTypeWelcome; MessageTypeAbort; MessageTypeChallenge;
   MessageTypeAuthenticate; MessageTypeGoodbye; MessageTypeError; MessageTypePublish;
   MessageTypePublished; MessageTypeSubscribe; MessageTypeSubscribed;
   MessageTypeUnsubscribe; MessageTypeUnsubscribed; MessageTypeEvent; MessageTypeCall;
   MessageTypeCancel; MessageTypeResult; MessageTypeRegister; MessageTypeRegistered;
   MessageTypeUnregister; MessageTypeUnregistered; MessageTypeInvocation;
   MessageTypeInterrupt; MessageTypeYield].

(** The type code a message of a given dynamic type reports. *)
Definition view_type `{WampMessages} (v : msg_view) : option Z :=
  match v with
  | VCall _ => Some MessageTypeCall
  | VRegister _ => Some MessageTypeRegister
  | VSubscribe _ => Some MessageTypeSubscribe
  | VPublish _ => Some MessageTypePublish
  | VCancel => Some MessageTypeCancel
  | VRegistered _ => Some MessageTypeRegistered
  | VUnregistered _ => Some MessageTypeUnregistered
  | VSubscribed _ => Some MessageTypeSubscribed
  | VUnsubscribed _ => Some MessageTypeUnsubscribed
  | VPublished _ => Some MessageTypePublished
  | VResult _ => Some MessageTypeResult
  | VInvocation _ => Some MessageTypeInvocation
  | VInterrupt _ => Some MessageTypeInterrupt
  | VEvent _ => Some MessageTypeEvent
  | VError _ => Some MessageTypeError
  | VGoodbye _ => Some MessageTypeGoodbye
  | VOther => None
  end.

(** The types whose messages have an asserted struct. *)
Definition viewed_types `{WampMessages} : list Z :=
  [MessageTypeCall; MessageTypeRegister; MessageTypeSubscribe; MessageTypePublish;
   MessageTypeCancel; MessageTypeRegistered; MessageTypeUnregistered;
   MessageTypeSubscribed; MessageTypeUnsubscribed; MessageTypePublished;
   MessageTypeResult; MessageTypeInvocation; MessageTypeInterrupt; MessageTypeEvent;
   MessageTypeError; MessageTypeGoodbye].

Class WampMessagesOk `{WampMessages} : Prop := {
  (** The type codes of the WAMP specification are distinct. *)
  message_types_distinct : NoDup message_types;
  (** [Type()] tells the dynamic type. *)
  view_has_type m t : view_type (view m) = Some t → Message_Type m = t;
  view_other m : view_type (view m) = None → Message_Type m ∉ viewed_types;
  (** Constructors. *)
  NewError_type t r d u a k : Message_Type (NewError t r d u a k) = MessageTypeError;
  NewGoodBye_type r d : Message_Type (NewGoodBye r d) = MessageTypeGoodbye;
}.

(** ** Serializers *)

Class WampSerializers `{WampMessages} := {
  Serializer : Type;
  Serialize : Serializer → Message → result string;
  Deserialize : Serializer → string → result Message;
  Static : Serializer → bool;
  JSONSerializer : Serializer; CBORSerializer : Serializer; MsgPackSerializer : Serializer;
}.

(** ** Constants *)

Class WampConstants := {
  MatchExact : string; MatchPrefix : string; MatchWildcard : string;
  ErrAuthorizationFailed : string;
  OptionProgress : string; OptionReceiveProgress : string; OptionMode : string;
  CancelModeKillNoWait : string;
  (** [util.ToBool], and the value component of [util.AsBool]. *)
  ToBool : any → bool;
  AsBool : any → bool;
}.

(** The match policies of the WAMP specification. *)
Class WampConstantsOk `{WampConstants} : Prop := {
  MatchExact_spec : MatchExact = "exact";
  MatchPrefix_spec : MatchPrefix = "prefix";
  MatchWildcard_spec : MatchWildcard = "wildcard";
}.

(** ** Broker and dealer *)

(** [MessageWithRecipient] and [Publication]. *)
Record msg_to `{WampMessages} := { mt_recipient : Z; mt_message : Message }.
Record publication `{WampMessages} := {
  p_recipients : list Z; p_event : Message; p_ack : option msg_to }.

Class WampRouting `{WampMessages} := {
  SessionDetails : Type;
  (** [NewSessionDetails(id, realm, authid, authrole, authmethod, static,
      RouterRoles, authextra)] *)
  NewSessionDetails : Z → string → string → string → string → bool → dict → SessionDetails;

  Broker : Type;
  NewBroker : Broker;
  Broker_AddSession : SessionDetails → M Broker unit;
  Broker_RemoveSession : Z → M Broker unit;
  Broker_AutoDisclosePublisher : bool → Broker → Broker;
  Broker_ReceiveMessage : Z → Message → M Broker msg_to;
  Broker_ReceivePublish : Z → Message → M Broker publication;

  Dealer : Type;
  NewDealer : Dealer;
  Dealer_AddSession : SessionDetails → M Dealer unit;
  Dealer_RemoveSession : Z → M Dealer unit;
  Dealer_AutoDiscloseCaller : bool → Dealer → Dealer;
  Dealer_ReceiveMessage : Z → Message → M Dealer (option msg_to);
  Dealer_ReceiveCancel : Z → Message → M Dealer (list msg_to);
}.

(** The broker and the dealer answer every message, with a result or an error:
    they do not panic and do not wait. *)
Class WampRoutingOk `{WampRouting} : Prop := {
  Broker_AddSession_ends d : ends (Broker_AddSession d);
  Broker_RemoveSession_ends i : ends (Broker_RemoveSession i);
  Broker_ReceiveMessage_ends i m : ends (Broker_ReceiveMessage i m);
  Broker_ReceivePublish_ends i m : ends (Broker_ReceivePublish i m);
  Dealer_AddSession_ends d : ends (Dealer_AddSession d);
  Dealer_RemoveSession_ends i : ends (Dealer_RemoveSession i);
  Dealer_ReceiveMessage_ends i m : ends (Dealer_ReceiveMessage i m);
  Dealer_ReceiveCancel_ends i m : ends (Dealer_ReceiveCancel i m);
}.

#[export] Hint Resolve Broker_AddSession_ends Broker_RemoveSession_ends
  Broker_ReceiveMessage_ends Broker_ReceivePublish_ends Dealer_AddSession_ends
  Dealer_RemoveSession_ends Dealer_ReceiveMessage_ends Dealer_ReceiveCancel_ends : go.

(** ** Type codes in case analyses *)

Section Types.
Context `{WampMessagesOk}.

Lemma types_differ i j t u :
  message_types !! i = Some t → message_types !! j = Some u → i ≠ j → t ≠ u.
Proof.
  intros Hi Hj Hne ->. apply Hne.
  by apply (NoDup_lookup message_types i j u message_types_distinct).
Qed.

End Types.

Ltac type_index t l :=
  lazymatch l with
  | t :: _ => constr:(0%nat)
  | _ :: ?l => let n := type_index t l in constr:(S n)
  end.

(** Two distinct type constants differ. *)
Ltac types_ne :=
  match goal with
  | |- ?t ≠ ?u =>
      let l := eval cbv beta delta [message_types] in message_types in
      let i := type_index t l in
      let j := type_index u l in
      apply (types_differ i j t u); [reflexivity|reflexivity|discriminate]
  end.

Lemma neither (P Q : Prop) : ¬ P → ¬ Q → ¬ (P ∨ Q).
Proof. tauto. Qed.

(** Decide the tests on message types left in the goal. *)
Ltac types_decide :=
  repeat first
    [ rewrite bool_decide_true by done
    | rewrite bool_decide_true by tauto
    | rewrite bool_decide_false by (repeat apply neither; types_ne)
    | rewrite bool_decide_false by (apply not_eq_sym; types_ne) ].

(** A type switch on a message of a known dynamic type. *)
Lemma view_type_of `{WampMessagesOk} m v t :
  view m = v → view_type v = Some t → Message_Type m = t.
Proof. intros <-. apply view_has_type. Qed.

(** A message of a type the code asserts has that dynamic type. *)
Lemma view_of_type `{WampMessagesOk} m t :
  Message_Type m = t → t ∈ viewed_types → view_type (view m) = Some t.
Proof.
  intros <- Ht. destruct (view_type (view m)) as [u|] eqn:Hv.
  - by rewrite (view_has_type m u Hv).
  - by destruct (view_other m Hv).
Qed.

Ltac types_in := first [apply list_elem_of_here | apply list_elem_of_further; types_in].

(** Find the dynamic type of [m] from its type code; the other types have
    another code. *)
Ltac view_cases m H :=
  let Hv := fresh "Hview" in
  assert (Hv := view_of_type m _ H ltac:(unfold viewed_types; types_in));
  destruct (view m) eqn:?; simpl in Hv; try discriminate Hv;
  apply (inj Some) in Hv;
  try match type of Hv with
  | ?t = ?u => exfalso; assert (t ≠ u) by types_ne; done
  end;
  clear Hv.
