(* ===== verification/LogText.v ===== *)
(** * The texts of logged messages (helpers.go)

    A session whose messages are published to the management API describes each
    of them in a line.  The methods that read a message's fields and the names of
    the messages are wampproto-go's; [timestamp] is what the clock gives. *)

From S2P Require Import Prelude GoStd Wamp.

Local Open Scope string_scope.

(** A message with the fields that its line shows. *)
Inductive log_view :=
| LCall (procedure : string) (id : Z) (args : list any) (kwargs options : dict)
| LYield (id : Z) (args : list any) (kwargs options : dict)
| LRegister (procedure : string) (id : Z) (options : dict)
| LUnregister (id registration : Z)
| LPublish (topic : string) (args : list any) (kwargs options : dict)
| LSubscribe (topic : string) (id : Z) (options : dict)
| LUnsubscribe (id subscription : Z)
| LError (type : Z) (uri : string) (args : list any) (kwargs details : dict)
| LGoodbye (reason : string)
| LResult (id : Z) (args : list any) (kwargs details : dict)
| LInvocation (id registration : Z) (args : list any) (kwargs details : dict)
| LRegistered (id registration : Z)
| LUnregistered (id : Z)
| LEvent (publication subscription : Z) (args : list any) (kwargs details : dict)
| LPublished (id publication : Z)
| LSubscribed (id subscription : Z)
| LUnsubscribed (id : Z)
| LAbort (reason : string) (args : list any) (kwargs details : dict)
| LOther.

Class WampLog `{WampMessages} := {
  (** The dynamic type of a message with what its methods return. *)
  view_log : Message → log_view;
  (** [%+v] of [msg.Marshal()] *)
  marshal_text : Message → string;
  MessageNameHello : string; MessageNameWelcome : string; MessageNameAbort : string;
  MessageNameChallenge : string; MessageNameAuthenticate : string; MessageNameGoodbye : string;
  MessageNameError : string; MessageNamePublish : string; MessageNamePublished : string;
  MessageNameSubscribe : string; MessageNameSubscribed : string;
  MessageNameUnsubscribe : string; MessageNameUnsubscribed : string; MessageNameEvent : string;
  MessageNameCall : string; MessageNameCancel : string; MessageNameResult : string;
  MessageNameRegister : string; MessageNameRegistered : string;
  MessageNameUnregister : string; MessageNameUnregistered : string;
  MessageNameInvocation : string; MessageNameInterrupt : string; MessageNameYield : string;
}.

Section LogText.
Context `{WampLog} `{FmtV}.

Definition messageNameByID (id : Z) : string :=
  if bool_decide (id = MessageTypeHello) then MessageNameHello
  else if bool_decide (id = MessageTypeWelcome) then MessageNameWelcome
  else if bool_decide (id = MessageTypeAbort) then MessageNameAbort
  else if bool_decide (id = MessageTypeChallenge) then MessageNameChallenge
  else if bool_decide (id = MessageTypeAuthenticate) then MessageNameAuthenticate
  else if bool_decide (id = MessageTypeGoodbye) then MessageNameGoodbye
  else if bool_decide (id = MessageTypeError) then MessageNameError
  else if bool_decide (id = MessageTypePublish) then MessageNamePublish
  else if bool_decide (id = MessageTypePublished) then MessageNamePublished
  else if bool_decide (id = MessageTypeSubscribe) then MessageNameSubscribe
  else if bool_decide (id = MessageTypeSubscribed) then MessageNameSubscribed
  else if bool_decide (id = MessageTypeUnsubscribe) then MessageNameUnsubscribe
  else if bool_decide (id = MessageTypeUnsubscribed) then MessageNameUnsubscribed
  else if bool_decide (id = MessageTypeEvent) then MessageNameEvent
  else if bool_decide (id = MessageTypeCall) then MessageNameCall
  else if bool_decide (id = MessageTypeCancel) then MessageNameCancel
  else if bool_decide (id = MessageTypeResult) then MessageNameResult
  else if bool_decide (id = MessageTypeRegister) then MessageNameRegister
  else if bool_decide (id = MessageTypeRegistered) then MessageNameRegistered
  else if bool_decide (id = MessageTypeUnregister) then MessageNameUnregister
  else if bool_decide (id = MessageTypeUnregistered) then MessageNameUnregistered
  else if bool_decide (id = MessageTypeInvocation) then MessageNameInvocation
  else if bool_decide (id = MessageTypeInterrupt) then MessageNameInterrupt
  else if bool_decide (id = MessageTypeYield) then MessageNameYield
  else "UNKNOWN".

(** [%v] of an id, a list and a map *)
Definition num (n : Z) : string := pretty n.
Definition vals (l : list any) : string := fmt_v (ASlice l).
Definition kvs (m : dict) : string := fmt_v (AMap m).

(** ["[%s] RX: " or "[%s] TX: "] *)
Definition stamp (timestamp direction : string) : string :=
  "[" +:+ timestamp +:+ "] " +:+ direction +:+ ": ".

Definition args_text (args : list any) (kwargs : dict) : string :=
  "args=" +:+ vals args +:+ ", kwargs=" +:+ kvs kwargs.

(** The lines of an ERROR and a GOODBYE are the same in both directions. *)
Definition error_text (type : Z) (uri : string) (args : list any) (kwargs details : dict) : string :=
  MessageNameError +:+ " for message " +:+ messageNameByID type +:+ " with uri=" +:+ uri +:+ ", " +:+
  args_text args kwargs +:+ ", details=" +:+ kvs details.
Definition goodbye_text (reason : string) : string :=
  MessageNameGoodbye +:+ " with reason " +:+ reason.

(** A type assertion on a message of another dynamic type. *)
Definition wrong_type : outcome string := Panics "interface conversion".

Definition constructReceivedMsgLog (timestamp : string) (msg : Message) : outcome string :=
  let line s := Returns (stamp timestamp "RX" +:+ s) in
  let t := Message_Type msg in
  if bool_decide (t = MessageTypeCall) then
    match view_log msg with
    | LCall procedure id args kwargs options =>
        line (MessageNameCall +:+ " for procedure '" +:+ procedure +:+ "' with request_id=" +:+ num id +:+
          " " +:+ args_text args kwargs +:+ ", options=" +:+ kvs options)
    | _ => wrong_type
    end
  else if bool_decide (t = MessageTypeYield) then
    match view_log msg with
    | LYield id args kwargs options =>
        line (MessageNameYield +:+ " with request_id=" +:+ num id +:+ " " +:+ args_text args kwargs +:+
          ", options=" +:+ kvs options)
    | _ => wrong_type
    end
  else if bool_decide (t = MessageTypeRegister) then
    match view_log msg with
    | LRegister procedure id options =>
        line (MessageNameRegister +:+ " for procedure '" +:+ procedure +:+ "' with request_id=" +:+ num id +:+
          ", options=" +:+ kvs options)
    | _ => wrong_type
    end
  else if bool_decide (t = MessageTypeUnregister) then
    match view_log msg with
    | LUnregister id registration =>
        line (MessageNameUnregister +:+ " with request_id=" +:+ num id +:+ " for registration=" +:+
          num registration)
    | _ => wrong_type
    end
  else if bool_decide (t = MessageTypePublish) then
    match view_log msg with
    | LPublish topic args kwargs options =>
        line (MessageNamePublish +:+ " for topic '" +:+ topic +:+ "' with " +:+ args_text args kwargs +:+
          ", options=" +:+ kvs options)
    | _ => wrong_type
    end
  else if bool_decide (t = MessageTypeSubscribe) then
    match view_log msg with
    | LSubscribe topic id options =>
        line (MessageNameSubscribe +:+ " for topic '" +:+ topic +:+ "' with request_id=" +:+ num id +:+
          ", options=" +:+ kvs options)
    | _ => wrong_type
    end
  else if bool_decide (t = MessageTypeUnsubscribe) then
    match view_log msg with
    | LUnsubscribe id subscription =>
        line (MessageNameUnsubscribe +:+ " with request_id=" +:+ num id +:+ " for subscription=" +:+
          num subscription)
    | _ => wrong_type
    end
  else if bool_decide (t = MessageTypeError) then
    match view_log msg with
    | LError type uri args kwargs details => line (error_text type uri args kwargs details)
    | _ => wrong_type
    end
  else if bool_decide (t = MessageTypeGoodbye) then
    match view_log msg with
    | LGoodbye reason => line (goodbye_text reason)
    | _ => wrong_type
    end
  else line (marshal_text msg).

Definition constructSendingMsgLog (timestamp : string) (msg : Message) : outcome string :=
  let line s := Returns (stamp timestamp "TX" +:+ s) in
  let t := Message_Type msg in
  if bool_decide (t = MessageTypeResult) then
    match view_log msg with
    | LResult id args kwargs details =>
        line (MessageNameResult +:+ " for with request_id=" +:+ num id +:+ " " +:+ args_text args kwargs +:+
          ", details=" +:+ kvs details)
    | _ => wrong_type
    end
  else if bool_decide (t = MessageTypeInvocation) then
    match view_log msg with
    | LInvocation id registration args kwargs details =>
        line (MessageNameInvocation +:+ " with request_id=" +:+ num id +:+ " registration_id=" +:+
          num registration +:+ " " +:+ args_text args kwargs +:+ ", details=" +:+ kvs details)
    | _ => wrong_type
    end
  else if bool_decide (t = MessageTypeRegistered) then
    match view_log msg with
    | LRegistered id registration =>
        line (MessageNameRegistered +:+ " with request_id=" +:+ num id +:+ ", registration_id=" +:+
          num registration)
    | _ => wrong_type
    end
  else if bool_decide (t = MessageTypeUnregistered) then
    match view_log msg with
    | LUnregistered id => line (MessageNameUnregistered +:+ " with request_id=" +:+ num id)
    | _ => wrong_type
    end
  else if bool_decide (t = MessageTypeEvent) then
    match view_log msg with
    | LEvent publication subscription args kwargs details =>
        line (MessageNameEvent +:+ " with publication_id=" +:+ num publication +:+ " subscription_id=" +:+
          num subscription +:+ " " +:+ args_text args kwargs +:+ ", details=" +:+ kvs details)
    | _ => wrong_type
    end
  else if bool_decide (t = MessageTypePublished) then
    match view_log msg with
    | LPublished id publication =>
        line (MessageNamePublished +:+ " with request_id=" +:+ num id +:+ ", publication_id=" +:+
          num publication)
    | _ => wrong_type
    end
  else if bool_decide (t = MessageTypeSubscribed) then
    match view_log msg with
    | LSubscribed id subscription =>
        line (MessageNameSubscribed +:+ " with request_id=" +:+ num id +:+ ", subscription_id=" +:+
          num subscription)
    | _ => wrong_type
    end
  else if bool_decide (t = MessageTypeUnsubscribed) then
    match view_log msg with
    | LUnsubscribed id => line (MessageNameUnsubscribed +:+ " with request_id=" +:+ num id)
    | _ => wrong_type
    end
  else if bool_decide (t = MessageTypeError) then
    match view_log msg with
    | LError type uri args kwargs details => line (error_text type uri args kwargs details)
    | _ => wrong_type
    end
  else if bool_decide (t = MessageTypeGoodbye) then
    match view_log msg with
    | LGoodbye reason => line (goodbye_text reason)
    | _ => wrong_type
    end
  else if bool_decide (t = MessageTypeAbort) then
    match view_log msg with
    | LAbort reason args kwargs details =>
        line (MessageNameAbort +:+ " with reason " +:+ reason +:+ ", " +:+ args_text args kwargs +:+
          ", details=" +:+ kvs details)
    | _ => wrong_type
    end
  else line (marshal_text msg).

End LogText.

(** ** What a line tells *)

Definition message_names `{WampLog} : list string :=
  [MessageNameHello; MessageNameWelcome; MessageNameAbort; MessageNameChallenge;
   MessageNameAuthenticate; MessageNameGoodbye; MessageNameError; MessageNamePublish;
   MessageNamePublished; MessageNameSubscribe; MessageNameSubscribed; MessageNameUnsubscribe;
   MessageNameUnsubscribed; MessageNameEvent; MessageNameCall; MessageNameCancel;
   MessageNameResult; MessageNameRegister; MessageNameRegistered; MessageNameUnregister;
   MessageNameUnregistered; MessageNameInvocation; MessageNameInterrupt; MessageNameYield].

(** The type code of the messages of a dynamic type. *)
Definition log_type `{WampMessages} (v : log_view) : option Z :=
  match v with
  | LCall _ _ _ _ _ => Some MessageTypeCall
  | LYield _ _ _ _ => Some MessageTypeYield
  | LRegister _ _ _ => Some MessageTypeRegister
  | LUnregister _ _ => Some MessageTypeUnregister
  | LPublish _ _ _ _ => Some MessageTypePublish
  | LSubscribe _ _ _ => Some MessageTypeSubscribe
  | LUnsubscribe _ _ => Some MessageTypeUnsubscribe
  | LError _ _ _ _ _ => Some MessageTypeError
  | LGoodbye _ => Some MessageTypeGoodbye
  | LResult _ _ _ _ => Some MessageTypeResult
  | LInvocation _ _ _ _ _ => Some MessageTypeInvocation
  | LRegistered _ _ => Some MessageTypeRegistered
  | LUnregistered _ => Some MessageTypeUnregistered
  | LEvent _ _ _ _ _ => Some MessageTypeEvent
  | LPublished _ _ => Some MessageTypePublished
  | LSubscribed _ _ => Some MessageTypeSubscribed
  | LUnsubscribed _ => Some MessageTypeUnsubscribed
  | LAbort _ _ _ _ => Some MessageTypeAbort
  | LOther => None
  end.

(** What a router receives and what it sends, of the messages that have a line of
    their own. *)
Definition received_types `{WampMessages} : list Z :=
  [MessageTypeCall; MessageTypeYield; MessageTypeRegister; MessageTypeUnregister;
   MessageTypePublish; MessageTypeSubscribe; MessageTypeUnsubscribe; MessageTypeError;
   MessageTypeGoodbye].
Definition sent_types `{WampMessages} : list Z :=
  [MessageTypeResult; MessageTypeInvocation; MessageTypeRegistered; MessageTypeUnregistered;
   MessageTypeEvent; MessageTypePublished; MessageTypeSubscribed; MessageTypeUnsubscribed;
   MessageTypeError; MessageTypeGoodbye; MessageTypeAbort].

Class WampLogOk `{WampLog} : Prop := {
  (** A message has the dynamic type of its type code. *)
  view_log_type m :
    Message_Type m ∈ (received_types ++ sent_types)%list → log_type (view_log m) = Some (Message_Type m);
  (** The names of the messages are distinct words. *)
  names_differ : NoDup message_names;
  names_are_words n : n ∈ message_names → contains_byte " " n = false;
}.

Section LogSpec.
Context `{WampLogOk} `{!WampMessagesOk} `{FmtV}.

Lemma messageNameByID_nth i t n :
  message_types !! i = Some t → message_names !! i = Some n → messageNameByID t = n.
Proof.
  unfold message_types, message_names, messageNameByID.
  do 24 (destruct i as [|i]; [intros [= <-] [= <-]; by types_decide|]). done.
Qed.

(** In a case of the switch on [Message_Type msg = t]. *)
Local Ltac log_case t Ht :=
  let Hv := fresh in
  assert (Hv : log_type (view_log _) = Some t)
    by (rewrite <-Ht; apply view_log_type; rewrite Ht; unfold received_types, sent_types; simpl; types_in);
  rewrite Ht; types_decide;
  destruct (view_log _); simpl in Hv; try discriminate Hv; apply (inj Some) in Hv;
  try match type of Hv with ?u = ?v => exfalso; assert (u ≠ v) by types_ne; done end;
  match goal with |- context [messageNameByID t] =>
    let l := eval cbv beta delta [message_types] in message_types in
    let i := type_index t l in
    rewrite (messageNameByID_nth i t _ eq_refl eq_refl)
  end; eexists; reflexivity.

Lemma received_line ts msg :
  Message_Type msg ∈ received_types →
  ∃ rest, constructReceivedMsgLog ts msg =
    Returns (stamp ts "RX" +:+ messageNameByID (Message_Type msg) +:+ " " +:+ rest).
Proof.
  unfold constructReceivedMsgLog, received_types. rewrite !elem_of_cons.
  intros [Ht|[Ht|[Ht|[Ht|[Ht|[Ht|[Ht|[Ht|[Ht|[]%not_elem_of_nil]]]]]]]]].
  - log_case MessageTypeCall Ht.
  - log_case MessageTypeYield Ht.
  - log_case MessageTypeRegister Ht.
  - log_case MessageTypeUnregister Ht.
  - log_case MessageTypePublish Ht.
  - log_case MessageTypeSubscribe Ht.
  - log_case MessageTypeUnsubscribe Ht.
  - log_case MessageTypeError Ht.
  - log_case MessageTypeGoodbye Ht.
Qed.

Lemma sent_line ts msg :
  Message_Type msg ∈ sent_types →
  ∃ rest, constructSendingMsgLog ts msg =
    Returns (stamp ts "TX" +:+ messageNameByID (Message_Type msg) +:+ " " +:+ rest).
Proof.
  unfold constructSendingMsgLog, sent_types. rewrite !elem_of_cons.
  intros [Ht|[Ht|[Ht|[Ht|[Ht|[Ht|[Ht|[Ht|[Ht|[Ht|[Ht|[]%not_elem_of_nil]]]]]]]]]]].
  - log_case MessageTypeResult Ht.
  - log_case MessageTypeInvocation Ht.
  - log_case MessageTypeRegistered Ht.
  - log_case MessageTypeUnregistered Ht.
  - log_case MessageTypeEvent Ht.
  - log_case MessageTypePublished Ht.
  - log_case MessageTypeSubscribed Ht.
  - log_case MessageTypeUnsubscribed Ht.
  - log_case MessageTypeError Ht.
  - log_case MessageTypeGoodbye Ht.
  - log_case MessageTypeAbort Ht.
Qed.

(** The text up to the first space. *)
Fixpoint first_word (s : string) : string :=
  match s with
  | "" => ""
  | String c s => if bool_decide (c = " "%char) then "" else String c (first_word s)
  end.

Lemma first_word_app n rest : contains_byte " " n = false → first_word (n +:+ " " +:+ rest) = n.
Proof.
  induction n as [|c n IH]; [done|]. cbn [contains_byte]. intros [Hc Hn]%orb_false_iff.
  change (String c n +:+ " " +:+ rest) with (String c (n +:+ " " +:+ rest)). cbn [first_word].
  apply bool_decide_eq_false in Hc. rewrite bool_decide_false by congruence. by rewrite IH.
Qed.

Lemma Returns_inj {A} (a b : A) : Returns a = Returns b → a = b.
Proof. by intros [=]. Qed.

Lemma append_cancel (a b c : string) : a +:+ b = a +:+ c → b = c.
Proof. induction a as [|x a IH]; [done|]. intros Hx. injection Hx as Hx. by apply IH. Qed.

Lemma type_name t : t ∈ message_types → ∃ i n, message_types !! i = Some t ∧ message_names !! i = Some n ∧
  messageNameByID t = n.
Proof.
  intros [i Hi]%list_elem_of_lookup_1.
  assert (is_Some (message_names !! i)) as [n Hn].
  { apply lookup_lt_is_Some. apply lookup_lt_Some in Hi. exact Hi. }
  exists i, n. split_and!; [done..|]. by eapply messageNameByID_nth.
Qed.

Lemma name_is_word t : t ∈ message_types → contains_byte " " (messageNameByID t) = false.
Proof.
  intros (i & n & _ & Hn & ->)%type_name. apply names_are_words. by eapply list_elem_of_lookup_2.
Qed.

(** A name stands for one type of message. *)
Lemma names_tell_types t u :
  t ∈ message_types → u ∈ message_types → messageNameByID t = messageNameByID u → t = u.
Proof.
  intros (i & n & Hi & Hn & ->)%type_name (j & n' & Hj & Hn' & ->)%type_name <-.
  assert (i = j) as <- by exact (NoDup_lookup _ _ _ _ names_differ Hn Hn'). congruence.
Qed.

Lemma line_tells_type direction ts t u rest rest' :
  t ∈ message_types → u ∈ message_types →
  stamp ts direction +:+ messageNameByID t +:+ " " +:+ rest =
    stamp ts direction +:+ messageNameByID u +:+ " " +:+ rest' → t = u.
Proof.
  intros Ht Hu Heq%append_cancel%(f_equal first_word).
  rewrite !first_word_app in Heq by by apply name_is_word. by apply names_tell_types.
Qed.

(** A logged message can be told from its line: no message panics the session that
    logs it, the messages that a router receives and sends have lines that begin
    with the time, the direction and their name, and two of them that have the same
    line are of the same type. *)
Theorem lines_tell_the_type ts msg msg' :
  (Message_Type msg ∈ received_types → Message_Type msg' ∈ received_types →
   (∃ rest, constructReceivedMsgLog ts msg =
      Returns (stamp ts "RX" +:+ messageNameByID (Message_Type msg) +:+ " " +:+ rest)) ∧
   (constructReceivedMsgLog ts msg = constructReceivedMsgLog ts msg' →
    Message_Type msg = Message_Type msg')) ∧
  (Message_Type msg ∈ sent_types → Message_Type msg' ∈ sent_types →
   (∃ rest, constructSendingMsgLog ts msg =
      Returns (stamp ts "TX" +:+ messageNameByID (Message_Type msg) +:+ " " +:+ rest)) ∧
   (constructSendingMsgLog ts msg = constructSendingMsgLog ts msg' →
    Message_Type msg = Message_Type msg')).
Proof.
  assert (received_types ⊆ message_types) as Hr.
  { intros t. revert t. refine (proj1 (list.Forall_forall (λ t, t ∈ message_types) _) _). unfold received_types, message_types. repeat (apply Forall_cons_2; [types_in|]). done. }
  assert (sent_types ⊆ message_types) as Hs.
  { intros t. revert t. refine (proj1 (list.Forall_forall (λ t, t ∈ message_types) _) _). unfold sent_types, message_types. repeat (apply Forall_cons_2; [types_in|]). done. }
  split; intros Hm Hm'.
  - destruct (received_line ts msg Hm) as [rest ->], (received_line ts msg' Hm') as [rest' ->].
    split; [by eexists|]. intros Heq%Returns_inj. exact (line_tells_type _ _ _ _ _ _ (Hr _ Hm) (Hr _ Hm') Heq).
  - destruct (sent_line ts msg Hm) as [rest ->], (sent_line ts msg' Hm') as [rest' ->].
    split; [by eexists|]. intros Heq%Returns_inj. exact (line_tells_type _ _ _ _ _ _ (Hs _ Hm) (Hs _ Hm') Heq).
Qed.

(** The other messages are logged as they are marshalled. *)
Theorem other_lines_are_marshalled ts msg :
  (Message_Type msg ∉ received_types →
   constructReceivedMsgLog ts msg = Returns (stamp ts "RX" +:+ marshal_text msg)) ∧
  (Message_Type msg ∉ sent_types →
   constructSendingMsgLog ts msg = Returns (stamp ts "TX" +:+ marshal_text msg)).
Proof.
  unfold received_types, sent_types. rewrite !not_elem_of_cons.
  split; intros Hm; destruct_and?; unfold constructReceivedMsgLog, constructSendingMsgLog;
    by rewrite !bool_decide_false by done.
Qed.

End LogSpec.
