(* ===== verification/Accessors.v ===== *)
(** * Invocations, events and results (parser.go, types.go)

    The four types that hand a message's payload to user code.  Each wraps the
    positional arguments, the keyword arguments and the details, and offers
    the accessors of [List] on the first and of [Dict] on the second. *)

From Stdlib Require Import SpecFloat.
From S2P Require Import Prelude GoStd Wamp Values.

Local Open Scope string_scope.

(** A call as a procedure's handler sees it.  [SendProgress] is the closure that
    sends a progressive result, named by the request it answers. *)
Module Invocation.

Record Invocation := mk {
  args : List_t; kwargs : Dict_t; details : Dict_t; SendProgress : option Z }.

Section Invocation.
Context `{FloatConv} `{WampConstants}.

Definition NewInvocation (args : list any) (kwargs : dict) (details : dict) : Invocation :=
  mk (List.NewList args) (Dict.NewDict kwargs) (Dict.NewDict details) None.

Definition ArgUInt64 (x : Invocation) (index : Z) : result Z := List.UInt64 (args x) index.
Definition ArgUInt64Or (x : Invocation) (index : Z) (def : Z) : Z :=
  List.UInt64Or (args x) index def.
Definition ArgString (x : Invocation) (index : Z) : result string := List.Str (args x) index.
Definition ArgStringOr (x : Invocation) (index : Z) (def : string) : string :=
  List.StringOr (args x) index def.
Definition ArgBool (x : Invocation) (index : Z) : result bool := List.Bool (args x) index.
Definition ArgBoolOr (x : Invocation) (index : Z) (def : bool) : bool :=
  List.BoolOr (args x) index def.
Definition ArgFloat64 (x : Invocation) (index : Z) : result spec_float :=
  List.Float64 (args x) index.
Definition ArgFloat64Or (x : Invocation) (index : Z) (def : spec_float) : spec_float :=
  List.Float64Or (args x) index def.
Definition ArgInt64 (x : Invocation) (index : Z) : result Z := List.Int64 (args x) index.
Definition ArgInt64Or (x : Invocation) (index : Z) (def : Z) : Z :=
  List.Int64Or (args x) index def.
Definition ArgBytes (x : Invocation) (index : Z) : result string := List.Bytes (args x) index.
Definition ArgBytesOr (x : Invocation) (index : Z) (def : string) : string :=
  List.BytesOr (args x) index def.
Definition ArgsLen (x : Invocation) : Z := List.Len (args x).
Definition ArgList (x : Invocation) (index : Z) : result List_t := List.List (args x) index.
Definition ArgListOr (x : Invocation) (index : Z) (def : List_t) : List_t :=
  List.ListOr (args x) index def.
Definition ArgDict (x : Invocation) (index : Z) : result Dict_t := List.Dict (args x) index.
Definition ArgDictOr (x : Invocation) (index : Z) (def : Dict_t) : Dict_t :=
  List.DictOr (args x) index def.
Definition Args (x : Invocation) : list any := List.Raw (args x).
Definition KwargUInt64 (x : Invocation) (key : string) : result Z := Dict.UInt64 (kwargs x) key.
Definition KwargUInt64Or (x : Invocation) (key : string) (def : Z) : Z :=
  Dict.UInt64Or (kwargs x) key def.
Definition KwargString (x : Invocation) (key : string) : result string :=
  Dict.Str (kwargs x) key.
Definition KwargStringOr (x : Invocation) (key : string) (def : string) : string :=
  Dict.StringOr (kwargs x) key def.
Definition KwargBool (x : Invocation) (key : string) : result bool := Dict.Bool (kwargs x) key.
Definition KwargBoolOr (x : Invocation) (key : string) (def : bool) : bool :=
  Dict.BoolOr (kwargs x) key def.
Definition KwargFloat64 (x : Invocation) (key : string) : result spec_float :=
  Dict.Float64 (kwargs x) key.
Definition KwargFloat64Or (x : Invocation) (key : string) (def : spec_float) : spec_float :=
  Dict.Float64Or (kwargs x) key def.
Definition KwargInt64 (x : Invocation) (key : string) : result Z := Dict.Int64 (kwargs x) key.
Definition KwargInt64Or (x : Invocation) (key : string) (def : Z) : Z :=
  Dict.Int64Or (kwargs x) key def.
Definition KwargBytes (x : Invocation) (key : string) : result string :=
  Dict.Bytes (kwargs x) key.
Definition KwargBytesOr (x : Invocation) (key : string) (def : string) : string :=
  Dict.BytesOr (kwargs x) key def.
Definition KwargList (x : Invocation) (key : string) : result List_t :=
  Dict.List (kwargs x) key.
Definition KwargListOr (x : Invocation) (key : string) (def : List_t) : List_t :=
  Dict.ListOr (kwargs x) key def.
Definition KwargDict (x : Invocation) (key : string) : result Dict_t :=
  Dict.Dict (kwargs x) key.
Definition KwargDictOr (x : Invocation) (key : string) (def : Dict_t) : Dict_t :=
  Dict.DictOr (kwargs x) key def.
Definition KwargsLen (x : Invocation) : Z := Dict.Len (kwargs x).
Definition Kwargs (x : Invocation) : dict := Dict.Raw (kwargs x).
Definition Details (x : Invocation) : dict := Dict.Raw (details x).
Definition Procedure (x : Invocation) : string :=
  Dict.StringOr (details x) "procedure" EmptyString.
Definition Caller (x : Invocation) : Z := Dict.UInt64Or (details x) "caller" 0.
Definition CallerAuthID (x : Invocation) : string := Dict.StringOr (details x) "caller_authid" EmptyString.
Definition CallerAuthRole (x : Invocation) : string := Dict.StringOr (details x) "caller_authrole" EmptyString.
Definition Progress (x : Invocation) : bool :=
  ToBool (default ANil (Details x !! OptionProgress)).

End Invocation.
End Invocation.

(** A publication as a subscriber sees it. *)
Module Event.

Record Event := mk { args : List_t; kwargs : Dict_t; details : Dict_t }.

Section Event.
Context `{FloatConv} `{WampConstants}.

Definition NewEvent (args : list any) (kwargs : dict) (details : dict) : Event :=
  mk (List.NewList args) (Dict.NewDict kwargs) (Dict.NewDict details).

Definition ArgUInt64 (x : Event) (index : Z) : result Z := List.UInt64 (args x) index.
Definition ArgUInt64Or (x : Event) (index : Z) (def : Z) : Z :=
  List.UInt64Or (args x) index def.
Definition ArgString (x : Event) (index : Z) : result string := List.Str (args x) index.
Definition ArgStringOr (x : Event) (index : Z) (def : string) : string :=
  List.StringOr (args x) index def.
Definition ArgBool (x : Event) (index : Z) : result bool := List.Bool (args x) index.
Definition ArgBoolOr (x : Event) (index : Z) (def : bool) : bool :=
  List.BoolOr (args x) index def.
Definition ArgFloat64 (x : Event) (index : Z) : result spec_float :=
  List.Float64 (args x) index.
Definition ArgFloat64Or (x : Event) (index : Z) (def : spec_float) : spec_float :=
  List.Float64Or (args x) index def.
Definition ArgInt64 (x : Event) (index : Z) : result Z := List.Int64 (args x) index.
Definition ArgInt64Or (x : Event) (index : Z) (def : Z) : Z := List.Int64Or (args x) index def.
Definition ArgBytes (x : Event) (index : Z) : result string := List.Bytes (args x) index.
Definition ArgBytesOr (x : Event) (index : Z) (def : string) : string :=
  List.BytesOr (args x) index def.
Definition ArgList (x : Event) (index : Z) : result List_t := List.List (args x) index.
Definition ArgListOr (x : Event) (index : Z) (def : List_t) : List_t :=
  List.ListOr (args x) index def.
Definition ArgDict (x : Event) (index : Z) : result Dict_t := List.Dict (args x) index.
Definition ArgDictOr (x : Event) (index : Z) (def : Dict_t) : Dict_t :=
  List.DictOr (args x) index def.
Definition ArgsLen (x : Event) : Z := List.Len (args x).
Definition Args (x : Event) : list any := List.Raw (args x).
Definition KwargUInt64 (x : Event) (key : string) : result Z := Dict.UInt64 (kwargs x) key.
Definition KwargUInt64Or (x : Event) (key : string) (def : Z) : Z :=
  Dict.UInt64Or (kwargs x) key def.
Definition KwargString (x : Event) (key : string) : result string := Dict.Str (kwargs x) key.
Definition KwargStringOr (x : Event) (key : string) (def : string) : string :=
  Dict.StringOr (kwargs x) key def.
Definition KwargBool (x : Event) (key : string) : result bool := Dict.Bool (kwargs x) key.
Definition KwargBoolOr (x : Event) (key : string) (def : bool) : bool :=
  Dict.BoolOr (kwargs x) key def.
Definition KwargFloat64 (x : Event) (key : string) : result spec_float :=
  Dict.Float64 (kwargs x) key.
Definition KwargFloat64Or (x : Event) (key : string) (def : spec_float) : spec_float :=
  Dict.Float64Or (kwargs x) key def.
Definition KwargInt64 (x : Event) (key : string) : result Z := Dict.Int64 (kwargs x) key.
Definition KwargInt64Or (x : Event) (key : string) (def : Z) : Z :=
  Dict.Int64Or (kwargs x) key def.
Definition KwargBytes (x : Event) (key : string) : result string := Dict.Bytes (kwargs x) key.
Definition KwargBytesOr (x : Event) (key : string) (def : string) : string :=
  Dict.BytesOr (kwargs x) key def.
Definition KwargList (x : Event) (key : string) : result List_t := Dict.List (kwargs x) key.
Definition KwargListOr (x : Event) (key : string) (def : List_t) : List_t :=
  Dict.ListOr (kwargs x) key def.
Definition KwargDict (x : Event) (key : string) : result Dict_t := Dict.Dict (kwargs x) key.
Definition KwargDictOr (x : Event) (key : string) (def : Dict_t) : Dict_t :=
  Dict.DictOr (kwargs x) key def.
Definition KwargsLen (x : Event) : Z := Dict.Len (kwargs x).
Definition Kwargs (x : Event) : dict := Dict.Raw (kwargs x).
Definition Details (x : Event) : dict := Dict.Raw (details x).
Definition Topic (x : Event) : string := Dict.StringOr (details x) "topic" EmptyString.
Definition Publisher (x : Event) : Z := Dict.UInt64Or (details x) "publisher" 0.
Definition PublisherAuthID (x : Event) : string := Dict.StringOr (details x) "publisher_authid" EmptyString.
Definition PublisherAuthRole (x : Event) : string := Dict.StringOr (details x) "publisher_authrole" EmptyString.

End Event.
End Event.

(** A progressive result as a caller sees it. *)
Module ProgressResult.

Record ProgressResult := mk { args : List_t; kwargs : Dict_t; details : Dict_t }.

Section ProgressResult.
Context `{FloatConv} `{WampConstants}.

Definition ArgUInt64 (x : ProgressResult) (index : Z) : result Z := List.UInt64 (args x) index.
Definition ArgUInt64Or (x : ProgressResult) (index : Z) (def : Z) : Z :=
  List.UInt64Or (args x) index def.
Definition ArgString (x : ProgressResult) (index : Z) : result string :=
  List.Str (args x) index.
Definition ArgStringOr (x : ProgressResult) (index : Z) (def : string) : string :=
  List.StringOr (args x) index def.
Definition ArgBool (x : ProgressResult) (index : Z) : result bool := List.Bool (args x) index.
Definition ArgBoolOr (x : ProgressResult) (index : Z) (def : bool) : bool :=
  List.BoolOr (args x) index def.
Definition ArgFloat64 (x : ProgressResult) (index : Z) : result spec_float :=
  List.Float64 (args x) index.
Definition ArgFloat64Or (x : ProgressResult) (index : Z) (def : spec_float) : spec_float :=
  List.Float64Or (args x) index def.
Definition ArgInt64 (x : ProgressResult) (index : Z) : result Z := List.Int64 (args x) index.
Definition ArgInt64Or (x : ProgressResult) (index : Z) (def : Z) : Z :=
  List.Int64Or (args x) index def.
Definition ArgBytes (x : ProgressResult) (index : Z) : result string :=
  List.Bytes (args x) index.
Definition ArgBytesOr (x : ProgressResult) (index : Z) (def : string) : string :=
  List.BytesOr (args x) index def.
Definition ArgList (x : ProgressResult) (index : Z) : result List_t := List.List (args x) index.
Definition ArgListOr (x : ProgressResult) (index : Z) (def : List_t) : List_t :=
  List.ListOr (args x) index def.
Definition ArgDict (x : ProgressResult) (index : Z) : result Dict_t := List.Dict (args x) index.
Definition ArgDictOr (x : ProgressResult) (index : Z) (def : Dict_t) : Dict_t :=
  List.DictOr (args x) index def.
Definition ArgsLen (x : ProgressResult) : Z := List.Len (args x).
Definition Args (x : ProgressResult) : list any := List.Raw (args x).
Definition KwargUInt64 (x : ProgressResult) (key : string) : result Z :=
  Dict.UInt64 (kwargs x) key.
Definition KwargUInt64Or (x : ProgressResult) (key : string) (def : Z) : Z :=
  Dict.UInt64Or (kwargs x) key def.
Definition KwargString (x : ProgressResult) (key : string) : result string :=
  Dict.Str (kwargs x) key.
Definition KwargStringOr (x : ProgressResult) (key : string) (def : string) : string :=
  Dict.StringOr (kwargs x) key def.
Definition KwargBool (x : ProgressResult) (key : string) : result bool :=
  Dict.Bool (kwargs x) key.
Definition KwargBoolOr (x : ProgressResult) (key : string) (def : bool) : bool :=
  Dict.BoolOr (kwargs x) key def.
Definition KwargFloat64 (x : ProgressResult) (key : string) : result spec_float :=
  Dict.Float64 (kwargs x) key.
Definition KwargFloat64Or (x : ProgressResult) (key : string) (def : spec_float) : spec_float :=
  Dict.Float64Or (kwargs x) key def.
Definition KwargInt64 (x : ProgressResult) (key : string) : result Z :=
  Dict.Int64 (kwargs x) key.
Definition KwargInt64Or (x : ProgressResult) (key : string) (def : Z) : Z :=
  Dict.Int64Or (kwargs x) key def.
Definition KwargBytes (x : ProgressResult) (key : string) : result string :=
  Dict.Bytes (kwargs x) key.
Definition KwargBytesOr (x : ProgressResult) (key : string) (def : string) : string :=
  Dict.BytesOr (kwargs x) key def.
Definition KwargList (x : ProgressResult) (key : string) : result List_t :=
  Dict.List (kwargs x) key.
Definition KwargListOr (x : ProgressResult) (key : string) (def : List_t) : List_t :=
  Dict.ListOr (kwargs x) key def.
Definition KwargDict (x : ProgressResult) (key : string) : result Dict_t :=
  Dict.Dict (kwargs x) key.
Definition KwargDictOr (x : ProgressResult) (key : string) (def : Dict_t) : Dict_t :=
  Dict.DictOr (kwargs x) key def.
Definition KwargsLen (x : ProgressResult) : Z := Dict.Len (kwargs x).
Definition Kwargs (x : ProgressResult) : dict := Dict.Raw (kwargs x).
Definition Details (x : ProgressResult) : dict := Dict.Raw (details x).

End ProgressResult.
End ProgressResult.

(** The outcome of a call: its payload, or its error. *)
Module CallResponse.

Record CallResponse := mk { args : List_t; kwargs : Dict_t; details : Dict_t; Err_ : option error }.

Section CallResponse.
Context `{FloatConv} `{WampConstants}.

Definition ArgUInt64 (x : CallResponse) (index : Z) : result Z := List.UInt64 (args x) index.
Definition ArgUInt64Or (x : CallResponse) (index : Z) (def : Z) : Z :=
  List.UInt64Or (args x) index def.
Definition ArgString (x : CallResponse) (index : Z) : result string := List.Str (args x) index.
Definition ArgStringOr (x : CallResponse) (index : Z) (def : string) : string :=
  List.StringOr (args x) index def.
Definition ArgBool (x : CallResponse) (index : Z) : result bool := List.Bool (args x) index.
Definition ArgBoolOr (x : CallResponse) (index : Z) (def : bool) : bool :=
  List.BoolOr (args x) index def.
Definition ArgFloat64 (x : CallResponse) (index : Z) : result spec_float :=
  List.Float64 (args x) index.
Definition ArgFloat64Or (x : CallResponse) (index : Z) (def : spec_float) : spec_float :=
  List.Float64Or (args x) index def.
Definition ArgInt64 (x : CallResponse) (index : Z) : result Z := List.Int64 (args x) index.
Definition ArgInt64Or (x : CallResponse) (index : Z) (def : Z) : Z :=
  List.Int64Or (args x) index def.
Definition ArgBytes (x : CallResponse) (index : Z) : result string := List.Bytes (args x) index.
Definition ArgBytesOr (x : CallResponse) (index : Z) (def : string) : string :=
  List.BytesOr (args x) index def.
Definition ArgList (x : CallResponse) (index : Z) : result List_t := List.List (args x) index.
Definition ArgListOr (x : CallResponse) (index : Z) (def : List_t) : List_t :=
  List.ListOr (args x) index def.
Definition ArgDict (x : CallResponse) (index : Z) : result Dict_t := List.Dict (args x) index.
Definition ArgDictOr (x : CallResponse) (index : Z) (def : Dict_t) : Dict_t :=
  List.DictOr (args x) index def.
Definition ArgsLen (x : CallResponse) : Z := List.Len (args x).
Definition Args (x : CallResponse) : list any := List.Raw (args x).
Definition KwargUInt64 (x : CallResponse) (key : string) : result Z :=
  Dict.UInt64 (kwargs x) key.
Definition KwargUInt64Or (x : CallResponse) (key : string) (def : Z) : Z :=
  Dict.UInt64Or (kwargs x) key def.
Definition KwargString (x : CallResponse) (key : string) : result string :=
  Dict.Str (kwargs x) key.
Definition KwargStringOr (x : CallResponse) (key : string) (def : string) : string :=
  Dict.StringOr (kwargs x) key def.
Definition KwargBool (x : CallResponse) (key : string) : result bool :=
  Dict.Bool (kwargs x) key.
Definition KwargBoolOr (x : CallResponse) (key : string) (def : bool) : bool :=
  Dict.BoolOr (kwargs x) key def.
Definition KwargFloat64 (x : CallResponse) (key : string) : result spec_float :=
  Dict.Float64 (kwargs x) key.
Definition KwargFloat64Or (x : CallResponse) (key : string) (def : spec_float) : spec_float :=
  Dict.Float64Or (kwargs x) key def.
Definition KwargInt64 (x : CallResponse) (key : string) : result Z := Dict.Int64 (kwargs x) key.
Definition KwargInt64Or (x : CallResponse) (key : string) (def : Z) : Z :=
  Dict.Int64Or (kwargs x) key def.
Definition KwargBytes (x : CallResponse) (key : string) : result string :=
  Dict.Bytes (kwargs x) key.
Definition KwargBytesOr (x : CallResponse) (key : string) (def : string) : string :=
  Dict.BytesOr (kwargs x) key def.
Definition KwargsList (x : CallResponse) (key : string) : result List_t :=
  Dict.List (kwargs x) key.
Definition KwargListOr (x : CallResponse) (key : string) (def : List_t) : List_t :=
  Dict.ListOr (kwargs x) key def.
Definition KwargDict (x : CallResponse) (key : string) : result Dict_t :=
  Dict.Dict (kwargs x) key.
Definition KwargDictOr (x : CallResponse) (key : string) (def : Dict_t) : Dict_t :=
  Dict.DictOr (kwargs x) key def.
Definition KwargsLen (x : CallResponse) : Z := Dict.Len (kwargs x).
Definition Kwargs (x : CallResponse) : dict := Dict.Raw (kwargs x).
Definition Details (x : CallResponse) : dict := Dict.Raw (details x).

End CallResponse.
End CallResponse.

(** ** The result of an invocation (types.go) *)

Record InvocationResult := {
  res_Args : list any; res_Kwargs : dict; res_Details : dict; res_Err : string }.

Definition NewInvocationResult (args : list any) : InvocationResult :=
  {| res_Args := args; res_Kwargs := ∅; res_Details := ∅; res_Err := EmptyString |}.

Definition NewInvocationError (uri : string) (args : list any) : InvocationResult :=
  {| res_Args := args; res_Kwargs := ∅; res_Details := ∅; res_Err := uri |}.

(** ** Errors

    An ERROR message as a Go error: [Args] and [Kwargs] may be nil. *)

Module Error.

Record Error := mk { URI : string; Args : option (list any); Kwargs : option dict }.

Section Error.
Context `{FmtV} `{MapRange}.

(** [make([]string, n)] followed by [append] leaves [n] empty entries in front. *)
Definition kwarg_texts (kwargs : dict) : list string :=
  replicate (size kwargs) EmptyString
    ++ map (λ e, e.1 +:+ "=" +:+ fmt_v e.2) (range_entries kwargs).

Definition Error_ (e : Error) : string :=
  let errStr := URI e in
  let errStr :=
    match Args e with
    | Some args => errStr +:+ ": " +:+ Join (map fmt_v args) ", "
    | None => errStr
    end in
  match Kwargs e with
  | Some kwargs => errStr +:+ ": " +:+ Join (kwarg_texts kwargs) ", "
  | None => errStr
  end.

Definition of_msg (m : error_msg) : Error := mk (error_uri m) (error_args m) (error_kwargs m).

End Error.
End Error.
