(* ===== verification/Decoding.v ===== *)
(** * Decoding into Go values (parser.go, types.go)

    [Value], [List] and [Dict] decode into a value of the caller's type through
    [encoding/json]: they are marshalled and the result is unmarshalled.  The
    model keeps the value that the text in between denotes.  How a type takes
    it is an instance of [Destination]; those of [any] and [map[string]any] are
    defined here. *)

From stdpp Require Import sorting.
From Stdlib Require Import SpecFloat.
From S2P Require Import Prelude GoStd GoPath Values Wamp Accessors.

Local Open Scope string_scope.
Local Open Scope go_scope.

(** ** What a JSON text denotes

    The digits of a number depend on the type that is printed.  The members of
    an object are in the order of the text. *)

Inductive json :=
| JNull
| JBool (b : bool)
| JInt (z : Z) | JFloat32 (f : spec_float) | JFloat64 (f : spec_float)
| JString (s : string)
| JArray (l : list json)
| JObject (members : list (string * json)).

(** The bytes of U+FFFD. *)
Definition replacement : string :=
  String (ascii_of_nat 239) (String (ascii_of_nat 191) (String (ascii_of_nat 189) "")).

(** A string is written rune by rune, and a byte that is in none is replaced;
    [n] bytes of the last rune are left. *)
Fixpoint runes_from (n : nat) (s : string) : string :=
  match s with
  | EmptyString => ""
  | String c s' =>
      match n with
      | S n => String c (runes_from n s')
      | O =>
          let '(r, w) := DecodeRune s in
          if bool_decide (r = 65533%Z ∧ w = 1%nat) then replacement +:+ runes_from 0 s'
          else String c (runes_from (w - 1) s')
      end
  end.
Definition to_utf8 : string → string := runes_from 0.

Definition base64_digit (z : Z) : ascii :=
  default "A"%char (String.get (Z.to_nat (Z.land z 63))
    "ABCDEFGHIJKLMNOPQRSTUVWXYZabcdefghijklmnopqrstuvwxyz0123456789+/").
Definition byte_of (c : ascii) : Z := Z.of_nat (nat_of_ascii c).

(** [base64.StdEncoding], how a slice of bytes is written. *)
Fixpoint base64 (s : string) : string :=
  match s with
  | EmptyString => ""
  | String a EmptyString =>
      String (base64_digit (Z.shiftr (byte_of a) 2))
        (String (base64_digit (Z.shiftl (byte_of a) 4)) "==")
  | String a (String b EmptyString) =>
      String (base64_digit (Z.shiftr (byte_of a) 2))
        (String (base64_digit (Z.lor (Z.shiftl (byte_of a) 4) (Z.shiftr (byte_of b) 4)))
          (String (base64_digit (Z.shiftl (byte_of b) 2)) "="))
  | String a (String b (String c s)) =>
      String (base64_digit (Z.shiftr (byte_of a) 2))
        (String (base64_digit (Z.lor (Z.shiftl (byte_of a) 4) (Z.shiftr (byte_of b) 4)))
          (String (base64_digit (Z.lor (Z.shiftl (byte_of b) 2) (Z.shiftr (byte_of c) 6)))
            (String (base64_digit (byte_of c)) (base64 s))))
  end.

Definition finite (f : spec_float) : bool :=
  match f with S754_zero _ | S754_finite _ _ _ => true | _ => false end.
Definition number (mk : spec_float → json) (f : spec_float) : result json :=
  if finite f then Ok (mk f)
  else Err ("json: unsupported value: " +:+ fmt_f f).

(** The results of the elements, or the first error. *)
Fixpoint all_ok {A} (l : list (result A)) : result (list A) :=
  match l with
  | [] => Ok []
  | r :: l => let* a := r in let* l := all_ok l in Ok (a :: l)
  end.

Definition key_le {A} (x y : string * A) : Prop := String.le x.1 y.1.
#[global] Instance key_le_dec {A} (x y : string * A) : Decision (key_le x y).
Proof. unfold key_le. apply _. Defined.

(** The entries of a map are written in the order of their keys. *)
Definition members (entries : list (string * result json)) : result json :=
  rmap JObject (all_ok (map (λ e, rmap (pair (to_utf8 e.1)) e.2) (merge_sort key_le entries))).

Section Marshal.
(** What becomes of a value of a type that the model does not know. *)
Context (marshal_other : string → result json).

Fixpoint Marshal (v : any) : result json :=
  match v with
  | ANil => Ok JNull
  | ABool b => Ok (JBool b)
  | AString s => Ok (JString (to_utf8 s))
  | AInt z | AInt8 z | AInt16 z | AInt32 z | AInt64 z
  | AUint z | AUint8 z | AUint16 z | AUint32 z | AUint64 z | ADuration z => Ok (JInt z)
  | AFloat32 f => number JFloat32 f
  | AFloat64 f => number JFloat64 f
  | ABytes b => Ok (JString (base64 b))
  | ASlice l => rmap JArray (all_ok (map Marshal l))
  | AMap m => members (map_to_list (Marshal <$> m))
  | AUint64s l => Ok (JArray (map JInt l))
  | AStrings l => Ok (JArray (map (λ s, JString (to_utf8 s)) l))
  | AMaps l => rmap JArray (all_ok (map (λ m : dict, members (map_to_list (Marshal <$> m))) l))
  | AOther t => marshal_other t
  end.

(** A [map[int]any]: its keys are written in decimal. *)
Definition Marshal_ints (m : gmap Z any) : result json :=
  members (map (λ e, (pretty e.1, Marshal e.2)) (map_to_list m)).

(** ** The destinations *)

(** [json.Unmarshal] into a variable of type [T], which it may have changed when
    it returns an error. *)
Class Destination (T : Type) := Unmarshal : json → M T unit.

Definition wrap_error {T A} (prefix : string) (m : M T A) : M T A :=
  r ← try m; of_result (wrap prefix r).

Definition Value_Decode `{Destination T} (v : Value_t) : M T unit :=
  d ← of_result (wrap "failed to marshal value: " (Marshal (data v)));
  wrap_error "failed to decode value: " (Unmarshal d).

Definition raw_args (l : List_t) : gmap Z any :=
  list_to_map (imap (λ i v, (Z.of_nat i, Value.Raw v)) l).

Definition List_Decode `{Destination T} (l : List_t) : M T unit :=
  d ← of_result (wrap "failed to marshal args: " (Marshal_ints (raw_args l)));
  wrap_error "failed to decode args into struct: " (Unmarshal d).

Definition Dict_Decode `{Destination T} (d : Dict_t) : M T unit :=
  d ← of_result (wrap "failed to marshal kwargs: " (Marshal (AMap (Value.Raw <$> d))));
  wrap_error "failed to decode kwargs into struct: " (Unmarshal d).

Definition Invocation_ArgsStruct `{Destination T} (x : Invocation.Invocation) : M T unit :=
  List_Decode (Invocation.args x).
Definition Invocation_KwargsStruct `{Destination T} (x : Invocation.Invocation) : M T unit :=
  Dict_Decode (Invocation.kwargs x).
Definition Event_ArgsStruct `{Destination T} (x : Event.Event) : M T unit :=
  List_Decode (Event.args x).
Definition Event_KwargsStruct `{Destination T} (x : Event.Event) : M T unit :=
  Dict_Decode (Event.kwargs x).
Definition ProgressResult_ArgsStruct `{Destination T} (x : ProgressResult.ProgressResult) : M T unit :=
  List_Decode (ProgressResult.args x).
Definition ProgressResult_KwargsStruct `{Destination T} (x : ProgressResult.ProgressResult) : M T unit :=
  Dict_Decode (ProgressResult.kwargs x).
Definition CallResponse_ArgsStruct `{Destination T} (x : CallResponse.CallResponse) : M T unit :=
  List_Decode (CallResponse.args x).
Definition CallResponse_KwargsStruct `{Destination T} (x : CallResponse.CallResponse) : M T unit :=
  Dict_Decode (CallResponse.kwargs x).

(** The [float64] that the digits of a [float32] are read as. *)
Context (float32_digits : spec_float → spec_float).

(** A variable of type [any]; of members with the same key the last stays. *)
Fixpoint to_any (j : json) : any :=
  match j with
  | JNull => ANil
  | JBool b => ABool b
  | JInt z => AFloat64 (float64_of_int z)
  | JFloat32 f => AFloat64 (float32_digits f)
  | JFloat64 f => AFloat64 f
  | JString s => AString s
  | JArray l => ASlice (map to_any l)
  | JObject l => AMap (list_to_map (reverse (map (λ e, (e.1, to_any e.2)) l)))
  end.

#[local] Instance any_destination : Destination any := λ j, modify (λ _, to_any j).

Definition kind_of (j : json) : string :=
  match j with
  | JNull => "null" | JBool _ => "bool" | JString _ => "string"
  | JInt _ | JFloat32 _ | JFloat64 _ => "number"
  | JArray _ => "array" | JObject _ => "object"
  end.

(** A variable of type [map[string]any] keeps the entries it has. *)
#[local] Instance dict_destination : Destination dict := λ j,
  match j with
  | JNull => modify (λ _, ∅)
  | JObject l => modify (λ m, list_to_map (reverse (map (λ e, (e.1, to_any e.2)) l)) ∪ m)
  | _ => fail ("json: cannot unmarshal " +:+ kind_of j +:+
               " into Go value of type map[string]interface {}")
  end.

(** ** What decoding does *)

Lemma all_ok_map {A B} (f : A → result B) (g : A → B) l :
  (∀ x, x ∈ l → f x = Ok (g x)) → all_ok (map f l) = Ok (map g l).
Proof.
  induction l as [|x l IH]; intros Hf; [done|]. cbn. rewrite Hf by left. cbn.
  rewrite IH; [done|]. intros y Hy. apply Hf. by right.
Qed.

#[local] Instance key_le_total {A} : Total (@key_le A).
Proof. intros x y. apply (total String.le). Qed.
#[local] Instance key_le_trans {A} : Transitive (@key_le A).
Proof. intros x y z. apply (transitivity (R := String.le)). Qed.

Lemma fst_NoDup_inj {A} (l : list (string * A)) x y : NoDup l.*1 → x ∈ l → y ∈ l → x.1 = y.1 → x = y.
Proof.
  intros Hl [i Hi]%list_elem_of_lookup [j Hj]%list_elem_of_lookup He.
  assert (i = j) as ->; [|congruence].
  eapply NoDup_lookup; [done|by rewrite list_lookup_fmap, Hi|rewrite list_lookup_fmap, Hj; cbn; by rewrite He].
Qed.

(** An object does not depend on the order in which its entries are found. *)
Lemma members_perm l1 l2 : NoDup l1.*1 → l1 ≡ₚ l2 → members l1 = members l2.
Proof.
  intros Hl Hp. unfold members. do 3 f_equal.
  apply (StronglySorted_unique_strong key_le); try apply StronglySorted_merge_sort; try apply _.
  - intros x y Hx Hy Hxy Hyx. rewrite merge_sort_Permutation in Hx, Hy. rewrite <-Hp in Hy.
    apply (fst_NoDup_inj l1); [done..|]. by apply (anti_symm String.le).
  - by rewrite !merge_sort_Permutation.
Qed.

(** The arguments of a call by their positions. *)
Definition numbered {A} (l : list A) : gmap string A :=
  list_to_map (imap (λ i v, (pretty (Z.of_nat i), v)) l).

Lemma imap_fst {A B C} (f : nat → C) (g : A → B) (l : list A) :
  (imap (λ i v, (f i, g v)) l).*1 = map f (seq 0 (length l)).
Proof.
  apply list_eq. intros i. rewrite list_lookup_fmap, list_lookup_imap, list_lookup_fmap.
  destruct (decide (i < length l)%nat) as [Hi|Hi].
  - rewrite lookup_seq_lt by done. by destruct (lookup_lt_is_Some_2 l i Hi) as [x ->].
  - rewrite (lookup_ge_None_2 l) by lia. by rewrite lookup_seq_ge by lia.
Qed.

Lemma imap_keys_NoDup {A B C} (f : nat → C) `{!Inj (=) (=) f} (g : A → B) (l : list A) :
  NoDup (imap (λ i v, (f i, g v)) l).*1.
Proof. rewrite imap_fst. apply (NoDup_fmap_2 f), NoDup_seq. Qed.

#[local] Instance position_inj : Inj (=) (=) (λ i, pretty (Z.of_nat i)).
Proof. intros i j H%(inj pretty). lia. Qed.

Lemma numbered_lookup {A} (l : list A) i v :
  l !! i = Some v → numbered l !! pretty (Z.of_nat i) = Some v.
Proof.
  intros Hi. apply elem_of_list_to_map_1;
    [by apply (imap_keys_NoDup (λ i, pretty (Z.of_nat i)) id)|].
  apply list_elem_of_lookup. exists i. by rewrite list_lookup_imap, Hi.
Qed.

Lemma map_imap {A B C} (f : B → C) (g : nat → A → B) l : map f (imap g l) = imap (λ i v, f (g i v)) l.
Proof. apply list_eq. intros i. rewrite list_lookup_fmap, !list_lookup_imap. by destruct (l !! i). Qed.

Lemma map_to_list_entries {A B C} `{Countable C} (f : nat → C) `{!Inj (=) (=) f} (g : A → B) l :
  map_to_list (list_to_map (M := gmap C B) (imap (λ i v, (f i, g v)) l)) ≡ₚ imap (λ i v, (f i, g v)) l.
Proof. apply map_to_list_to_map. by apply imap_keys_NoDup. Qed.

(** The positions are the keys of a dictionary. *)
Lemma Marshal_args l :
  Marshal_ints (raw_args l) = Marshal (AMap (Value.Raw <$> numbered l)).
Proof.
  set (entries := imap (λ i v, (pretty (Z.of_nat i), Marshal (Value.Raw v))) l).
  assert (NoDup entries.*1) as He
    by exact (imap_keys_NoDup (λ i, pretty (Z.of_nat i)) (λ v, Marshal (Value.Raw v)) l).
  transitivity (members entries); [|symmetry].
  - unfold Marshal_ints, raw_args. symmetry. apply members_perm; [done|].
    rewrite (map_to_list_entries Z.of_nat Value.Raw). by rewrite map_imap.
  - cbn [Marshal]. symmetry. apply members_perm; [done|]. unfold numbered.
    rewrite <-map_fmap_compose, <-list_to_map_fmap.
    rewrite map_to_list_to_map; [|rewrite <-list_fmap_compose; by apply (imap_keys_NoDup _ id)].
    change (entries ≡ₚ map (prod_map id (Marshal ∘ Value.Raw))
      (imap (λ i v, (pretty (Z.of_nat i), v)) l)). by rewrite map_imap.
Qed.

(** Arguments decode by their positions: decoding them is decoding the
    dictionary that has each under its index in decimal, into whatever it is; the
    two leave the same, and only the texts of their errors differ. *)
Theorem arguments_decode_by_position `{Destination T} (l : List_t) (out : T) :
  (∀ i v, l !! i = Some v → numbered l !! pretty (Z.of_nat i) = Some v) ∧
  size (numbered l) = length l ∧
  (List_Decode l out).1 = (Dict_Decode (numbered l) out).1 ∧
  ∀ r, (List_Decode l out).2 = Val r ↔ (Dict_Decode (numbered l) out).2 = Val r.
Proof.
  split; [apply numbered_lookup|]. split.
  { rewrite <-length_map_to_list. unfold numbered. rewrite (map_to_list_entries _ id). apply length_imap. }
  unfold List_Decode, Dict_Decode. rewrite Marshal_args.
  unfold wrap_error, try, of_result, fail, mbind, M_bind, mret, M_ret.
  destruct (Marshal _) as [d|e]; cbn; [|done]. by destruct (Unmarshal d out) as [o [?|?|?|]].
Qed.

(** Values that JSON has as they are: strings of whole runes, finite floats,
    and what is made of them. *)
Inductive plain : any → Prop :=
| plain_nil : plain ANil
| plain_bool b : plain (ABool b)
| plain_string s : to_utf8 s = s → plain (AString s)
| plain_float f : finite f = true → plain (AFloat64 f)
| plain_slice l : (∀ i v, l !! i = Some v → plain v) → plain (ASlice l)
| plain_map m :
    (∀ k v, m !! k = Some v → to_utf8 k = k) → (∀ k v, m !! k = Some v → plain v) → plain (AMap m).

(** What [members] makes of entries that marshal to their encodings. *)
Lemma members_ok (m : dict) (g : any → json) :
  (∀ k v, m !! k = Some v → to_utf8 k = k ∧ Marshal v = Ok (g v)) →
  ∃ l, members (map_to_list (Marshal <$> m)) = Ok (JObject l) ∧
    l ≡ₚ map (prod_map id g) (map_to_list m).
Proof.
  intros Hm. unfold members.
  set (es := merge_sort key_le (map_to_list (Marshal <$> m))).
  assert (es ≡ₚ map (prod_map id Marshal) (map_to_list m)) as Hes.
  { unfold es. by rewrite merge_sort_Permutation, map_to_list_fmap. }
  set (enc := λ e : string * result json, (e.1, result_or JNull e.2)).
  exists (map enc es). split.
  - rewrite (all_ok_map _ enc); [done|]. intros [k r] He. rewrite Hes in He.
    apply list_elem_of_fmap in He as ([k' v] & [= -> ->] & Hv%elem_of_map_to_list).
    apply Hm in Hv as [Hk Hv]. unfold enc. cbn. by rewrite Hv, Hk.
  - rewrite Hes, map_map. erewrite map_ext_in; [done|]. intros [k v] Hv%list_elem_of_In.
    apply elem_of_map_to_list, Hm in Hv as [_ Hv]. unfold enc. cbn. by rewrite Hv.
Qed.

Lemma members_to_map (m : dict) l (g : any → json) :
  l ≡ₚ map (prod_map id g) (map_to_list m) → (∀ k v, m !! k = Some v → to_any (g v) = v) →
  list_to_map (reverse (map (λ e, (e.1, to_any e.2)) l)) = m.
Proof.
  intros Hl Hg. rewrite <-(list_to_map_to_list m) at 1.
  assert (map (λ e, (e.1, to_any e.2)) l ≡ₚ map_to_list m) as Hp.
  { rewrite Hl, map_map. erewrite map_ext_in, map_id; [done|].
    intros [k v] Hv%list_elem_of_In. cbn. f_equal. by eapply Hg, elem_of_map_to_list. }
  symmetry. apply list_to_map_proper; [apply NoDup_fst_map_to_list|].
  by rewrite reverse_Permutation, Hp.
Qed.

Lemma plain_roundtrip v :
  plain v → Marshal v = Ok (result_or JNull (Marshal v)) ∧ to_any (result_or JNull (Marshal v)) = v.
Proof.
  induction 1 as [|b|s Hs|f Hf|l _ IH|m Hm _ IH]; try done.
  - cbn. by rewrite Hs.
  - cbn. unfold number. by rewrite Hf.
  - set (g := λ v, result_or JNull (Marshal v)).
    assert (∀ v, v ∈ l → Marshal v = Ok (g v) ∧ to_any (g v) = v) as Hg.
    { intros v [i Hi]%list_elem_of_lookup. by eapply IH. }
    cbn [Marshal]. rewrite (all_ok_map _ g) by (intros v Hv; by apply Hg). cbn. split; [done|].
    rewrite map_map. erewrite map_ext_in, map_id; [done|].
    intros v Hv%list_elem_of_In. by apply Hg.
  - destruct (members_ok m (λ v, result_or JNull (Marshal v))) as (l & Hl & Hp).
    { intros k v Hv. split; [by eapply Hm|by eapply IH]. }
    cbn [Marshal]. rewrite Hl. cbn. split; [done|]. f_equal.
    eapply members_to_map; [exact Hp|]. intros k v Hv. by eapply IH.
Qed.

Lemma DecodeRune_ascii c s : (nat_of_ascii c < 128)%nat → DecodeRune (String c s) = (byte_of c, 1%nat).
Proof.
  intros Hc. unfold DecodeRune, byte_at, byte_of. cbn [String.get fmap option_fmap option_map default].
  by rewrite bool_decide_eq_true_2 by (simpl; lia).
Qed.

Lemma to_utf8_ascii c s :
  (nat_of_ascii c < 128)%nat → to_utf8 s = s → to_utf8 (String c s) = String c s.
Proof.
  intros Hc Hs. unfold to_utf8. cbn [runes_from]. rewrite DecodeRune_ascii by done.
  rewrite bool_decide_eq_false_2 by (unfold byte_of; lia). cbn. by f_equal.
Qed.

Lemma pretty_N_char_ascii n : (nat_of_ascii (pretty_N_char n) < 128)%nat.
Proof. unfold pretty_N_char. repeat case_match; apply (bool_decide_unpack _); vm_compute; done. Qed.

Lemma pretty_N_go_utf8 n s : to_utf8 s = s → to_utf8 (pretty_N_go n s) = pretty_N_go n s.
Proof.
  revert s. induction (N.lt_wf_0 n) as [n _ IH]. intros s Hs. destruct (decide (n = 0%N)) as [->|Hn]; [done|].
  rewrite pretty_N_go_step by lia. apply IH; [apply N.div_lt; lia|].
  apply to_utf8_ascii; [apply pretty_N_char_ascii|done].
Qed.

Lemma position_utf8 i : to_utf8 (pretty (Z.of_nat i)) = pretty (Z.of_nat i).
Proof. destruct i; [done|]. by apply (pretty_N_go_utf8 (Npos _) ""). Qed.

Lemma numbered_lookup_Some {A} (l : list A) k v :
  numbered l !! k = Some v → ∃ i, k = pretty (Z.of_nat i) ∧ l !! i = Some v.
Proof.
  intros (i & w & [= -> ->] & Hi)%elem_of_list_to_map_2%elem_of_lookup_imap_1. by exists i.
Qed.

Lemma plain_numbered l : (∀ i w, l !! i = Some w → plain w) → plain (AMap (numbered l)).
Proof.
  intros Hl. constructor; intros k v (i & -> & Hi)%numbered_lookup_Some; [apply position_utf8|by eapply Hl].
Qed.

(** C27. What JSON has as it is comes through decoding unchanged: a plain value
    into a variable of type [any], the arguments of a message into the map of
    their positions, and keyword arguments into a map, where they replace the
    entries of the same keys and leave the others. *)
Theorem plain_values_decode_to_themselves v l m (x : any) (out : dict) :
  plain v → (∀ i w, l !! i = Some w → plain w) → plain (AMap m) →
  Value_Decode (T := any) (NewValue v) x = (v, Val tt) ∧
  List_Decode (T := any) (List.NewList l) x = (AMap (numbered l), Val tt) ∧
  Dict_Decode (T := dict) (Dict.NewDict m) out = (m ∪ out, Val tt).
Proof.
  intros Hv Hl Hm.
  assert (∀ w, plain w → ∃ j, Marshal w = Ok j ∧ to_any j = w) as Hp.
  { intros w Hw. eexists. by apply plain_roundtrip. }
  unfold Value_Decode, List_Decode, Dict_Decode, wrap_error, try, of_result, Unmarshal, any_destination,
    mbind, M_bind, mret, M_ret. cbn [data]. split_and!.
  - destruct (Hp v Hv) as (j & -> & Hj). cbn. by rewrite Hj.
  - rewrite Marshal_args.
    assert (Value.Raw <$> numbered (List.NewList l) = numbered l) as ->.
    { unfold numbered. rewrite <-list_to_map_fmap. f_equal. unfold List.NewList.
      rewrite imap_fmap, fmap_imap. done. }
    destruct (Hp _ (plain_numbered l Hl)) as (j & -> & Hj). cbn. by rewrite Hj.
  - change (Value.Raw <$> Dict.NewDict m) with (Dict.Raw (Dict.NewDict m)). rewrite dict_roundtrip.
    destruct (Hp _ Hm) as (j & Hm' & Hj). rewrite Hm'.
    destruct j; try done. cbn in *. injection Hj as Hj. by rewrite Hj.
Qed.

End Marshal.

(** A value, two arguments and two keyword arguments, one of which a variable has
    already, with channels and functions as the types that cannot be marshalled. *)
Example plain_values_decode_to_themselves_witness :
  let unsupported := λ t, Err ("json: unsupported type: " +:+ t) in
  let v := ASlice [AString "john"; ANil; ABool true] in
  let m : dict := {["name" := AString "John Wick"; "trilogy" := ABool true]} in
  let out : dict := {["name" := AString "?"; "year" := ANil]} in
  Value_Decode unsupported (H := any_destination id) (NewValue v) ANil = (v, Val tt) ∧
  (Dict_Decode unsupported (H := dict_destination id) (Dict.NewDict m) out).1 = m ∪ out.
Proof.
  intros unsupported v m out.
  assert (plain v) as Hv.
  { constructor. intros [|[|[|i]]] w [= <-]; constructor. done. }
  assert (plain (AMap m)) as Hm.
  { constructor; intros k w [[<- <-]|[_ [<- <-]%lookup_singleton_Some]]%lookup_insert_Some;
      first [done|by constructor]. }
  destruct (plain_values_decode_to_themselves unsupported id v [AString "wick"] m ANil out)
    as (H1 & _ & H3); [done| |done|].
  { intros [|i] w [= <-]. by constructor. }
  split; [exact H1|by rewrite H3].
Defined.
