(* ===== verification/Sample.v ===== *)
(** * A concrete instance of the wampproto-go interface

    The theorems of the development hold for every implementation of the
    classes of [Wamp]; the witnesses evaluate them at this one.  It has the
    message types and constants of the WAMP specification, a serializer that
    prints the kind of a message, a broker that knows who subscribed to which
    topic and a dealer that knows who registered which procedure. *)

From S2P Require Import Prelude GoStd Wamp.

Local Open Scope string_scope.

Inductive sample_message :=
| Typed (v : msg_view)
| Untyped (t : Z).

Definition untyped_types : list Z := [1; 2; 3; 4; 5; 34; 66; 70]%Z.

Definition view_code (v : msg_view) : Z :=
  match v with
  | VCall _ => 48 | VRegister _ => 64 | VSubscribe _ => 32 | VPublish _ => 16
  | VCancel => 49 | VRegistered _ => 65 | VUnregistered _ => 67 | VSubscribed _ => 33
  | VUnsubscribed _ => 35 | VPublished _ => 17 | VResult _ => 50 | VInvocation _ => 68
  | VInterrupt _ => 69 | VEvent _ => 36 | VError _ => 8 | VGoodbye _ => 6 | VOther => 0
  end.

Definition sample_type (m : sample_message) : Z :=
  match m with
  | Typed v => view_code v
  | Untyped t => if bool_decide (t ∈ untyped_types) then t else 0
  end.

#[global] Instance sample_messages : WampMessages := {|
  Message := sample_message;
  Message_Type := sample_type;
  view m := match m with Typed v => v | Untyped _ => VOther end;
  Message_T _ := "*messages.Message";
  MessageTypeHello := 1; MessageTypeWelcome := 2; MessageTypeAbort := 3;
  MessageTypeChallenge := 4; MessageTypeAuthenticate := 5; MessageTypeGoodbye := 6;
  MessageTypeError := 8; MessageTypePublish := 16; MessageTypePublished := 17;
  MessageTypeSubscribe := 32; MessageTypeSubscribed := 33; MessageTypeUnsubscribe := 34;
  MessageTypeUnsubscribed := 35; MessageTypeEvent := 36; MessageTypeCall := 48;
  MessageTypeCancel := 49; MessageTypeResult := 50; MessageTypeRegister := 64;
  MessageTypeRegistered := 65; MessageTypeUnregister := 66; MessageTypeUnregistered := 67;
  MessageTypeInvocation := 68; MessageTypeInterrupt := 69; MessageTypeYield := 70;
  NewError t r _ u a k := Typed (VError {| error_type := t; error_id := r; error_uri := u;
                                           error_args := Some a; error_kwargs := Some k |});
  NewGoodBye r d := Typed (VGoodbye {| goodbye_details := d; goodbye_reason := r |});
  NewYield _ _ _ _ := Untyped 70;
  NewRegister r _ p := Typed (VRegister {| register_id := r; register_procedure := p |});
  NewUnregister _ _ := Untyped 66;
  NewSubscribe r _ t := Typed (VSubscribe {| subscribe_id := r; subscribe_topic := t |});
  NewUnsubscribe _ _ := Untyped 34;
  NewPublish r o t _ _ :=
    Typed (VPublish {| publish_id := r; publish_topic := t; publish_options := o |});
  NewCall r _ p _ _ := Typed (VCall {| call_id := r; call_procedure := p |});
  NewCallBinary r _ p _ _ := Typed (VCall {| call_id := r; call_procedure := p |});
  NewCancel _ _ := Typed VCancel;
|}.

#[global] Instance sample_messages_ok : WampMessagesOk.
Proof.
  split.
  - by apply (bool_decide_unpack _).
  - intros [v|t] u; simpl; [by destruct v; intros [= <-]|done].
  - intros [v|t]; simpl; [destruct v; try done; intros _|intros _; case_bool_decide as Ht].
    + by apply (bool_decide_unpack _).
    + revert Ht. unfold untyped_types. rewrite !elem_of_cons. intros Ht.
      destruct_or?; simplify_eq; try by apply (bool_decide_unpack _). set_solver.
    + by apply (bool_decide_unpack _).
  - done.
  - done.
Qed.

(** The serialized form of a message is the name of its kind. *)
#[global] Instance sample_serializers : WampSerializers := {|
  Serializer := unit;
  Serialize _ m :=
    match m with
    | Typed (VEvent _) => Ok "EVENT"
    | Typed (VError e) => Ok ("ERROR " +:+ error_uri e)
    | Typed (VGoodbye g) => Ok ("GOODBYE " +:+ goodbye_reason g)
    | Typed (VPublished _) => Ok "PUBLISHED"
    | Typed (VInvocation _) => Ok "INVOCATION"
    | Typed VOther => Err "cannot serialize"
    | m => Ok ("MESSAGE " +:+ pretty (sample_type m))
    end;
  Deserialize _ p :=
    if bool_decide (p = "EVENT")
    then Ok (Typed (VEvent {| event_subscription := 1; event_args := []; event_kwargs := ∅;
                              event_details := ∅ |}))
    else if bool_decide (p = "HELLO") then Ok (Untyped 1)
    else Err "cannot parse";
  Static _ := false;
  JSONSerializer := tt; CBORSerializer := tt; MsgPackSerializer := tt;
|}.

#[global] Instance sample_constants : WampConstants := {|
  MatchExact := "exact"; MatchPrefix := "prefix"; MatchWildcard := "wildcard";
  ErrAuthorizationFailed := "wamp.error.authorization_failed";
  OptionProgress := "progress"; OptionReceiveProgress := "receive_progress";
  OptionMode := "mode"; CancelModeKillNoWait := "killnowait";
  ToBool v := match v with ABool b => b | _ => false end;
  AsBool v := match v with ABool b => b | _ => false end;
|}.

#[global] Instance sample_constants_ok : WampConstantsOk.
Proof. by split. Qed.

(** Sessions and who asked for which topic (or offered which procedure). *)
Record sample_table := { sessions : list Z; entries : list (string * Z) }.

Definition table_add (id : Z) : M sample_table unit := λ t,
  if bool_decide (id ∈ sessions t) then (t, Fail "session already exists")
  else ({| sessions := id :: sessions t; entries := entries t |}, Val tt).

Definition table_remove (id : Z) : M sample_table unit := λ t,
  if bool_decide (id ∈ sessions t)
  then ({| sessions := filter (.≠ id) (sessions t);
           entries := filter (λ e, e.2 ≠ id) (entries t) |}, Val tt)
  else (t, Fail "session does not exist").

Definition table_enter (uri : string) (id : Z) : M sample_table unit :=
  modify (λ t, {| sessions := sessions t; entries := entries t ++ [(uri, id)] |}).

Definition table_at (uri : string) (t : sample_table) : list Z :=
  map snd (filter (λ e, e.1 = uri) (entries t)).

Definition sample_broker_message (id : Z) (m : sample_message) : M sample_table msg_to :=
  match m with
  | Typed (VSubscribe s) =>
      table_enter (subscribe_topic s) id;;
      mret {| mt_recipient := id; mt_message := Typed (VSubscribed
        {| subscribed_id := subscribe_id s; subscribed_subscription := 1 |}) |}
  | _ => fail "unexpected message"
  end.

Definition sample_publish (id : Z) (m : sample_message) : M sample_table publication :=
  match m with
  | Typed (VPublish p) =>
      r ← get (table_at (publish_topic p));
      mret {| p_recipients := r;
              p_event := Typed (VEvent {| event_subscription := 1; event_args := [];
                                          event_kwargs := ∅; event_details := ∅ |});
              p_ack :=
                if bool_at "acknowledge" (publish_options p)
                then Some {| mt_recipient := id;
                             mt_message := Typed (VPublished (publish_id p)) |}
                else None |}
  | _ => fail "unexpected message"
  end.

Definition sample_dealer_message (id : Z) (m : sample_message)
    : M sample_table (option msg_to) :=
  match m with
  | Typed (VRegister r) =>
      table_enter (register_procedure r) id;;
      mret (Some {| mt_recipient := id; mt_message := Typed (VRegistered
        {| registered_id := register_id r; registered_registration := 1 |}) |})
  | Typed (VCall c) =>
      callees ← get (table_at (call_procedure c));
      match callees with
      | callee :: _ =>
          mret (Some {| mt_recipient := callee; mt_message := Typed (VInvocation
            {| invocation_id := 1; invocation_registration := 1; invocation_args := [];
               invocation_kwargs := ∅; invocation_details := ∅ |}) |})
      | [] =>
          mret (Some {| mt_recipient := id; mt_message := Typed (VError
            {| error_type := 48; error_id := call_id c;
               error_uri := "wamp.error.no_such_procedure";
               error_args := None; error_kwargs := None |}) |})
      end
  | _ => fail "unexpected message"
  end.

#[global] Instance sample_routing : WampRouting := {|
  SessionDetails := Z;
  NewSessionDetails id _ _ _ _ _ _ := id;
  Broker := sample_table;
  NewBroker := {| sessions := []; entries := [] |};
  Broker_AddSession := table_add;
  Broker_RemoveSession := table_remove;
  Broker_AutoDisclosePublisher _ b := b;
  Broker_ReceiveMessage := sample_broker_message;
  Broker_ReceivePublish := sample_publish;
  Dealer := sample_table;
  NewDealer := {| sessions := []; entries := [] |};
  Dealer_AddSession := table_add;
  Dealer_RemoveSession := table_remove;
  Dealer_AutoDiscloseCaller _ d := d;
  Dealer_ReceiveMessage := sample_dealer_message;
  Dealer_ReceiveCancel _ _ := mret [];
|}.

#[global] Instance sample_routing_ok : WampRoutingOk.
Proof.
  split; intros; simpl;
    unfold table_add, table_remove, sample_broker_message, sample_publish,
      sample_dealer_message, table_enter; try (by go_effect);
    intros t; case_bool_decide; simpl; eauto.
Qed.

(** ** The rest of the environment *)

#[global] Instance sample_range : MapRange := {|
  range_entries _ _ _ _ m := map_to_list m; range_entries_perm _ _ _ _ m := Permutation_refl _ |}.

#[global] Instance sample_fmt : FmtV := {|
  fmt_v v := match v with AString s => s | _ => fmt_T v end; fmt_v_string s := eq_refl |}.
