(* ===== verification/Permissions.v ===== *)
(** * Permissions and URI matching (types.go)

    The permissions a role holds: which of the four actions each one allows
    and which URIs it covers. *)

From S2P Require Import Prelude GoStd GoPath Wamp.

Local Open Scope string_scope.

Record Permission := {
  URI : string;
  MatchPolicy : string;
  AllowCall : bool;
  AllowPublish : bool;
  AllowRegister : bool;
  AllowSubscribe : bool;
}.

Record RealmRole := { Name : string; Permissions : list Permission }.

Definition wildcardMatch (str pattern : string) : bool :=
  match Match pattern str with Some matched => matched | None => false end.

Definition Allows `{WampMessages} (p : Permission) (msgType : Z) : bool :=
  if bool_decide (msgType = MessageTypeCall) then AllowCall p
  else if bool_decide (msgType = MessageTypeRegister) then AllowRegister p
  else if bool_decide (msgType = MessageTypeSubscribe) then AllowSubscribe p
  else if bool_decide (msgType = MessageTypePublish) then AllowPublish p
  else false.

Definition MatchURI `{WampConstants} (p : Permission) (uri : string) : bool :=
  if bool_decide (MatchPolicy p = "" ∨ MatchPolicy p = MatchExact) then bool_decide (uri = URI p)
  else if bool_decide (MatchPolicy p = MatchPrefix) then HasPrefix uri (URI p)
  else if bool_decide (MatchPolicy p = MatchWildcard) then wildcardMatch uri (URI p)
  else false.

(** ** What a permission covers *)

(** The URIs under a policy, declaratively. *)
Inductive covers : Permission → string → Prop :=
| covers_exact p : MatchPolicy p ∈ [""; "exact"] → covers p (URI p)
| covers_prefix p rest : MatchPolicy p = "prefix" → covers p (URI p +:+ rest)
| covers_wildcard p uri :
    MatchPolicy p = "wildcard" → Glob (URI p) uri → covers p uri.

Lemma HasPrefix_spec s p : HasPrefix s p = true ↔ ∃ r, s = p +:+ r.
Proof.
  revert s. induction p as [|c p IH]; intros s; simpl.
  - split; [by exists s|done].
  - destruct s as [|d s]; [by split; [|intros [r ?]]|].
    rewrite andb_true_iff, bool_decide_eq_true, IH. split.
    + intros [-> [r ->]]. by exists r.
    + intros [r Hr]. injection Hr as -> Hr. eauto.
Qed.

Lemma wildcardMatch_glob uri pattern :
  simple_pattern pattern → no_slash uri →
  wildcardMatch uri pattern = true ↔ Glob pattern uri.
Proof.
  intros Hp Hu. rewrite <- Match_glob by done. unfold wildcardMatch.
  destruct (Match pattern uri) as [b|]; split; congruence.
Qed.

Section MatchURI.
Context `{WampConstantsOk}.

(** C12. A permission matches exactly the URIs its policy covers: the exact URI,
    the URIs it is a prefix of, or the instances of its pattern, in which a star
    stands for any text (dots included).  Any other policy covers nothing.  The
    pattern of a wildcard permission is one of literals and stars, and a slash
    does not occur in the URI. *)
Theorem MatchURI_covers p uri :
  (MatchPolicy p = "wildcard" → simple_pattern (URI p) ∧ no_slash uri) →
  MatchURI p uri = true ↔ covers p uri.
Proof.
  intros Hw. unfold MatchURI. rewrite MatchExact_spec, MatchPrefix_spec, MatchWildcard_spec.
  case_bool_decide as He; [|case_bool_decide as Hp; [|case_bool_decide as Hwc]].
  - rewrite bool_decide_eq_true. split; [intros ->; constructor; set_solver|].
    inversion 1; subst; [done| |]; destruct He; congruence.
  - rewrite HasPrefix_spec. split; [intros [r ->]; by constructor|].
    inversion 1; subst; [set_solver|eauto|congruence].
  - destruct (Hw Hwc) as [Hs Hn]. rewrite wildcardMatch_glob by done.
    split; [by constructor|]. inversion 1; subst; [set_solver|congruence|done].
  - split; [done|]. inversion 1; subst; set_solver.
Qed.

End MatchURI.
