(* ===== verification/Peers.v ===== *)
(** * Peers and base sessions (peer.go)

    A peer carries payloads over a connection through a bounded queue that a
    writer goroutine drains.  [Peer] is the queueing side shared by the
    WebSocket, RawSocket and in-memory peers; [base_session] is the session
    object the router holds for a client, which serializes messages and writes
    them to its peer.  [SessionOps] is what the realm relies on of a base
    session; [base_session_ops] discharges it.

    A call is one step, taken when it has the lock of the peer; [Close] then waits for
    the writer, for ever if that is [stalled] and the peer a raw socket. *)

From S2P Require Import Prelude GoStd Wamp.

Local Open Scope string_scope.

(** ** The outbound queue of a peer *)

Inductive TransportType :=
| TransportNone | TransportWebSocket | TransportRawSocket
| TransportInMemory | TransportQUIC | TransportWebTransport.

Definition ClientOutQueueSizeDefault : nat := 16%nat.
Definition RouterOutQueueSizeDefault : nat := 64.

(** 16 MB *)
Definition maxRawSocketPayload : Z := 16 * 1024 * 1024.

(** [stalled]: the writer is in a [Write] of the connection that does not return, as
    when the other end does not read any more.

    The methods of a raw-socket and of an in-memory peer run with its lock, but for the
    wait of [RawSocketPeer.Close].  A call is taken here at the moment when it has got
    the lock: that it then acts at once on the queue is shown of the goroutines in
    PeerRefine and LocalPeer, and that a [Write] which waits for room keeps the lock from
    the others, [Close] included, in PeerClose and LocalPeer. *)
Record Peer := mkPeer {
  transportType : TransportType;
  writeChan : list string;
  chan_cap : nat;
  closed : bool;
  stalled : bool;
}.

Definition ErrClosedPipe : error := "io: read/write on closed pipe".

Definition queue_size (OutQueueSize : nat) : nat :=
  if bool_decide (OutQueueSize = 0%nat) then ClientOutQueueSizeDefault else OutQueueSize.

Definition NewWebSocketPeer (OutQueueSize : nat) : Peer :=
  mkPeer TransportWebSocket [] (queue_size OutQueueSize) false false.
Definition NewRawSocketPeer (OutQueueSize : nat) : Peer :=
  mkPeer TransportRawSocket [] (queue_size OutQueueSize) false false.
Definition newLocalPeer (OutQueueSize : nat) : Peer :=
  mkPeer TransportInMemory [] (queue_size OutQueueSize) false false.
Definition NewInMemoryPeerPair (OutQueueSize : nat) : Peer * Peer :=
  (newLocalPeer OutQueueSize, newLocalPeer OutQueueSize).

Definition chan_full (p : Peer) : bool := bool_decide (chan_cap p ≤ length (writeChan p))%nat.

Definition push (data : string) (p : Peer) : Peer :=
  mkPeer (transportType p) (writeChan p ++ [data]) (chan_cap p) (closed p) (stalled p).

(** [select { case writeChan <- data: ... default: ... }] *)
Definition try_send (data : string) : M Peer bool := λ p,
  if chan_full p then (p, Val false) else (push data p, Val true).

(** [writeChan <- data] *)
Definition send (data : string) : M Peer unit := λ p,
  if chan_full p then (p, Blocks) else (push data p, Val tt).

Definition too_large (n : Z) : error :=
  "rawsocket payload too large: " +:+ pretty n +:+ " bytes (max "
    +:+ pretty maxRawSocketPayload +:+ ")".

Definition oversized (data : string) : bool :=
  bool_decide (maxRawSocketPayload < blen data)%Z.

Definition WebSocketPeer_TryWrite (data : string) : M Peer bool :=
  c ← get closed;
  if (c : bool) then fail ErrClosedPipe else try_send data.

Definition RawSocketPeer_TryWrite (data : string) : M Peer bool :=
  if oversized data then fail (too_large (blen data))
  else
    c ← get closed;
    if (c : bool) then fail ErrClosedPipe else try_send data.

Definition localPeer_TryWrite (data : string) : M Peer bool :=
  c ← get closed;
  if (c : bool) then fail ErrClosedPipe else try_send data.

Definition WebSocketPeer_Write (data : string) : M Peer unit :=
  c ← get closed;
  if (c : bool) then fail ErrClosedPipe else send data.

Definition RawSocketPeer_Write (data : string) : M Peer unit :=
  if oversized data then fail (too_large (blen data))
  else
    c ← get closed;
    if (c : bool) then fail ErrClosedPipe else send data.

Definition localPeer_Write (data : string) : M Peer unit :=
  c ← get closed;
  if (c : bool) then fail ErrClosedPipe else send data.

Definition mark_closed (p : Peer) : Peer :=
  mkPeer (transportType p) (writeChan p) (chan_cap p) true (stalled p).

(** [<-doneWriting], which the writer closes when it has seen that the peer is closed. *)
Definition wait_for_writer : M Peer unit := λ p, (p, if stalled p then Blocks else Val tt).

(** The wait for the writer, for a second at most. *)
Definition wait_a_second : M Peer unit := mret tt.

(** The three [Close] methods; the second call is a no-op.  A raw-socket peer waits
    for its writer as long as it takes, the others for a second; then the
    connection is closed. *)
Definition WebSocketPeer_Close : M Peer unit :=
  c ← get closed; if (c : bool) then mret tt else modify mark_closed;; wait_a_second.
Definition RawSocketPeer_Close : M Peer unit :=
  c ← get closed; if (c : bool) then mret tt else modify mark_closed;; wait_for_writer.
Definition localPeer_Close : M Peer unit :=
  c ← get closed; if (c : bool) then mret tt else modify mark_closed;; wait_a_second.

(** Dispatch of the [Peer] interface on the dynamic type of the peer. *)
Definition TryWrite (data : string) : M Peer bool := λ p,
  match transportType p with
  | TransportRawSocket => RawSocketPeer_TryWrite data p
  | TransportInMemory => localPeer_TryWrite data p
  | _ => WebSocketPeer_TryWrite data p
  end.

Definition Write (data : string) : M Peer unit := λ p,
  match transportType p with
  | TransportRawSocket => RawSocketPeer_Write data p
  | TransportInMemory => localPeer_Write data p
  | _ => WebSocketPeer_Write data p
  end.

Definition Close : M Peer unit := λ p,
  match transportType p with
  | TransportRawSocket => RawSocketPeer_Close p
  | TransportInMemory => localPeer_Close p
  | _ => WebSocketPeer_Close p
  end.

(** Whether the transport takes a payload of this size. *)
Definition fits (p : Peer) (data : string) : bool :=
  match transportType p with TransportRawSocket => negb (oversized data) | _ => true end.

(** What the rest of the library assumes of a peer that goroutines share: its
    state changes by the three calls, each at one moment, and by the writer,
    which takes the oldest payload. *)
Inductive peer_op : Peer → Peer → Prop :=
| op_try data ok p p' : TryWrite data p = (p', Val ok) → peer_op p p'
| op_write data p p' : Write data p = (p', Val tt) → peer_op p p'
| op_close p p' : Close p = (p', Val tt) → peer_op p p'
| op_take t payload q cap c b : peer_op (mkPeer t (payload :: q) cap c b) (mkPeer t q cap c b).

(** The queue never holds more than its capacity. *)
Definition peer_wf (p : Peer) : Prop := (length (writeChan p) ≤ chan_cap p)%nat.

Lemma TryWrite_run data p :
  TryWrite data p =
  if fits p data then
    if closed p then (p, Fail ErrClosedPipe)
    else if chan_full p then (p, Val false) else (push data p, Val true)
  else (p, Fail (too_large (blen data))).
Proof.
  unfold TryWrite, fits, RawSocketPeer_TryWrite, localPeer_TryWrite, WebSocketPeer_TryWrite.
  unfold get, mbind, M_bind, fail, try_send.
  destruct (transportType p); destruct (closed p) eqn:Hc; try done;
    destruct (oversized data); try done; by rewrite Hc.
Qed.

Lemma Write_run data p :
  Write data p =
  if fits p data then
    if closed p then (p, Fail ErrClosedPipe)
    else if chan_full p then (p, Blocks) else (push data p, Val tt)
  else (p, Fail (too_large (blen data))).
Proof.
  unfold Write, fits, RawSocketPeer_Write, localPeer_Write, WebSocketPeer_Write.
  unfold get, mbind, M_bind, fail, send.
  destruct (transportType p); destruct (closed p) eqn:Hc; try done;
    destruct (oversized data); try done; by rewrite Hc.
Qed.

(** [Close] returns at once or in a second: it does not wait for a writer that is
    stuck, or the peer is closed already. *)
Definition close_returns (p : Peer) : bool :=
  closed p || negb (stalled p) ||
  match transportType p with TransportRawSocket => false | _ => true end.

Lemma peer_close_run p :
  Close p = (mark_closed p, if close_returns p then Val tt else Blocks).
Proof.
  unfold Close, RawSocketPeer_Close, localPeer_Close, WebSocketPeer_Close, close_returns.
  destruct p as [t q c [] []]; by destruct t.
Qed.

Lemma peer_close_free p : stalled p = false → Close p = (mark_closed p, Val tt).
Proof.
  intros Hs. rewrite peer_close_run. unfold close_returns. by rewrite Hs, orb_true_r.
Qed.

Lemma push_wf data p : chan_full p = false → peer_wf p → peer_wf (push data p).
Proof.
  unfold chan_full, peer_wf, push. intros Hf%bool_decide_eq_false _. simpl.
  rewrite length_app. simpl. lia.
Qed.

(** ** The message tracker

    [trackLoops] counts the running [trackLoop] goroutines.  [stopTrackCh] is
    unbuffered and only ever received from, so [Stop]'s receive has no sender
    to meet and takes its default branch. *)

Record messageTracker := mkTracker {
  started : bool; rxCount : Z; txCount : Z; rxRate : Z; txRate : Z; trackLoops : nat }.

Definition newMessageTracker : messageTracker := mkTracker false 0 0 0 0 0.

Definition IncRx (m : messageTracker) : messageTracker :=
  mkTracker (started m) (wrap_uint64 (rxCount m + 1)) (txCount m) (rxRate m) (txRate m)
    (trackLoops m).
Definition IncTx (m : messageTracker) : messageTracker :=
  mkTracker (started m) (rxCount m) (wrap_uint64 (txCount m + 1)) (rxRate m) (txRate m)
    (trackLoops m).
Definition Rates (m : messageTracker) : Z * Z := (rxRate m, txRate m).

Definition tracker_Start : M messageTracker bool := λ m,
  if started m then (m, Val false)
  else (mkTracker true (rxCount m) (txCount m) (rxRate m) (txRate m) (S (trackLoops m)),
        Val true).

Definition tracker_Stop (m : messageTracker) : messageTracker :=
  mkTracker false (rxCount m) (txCount m) (rxRate m) (txRate m) (trackLoops m).

(** One tick of a running loop, whose interval is a whole number of seconds. *)
Definition trackLoop_tick (interval_s : Z) : M messageTracker unit := λ m,
  if bool_decide (interval_s = 0%Z) then (m, Crash "integer divide by zero")
  else (mkTracker (started m) 0 0 (rxCount m / interval_s) (txCount m / interval_s)
          (trackLoops m), Val tt).

(** ** Base sessions *)

(** The fields that identify a session; [ref] is the pointer to its state. *)
Record BaseSession := {
  ID : Z;
  Realm_ : string;
  AuthID : string;
  AuthRole : string;
  AuthMethod : string;
  AuthExtra : dict;
  ref : nat;
}.

(** What the realm relies on of the sessions it writes to: [St] is the state
    behind the session's pointer, with the payloads queued for the client. *)
Class SessionOps `{WampSerializers} (St : Type) := {
  session_serializer : St → Serializer;
  outbox : St → list string;
  session_closed : St → bool;
  TryWriteMessage : Message → M St bool;
  WriteMessage : Message → M St unit;
  CloseSession : M St unit;
  EnableLogPublishing : string → M St unit;
  DisableLogPublishing : M St unit;
  (** Whether a payload can be queued now, and whether a call of [Close] returns. *)
  accepts : St → string → bool;
  closes : St → bool;
}.

Class SessionOpsOk `{SessionOps St} : Prop := {
  (** A message is queued exactly when it serializes and the session accepts it. *)
  TryWriteMessage_queued s m p :
    Serialize (session_serializer s) m = Ok p → accepts s p = true →
    snd (TryWriteMessage m s) = Val true ∧
    outbox (fst (TryWriteMessage m s)) = (outbox s ++ [p])%list;
  TryWriteMessage_dropped s m :
    (∀ p, Serialize (session_serializer s) m = Ok p → accepts s p = false) →
    (snd (TryWriteMessage m s) = Val false ∨ ∃ e, snd (TryWriteMessage m s) = Fail e) ∧
    outbox (fst (TryWriteMessage m s)) = outbox s;
  TryWriteMessage_keeps s m :
    session_closed (fst (TryWriteMessage m s)) = session_closed s ∧
    session_serializer (fst (TryWriteMessage m s)) = session_serializer s ∧
    closes (fst (TryWriteMessage m s)) = closes s;
  (** A blocking write queues the message as well, when it is accepted. *)
  WriteMessage_queued s m p :
    Serialize (session_serializer s) m = Ok p → accepts s p = true →
    snd (WriteMessage m s) = Val tt ∧
    outbox (fst (WriteMessage m s)) = (outbox s ++ [p])%list;
  WriteMessage_keeps s m : closes (fst (WriteMessage m s)) = closes s;
  WriteMessage_closed s m p :
    Serialize (session_serializer s) m = Ok p → session_closed s = true →
    ∃ e, snd (WriteMessage m s) = Fail e;
  (** A closed session accepts nothing, and stays closed. *)
  CloseSession_ok s :
    snd (CloseSession s) = (if closes s then Val tt else Blocks) ∧
    session_closed (fst (CloseSession s)) = true ∧ outbox (fst (CloseSession s)) = outbox s;
  closes_closed s : session_closed s = true → closes s = true;
  accepts_open s p : accepts s p = true → session_closed s = false;
}.

Section SessionOps.
Context `{SessionOpsOk}.

(** What a write of [m] adds to the session's queue. *)
Definition queued (s : St) (m : Message) : list string :=
  match Serialize (session_serializer s) m with
  | Ok p => if accepts s p then [p] else []
  | Err _ => []
  end.

Lemma TryWriteMessage_outbox s m :
  outbox (TryWriteMessage m s).1 = (outbox s ++ queued s m)%list.
Proof.
  unfold queued. destruct (Serialize (session_serializer s) m) as [p|e] eqn:Hs.
  - destruct (accepts s p) eqn:Ha.
    + by apply TryWriteMessage_queued.
    + rewrite app_nil_r. apply TryWriteMessage_dropped. intros. congruence.
  - rewrite app_nil_r. apply TryWriteMessage_dropped. intros. congruence.
Qed.

Lemma TryWriteMessage_ends m : ends (TryWriteMessage m).
Proof.
  intros s. destruct (Serialize (session_serializer s) m) as [p|e] eqn:Hs.
  - destruct (accepts s p) eqn:Ha.
    + left. exists true. by apply (TryWriteMessage_queued s m p).
    + destruct (TryWriteMessage_dropped s m) as [[?|?] _]; [congruence|eauto..].
  - destruct (TryWriteMessage_dropped s m) as [[?|?] _]; [congruence|eauto..].
Qed.

(** Closing a session leaves it closed; the call returns, or waits for the writer. *)
Lemma ignore_CloseSession s :
  ignore CloseSession s = ((CloseSession s).1, if closes s then Val tt else Blocks).
Proof.
  destruct (CloseSession_ok s) as (Hv & _). unfold ignore, try, mbind, M_bind.
  destruct (CloseSession s) as [s' v]. simpl in *. subst v. by destruct (closes s).
Qed.

End SessionOps.

#[export] Hint Resolve TryWriteMessage_ends : go.

(** A log publication made through the management session. *)
Record log_event := { log_topic : string; log_sent : bool; log_type : Z; log_rates : Z * Z }.

Section base_session.
Context `{WampSerializers}.

Record base_session := mkBase {
  client : Peer;
  serializer : Serializer;
  publishLogs : bool;
  topic : string;
  tracker : messageTracker;
  (** what was published through the management session, oldest first *)
  logged : list log_event;
}.

Definition NewBaseSession (cl : Peer) (s : Serializer) : base_session :=
  mkBase cl s false "" newMessageTracker [].

Definition on_client {A} : M Peer A → M base_session A :=
  zoom client (λ p b,
    mkBase p (serializer b) (publishLogs b) (topic b) (tracker b) (logged b)).

(** The publication under the lock and [IncTx] or [IncRx] after it. *)
Definition publish_log (sent : bool) (m : Message) (b : base_session) : base_session :=
  if publishLogs b then
    mkBase (client b) (serializer b) (publishLogs b) (topic b)
      (if sent then IncTx (tracker b) else IncRx (tracker b))
      (logged b ++ [{| log_topic := topic b; log_sent := sent;
                       log_type := Message_Type m; log_rates := Rates (tracker b) |}])
  else b.

Definition base_EnableLogPublishing (t : string) : M base_session unit :=
  modify (λ b, mkBase (client b) (serializer b) true t
    (fst (tracker_Start (tracker b))) (logged b)).

Definition base_DisableLogPublishing : M base_session unit :=
  modify (λ b, mkBase (client b) (serializer b) false ""
    (tracker_Stop (tracker b)) (logged b)).

Definition constructWriteMessage (m : Message) : M base_session string :=
  s ← get serializer;
  payload ← of_result (Serialize s m);
  modify (publish_log true m);; mret payload.

Definition base_WriteMessage (m : Message) : M base_session unit :=
  payload ← constructWriteMessage m; on_client (Write payload).

Definition base_TryWriteMessage (m : Message) : M base_session bool :=
  payload ← constructWriteMessage m; on_client (TryWrite payload).

(** [ReadMessage], given the payload read from the peer. *)
Definition base_ReadMessage (read : result string) : M base_session Message :=
  payload ← of_result read;
  s ← get serializer;
  msg ← of_result (Deserialize s payload);
  modify (publish_log false msg);; mret msg.

Definition base_Close : M base_session unit := on_client Close.

#[global] Instance base_session_ops : SessionOps base_session := {|
  session_serializer := serializer;
  outbox b := writeChan (client b);
  session_closed b := closed (client b);
  TryWriteMessage := base_TryWriteMessage;
  WriteMessage := base_WriteMessage;
  CloseSession := base_Close;
  EnableLogPublishing := base_EnableLogPublishing;
  DisableLogPublishing := base_DisableLogPublishing;
  accepts b p := fits (client b) p && negb (closed (client b)) && negb (chan_full (client b));
  closes b := close_returns (client b);
|}.

Lemma publish_log_keeps sent m b :
  client (publish_log sent m b) = client b ∧ serializer (publish_log sent m b) = serializer b.
Proof. unfold publish_log. by destruct (publishLogs b). Qed.

Lemma base_TryWriteMessage_run m b :
  base_TryWriteMessage m b =
  match Serialize (serializer b) m with
  | Err e => (b, Fail e)
  | Ok p => on_client (TryWrite p) (publish_log true m b)
  end.
Proof.
  unfold base_TryWriteMessage, constructWriteMessage, get, of_result, fail, modify, mret, M_ret.
  unfold mbind, M_bind. by destruct (Serialize (serializer b) m).
Qed.

Lemma base_WriteMessage_run m b :
  base_WriteMessage m b =
  match Serialize (serializer b) m with
  | Err e => (b, Fail e)
  | Ok p => on_client (Write p) (publish_log true m b)
  end.
Proof.
  unfold base_WriteMessage, constructWriteMessage, get, of_result, fail, modify, mret, M_ret.
  unfold mbind, M_bind. by destruct (Serialize (serializer b) m).
Qed.

(** The sessions of peer.go keep the promises the realm relies on. *)
#[global] Instance base_session_ops_ok : SessionOpsOk (St := base_session).
Proof.
  split; simpl.
  - intros b m p Hs Ha. rewrite base_TryWriteMessage_run, Hs.
    unfold on_client, zoom. rewrite TryWrite_run.
    destruct (publish_log_keeps true m b) as [-> _].
    apply andb_true_iff in Ha as [[-> Hc]%andb_true_iff Hf].
    apply negb_true_iff in Hc as ->. by apply negb_true_iff in Hf as ->.
  - intros b m Ha. rewrite base_TryWriteMessage_run.
    destruct (Serialize (serializer b) m) as [p|e] eqn:Hs; [|by eauto].
    specialize (Ha p eq_refl). unfold on_client, zoom. rewrite TryWrite_run.
    destruct (publish_log_keeps true m b) as [-> _].
    destruct (fits (client b) p); [|by eauto].
    destruct (closed (client b)); [by eauto|].
    destruct (chan_full (client b)); [by eauto|done].
  - intros b m. rewrite base_TryWriteMessage_run.
    destruct (Serialize (serializer b) m) as [p|e] eqn:Hs; [|done].
    unfold on_client, zoom. rewrite TryWrite_run.
    destruct (publish_log_keeps true m b) as [-> Hser].
    by repeat case_match; simplify_eq/=.
  - intros b m p Hs Ha. rewrite base_WriteMessage_run, Hs.
    unfold on_client, zoom. rewrite Write_run.
    destruct (publish_log_keeps true m b) as [-> _].
    apply andb_true_iff in Ha as [[-> Hc]%andb_true_iff Hf].
    apply negb_true_iff in Hc as ->. by apply negb_true_iff in Hf as ->.
  - intros b m. rewrite base_WriteMessage_run.
    destruct (Serialize (serializer b) m) as [p|e] eqn:Hs; [|done].
    unfold on_client, zoom. rewrite Write_run.
    destruct (publish_log_keeps true m b) as [-> _].
    by repeat case_match; simplify_eq/=.
  - intros b m p Hs Hc. rewrite base_WriteMessage_run, Hs.
    unfold on_client, zoom. rewrite Write_run.
    destruct (publish_log_keeps true m b) as [-> _]. rewrite Hc.
    destruct (fits (client b) p); simpl; eauto.
  - intros b. unfold base_Close, on_client, zoom. by rewrite peer_close_run.
  - intros b Hc. unfold close_returns. by rewrite Hc.
  - intros b p Ha. by apply andb_true_iff in Ha as [[_ ?%negb_true_iff]%andb_true_iff _].
Qed.

End base_session.
