(* ===== verification/PeerClose.v ===== *)
(** * The goroutines of a raw-socket peer (peer.go)

    The writer goroutine, and any number of goroutines that call [Write],
    [TryWrite] and [Close], as a transition system.  A step is one of the
    actions the scheduler cannot split: a critical section, a channel
    operation, or a call on the connection, which may fail at any time.
    [Write] keeps the lock while it waits for room in the queue. *)

From S2P Require Import Prelude GoStd Peers.

Local Open Scope string_scope.

(** Where a goroutine that uses the peer is. *)
Inductive user :=
| WantWrite (data : string)
| HoldWrite (data : string)
| WantTry (data : string)
| WantClose
| WaitWriter
| HoldPong (payload : string)
| Finished (ok : bool).

(** The kinds of frames of [transports.Message]. *)
Inductive kind := MessageWamp | MessagePing | MessagePong.

#[global] Instance kind_eq_dec : EqDecision kind.
Proof. solve_decision. Defined.

(** [rsMsg] *)
Record rsMsg := mkRs { msgType : kind; rs_payload : string }.

Inductive writer_state :=
| WSelect
| WWrite (m : rsMsg)
| WFailed
| WDone.

#[global] Instance rsMsg_eq_dec : EqDecision rsMsg.
Proof. solve_decision. Defined.
#[global] Instance writer_state_eq_dec : EqDecision writer_state.
Proof. solve_decision. Defined.

Record peer_state := mkPS {
  queue : list string;
  capacity : nat;
  ctrl : list rsMsg;
  lock : option nat;
  is_closed : bool;
  closes : nat;         (* how often closeChan has been closed *)
  done_writing : bool;
  conn_closed : bool;
  writer : writer_state;
  users : gmap nat user;
  (* ghost: what was queued, and the frames written whole *)
  accepted : list string;
  wire : list rsMsg;
}.

Definition closeChan (s : peer_state) : bool := bool_decide (0 < closes s)%nat.

Definition set_user (g : nat) (u : user) (s : peer_state) : peer_state :=
  mkPS (queue s) (capacity s) (ctrl s) (lock s) (is_closed s) (closes s) (done_writing s)
    (conn_closed s) (writer s) (<[g := u]> (users s)) (accepted s) (wire s).
Definition set_lock (l : option nat) (s : peer_state) : peer_state :=
  mkPS (queue s) (capacity s) (ctrl s) l (is_closed s) (closes s) (done_writing s)
    (conn_closed s) (writer s) (users s) (accepted s) (wire s).
Definition enqueue (data : string) (s : peer_state) : peer_state :=
  mkPS (queue s ++ [data]) (capacity s) (ctrl s) (lock s) (is_closed s) (closes s)
    (done_writing s) (conn_closed s) (writer s) (users s) (accepted s ++ [data]) (wire s).
Definition enqueue_pong (payload : string) (s : peer_state) : peer_state :=
  mkPS (queue s) (capacity s) (ctrl s ++ [mkRs MessagePong payload]) (lock s) (is_closed s)
    (closes s) (done_writing s) (conn_closed s) (writer s) (users s) (accepted s) (wire s).
Definition set_writer (w : writer_state) (s : peer_state) : peer_state :=
  mkPS (queue s) (capacity s) (ctrl s) (lock s) (is_closed s) (closes s)
    (match w with WDone => true | _ => done_writing s end) (conn_closed s) w (users s)
    (accepted s) (wire s).
(** [r.closed = true; close(r.closeChan)] *)
Definition mark (s : peer_state) : peer_state :=
  mkPS (queue s) (capacity s) (ctrl s) (lock s) true (S (closes s)) (done_writing s)
    (conn_closed s) (writer s) (users s) (accepted s) (wire s).
Definition close_conn (s : peer_state) : peer_state :=
  mkPS (queue s) (capacity s) (ctrl s) (lock s) (is_closed s) (closes s) (done_writing s)
    true (writer s) (users s) (accepted s) (wire s).
Definition dequeue (q : list string) (s : peer_state) : peer_state :=
  mkPS q (capacity s) (ctrl s) (lock s) (is_closed s) (closes s) (done_writing s)
    (conn_closed s) (writer s) (users s) (accepted s) (wire s).
Definition dequeue_ctrl (q : list rsMsg) (s : peer_state) : peer_state :=
  mkPS (queue s) (capacity s) q (lock s) (is_closed s) (closes s) (done_writing s)
    (conn_closed s) (writer s) (users s) (accepted s) (wire s).
Definition transmit (m : rsMsg) (s : peer_state) : peer_state :=
  mkPS (queue s) (capacity s) (ctrl s) (lock s) (is_closed s) (closes s) (done_writing s)
    (conn_closed s) (writer s) (users s) (accepted s) (wire s ++ [m]).

Definition start (cap : nat) : peer_state :=
  mkPS [] cap [] None false 0 false false WSelect ∅ [] [].

Definition full (s : peer_state) : Prop := (capacity s ≤ length (queue s))%nat.
(** The capacity of [ctrlChan] *)
Definition ctrl_cap : nat := 2%nat.

(** [RawSocketPeer.Write] takes the lock and, if the peer is open, keeps it
    until the queue has room. *)
Inductive write_step (g : nat) : peer_state → peer_state → Prop :=
| write_begin data s :
    users s !! g = None → oversized data = false →
    write_step g s (set_user g (WantWrite data) s)
| write_too_large data s :
    users s !! g = None → oversized data = true → write_step g s (set_user g (Finished false) s)
| write_closed data s :
    users s !! g = Some (WantWrite data) → lock s = None → is_closed s = true →
    write_step g s (set_user g (Finished false) s)
| write_lock data s :
    users s !! g = Some (WantWrite data) → lock s = None → is_closed s = false →
    write_step g s (set_lock (Some g) (set_user g (HoldWrite data) s))
| write_send data s :
    users s !! g = Some (HoldWrite data) → ¬ full s →
    write_step g s (set_lock None (set_user g (Finished true) (enqueue data s))).

(** [RawSocketPeer.TryWrite]: one critical section. *)
Inductive try_step (g : nat) : peer_state → peer_state → Prop :=
| try_begin data s :
    users s !! g = None → oversized data = false →
    try_step g s (set_user g (WantTry data) s)
| try_too_large data s :
    users s !! g = None → oversized data = true → try_step g s (set_user g (Finished false) s)
| try_refused data s :
    users s !! g = Some (WantTry data) → lock s = None → is_closed s = true ∨ full s →
    try_step g s (set_user g (Finished false) s)
| try_queued data s :
    users s !! g = Some (WantTry data) → lock s = None → is_closed s = false → ¬ full s →
    try_step g s (set_user g (Finished true) (enqueue data s)).

(** [RawSocketPeer.Close]: marks the peer under the lock, and waits for the
    writer without it. *)
Inductive close_step (g : nat) : peer_state → peer_state → Prop :=
| close_begin s : users s !! g = None → close_step g s (set_user g WantClose s)
| close_again s :
    users s !! g = Some WantClose → lock s = None → is_closed s = true →
    close_step g s (set_user g (Finished true) s)
| close_mark s :
    users s !! g = Some WantClose → lock s = None → is_closed s = false →
    close_step g s (set_user g WaitWriter (mark s))
| close_end s :
    users s !! g = Some WaitWriter → done_writing s = true →
    close_step g s (set_user g (Finished true) (close_conn s)).

(** [RawSocketPeer.Read] of a ping: the reader waits for room in [ctrlChan],
    without the lock, to answer it. *)
Inductive read_step (g : nat) : peer_state → peer_state → Prop :=
| read_ping payload s :
    users s !! g = None → read_step g s (set_user g (HoldPong payload) s)
| read_pong payload s :
    users s !! g = Some (HoldPong payload) → (length (ctrl s) < ctrl_cap)%nat →
    read_step g s (set_user g (Finished true) (enqueue_pong payload s)).

(** [closeAfterWriteError], and the end of the writer after it. *)
Inductive fail_step : peer_state → peer_state → Prop :=
| fail_again s : lock s = None → is_closed s = true → fail_step s (set_writer WDone s)
| fail_close s :
    lock s = None → is_closed s = false → fail_step s (set_writer WDone (close_conn (mark s))).

(** [RawSocketPeer.writer].  [select] takes any ready case. *)
Inductive writer_step : peer_state → peer_state → Prop :=
| writer_take payload q s :
    writer s = WSelect → queue s = payload :: q →
    writer_step s (set_writer (WWrite (mkRs MessageWamp payload)) (dequeue q s))
| writer_take_ctrl m q s :
    writer s = WSelect → ctrl s = m :: q →
    writer_step s (set_writer (WWrite m) (dequeue_ctrl q s))
| writer_sent m s :
    writer s = WWrite m → conn_closed s = false →
    writer_step s (set_writer WSelect (transmit m s))
| writer_error m s :
    writer s = WWrite m → writer_step s (set_writer WFailed s)
| writer_stop s :
    writer s = WSelect → closeChan s = true → writer_step s (set_writer WDone s)
| writer_closes s s' :
    writer s = WFailed → fail_step s s' → writer_step s s'.

Definition step (s s' : peer_state) : Prop :=
  writer_step s s' ∨
  ∃ g, write_step g s s' ∨ try_step g s s' ∨ close_step g s s' ∨ read_step g s s'.

Ltac step_cases H :=
  let k := fresh "k" in
  destruct H as [H|(k & [H|[H|[H|H]]])]; destruct H;
  try match goal with F : fail_step _ _ |- _ => destruct F end.

(** ** What always holds *)

(** The payloads among the frames, and the one the writer is writing. *)
Definition wamp_payloads (l : list rsMsg) : list string :=
  rs_payload <$> filter (λ m, msgType m = MessageWamp) l.
Definition in_flight (s : peer_state) : list string :=
  match writer s with WWrite m => wamp_payloads [m] | _ => [] end.

(** The lock, the marks and the connection. *)
Record locking_inv (s : peer_state) : Prop := {
  (* closeChan is closed once, exactly when the peer is marked *)
  inv_closes : closes s = if is_closed s then 1%nat else 0%nat;
  (* the lock is held by the [Write] of an open peer that waits for room *)
  inv_lock g : lock s = Some g →
    is_closed s = false ∧ ∃ data, users s !! g = Some (HoldWrite data);
  inv_hold g data : users s !! g = Some (HoldWrite data) → lock s = Some g;
  (* [Close] waits for the writer of a marked peer *)
  inv_wait g : users s !! g = Some WaitWriter → is_closed s = true;
  inv_done : done_writing s = bool_decide (writer s = WDone);
  (* the connection is closed after the writer is done *)
  inv_conn : conn_closed s = true → is_closed s = true ∧ writer s = WDone;
  inv_stopped : writer s = WDone → is_closed s = true;
}.

(** The queues and the wire. *)
Record queueing_inv (s : peer_state) : Prop := {
  inv_bound : (length (queue s) ≤ capacity s)%nat;
  inv_ctrl : (length (ctrl s) ≤ ctrl_cap)%nat ∧ Forall (λ m, msgType m = MessagePong) (ctrl s);
  (* nothing is reordered, duplicated or invented *)
  inv_order : writer s = WSelect ∨ (∃ m, writer s = WWrite m) →
    accepted s = (wamp_payloads (wire s) ++ in_flight s ++ queue s)%list;
  inv_prefix : wamp_payloads (wire s) `prefix_of` accepted s;
}.

Ltac user_cases :=
  repeat match goal with
  | H : <[?g := _]> _ !! ?h = Some _ |- _ =>
      apply lookup_insert_Some in H as [[? ?]|[? ?]]; simplify_eq/=
  end.

Lemma wamp_payloads_app l m :
  wamp_payloads (l ++ m) = (wamp_payloads l ++ wamp_payloads m)%list.
Proof. unfold wamp_payloads. by rewrite filter_app, fmap_app. Qed.

Lemma closeChan_marked s : locking_inv s → closeChan s = is_closed s.
Proof. intros I. unfold closeChan. rewrite (inv_closes _ I). by destruct (is_closed s). Qed.

Ltac locking_tac I :=
  rewrite ?(inv_done _ I), ?(inv_closes _ I);
  match goal with
  | H : conn_closed _ = true |- _ => destruct (inv_conn _ I H); split; congruence
  | H : closeChan _ = true |- _ => rewrite (closeChan_marked _ I) in H; congruence
  | H : is_closed _ = false |- _ => by rewrite H
  | _ => congruence
  | _ => rewrite bool_decide_eq_false_2; congruence
  | _ => by rewrite bool_decide_eq_true_2
  end.

Lemma writer_step_locking s s' : writer_step s s' → locking_inv s → locking_inv s'.
Proof.
  intros Hs I. pose proof I as [Hc Hl Hh Hw Hd Hcn Hst].
  destruct Hs as [| | | | |s s' ? []]; split; simpl; intros; eauto; locking_tac I.
Qed.

(** A goroutine that moves between two states that neither hold the lock nor
    wait for the writer. *)
Definition idle (u : user) : Prop :=
  match u with HoldWrite _ | WaitWriter => False | _ => True end.

Lemma set_user_locking g u s :
  idle u → (∀ data, users s !! g ≠ Some (HoldWrite data)) →
  locking_inv s → locking_inv (set_user g u s).
Proof.
  intros Hi Hg [Hc Hl Hh Hw Hd Hcn Hst]. split; simpl; intros; user_cases; eauto; try done.
  destruct (Hl _ H) as (? & data & Hu). split; [done|]. exists data.
  rewrite lookup_insert_ne; [done|]. intros ->. by eapply Hg.
Qed.

Lemma enqueue_locking data s : locking_inv s → locking_inv (enqueue data s).
Proof. by intros []. Qed.
Lemma enqueue_pong_locking data s : locking_inv s → locking_inv (enqueue_pong data s).
Proof. by intros []. Qed.

Lemma write_lock_locking g data s :
  lock s = None → is_closed s = false →
  locking_inv s → locking_inv (set_lock (Some g) (set_user g (HoldWrite data) s)).
Proof.
  intros Hn Ho [Hc Hl Hh Hw Hd Hcn Hst]. split; simpl; intros; user_cases; eauto.
  - simplify_eq. split; [done|]. exists data. apply lookup_insert_eq.
  - apply Hh in H0. congruence.
Qed.

Lemma write_send_locking g data s :
  users s !! g = Some (HoldWrite data) →
  locking_inv s → locking_inv (set_lock None (set_user g (Finished true) s)).
Proof.
  intros Hu [Hc Hl Hh Hw Hd Hcn Hst]. split; simpl; intros; user_cases; eauto; try done.
  apply Hh in Hu, H0. congruence.
Qed.

Lemma close_mark_locking g s :
  lock s = None → is_closed s = false →
  locking_inv s → locking_inv (set_user g WaitWriter (mark s)).
Proof.
  intros Hn Ho [Hc Hl Hh Hw Hd Hcn Hst]. split; simpl; intros; user_cases; eauto; try congruence.
  - by rewrite Hc, Ho.
  - apply Hcn in H. naive_solver.
Qed.

Lemma close_conn_locking s :
  done_writing s = true → locking_inv s → locking_inv (close_conn s).
Proof.
  intros Hn [Hc Hl Hh Hw Hd Hcn Hst]. split; simpl; intros; eauto.
  rewrite Hd in Hn. apply bool_decide_eq_true in Hn. eauto.
Qed.

Lemma step_locking s s' : step s s' → locking_inv s → locking_inv s'.
Proof.
  intros [H|(g & H)] I; [by eapply writer_step_locking|].
  destruct H as [H|[H|[H|H]]]; destruct H.
  all: try (apply set_user_locking; [done|simpl; congruence|try apply enqueue_locking;
    try apply enqueue_pong_locking; try (apply close_conn_locking; [done|]); exact I]).
  - by apply write_lock_locking.
  - by apply (write_send_locking g data (enqueue data s)), enqueue_locking.
  - by apply close_mark_locking.
Qed.

Lemma writer_step_queueing s s' : writer_step s s' → queueing_inv s → queueing_inv s'.
Proof.
  intros Hs [Hb [Hc1 Hc2] Ho Hp]. destruct Hs as [p q s Hw Hq|m q s Hw Hq|m s Hw Hcc|m s Hw|s|s s' ? []].
  - split; simpl; try done; [rewrite Hq in Hb; simpl in *; lia|].
    intros _. rewrite Ho by eauto. unfold in_flight. rewrite Hw, Hq. by simpl.
  - rewrite Hq in *. apply Forall_cons in Hc2 as [Hm Hc2].
    split; simpl in *; try done; [split; [lia|done]|].
    intros _. rewrite Ho by eauto. unfold in_flight, wamp_payloads. rewrite Hw. simpl.
    rewrite filter_cons_False; [done|]. simpl. by rewrite Hm.
  - specialize (Ho (or_intror (ex_intro _ m Hw))). unfold in_flight in Ho. rewrite Hw in Ho.
    split; simpl; try done.
    + intros _. by rewrite wamp_payloads_app, <-(assoc_L app).
    + rewrite wamp_payloads_app, Ho. exists (queue s). by rewrite <-(assoc_L app).
  - split; simpl; try done. intros [|[? ?]]; done.
  - split; simpl; try done. intros [|[? ?]]; done.
  - split; simpl; try done. intros [|[? ?]]; done.
  - split; simpl; try done. intros [|[? ?]]; done.
Qed.

Lemma enqueue_queueing data s : ¬ full s → queueing_inv s → queueing_inv (enqueue data s).
Proof.
  unfold full. intros Hf [Hb Hc Ho Hp]. split; simpl; try done.
  - rewrite length_app. simpl. lia.
  - intros Hw. rewrite Ho by done. unfold in_flight. simpl. by rewrite <-!(assoc_L app).
  - by apply prefix_app_r.
Qed.

Lemma enqueue_pong_queueing data s :
  (length (ctrl s) < ctrl_cap)%nat → queueing_inv s → queueing_inv (enqueue_pong data s).
Proof.
  intros Hf [Hb [Hc1 Hc2] Ho Hp]. split; simpl; try done. rewrite length_app. simpl.
  split; [lia|]. apply Forall_app. by repeat constructor.
Qed.

Lemma step_queueing s s' : step s s' → queueing_inv s → queueing_inv s'.
Proof.
  intros [H|(g & H)] I; [by eapply writer_step_queueing|].
  assert (∀ u t, queueing_inv t → queueing_inv (set_user g u t)) as Hset by (by intros ? ? []).
  destruct H as [H|[H|[H|H]]]; destruct H; try (by apply Hset).
  - destruct I. by split.
  - by destruct (enqueue_queueing data s).
  - by apply Hset, enqueue_queueing.
  - destruct I. by split.
  - destruct I. by split.
  - by apply Hset, enqueue_pong_queueing.
Qed.

Lemma steps_inv s s' :
  rtc step s s' → locking_inv s ∧ queueing_inv s → locking_inv s' ∧ queueing_inv s'.
Proof. induction 1 as [|s t s' Hs _ IH]; [done|]. intros []. eauto using step_locking, step_queueing. Qed.

Lemma reachable_inv cap s : rtc step (start cap) s → locking_inv s ∧ queueing_inv s.
Proof.
  intros Hr. apply (steps_inv _ _ Hr). split; split; simpl; try done; try lia.
  split; [lia|done].
Qed.

(** Whatever the interleaving of writes, closes, pings and failures of the
    connection, the peer closes [closeChan] at most once (closing it again
    would panic), its queue stays within its capacity, and the payloads on the
    connection are the queued ones, in order, none twice. *)
Theorem peer_transmits_in_order cap s :
  rtc step (start cap) s →
  (closes s ≤ 1)%nat ∧ (length (queue s) ≤ capacity s)%nat ∧
  wamp_payloads (wire s) `prefix_of` accepted s.
Proof.
  intros [[Hc _ _ _ _ _ _] [Hb _ _ Hp]]%reachable_inv. split; [|done].
  rewrite Hc. destruct (is_closed s); lia.
Qed.

(** ** Closing *)

Lemma step_writer s s' : writer_step s s' → step s s'.
Proof. by left. Qed.
Lemma step_close g s s' : close_step g s s' → step s s'.
Proof. right. exists g. auto. Qed.
Lemma step_write g s s' : write_step g s s' → step s s'.
Proof. right. exists g. auto. Qed.

(** A marked peer whose writer is at work: the writer can stop. *)
Lemma writer_can_stop s :
  locking_inv s → is_closed s = true → lock s = None →
  ∃ s', rtc step s s' ∧ done_writing s' = true ∧ users s' = users s.
Proof.
  intros I Hm Hn. assert (closeChan s = true) as Hcc by (by rewrite (closeChan_marked _ I)).
  destruct (writer s) as [|m| |] eqn:Hw.
  - eexists. split; [apply rtc_once, step_writer, writer_stop; done|done].
  - exists (set_writer WDone (set_writer WFailed s)). split; [|done].
    eapply rtc_l; [eapply step_writer, writer_error, Hw|].
    by apply rtc_once, step_writer, writer_closes, fail_again.
  - eexists. split; [by apply rtc_once, step_writer, writer_closes, fail_again|done].
  - exists s. split; [done|]. split; [|done]. by rewrite (inv_done _ I), Hw.
Qed.

(** A [Close] can run to its end from every state in which no [Write]
    holds the lock: the writer, wherever it is, can stop. *)
Theorem close_can_finish cap s g :
  rtc step (start cap) s → users s !! g = Some WantClose → lock s = None →
  ∃ s', rtc step s s' ∧ users s' !! g = Some (Finished true) ∧ is_closed s' = true.
Proof.
  intros [I Q]%reachable_inv Hg Hn. destruct (is_closed s) eqn:Hm.
  { eexists. split; [eapply rtc_once, step_close, close_again; eassumption|].
    split; [apply lookup_insert_eq|done]. }
  assert (step s (set_user g WaitWriter (mark s))) as Hs by (by apply (step_close g), close_mark).
  destruct (writer_can_stop (set_user g WaitWriter (mark s))) as (s' & Hr & Hd & Hu);
    [by eapply step_locking|done|done|].
  assert (users s' !! g = Some WaitWriter) as Hw by (rewrite Hu; apply lookup_insert_eq).
  assert (is_closed s' = true) as Hcl.
  { apply (inv_wait _ (proj1 (steps_inv _ _ (rtc_l _ _ _ _ Hs Hr) (conj I Q))) g Hw). }
  exists (set_user g (Finished true) (close_conn s')). split; [|split; [|done]].
  - eapply rtc_l; [done|]. eapply rtc_r; [done|]. by apply (step_close g), close_end.
  - apply lookup_insert_eq.
Qed.

(** ** A [Write] that waits for a writer that cannot write *)

(** The writer waits for the lock, which is held by a [Write] that waits for
    the writer. *)
Definition deadlocked (g : nat) (data : string) (s : peer_state) : Prop :=
  writer s = WFailed ∧ lock s = Some g ∧ full s ∧ users s !! g = Some (HoldWrite data).

Lemma set_user_deadlocked g data k u s :
  k ≠ g → deadlocked g data s → deadlocked g data (set_user k u s).
Proof.
  unfold deadlocked. intros Hk (? & ? & ? & ?). repeat split; try done. simpl.
  by rewrite lookup_insert_ne.
Qed.

Lemma deadlocked_step g data s s' :
  locking_inv s → step s s' → deadlocked g data s → deadlocked g data s'.
Proof.
  intros I Hs D. pose proof D as (Hw & Hl & Hf & Hu).
  assert (is_closed s = false) as Hc by (by eapply inv_lock).
  step_cases Hs; try congruence.
  all: try (apply set_user_deadlocked; [congruence|done]).
Qed.

(** What waits for the lock of a deadlocked peer waits for ever. *)
Lemma deadlocked_waits g data h u s s' :
  u = WantClose ∨ (∃ d, u = WantWrite d) ∨ (∃ d, u = WantTry d) →
  locking_inv s → step s s' → deadlocked g data s →
  users s !! h = Some u → users s' !! h = Some u.
Proof.
  intros Hwait I Hs (Hw & Hl & Hf & Hu) Hh.
  step_cases Hs; simpl; try congruence.
  all: try (rewrite lookup_insert_ne; [done|]; intros ->; naive_solver).
Qed.

Lemma write_runs g data s :
  users s !! g = None → oversized data = false → lock s = None → is_closed s = false →
  step s (set_user g (WantWrite data) s) ∧
  step (set_user g (WantWrite data) s)
    (set_lock (Some g) (set_user g (HoldWrite data) (set_user g (WantWrite data) s))).
Proof.
  intros Hg Ho Hl Hc. split; [by apply (step_write g), write_begin|].
  apply (step_write g), write_lock; [apply lookup_insert_eq|done..].
Qed.

(** The states a peer with a busy writer goes through while its queue fills:
    goroutines from [k] on are unused. *)
Definition filling (k : nat) (m : rsMsg) (n : nat) (s : peer_state) : Prop :=
  writer s = WWrite m ∧ lock s = None ∧ is_closed s = false ∧ length (queue s) = n ∧
  ∀ h, (k ≤ h)%nat → users s !! h = None.

Lemma fill_one k m n s :
  filling k m n s → (n < capacity s)%nat →
  ∃ s', rtc step s s' ∧ filling (S k) m (S n) s' ∧ capacity s' = capacity s.
Proof.
  intros (Hw & Hl & Hc & Hq & Hu) Hn.
  destruct (write_runs k "x" s) as [H1 H2]; [by apply Hu|done..|].
  set (t := set_lock _ _) in H2.
  assert (step t (set_lock None (set_user k (Finished true) (enqueue "x" t)))) as H3.
  { apply (step_write k), write_send; [apply lookup_insert_eq|]. unfold full. simpl. lia. }
  eexists. split; [eapply rtc_l, rtc_l, rtc_once; eassumption|]. split; [|done].
  repeat split; try done; simpl.
  - rewrite length_app, Hq. simpl. lia.
  - intros h Hh. rewrite !lookup_insert_ne by lia. apply Hu. lia.
Qed.

Lemma fill k m j : ∀ n s,
  filling k m n s → (n + j = capacity s)%nat →
  ∃ s' k', rtc step s s' ∧ filling k' m (capacity s) s' ∧ capacity s' = capacity s.
Proof.
  revert k. induction j as [|j IH]; intros k n s Hf Hn.
  - exists s, k. replace (capacity s) with n by lia. eauto using rtc_refl.
  - destruct (fill_one k m n s) as (s1 & Hr & Hf1 & Hc1); [done|lia|].
    destruct (IH (S k) (S n) s1) as (s2 & k2 & Hr2 & Hf2 & Hc2); [done|lia|].
    exists s2, k2. rewrite <-Hc1. split; [by etrans|]. split; [done|]. congruence.
Qed.

Lemma start_filling cap :
  (0 < cap)%nat →
  ∃ s m, rtc step (start cap) s ∧ filling 1 m 0 s ∧ capacity s = cap.
Proof.
  intros Hcap. destruct (write_runs 0 "x" (start cap)) as [H1 H2]; [done..|].
  set (t := set_lock _ _) in H2.
  assert (step t (set_lock None (set_user 0 (Finished true) (enqueue "x" t)))) as H3.
  { apply (step_write 0), write_send; [apply lookup_insert_eq|]. unfold full. simpl. lia. }
  eexists _, _. split; [eapply rtc_l, rtc_l, rtc_l, rtc_once; [eassumption..|]|].
  { by apply step_writer, writer_take. }
  split; [|done]. repeat split; try done; simpl.
  intros h Hh. by rewrite !lookup_insert_ne by lia.
Qed.

(** A [Write] that finds the queue full keeps the lock while it waits; if
    the writer then fails a write, it waits for the lock to close the peer.
    Such a state can be reached whatever the size of the queue, and from it
    neither ever goes on: a [Close] waits for ever and the connection is never
    closed. *)
Theorem waiting_write_deadlocks_the_peer cap :
  (0 < cap)%nat →
  ∃ s g data h, rtc step (start cap) s ∧ deadlocked g data s ∧
    users s !! h = Some WantClose ∧
    ∀ s', rtc step s s' →
      deadlocked g data s' ∧ users s' !! h = Some WantClose ∧ conn_closed s' = false.
Proof.
  intros Hcap. destruct (start_filling cap Hcap) as (s0 & m & Hr0 & Hf0 & Hc0).
  destruct (fill 1 m cap 0 s0 Hf0) as (s1 & k & Hr1 & (Hw & Hl & Hc & Hq & Hu) & Hc1); [lia|].
  destruct (write_runs k "x" s1) as [H2 H3]; [by apply Hu|done..|].
  set (t := set_lock _ _) in H3.
  assert (step t (set_writer WFailed t)) as H4 by (by eapply step_writer, writer_error).
  assert (step (set_writer WFailed t) (set_user (S k) WantClose (set_writer WFailed t))) as H5.
  { apply (step_close (S k)), close_begin. simpl. rewrite !lookup_insert_ne by lia. apply Hu. lia. }
  set (s := set_user (S k) WantClose _) in H5.
  assert (rtc step (start cap) s) as Hr.
  { etrans; [done|]. etrans; [done|]. eapply rtc_l, rtc_l, rtc_l, rtc_once; eassumption. }
  assert (deadlocked k "x" s) as D.
  { apply set_user_deadlocked; [lia|]. repeat split; try done; [unfold full; simpl; lia|].
    apply lookup_insert_eq. }
  exists s, k, "x", (S k). split; [done|]. split; [done|]. split; [apply lookup_insert_eq|].
  intros s' Hr'. apply reachable_inv in Hr as I.
  assert (users s !! S k = Some WantClose) as Hwc by apply lookup_insert_eq.
  clearbody s. clear -Hr' D I Hwc. induction Hr' as [s|s t s' Hs _ IH].
  - split; [done|]. split; [done|]. destruct (conn_closed s) eqn:Hcc; [|done].
    destruct D as (Hw & _). destruct (inv_conn _ (proj1 I) Hcc). congruence.
  - destruct I as [I Q]. apply IH; [|split|].
    + by eapply deadlocked_step.
    + by eapply step_locking.
    + by eapply step_queueing.
    + eapply deadlocked_waits; eauto.
Qed.

(** Closing can lose what a [Write] has reported as queued: [select] may
    see the closed [closeChan] first, and the connection is closed with the
    payload still in the queue. *)
Theorem close_can_lose_a_queued_payload :
  ∃ s, rtc step (start 16) s ∧ users s !! 0%nat = Some (Finished true) ∧
    accepted s = ["GOODBYE"] ∧ users s !! 1%nat = Some (Finished true) ∧
    conn_closed s = true ∧ wire s = [] ∧ ∀ s', rtc step s s' → wire s' = [].
Proof.
  destruct (write_runs 0 "GOODBYE" (start 16)) as [H1 H2]; [done..|].
  set (t := set_lock _ _) in H2.
  assert (step t (set_lock None (set_user 0 (Finished true) (enqueue "GOODBYE" t)))) as H3.
  { apply (step_write 0), write_send; [done|]. unfold full. simpl. lia. }
  set (t3 := set_lock None _) in H3.
  assert (step t3 (set_user 1 WantClose t3)) as H4 by (by apply (step_close 1), close_begin).
  set (t4 := set_user 1 _ _) in H4.
  assert (step t4 (set_user 1 WaitWriter (mark t4))) as H5 by (by apply (step_close 1), close_mark).
  set (t5 := set_user 1 _ _) in H5.
  assert (step t5 (set_writer WDone t5)) as H6 by (by apply step_writer, writer_stop).
  set (t6 := set_writer _ _) in H6.
  assert (step t6 (set_user 1 (Finished true) (close_conn t6))) as H7
    by (by apply (step_close 1), close_end).
  set (s := set_user 1 _ _) in H7. exists s. split; [by repeat (eapply rtc_l; [eassumption|])|].
  repeat (split; [done|]). intros s' Hr.
  assert (writer s = WDone) as Hw by done. assert (wire s = []) as He by done.
  clearbody s. clear -Hr Hw He. induction Hr as [|s t s' Hs _ IH]; [done|]. apply IH.
  all: step_cases Hs; simpl; congruence.
Qed.

Example peer_transmits_in_order_witness :
  rtc step (start 16) (start 16) ∧ (closes (start 16) ≤ 1)%nat ∧
  (length (queue (start 16)) ≤ 16)%nat ∧ wamp_payloads (wire (start 16)) `prefix_of` [].
Proof. split; [apply rtc_refl|]. apply (peer_transmits_in_order 16), rtc_refl. Defined.

Example close_can_finish_witness :
  rtc step (start 16) (set_user 3 WantClose (start 16)) ∧
  ∃ s', rtc step (set_user 3 WantClose (start 16)) s' ∧
    users s' !! 3%nat = Some (Finished true) ∧ is_closed s' = true.
Proof.
  assert (rtc step (start 16) (set_user 3 WantClose (start 16))) as Hr
    by (by apply rtc_once, (step_close 3), close_begin).
  split; [done|]. by apply (close_can_finish 16).
Defined.

Example waiting_write_deadlocks_the_peer_witness :
  ∃ s g data h, rtc step (start 64) s ∧ deadlocked g data s ∧
    users s !! h = Some WantClose ∧
    ∀ s', rtc step s s' →
      deadlocked g data s' ∧ users s' !! h = Some WantClose ∧ conn_closed s' = false.
Proof. apply (waiting_write_deadlocks_the_peer 64). lia. Defined.
