(* ===== verification/PeerRefine.v ===== *)
(** * The raw-socket peer refines a queue (peer.go)

    The specification of a peer is the queue of [Peers], whose operations are
    atomic: what the rest of the library assumes of it.  The goroutines of
    [PeerClose] refine it: every step of theirs is an atomic operation on the
    queue or changes nothing of it, and a call returns what the atomic
    operation returns in the state in which the call takes effect. *)

From S2P Require Import Prelude GoStd Peers PeerClose.

Local Open Scope string_scope.

(** What the specification sees of a state.  [Close] takes effect when it marks the peer
    closed; its wait for the writer is a state of the goroutine here. *)
Definition abstract (s : peer_state) : Peer :=
  mkPeer TransportRawSocket (queue s) (capacity s) (is_closed s) false.

(** What a goroutine that returns [ok] has done, when it was at [u]. *)
Definition returned (u : user) (ok : bool) (p p' : Peer) : Prop :=
  match u with
  | WantTry data =>
      TryWrite data p = (p', if ok then Val true
                             else if closed p then Fail ErrClosedPipe else Val false)
  | WantWrite data | HoldWrite data =>
      Write data p = (p', if ok then Val tt else Fail ErrClosedPipe)
  | WantClose => ok = true ∧ closed p = true ∧ Close p = (p', Val tt)
  | WaitWriter | HoldPong _ => ok = true ∧ p' = p
  | Finished _ => False
  end.

(** Payloads that are too large are refused before a peer is touched. *)
Definition sizes_inv (s : peer_state) : Prop :=
  ∀ g data, users s !! g = Some (WantWrite data) ∨ users s !! g = Some (HoldWrite data) ∨
    users s !! g = Some (WantTry data) → oversized data = false.

Lemma step_sizes s s' : step s s' → sizes_inv s → sizes_inv s'.
Proof.
  unfold sizes_inv. intros Hs I g' data' Hu.
  step_cases Hs; simpl in Hu; try (by eapply I);
    destruct (decide (k = g')) as [<-|Hne];
    rewrite ?lookup_insert_eq, ?lookup_insert_ne in Hu by done;
    try (by eapply I); destruct_or!; simplify_eq; try done; eapply I; eauto.
Qed.

Lemma full_abstract s : chan_full (abstract s) = true ↔ full s.
Proof. unfold chan_full, full. simpl. by rewrite bool_decide_eq_true. Qed.

Lemma not_full_abstract s : ¬ full s → chan_full (abstract s) = false.
Proof. rewrite <-full_abstract. by destruct (chan_full (abstract s)). Qed.

Lemma TryWrite_abstract data s :
  oversized data = false →
  TryWrite data (abstract s) =
    if is_closed s then (abstract s, Fail ErrClosedPipe)
    else if chan_full (abstract s) then (abstract s, Val false)
    else (abstract (enqueue data s), Val true).
Proof. intros Hd. rewrite TryWrite_run. unfold fits. simpl. by rewrite Hd. Qed.

Lemma Write_abstract data s :
  oversized data = false →
  Write data (abstract s) =
    if is_closed s then (abstract s, Fail ErrClosedPipe)
    else if chan_full (abstract s) then (abstract s, Blocks)
    else (abstract (enqueue data s), Val tt).
Proof. intros Hd. rewrite Write_run. unfold fits. simpl. by rewrite Hd. Qed.

Lemma Close_abstract s : Close (abstract s) = (abstract (mark s), Val tt).
Proof. by rewrite peer_close_free by done. Qed.

(** Every step is an operation on the queue, or none. *)
Lemma step_abstract s s' :
  locking_inv s → sizes_inv s → step s s' →
  abstract s' = abstract s ∨ peer_op (abstract s) (abstract s').
Proof.
  intros I Hsz Hs.
  step_cases Hs; try (by left); right.
  all: try (eapply op_close, Close_abstract).
  - unfold abstract. rewrite H0. apply op_take.
  - assert (is_closed s = false) as Ho by (by eapply inv_lock, inv_hold).
    eapply (op_write data). rewrite Write_abstract by (eapply Hsz; eauto).
    by rewrite Ho, not_full_abstract.
  - eapply (op_try data true). rewrite TryWrite_abstract by (eapply Hsz; eauto).
    by rewrite H1, not_full_abstract.
Qed.

(** A call that returns has had the effect and the result of its operation. *)
Lemma step_returned s s' g u ok :
  locking_inv s → sizes_inv s → step s s' →
  users s !! g = Some u → (∀ b, u ≠ Finished b) → users s' !! g = Some (Finished ok) →
  returned u ok (abstract s) (abstract s').
Proof.
  intros I Hsz Hs Hu Hnf Hu'.
  assert (users s' !! g ≠ Some u) as Hne by (rewrite Hu'; intros [= <-]; by eapply Hnf).
  step_cases Hs; try (by destruct Hne).
  all: destruct (decide (k = g)) as [<-|Hk]; simpl in Hne, Hu';
    [rewrite lookup_insert_eq in Hu'; simplify_eq/=|by rewrite lookup_insert_ne in Hne].
  - rewrite Write_abstract by (eapply Hsz; eauto). by rewrite H1.
  - assert (is_closed s = false) as Ho by (by eapply inv_lock, inv_hold).
    rewrite Write_abstract by (eapply Hsz; eauto). by rewrite Ho, not_full_abstract.
  - rewrite TryWrite_abstract by (eapply Hsz; eauto). destruct (is_closed s); [done|].
    destruct H1 as [|Hf]; [done|]. by rewrite (proj2 (full_abstract s) Hf).
  - rewrite TryWrite_abstract by (eapply Hsz; eauto). by rewrite H1, not_full_abstract.
  - split_and!; [done..|]. rewrite peer_close_free by done. unfold mark_closed, abstract. simpl. by rewrite H1.
  - done.
  - done.
Qed.

Lemma reachable_sizes cap s : rtc step (start cap) s → sizes_inv s.
Proof.
  intros Hr. assert (sizes_inv (start cap)) as I.
  { intros g data. simpl. rewrite lookup_empty. naive_solver. }
  clear -Hr I. induction Hr; eauto using step_sizes.
Qed.

(** C13. The goroutines of a raw-socket peer refine the atomic queue.  Whatever
    the interleaving, the state of the peer is one that the operations of the
    queue, one after the other, lead to; every step is one operation or none;
    and a call of [TryWrite], [Write] or [Close] returns what its operation
    returns at that moment. *)
Theorem goroutines_refine_the_queue cap s s' :
  rtc step (start cap) s → step s s' →
  rtc peer_op (mkPeer TransportRawSocket [] cap false false) (abstract s) ∧
  (abstract s' = abstract s ∨ peer_op (abstract s) (abstract s')) ∧
  ∀ g u ok, users s !! g = Some u → (∀ b, u ≠ Finished b) →
    users s' !! g = Some (Finished ok) → returned u ok (abstract s) (abstract s').
Proof.
  intros Hr Hs. destruct (reachable_inv cap s Hr) as [I _].
  pose proof (reachable_sizes cap s Hr) as Hsz. split_and!.
  - change (mkPeer TransportRawSocket [] cap false false) with (abstract (start cap)).
    apply (rtc_simulation step peer_op abstract
             (λ t, (locking_inv t ∧ queueing_inv t) ∧ sizes_inv t)); [| |done|].
    + intros t u Ht [HI ?]. split; [by eapply steps_inv, HI; apply rtc_once|by eapply step_sizes].
    + intros t u [[? _] ?]. by apply step_abstract.
    + split; [by apply (reachable_inv cap), rtc_refl|by eapply reachable_sizes, rtc_refl].
  - by apply step_abstract.
  - intros g u ok Hu Hnf Hu'. by eapply step_returned.
Qed.

(** A [TryWrite] to an open peer with room in its queue. *)
Example goroutines_refine_the_queue_witness :
  let s := set_user 0 (WantTry "HELLO") (start 8) in
  TryWrite "HELLO" (abstract s) =
    (abstract (set_user 0 (Finished true) (enqueue "HELLO" s)), Val true).
Proof.
  intros s.
  exact (proj2 (proj2 (goroutines_refine_the_queue 8 s
      (set_user 0 (Finished true) (enqueue "HELLO" s))
      (rtc_once _ _ (or_intror (ex_intro _ 0%nat (or_intror (or_introl
        (try_begin 0 "HELLO" (start 8) eq_refl eq_refl))))))
      (or_intror (ex_intro _ 0%nat (or_intror (or_introl
        (try_queued 0 "HELLO" s eq_refl eq_refl eq_refl
          (Nat.nle_succ_0 7))))))))
    0%nat (WantTry "HELLO") true eq_refl (λ b, ltac:(discriminate)) eq_refl).
Defined.
