(* ===== verification/LocalPeer.v ===== *)
(** * The goroutines of an in-memory peer (peer.go)

    One end of a [net.Pipe]: the goroutines that call [Write], [TryWrite] and
    [Close] on it, its writer, and the [Read]s of the other end, as a
    transition system.  A payload crosses the pipe as its length and then its
    bytes; each of the two is a rendezvous of the writer and the reader, and
    fails once an end of the pipe is closed.  [Write] and [Close] keep the lock
    while they wait.  A send on the closed [writeChan], or closing it twice,
    sets [panicked].

    Payloads are shorter than 4 GiB, the bound of the length prefix. *)

From S2P Require Import Prelude GoStd Peers.

Local Open Scope string_scope.

Definition max_payload : Z := 2 ^ 32.
Definition sendable (data : string) : Prop := (blen data < max_payload)%Z.

(** Where a goroutine that uses the peer is. *)
Inductive user :=
| WantWrite (data : string)
| HoldWrite (data : string)
| WantTry (data : string)
| WantClose
| HoldClose
| Finished (ok : bool).

Inductive writer_state :=
| WRange                       (* [for data := range l.writeChan] *)
| WLength (data : string)
| WBody (data : string)
| WOther                       (* [l.other.Close()] *)
| WDone (failed : bool).

(** [localPeer.read] at the other end; [rmu] lets one reader in at a time. *)
Inductive reader_state :=
| RIdle
| RLength
| RBody (n : nat)
| ROther.                      (* [l.other.Close()] *)

Record local_state := mkLS {
  queue : list string;
  capacity : nat;
  chan_closed : bool;
  lock : option nat;             (* [wmu] *)
  is_closed : bool;
  pipe_closed : bool;            (* one of the two ends is *)
  writer : writer_state;
  reader : reader_state;
  users : gmap nat user;
  panicked : bool;
  (* ghost: what was queued, and what the [Read]s have returned *)
  accepted : list string;
  received : list string;
}.

Definition doneWriting (s : local_state) : bool :=
  match writer s with WDone _ => true | _ => false end.

Definition set_user (g : nat) (u : user) (s : local_state) : local_state :=
  mkLS (queue s) (capacity s) (chan_closed s) (lock s) (is_closed s) (pipe_closed s) (writer s)
    (reader s) (<[g := u]> (users s)) (panicked s) (accepted s) (received s).
Definition set_lock (l : option nat) (s : local_state) : local_state :=
  mkLS (queue s) (capacity s) (chan_closed s) l (is_closed s) (pipe_closed s) (writer s)
    (reader s) (users s) (panicked s) (accepted s) (received s).
Definition set_writer (w : writer_state) (s : local_state) : local_state :=
  mkLS (queue s) (capacity s) (chan_closed s) (lock s) (is_closed s) (pipe_closed s) w
    (reader s) (users s) (panicked s) (accepted s) (received s).
Definition set_reader (r : reader_state) (s : local_state) : local_state :=
  mkLS (queue s) (capacity s) (chan_closed s) (lock s) (is_closed s) (pipe_closed s) (writer s)
    r (users s) (panicked s) (accepted s) (received s).
Definition dequeue (q : list string) (s : local_state) : local_state :=
  mkLS q (capacity s) (chan_closed s) (lock s) (is_closed s) (pipe_closed s) (writer s)
    (reader s) (users s) (panicked s) (accepted s) (received s).
Definition receive (data : string) (s : local_state) : local_state :=
  mkLS (queue s) (capacity s) (chan_closed s) (lock s) (is_closed s) (pipe_closed s) (writer s)
    RIdle (users s) (panicked s) (accepted s) (received s ++ [data]).
Definition close_pipe (s : local_state) : local_state :=
  mkLS (queue s) (capacity s) (chan_closed s) (lock s) (is_closed s) true (writer s)
    (reader s) (users s) (panicked s) (accepted s) (received s).
(** [l.writeChan <- data] *)
Definition enqueue (data : string) (s : local_state) : local_state :=
  mkLS (queue s ++ [data]) (capacity s) (chan_closed s) (lock s) (is_closed s) (pipe_closed s)
    (writer s) (reader s) (users s) (panicked s || chan_closed s) (accepted s ++ [data])
    (received s).
(** [l.closed = true; close(l.writeChan)] *)
Definition mark (s : local_state) : local_state :=
  mkLS (queue s) (capacity s) true (lock s) true (pipe_closed s) (writer s) (reader s)
    (users s) (panicked s || chan_closed s) (accepted s) (received s).

Definition newLocalPeer (outQueueSize : nat) : local_state :=
  mkLS [] (queue_size outQueueSize) false None false false WRange RIdle ∅ false [] [].

Definition full (s : local_state) : Prop := (capacity s ≤ length (queue s))%nat.

(** [localPeer.Write] keeps the lock until the queue has room. *)
Inductive Write_step (g : nat) : local_state → local_state → Prop :=
| write_begin data s :
    users s !! g = None → sendable data → Write_step g s (set_user g (WantWrite data) s)
| write_closed data s :
    users s !! g = Some (WantWrite data) → lock s = None → is_closed s = true →
    Write_step g s (set_user g (Finished false) s)
| write_lock data s :
    users s !! g = Some (WantWrite data) → lock s = None → is_closed s = false →
    Write_step g s (set_lock (Some g) (set_user g (HoldWrite data) s))
| write_send data s :
    users s !! g = Some (HoldWrite data) → ¬ full s ∨ chan_closed s = true →
    Write_step g s (set_lock None (set_user g (Finished true) (enqueue data s))).

(** [localPeer.TryWrite]: one critical section. *)
Inductive TryWrite_step (g : nat) : local_state → local_state → Prop :=
| try_begin data s :
    users s !! g = None → sendable data → TryWrite_step g s (set_user g (WantTry data) s)
| try_refused data s :
    users s !! g = Some (WantTry data) → lock s = None →
    is_closed s = true ∨ full s ∧ chan_closed s = false →
    TryWrite_step g s (set_user g (Finished false) s)
| try_queued data s :
    users s !! g = Some (WantTry data) → lock s = None →
    is_closed s = false → ¬ full s ∨ chan_closed s = true →
    TryWrite_step g s (set_user g (Finished true) (enqueue data s)).

(** [localPeer.Close] keeps the lock until the writer is done, or for a second. *)
Inductive Close_step (g : nat) : local_state → local_state → Prop :=
| close_begin s : users s !! g = None → Close_step g s (set_user g WantClose s)
| close_again s :
    users s !! g = Some WantClose → lock s = None → is_closed s = true →
    Close_step g s (set_user g (Finished true) s)
| close_mark s :
    users s !! g = Some WantClose → lock s = None → is_closed s = false →
    Close_step g s (set_lock (Some g) (set_user g HoldClose (mark s)))
| close_done s :
    users s !! g = Some HoldClose → doneWriting s = true →
    Close_step g s (set_lock None (set_user g (Finished true) (close_pipe s)))
| close_timeout s :
    users s !! g = Some HoldClose →
    Close_step g s (set_lock None (set_user g (Finished true) (close_pipe s))).

(** [localPeer.writer] on its own: taking a payload, and what follows a failure. *)
Inductive writer_step : local_state → local_state → Prop :=
| writer_take data q s :
    writer s = WRange → queue s = data :: q →
    writer_step s (set_writer (WLength data) (dequeue q s))
| writer_end s :
    writer s = WRange → queue s = [] → chan_closed s = true →
    writer_step s (set_writer (WDone false) s)
| writer_error data s :
    writer s = WLength data ∨ writer s = WBody data → pipe_closed s = true →
    writer_step s (set_writer WOther s)
| writer_other s :
    writer s = WOther → writer_step s (set_writer (WDone true) (close_pipe s)).

(** [localPeer.Read] of the other end, on its own.  [io.ReadFull] into an empty
    slice does not touch the pipe. *)
Inductive Read_step : local_state → local_state → Prop :=
| read_begin s : reader s = RIdle → Read_step s (set_reader RLength s)
| read_empty s : reader s = RBody 0 → Read_step s (receive "" s)
| read_error s :
    reader s = RLength ∨ (∃ n, reader s = RBody (S n)) → pipe_closed s = true →
    Read_step s (set_reader ROther s)
| read_other s : reader s = ROther → Read_step s (set_reader RIdle (close_pipe s)).

(** The rendezvous of [writer] and [read]: four bytes of length, then the
    payload, which [writeFull] does not write when it is empty. *)
Inductive pipe_step : local_state → local_state → Prop :=
| pipe_length data s :
    writer s = WLength data → reader s = RLength → pipe_closed s = false →
    pipe_step s
      (set_writer (if bool_decide (data = "") then WRange else WBody data)
         (set_reader (RBody (String.length data)) s))
| pipe_body data s :
    writer s = WBody data → reader s = RBody (String.length data) → pipe_closed s = false →
    pipe_step s (set_writer WRange (receive data s)).

(** The other peer closes its end. *)
Inductive remote_step : local_state → local_state → Prop :=
| remote_close s : remote_step s (close_pipe s).

Definition step (s s' : local_state) : Prop :=
  writer_step s s' ∨ Read_step s s' ∨ pipe_step s s' ∨ remote_step s s' ∨
  ∃ g, Write_step g s s' ∨ TryWrite_step g s s' ∨ Close_step g s s'.

Ltac step_cases H :=
  let k := fresh "k" in
  destruct H as [H|[H|[H|[H|(k & [H|[H|H]])]]]]; destruct H.

(** ** What always holds *)

(** The payload that the reader is about to return without the pipe, and the
    one the writer has not delivered. *)
Definition pending (r : reader_state) : list string :=
  match r with RBody 0 => [""] | _ => [] end.
Definition in_flight (w : writer_state) : list string :=
  match w with WLength data | WBody data => [data] | _ => [] end.
Definition failed (w : writer_state) : Prop := w = WOther ∨ w = WDone true.

Record locking_inv (s : local_state) : Prop := {
  inv_panicked : panicked s = false;
  inv_chan : chan_closed s = is_closed s;
  inv_lock g : lock s = Some g →
    users s !! g = Some HoldClose ∨ ∃ data, users s !! g = Some (HoldWrite data);
  inv_write g data : users s !! g = Some (HoldWrite data) → lock s = Some g ∧ is_closed s = false;
  inv_close g : users s !! g = Some HoldClose → lock s = Some g ∧ is_closed s = true;
  inv_done : writer s = WDone false → is_closed s = true;
  inv_failed : failed (writer s) → pipe_closed s = true;
}.

Record queueing_inv (s : local_state) : Prop := {
  inv_bound : (length (queue s) ≤ capacity s)%nat;
  inv_order : ¬ failed (writer s) →
    accepted s = (received s ++ pending (reader s) ++ in_flight (writer s) ++ queue s)%list;
  inv_prefix : (received s ++ pending (reader s))%list `prefix_of` accepted s;
  inv_body data : writer s = WBody data →
    data ≠ "" ∧ (pipe_closed s = false → reader s = RBody (String.length data));
  inv_reader n : reader s = RBody (S n) → pipe_closed s = false →
    ∃ data, writer s = WBody data ∧ String.length data = S n;
  inv_other : reader s = ROther → pipe_closed s = true;
  inv_drained : writer s = WDone false → queue s = [];
}.

Ltac user_cases :=
  repeat match goal with
  | H : <[?g := _]> _ !! ?h = Some _ |- _ =>
      apply lookup_insert_Some in H as [[? ?]|[? ?]]; simplify_eq/=
  end.

(** A goroutine that does not hold the lock before or after its step. *)
Definition idle (u : user) : Prop :=
  match u with HoldWrite _ | HoldClose => False | _ => True end.

Lemma local_set_user_locking g u s :
  idle u → (∀ v, users s !! g = Some v → idle v) →
  locking_inv s → locking_inv (set_user g u s).
Proof.
  intros Hu Hg [Hp Hc Hl Hw Hcl Hd Hf]. split; simpl; intros; user_cases; eauto; try done.
  destruct (decide (g = g0)) as [<-|]; [|rewrite lookup_insert_ne by done; eauto].
  destruct (Hl g) as [Hh|[data Hh]]; [done|by apply Hg in Hh..].
Qed.

(** A free lock is held by nobody. *)
Lemma free_lock s :
  lock s = None → locking_inv s →
  (∀ g, users s !! g ≠ Some HoldClose) ∧ ∀ g data, users s !! g ≠ Some (HoldWrite data).
Proof.
  intros Hn [Hp Hc Hl Hw Hcl Hd Hf].
  split; [intros g Hg; apply Hcl in Hg|intros g data Hg; apply Hw in Hg]; destruct Hg; congruence.
Qed.

(** Taking the lock. *)
Lemma lock_write g data s :
  lock s = None → is_closed s = false →
  locking_inv s → locking_inv (set_lock (Some g) (set_user g (HoldWrite data) s)).
Proof.
  intros Hn Ho I. pose proof I as [Hp Hc Hl Hw Hcl Hd Hf]. destruct (free_lock s Hn I) as [F1 F2].
  split; simpl; try done; intros; simplify_eq; user_cases; try done.
  - rewrite lookup_insert_eq. eauto.
  - by destruct (F2 g0 data0).
  - by destruct (F1 g0).
Qed.

Lemma lock_close g s :
  lock s = None → is_closed s = true →
  locking_inv s → locking_inv (set_lock (Some g) (set_user g HoldClose s)).
Proof.
  intros Hn Ho I. pose proof I as [Hp Hc Hl Hw Hcl Hd Hf]. destruct (free_lock s Hn I) as [F1 F2].
  split; simpl; try done; intros; simplify_eq; user_cases; try done.
  - rewrite lookup_insert_eq. eauto.
  - by destruct (F2 g0 data).
  - by destruct (F1 g0).
Qed.

(** Giving the lock back. *)
Lemma unlock_locking g ok s :
  lock s = Some g → locking_inv s →
  locking_inv (set_lock None (set_user g (Finished ok) s)).
Proof.
  intros Hg [Hp Hc Hl Hw Hcl Hd Hf]. split; simpl; intros; user_cases; eauto; try done.
  - apply Hw in H0. naive_solver.
  - apply Hcl in H0. naive_solver.
Qed.

Lemma local_enqueue_locking data s :
  is_closed s = false → locking_inv s → locking_inv (enqueue data s).
Proof.
  intros Ho [Hp Hc Hl Hw Hcl Hd Hf]. split; simpl; eauto. by rewrite Hp, Hc, Ho.
Qed.

Lemma close_pipe_locking s : locking_inv s → locking_inv (close_pipe s).
Proof. intros [Hp Hc Hl Hw Hcl Hd Hf]. by split. Qed.

Lemma mark_locking s :
  lock s = None → is_closed s = false → locking_inv s → locking_inv (mark s).
Proof.
  intros Hn Ho [Hp Hc Hl Hw Hcl Hd Hf]. split; simpl; eauto.
  - by rewrite Hp, Hc, Ho.
  - intros g data Hg. apply Hw in Hg. naive_solver.
  - intros g Hg. apply Hcl in Hg. naive_solver.
Qed.

Lemma own_step_locking s s' :
  writer_step s s' ∨ Read_step s s' ∨ pipe_step s s' → locking_inv s → locking_inv s'.
Proof.
  intros Hs. destruct Hs as [[]|[[]|[]]]; intros [Hp Hc Hl Hw Hcl Hd Hf];
    split; simpl; try assumption; unfold failed in *; intros; repeat case_bool_decide; destruct_or?; try done; congruence.
Qed.

Lemma call_step_locking g s s' :
  Write_step g s s' ∨ TryWrite_step g s s' ∨ Close_step g s s' → locking_inv s → locking_inv s'.
Proof.
  intros [[]|[[]|[]]] I; pose proof I as [Hp Hc Hl Hw Hcl Hd Hf];
    try (apply local_set_user_locking; [done|intros v Hv; by simplify_eq/=|]; try done;
         by apply local_enqueue_locking).
  - by apply lock_write.
  - destruct (Hw _ _ H) as [Hlk Ho].
    by apply (unlock_locking g true (enqueue data s0)), local_enqueue_locking.
  - by apply (lock_close g (mark s0)), mark_locking.
  - destruct (Hcl _ H). by apply (unlock_locking g true (close_pipe s0)), close_pipe_locking.
  - destruct (Hcl _ H). by apply (unlock_locking g true (close_pipe s0)), close_pipe_locking.
Qed.

Lemma local_step_locking s s' : step s s' → locking_inv s → locking_inv s'.
Proof.
  intros [H|[H|[H|[[]|[g H]]]]];
    eauto using own_step_locking, call_step_locking, close_pipe_locking.
Qed.

Lemma pending_length data :
  pending (RBody (String.length data)) = if bool_decide (data = "") then [""] else [].
Proof. by destruct data. Qed.

Lemma local_writer_step_queueing s s' : writer_step s s' → queueing_inv s → queueing_inv s'.
Proof.
  intros []; intros [Hb Ho Hp Hbd Hrd Hot Hdr]; split; simpl; try done;
    try (intros n Hr Hc; destruct (Hrd n Hr) as (? & ? & ?); congruence).
  - rewrite H0 in Hb. simpl in Hb. lia.
  - intros _. rewrite Ho by (rewrite H; unfold failed; naive_solver). by rewrite H, H0.
  - intros _. rewrite Ho by (rewrite H; unfold failed; naive_solver). by rewrite H, H0.
  - unfold failed. intros []. by left.
  - unfold failed. intros []. by right.
Qed.

(** The reader moves and owes no payload, before or after. *)
Lemma set_reader_queueing r s :
  pending (reader s) = [] → (∀ n, r ≠ RBody n) → (r = ROther → pipe_closed s = true) →
  (pipe_closed s = false → ∀ n, reader s ≠ RBody n) →
  queueing_inv s → queueing_inv (set_reader r s).
Proof.
  intros Hs Hr Hro Hn [Hb Ho Hp Hbd Hrd Hot Hdr]. rewrite Hs in *.
  assert (pending r = []) as Hpr by (destruct r; naive_solver).
  split; simpl; rewrite ?Hpr; try done.
  - intros data Hw. destruct (Hbd _ Hw) as [? Hd]. split; [done|].
    intros Hc. by destruct (Hn Hc (String.length data)); apply Hd.
  - intros n Hb'. by destruct (Hr (S n)).
Qed.

Lemma close_pipe_queueing s : queueing_inv s → queueing_inv (close_pipe s).
Proof. intros [Hb Ho Hp Hbd Hrd Hot Hdr]. split; simpl; naive_solver. Qed.

Lemma Read_step_queueing s s' : Read_step s s' → queueing_inv s → queueing_inv s'.
Proof.
  intros [s0 H|s0 H|s0 H Hc|s0 H] I.
  - apply set_reader_queueing; rewrite ?H; done.
  - destruct I as [Hb Ho Hp Hbd Hrd Hot Hdr]. rewrite H in *. split; simpl; try done.
    + intros Hf. rewrite Ho by done. by rewrite <-!(assoc_L app).
    + by rewrite app_nil_r.
    + intros data Hw. destruct (Hbd _ Hw) as [? Hd]. split; [done|].
      intros Hc. apply Hd in Hc. by destruct data.
  - apply set_reader_queueing; [|done..|congruence|done].
    by destruct H as [->|[n ->]].
  - apply (set_reader_queueing RIdle (close_pipe s0)); simpl; rewrite ?H; try done.
    by apply close_pipe_queueing.
Qed.

Lemma pipe_step_queueing s s' : pipe_step s s' → queueing_inv s → queueing_inv s'.
Proof.
  intros [data s0 Hw Hr Hc|data s0 Hw Hr Hc] [Hb Ho Hp Hbd Hrd Hot Hdr];
    rewrite Hw, Hr in *; specialize (Ho ltac:(unfold failed; naive_solver)).
  - pose proof (pending_length data) as Hp'. case_bool_decide as Hd.
    + rewrite Hd in *. split; simpl; try done.
      rewrite Ho. exists (queue s0). by rewrite <-(assoc_L app).
    + split; simpl in *; rewrite ?Hp'; try done; [by intros d [= <-]|].
      intros n [= Hn] _. eauto.
  - destruct (Hbd data eq_refl) as [Hne _].
    assert (pending (RBody (String.length data)) = []) as Hpe
      by (rewrite pending_length; by case_bool_decide).
    rewrite Hpe in *. split; simpl; try done.
    + intros _. rewrite Ho. by rewrite <-!(assoc_L app).
    + rewrite Ho, app_nil_r. exists (queue s0). by rewrite <-(assoc_L app).
Qed.

Lemma local_enqueue_queueing data s :
  ¬ full s → writer s ≠ WDone false → queueing_inv s → queueing_inv (enqueue data s).
Proof.
  unfold full. intros Hf Hd [Hb Ho Hp Hbd Hrd Hot Hdr]. split; simpl; try done.
  - rewrite length_app. simpl. lia.
  - intros Hw. rewrite Ho by done. by rewrite <-!(assoc_L app).
  - by apply prefix_app_r.
Qed.

Lemma open_channel s :
  is_closed s = false → locking_inv s → writer s ≠ WDone false ∧ chan_closed s = false.
Proof.
  intros Ho [_ Hc _ _ _ Hd _]. split; [intros Hw; by rewrite Hd in Ho|by rewrite Hc].
Qed.

Lemma set_user_queueing g u s : queueing_inv s → queueing_inv (set_user g u s).
Proof. by intros []. Qed.
Lemma set_lock_queueing l s : queueing_inv s → queueing_inv (set_lock l s).
Proof. by intros []. Qed.
Lemma local_mark_queueing s : queueing_inv s → queueing_inv (mark s).
Proof. by intros []. Qed.

Lemma call_step_queueing g s s' :
  Write_step g s s' ∨ TryWrite_step g s s' ∨ Close_step g s s' →
  locking_inv s → queueing_inv s → queueing_inv s'.
Proof.
  intros [[]|[[]|[]]] L I;
    auto using set_user_queueing, set_lock_queueing, local_mark_queueing, close_pipe_queueing.
  - destruct (inv_write _ L _ _ H) as [_ Ho]. destruct (open_channel s0 Ho L) as [? Hcc].
    apply set_lock_queueing, set_user_queueing, local_enqueue_queueing; [|done..].
    destruct H0; congruence.
  - destruct (open_channel s0 H1 L) as [? Hcc].
    apply set_user_queueing, local_enqueue_queueing; [|done..]. destruct H2; congruence.
Qed.

Lemma local_step_queueing s s' : step s s' → locking_inv s → queueing_inv s → queueing_inv s'.
Proof.
  intros [H|[H|[H|[[]|(g & H)]]]] L I;
    eauto using local_writer_step_queueing, Read_step_queueing, pipe_step_queueing,
      close_pipe_queueing, call_step_queueing.
Qed.

Lemma local_reachable_inv size s :
  rtc step (newLocalPeer size) s → locking_inv s ∧ queueing_inv s.
Proof.
  intros Hr. eapply (rtc_invariant step (λ t, locking_inv t ∧ queueing_inv t)); [|done|].
  - intros x y Hs []. eauto using local_step_locking, local_step_queueing.
  - split; split; simpl; try done; try lia. by intros [].
Qed.

(** Whatever the interleaving of writes, closes, reads and a remote end that
    closes at any time, an in-memory peer never sends on its closed channel
    nor closes it twice; its queue stays within its capacity; what the other
    end reads are the queued payloads, in order, none twice; and a writer that
    ended without a failure has left none behind. *)
Theorem in_memory_peer_delivers_in_order size s :
  rtc step (newLocalPeer size) s →
  panicked s = false ∧ (length (queue s) ≤ capacity s)%nat ∧
  received s `prefix_of` accepted s ∧
  (writer s = WDone false → accepted s = (received s ++ pending (reader s))%list).
Proof.
  intros [[Hp _ _ _ _ _ _] [Hb Ho Hpre _ _ _ Hdr]]%local_reachable_inv. split_and!; [done..| |].
  - etrans; [|done]. by apply prefix_app_r.
  - intros Hw. rewrite Ho, (Hdr Hw), Hw; [by rewrite app_nil_r|].
    rewrite Hw. by intros [].
Qed.

(** ** A [Close] that waits for the writer *)

Lemma local_step_writer s s' : writer_step s s' → step s s'.
Proof. by left. Qed.
Lemma step_read s s' : Read_step s s' → step s s'.
Proof. right. by left. Qed.
Lemma step_pipe s s' : pipe_step s s' → step s s'.
Proof. right. right. by left. Qed.
Lemma step_remote s s' : remote_step s s' → step s s'.
Proof. do 3 right. by left. Qed.
Lemma local_step_write g s s' : Write_step g s s' → step s s'.
Proof. do 4 right. exists g. by left. Qed.
Lemma local_step_close g s s' : Close_step g s s' → step s s'.
Proof. do 4 right. exists g. by do 2 right. Qed.

(** Steps of the writer and the reader over an open pipe. *)
Record quiet (s s' : local_state) : Prop := {
  quiet_steps : rtc step s s';
  quiet_users : users s' = users s;
  quiet_accepted : accepted s' = accepted s;
  quiet_closed : is_closed s' = is_closed s;
  quiet_pipe : pipe_closed s' = pipe_closed s;
}.

#[global] Instance quiet_refl : Reflexive quiet.
Proof. by split. Qed.
#[global] Instance quiet_trans : Transitive quiet.
Proof. intros x y z [] []. split; try congruence. by etrans. Qed.

Lemma quiet_inv s s' :
  quiet s s' → locking_inv s ∧ queueing_inv s → locking_inv s' ∧ queueing_inv s'.
Proof.
  intros [Hr _ _ _ _]. apply (rtc_invariant step (λ t, locking_inv t ∧ queueing_inv t)); [|done].
  intros x y Hs []. eauto using local_step_locking, local_step_queueing.
Qed.

(** The reader takes what it is owed and waits for the next length. *)
Lemma reader_gets_ready s :
  locking_inv s ∧ queueing_inv s → pipe_closed s = false →
  (∀ data, writer s ≠ WBody data) →
  ∃ s', quiet s s' ∧ reader s' = RLength ∧ writer s' = writer s ∧ queue s' = queue s.
Proof.
  intros [L I] Hp Hw. destruct (reader s) as [| |[|n]|] eqn:Hr.
  - exists (set_reader RLength s). split_and!; try done. split; try done.
    by apply rtc_once, step_read, read_begin.
  - exists s. by split_and!.
  - exists (set_reader RLength (receive "" s)). split_and!; try done. split; try done.
    eapply rtc_l; [by apply step_read, read_empty|]. by apply rtc_once, step_read, read_begin.
  - destruct (inv_reader _ I n Hr Hp) as (data & Hd & _). by destruct (Hw data).
  - by rewrite (inv_other _ I Hr) in Hp.
Qed.

Lemma body_is_delivered data s :
  locking_inv s ∧ queueing_inv s → pipe_closed s = false → writer s = WBody data →
  ∃ s', quiet s s' ∧ writer s' = WRange ∧ queue s' = queue s.
Proof.
  intros [L I] Hp Hw. destruct (inv_body _ I data Hw) as [_ Hr].
  exists (set_writer WRange (receive data s)). split_and!; try done. split; try done.
  apply rtc_once, step_pipe, pipe_body; auto.
Qed.

Lemma payload_is_delivered data s :
  locking_inv s ∧ queueing_inv s → pipe_closed s = false → writer s = WLength data →
  ∃ s', quiet s s' ∧ writer s' = WRange ∧ queue s' = queue s.
Proof.
  intros I Hp Hw. destruct (reader_gets_ready s I Hp) as (s1 & Q1 & Hr1 & Hw1 & Hq1); [congruence|].
  assert (pipe_closed s1 = false) as Hp1 by (by rewrite (quiet_pipe _ _ Q1)).
  rewrite Hw in Hw1. pose proof (step_pipe _ _ (pipe_length data s1 Hw1 Hr1 Hp1)) as Hs.
  case_bool_decide as Hd.
  - eexists. split_and!; [etrans; [exact Q1|by split; [apply rtc_once|..]]|done|done].
  - set (s2 := set_writer _ _) in Hs.
    assert (quiet s s2) as Q2 by (etrans; [exact Q1|by split; [apply rtc_once|..]]).
    destruct (body_is_delivered data s2) as (s3 & Q3 & Hw3 & Hq3); try done.
    { by eapply quiet_inv. }
    exists s3. split_and!; [by etrans|done|]. by rewrite Hq3.
Qed.

(** The writer of a closed peer drains the queue. *)
Lemma queue_is_drained n : ∀ s,
  length (queue s) = n → locking_inv s ∧ queueing_inv s → pipe_closed s = false →
  is_closed s = true → writer s = WRange → ∃ s', quiet s s' ∧ writer s' = WDone false.
Proof.
  induction n as [|n IH]; intros s Hn I Hp Hc Hw; destruct (queue s) as [|data q] eqn:Hq;
    simplify_eq/=.
  - exists (set_writer (WDone false) s). split; [|done]. split; try done.
    apply rtc_once, local_step_writer, writer_end; [done..|]. by rewrite (inv_chan _ (proj1 I)).
  - assert (quiet s (set_writer (WLength data) (dequeue q s))) as Q1
      by (split; try done; by apply rtc_once, local_step_writer, writer_take).
    pose proof (quiet_inv _ _ Q1 I) as I1.
    destruct (payload_is_delivered data _ I1 Hp eq_refl) as (s2 & Q2 & Hw2 & Hq2).
    assert (quiet s s2) as Q by (by etrans).
    destruct (IH s2) as (s3 & Q3 & Hw3); try done.
    { by rewrite Hq2. } { by eapply quiet_inv. }
    { by rewrite (quiet_pipe _ _ Q). } { by rewrite (quiet_closed _ _ Q). }
    exists s3. split; [by etrans|done].
Qed.

Lemma writer_can_end s :
  locking_inv s ∧ queueing_inv s → pipe_closed s = false → is_closed s = true →
  ∃ s', quiet s s' ∧ writer s' = WDone false.
Proof.
  intros I Hp Hc.
  assert (∃ s1, quiet s s1 ∧ (writer s1 = WRange ∨ writer s1 = WDone false)) as (s1 & Q1 & Hw1).
  { destruct (writer s) as [|data|data| |[]] eqn:Hw.
    - exists s. split; [done|by left].
    - destruct (payload_is_delivered data s I Hp Hw) as (s1 & ? & ? & _). eauto.
    - destruct (body_is_delivered data s I Hp Hw) as (s1 & ? & ? & _). eauto.
    - rewrite (inv_failed _ (proj1 I)) in Hp; [done|]. by left.
    - rewrite (inv_failed _ (proj1 I)) in Hp; [done|]. by right.
    - exists s. split; [done|by right]. }
  destruct Hw1 as [Hw1|Hw1]; [|eauto].
  destruct (queue_is_drained (length (queue s1)) s1) as (s2 & Q2 & Hw2); try done.
  { by eapply quiet_inv. } { by rewrite (quiet_pipe _ _ Q1). } { by rewrite (quiet_closed _ _ Q1). }
  exists s2. split; [by etrans|done].
Qed.

(** A [Close] of an in-memory peer that waits for the writer can run to its
    end with everything delivered that was queued before it, as long as
    neither end of the pipe is closed: the peers over a network cannot say so. *)
Theorem waiting_close_can_deliver_everything size s g :
  rtc step (newLocalPeer size) s → users s !! g = Some HoldClose → pipe_closed s = false →
  ∃ s', rtc step s s' ∧ users s' !! g = Some (Finished true) ∧
    received s' = accepted s ∧ pipe_closed s' = true.
Proof.
  intros I%local_reachable_inv Hg Hp. destruct (inv_close _ (proj1 I) _ Hg) as [_ Hc].
  destruct (writer_can_end s I Hp Hc) as (s1 & Q1 & Hw1).
  destruct (reader_gets_ready s1) as (s2 & Q2 & Hr2 & Hw2 & _).
  { by eapply quiet_inv. } { by rewrite (quiet_pipe _ _ Q1). } { by rewrite Hw1. }
  assert (quiet s s2) as Q by (by etrans). destruct (quiet_inv _ _ Q I) as [_ I2].
  rewrite Hw1 in Hw2.
  exists (set_lock None (set_user g (Finished true) (close_pipe s2))). split_and!; try done.
  - eapply rtc_r; [apply (quiet_steps _ _ Q)|]. apply (local_step_close g), close_done.
    + by rewrite (quiet_users _ _ Q).
    + unfold doneWriting. by rewrite Hw2.
  - apply lookup_insert_eq.
  - simpl. rewrite <-(quiet_accepted _ _ Q), (inv_order _ I2), Hr2, Hw2, (inv_drained _ I2 Hw2).
    + by rewrite app_nil_r.
    + rewrite Hw2. by intros [].
Qed.

(** ** A writer that failed *)

(** The writer is gone, a [Write] holds the lock and waits for it, and the
    reader owes nothing. *)
Definition stuck (g : nat) (data : string) (s : local_state) : Prop :=
  writer s = WDone true ∧ lock s = Some g ∧ full s ∧ users s !! g = Some (HoldWrite data) ∧
  ∀ n, reader s ≠ RBody n.

Lemma set_user_stuck g data k u s : k ≠ g → stuck g data s → stuck g data (set_user k u s).
Proof.
  unfold stuck. intros Hk (? & ? & ? & ? & ?). repeat split; try done. simpl.
  by rewrite lookup_insert_ne.
Qed.

Lemma stuck_step g data s s' :
  locking_inv s → step s s' → stuck g data s → stuck g data s' ∧ received s' = received s.
Proof.
  intros I Hs D. pose proof D as (Hw & Hl & Hf & Hu & Hr).
  assert (chan_closed s = false) as Hc
    by (rewrite (inv_chan _ I); by eapply (inv_write _ I)).
  step_cases Hs; try congruence; try (by edestruct Hr).
  all: try (split; [|done]; apply set_user_stuck; [congruence|done]).
  all: try (by split; [repeat split|]).
  - destruct H; congruence.
  - destruct (inv_write _ I _ _ H) as [Hk _]. simplify_eq. destruct H0; congruence.
  - pose proof (inv_close _ I _ H) as [Hk _]. congruence.
  - pose proof (inv_close _ I _ H) as [Hk _]. congruence.
Qed.

(** What waits for the lock of a stuck peer waits for ever. *)
Lemma stuck_waits g data h s s' :
  locking_inv s → step s s' → stuck g data s →
  users s !! h = Some WantClose → users s' !! h = Some WantClose.
Proof.
  intros I Hs (Hw & Hl & Hf & Hu & Hr) Hh.
  step_cases Hs; simpl; try congruence.
  all: try (rewrite lookup_insert_ne; [done|]; intros ->; congruence).
Qed.

(** A peer whose writer is gone while its queue fills: the goroutines up to
    [k] have written, the later ones are unused. *)
Definition filling (k : nat) (s : local_state) : Prop :=
  writer s = WDone true ∧ lock s = None ∧ is_closed s = false ∧ reader s = RIdle ∧
  received s = [] ∧ length (queue s) = k ∧ (∀ h, (k < h)%nat → users s !! h = None) ∧
  ∀ h, (h ≤ k)%nat → users s !! h = Some (Finished true).

Lemma local_write_runs g data s :
  users s !! g = None → sendable data → lock s = None → is_closed s = false →
  rtc step s (set_lock (Some g) (set_user g (HoldWrite data) (set_user g (WantWrite data) s))).
Proof.
  intros Hg Hd Hl Hc. eapply rtc_l; [by apply (local_step_write g), write_begin|].
  apply rtc_once, (local_step_write g), write_lock; [apply lookup_insert_eq|done..].
Qed.

Lemma write_finishes g data s :
  users s !! g = None → sendable data → lock s = None → is_closed s = false → ¬ full s →
  rtc step s (set_lock None (set_user g (Finished true) (enqueue data
    (set_lock (Some g) (set_user g (HoldWrite data) (set_user g (WantWrite data) s)))))).
Proof.
  intros Hg Hd Hl Hc Hf. eapply rtc_r; [by apply local_write_runs|].
  apply (local_step_write g), write_send; [apply lookup_insert_eq|by left].
Qed.

Lemma sendable_short : sendable "x".
Proof. done. Qed.

Lemma local_fill_one k s :
  filling k s → (k < capacity s)%nat →
  ∃ s', rtc step s s' ∧ filling (S k) s' ∧ capacity s' = capacity s.
Proof.
  intros (Hw & Hl & Hc & Hr & Hrc & Hq & Hu & Hd) Hk.
  eexists. split; [apply (write_finishes (S k) "x"); try done; [apply Hu|unfold full]; lia|].
  split; [|done]. repeat split; try done; simpl.
  - rewrite length_app, Hq. simpl. lia.
  - intros h Hh. rewrite !lookup_insert_ne by lia. apply Hu. lia.
  - intros h Hh. destruct (decide (h = S k)) as [->|]; [apply lookup_insert_eq|].
    rewrite !lookup_insert_ne by lia. apply Hd. lia.
Qed.

Lemma local_fill j : ∀ k s,
  filling k s → (k + j = capacity s)%nat →
  ∃ s', rtc step s s' ∧ filling (capacity s') s' ∧ capacity s' = capacity s.
Proof.
  induction j as [|j IH]; intros k s Hf Hk.
  - exists s. replace (capacity s) with k by lia. eauto using rtc_refl.
  - destruct (local_fill_one k s) as (s1 & Hr & Hf1 & Hc1); [done|lia|].
    destruct (IH (S k) s1) as (s2 & Hr2 & Hf2 & Hc2); [done|lia|].
    exists s2. split_and!; [by etrans|done|congruence].
Qed.

(** The other end is closed, and the writer takes a payload. *)
Lemma dead_writer size :
  ∃ s, rtc step (newLocalPeer size) s ∧ filling 0 s ∧ capacity s = queue_size size.
Proof.
  assert (0 < queue_size size)%nat as Hz by (unfold queue_size; case_bool_decide; [compute|]; lia).
  set (s0 := close_pipe (newLocalPeer size)).
  assert (step (newLocalPeer size) s0) as H0 by (apply step_remote, remote_close).
  pose proof (write_finishes 0 "x" s0 eq_refl sendable_short eq_refl eq_refl) as H1.
  set (s1 := set_lock None _) in H1.
  assert (step s1 (set_writer (WLength "x") (dequeue [] s1))) as H2
    by (by apply local_step_writer, (writer_take "x")).
  set (s2 := set_writer _ _) in H2.
  assert (step s2 (set_writer WOther s2)) as H3
    by (apply local_step_writer, (writer_error "x"); [by left|done]).
  assert (step (set_writer WOther s2) (set_writer (WDone true) (close_pipe (set_writer WOther s2))))
    as H4 by (by apply local_step_writer, writer_other).
  eexists. split; [|split].
  - eapply rtc_l; [exact H0|]. etrans; [apply H1; unfold full; simpl; lia|].
    eapply rtc_l, rtc_l, rtc_once; eassumption.
  - repeat split; try done; intros h Hh; simpl; [by rewrite !lookup_insert_ne by lia|].
    replace h with 0%nat by lia. apply lookup_insert_eq.
  - done.
Qed.

(** When the other end of an in-memory pair is closed, the writer of this
    end stops but the peer is not closed: the writes that still fit in the
    queue report success, though none is ever received, and the next one waits
    for ever with the lock, so that [Close] waits for ever too. *)
Theorem dead_writer_blocks_close size :
  ∃ s g data h, rtc step (newLocalPeer size) s ∧ stuck g data s ∧
    (∀ k, (k ≤ queue_size size)%nat → users s !! k = Some (Finished true)) ∧
    users s !! h = Some WantClose ∧
    ∀ s', rtc step s s' →
      stuck g data s' ∧ users s' !! h = Some WantClose ∧ is_closed s' = false ∧ received s' = [].
Proof.
  destruct (dead_writer size) as (s0 & Hr0 & Hf0 & Hc0).
  destruct (local_fill (queue_size size) 0 s0 Hf0) as (s1 & Hr1 & Hf1 & Hc1); [by rewrite Hc0|].
  destruct Hf1 as (Hw & Hl & Hc & Hrd & Hrc & Hq & Hu & Hd). rewrite Hc0 in Hc1.
  rewrite Hc1 in *. set (g := S (queue_size size)).
  assert (rtc step s1 (set_lock (Some g) (set_user g (HoldWrite "x") (set_user g (WantWrite "x") s1))))
    as Hr2 by (apply local_write_runs; [apply Hu; lia|done..]).
  set (s2 := set_lock _ _) in Hr2.
  assert (step s2 (set_user (S g) WantClose s2)) as Hr3.
  { apply (local_step_close (S g)), close_begin. simpl. rewrite !lookup_insert_ne by lia. apply Hu. lia. }
  set (s := set_user _ _ _) in Hr3.
  assert (rtc step (newLocalPeer size) s) as Hr.
  { etrans; [done|]. etrans; [done|]. by eapply rtc_r. }
  assert (stuck g "x" s) as D.
  { apply set_user_stuck; [lia|]. repeat split; try done; [unfold full; simpl; lia| |].
    - apply lookup_insert_eq.
    - intros n. simpl. congruence. }
  exists s, g, "x", (S g). split_and!; [done..| | |].
  - intros k Hk. simpl. rewrite !lookup_insert_ne by lia. by apply Hd.
  - apply lookup_insert_eq.
  - intros s' Hr'.
    assert ((locking_inv s' ∧ queueing_inv s') ∧ stuck g "x" s' ∧
            users s' !! S g = Some WantClose ∧ received s' = []) as ([L _] & Ds & ? & ?).
    { refine (rtc_invariant step (λ t, (locking_inv t ∧ queueing_inv t) ∧ stuck g "x" t ∧
          users t !! S g = Some WantClose ∧ received t = []) s s' _ Hr' _).
      - intros x y Hs ([L I] & Dx & Hx & Hrx).
        destruct (stuck_step g "x" x y L Hs Dx) as [Dy Hry].
        split_and!; eauto using local_step_locking, local_step_queueing, stuck_waits. congruence.
      - split_and!; [by eapply (local_reachable_inv size)..|done| |done]. apply lookup_insert_eq. }
    split_and!; try done. eapply (inv_write _ L), Ds.
Qed.

(** ** The queue it refines *)

(** What the specification sees of a state.  [Close] takes effect when it marks the peer
    closed; its wait for the writer is a state of the goroutine here. *)
Definition abstract (s : local_state) : Peer :=
  mkPeer TransportInMemory (queue s) (capacity s) (is_closed s) false.

(** What a goroutine that returns [ok] has done, when it was at [u]. *)
Definition returned (u : user) (ok : bool) (p p' : Peer) : Prop :=
  match u with
  | WantTry data =>
      TryWrite data p = (p', if ok then Val true
                             else if closed p then Fail ErrClosedPipe else Val false)
  | WantWrite data | HoldWrite data =>
      Write data p = (p', if ok then Val tt else Fail ErrClosedPipe)
  | WantClose => ok = true ∧ closed p = true ∧ Close p = (p', Val tt)
  | HoldClose => ok = true ∧ p' = p
  | Finished _ => False
  end.

Lemma local_full_abstract s : chan_full (abstract s) = true ↔ full s.
Proof. unfold chan_full, full. simpl. by rewrite bool_decide_eq_true. Qed.

Lemma local_not_full_abstract s : ¬ full s → chan_full (abstract s) = false.
Proof. rewrite <-local_full_abstract. by destruct (chan_full (abstract s)). Qed.

Lemma local_TryWrite_abstract data s :
  TryWrite data (abstract s) =
    if is_closed s then (abstract s, Fail ErrClosedPipe)
    else if chan_full (abstract s) then (abstract s, Val false)
    else (abstract (enqueue data s), Val true).
Proof. by rewrite TryWrite_run. Qed.

Lemma local_Write_abstract data s :
  Write data (abstract s) =
    if is_closed s then (abstract s, Fail ErrClosedPipe)
    else if chan_full (abstract s) then (abstract s, Blocks)
    else (abstract (enqueue data s), Val tt).
Proof. by rewrite Write_run. Qed.

(** The send of a [Write] or [TryWrite] is not a panic: there is room. *)
Lemma send_has_room s :
  is_closed s = false → ¬ full s ∨ chan_closed s = true → locking_inv s →
  chan_full (abstract s) = false.
Proof.
  intros Ho Hr I. apply local_not_full_abstract. destruct Hr as [|Hc]; [done|].
  rewrite (inv_chan _ I) in Hc. congruence.
Qed.

(** Every step is an operation on the queue, or none. *)
Lemma local_step_abstract s s' :
  locking_inv s → step s s' →
  abstract s' = abstract s ∨ peer_op (abstract s) (abstract s').
Proof.
  intros I Hs. step_cases Hs; try (by left); right.
  - unfold abstract. rewrite H0. apply op_take.
  - destruct (inv_write _ I _ _ H) as [_ Ho].
    apply (op_write data). by rewrite local_Write_abstract, Ho, send_has_room.
  - apply (op_try data true). by rewrite local_TryWrite_abstract, H1, send_has_room.
  - apply op_close. by rewrite peer_close_free by done.
Qed.

(** A call that returns has had the effect and the result of its operation. *)
Lemma local_step_returned s s' g u ok :
  locking_inv s → step s s' →
  users s !! g = Some u → (∀ b, u ≠ Finished b) → users s' !! g = Some (Finished ok) →
  returned u ok (abstract s) (abstract s').
Proof.
  intros I Hs Hu Hnf Hu'.
  assert (users s' !! g ≠ Some u) as Hne by (rewrite Hu'; intros [= <-]; by eapply Hnf).
  step_cases Hs; try (by destruct Hne).
  all: destruct (decide (k = g)) as [<-|Hk]; simpl in Hne, Hu';
    [rewrite lookup_insert_eq in Hu'; simplify_eq/=|by rewrite lookup_insert_ne in Hne].
  - by rewrite local_Write_abstract, H1.
  - destruct (inv_write _ I _ _ H) as [_ Ho]. by rewrite local_Write_abstract, Ho, send_has_room.
  - rewrite local_TryWrite_abstract. destruct (is_closed s); [done|].
    destruct H1 as [|[Hf _]]; [done|]. by rewrite (proj2 (local_full_abstract s) Hf).
  - by rewrite local_TryWrite_abstract, H1, send_has_room.
  - split_and!; [done..|]. rewrite peer_close_free by done. unfold mark_closed, abstract. simpl. by rewrite H1.
  - done.
  - done.
Qed.

(** C14. The goroutines of an in-memory peer refine the atomic queue: whatever
    the interleaving, every step is one operation of the queue or none, and a
    call of [TryWrite], [Write] or [Close] returns what its operation returns
    at that moment. *)
Theorem local_goroutines_refine_the_queue size s s' :
  rtc step (newLocalPeer size) s → step s s' →
  rtc peer_op (Peers.newLocalPeer size) (abstract s) ∧
  (abstract s' = abstract s ∨ peer_op (abstract s) (abstract s')) ∧
  ∀ g u ok, users s !! g = Some u → (∀ b, u ≠ Finished b) →
    users s' !! g = Some (Finished ok) → returned u ok (abstract s) (abstract s').
Proof.
  intros Hr Hs. destruct (local_reachable_inv size s Hr) as [L _]. split_and!.
  - change (Peers.newLocalPeer size) with (abstract (newLocalPeer size)).
    apply (rtc_simulation step peer_op abstract locking_inv); [| |done|].
    + intros x y. apply local_step_locking.
    + intros x y. apply local_step_abstract.
    + by apply (local_reachable_inv size), rtc_refl.
  - by apply local_step_abstract.
  - intros g u ok. by apply local_step_returned.
Qed.

(** ** Examples *)

(** A [Close] that waits for a payload to be delivered. *)
Example closing : local_state :=
  set_lock (Some 1%nat) (set_user 1 HoldClose (mark (set_user 1 WantClose
    (set_user 0 (Finished true) (enqueue "GOODBYE"
       (set_user 0 (WantTry "GOODBYE") (newLocalPeer 0))))))).

Lemma closing_reachable : rtc step (newLocalPeer 0) closing.
Proof.
  assert (∀ g s s', TryWrite_step g s s' → step s s') as step_try.
  { intros g s s' H. do 4 right. exists g. right. by left. }
  eapply rtc_l; [by apply (step_try 0%nat), (try_begin 0 "GOODBYE")|].
  eapply rtc_l; [apply (step_try 0%nat), (try_queued 0 "GOODBYE"); try done; left; vm_compute; lia|].
  eapply rtc_l; [by apply (local_step_close 1), close_begin|].
  by apply rtc_once, (local_step_close 1), close_mark.
Qed.

Example in_memory_peer_delivers_in_order_witness :
  panicked closing = false ∧ (length (queue closing) ≤ 16)%nat ∧
  [] `prefix_of` ["GOODBYE"].
Proof.
  destruct (in_memory_peer_delivers_in_order 0 closing closing_reachable) as (H1 & H2 & H3 & _).
  exact (conj H1 (conj H2 H3)).
Defined.

Example waiting_close_can_deliver_everything_witness :
  ∃ s', rtc step closing s' ∧ users s' !! 1%nat = Some (Finished true) ∧
    received s' = ["GOODBYE"] ∧ pipe_closed s' = true.
Proof.
  exact (waiting_close_can_deliver_everything 0 closing 1 closing_reachable eq_refl eq_refl).
Defined.

Example local_goroutines_refine_the_queue_witness :
  peer_op (abstract closing) (abstract (set_writer (WLength "GOODBYE") (dequeue [] closing))) ∨
  abstract (set_writer (WLength "GOODBYE") (dequeue [] closing)) = abstract closing.
Proof.
  destruct (local_goroutines_refine_the_queue 0 closing
    (set_writer (WLength "GOODBYE") (dequeue [] closing)) closing_reachable
    (or_introl (writer_take "GOODBYE" [] closing eq_refl eq_refl))) as (_ & [H|H] & _);
    [by right|by left].
Defined.
