(* ===== verification/WsPeer.v ===== *)
(** * The goroutines of a WebSocket peer (peer.go)

    The writer, the pinger and any number of goroutines that call [Read],
    [Write], [TryWrite] and [Close], as a transition system.  The lock only
    protects the flag [closed]: a step is a critical section, a channel
    operation, a [select], or a call on the connection, which may fail at any
    time.  Any frame may arrive.  [Close] waits for the writer for a second at
    most, so that its timeout can be taken at any time. *)

From S2P Require Import Prelude GoStd Peers.

Local Open Scope string_scope.

(** The opcodes of frames *)
Inductive OpCode := OpText | OpBinary | OpPing | OpPong.

#[global] Instance OpCode_eq_dec : EqDecision OpCode.
Proof. solve_decision. Defined.

Record wsMsg := mkMsg { opCode : OpCode; payload : string }.

#[global] Instance wsMsg_eq_dec : EqDecision wsMsg.
Proof. solve_decision. Defined.

(** Where a call of [Close] is, and who called it. *)
Inductive closer :=
| CWant
| CMarked        (* [c.closed = true], [c.closeChan] still open *)
| CWait.         (* waiting for the writer *)
Inductive caller := ByUser | ByReader | ByWriter | ByPinger.

#[global] Instance closer_eq_dec : EqDecision closer.
Proof. solve_decision. Defined.
#[global] Instance caller_eq_dec : EqDecision caller.
Proof. solve_decision. Defined.

Inductive goroutine :=
| WSelect | WWrite (m : wsMsg) | WDone
| PTicker | PPing | PAwait
| RFrame | RPing (data : string)
| WantWrite (data : string) | CheckedWrite (data : string)
| WantTry (data : string) | CheckedTry (data : string)
| Closing (c : closer) (k : caller)
| Finished (ok : bool).

#[global] Instance goroutine_eq_dec : EqDecision goroutine.
Proof. solve_decision. Defined.

Record ws_state := mkWS {
  queue : list string;          (* writeChan *)
  capacity : nat;
  wsMsgOp : OpCode;
  ctrl : list wsMsg;            (* ctrlChan *)
  pongs_seen : nat;             (* pingCh *)
  is_closed : bool;
  closes : nat;                 (* how often closeChan has been closed *)
  doneWriting : bool;
  conn_closed : bool;
  goroutines : gmap nat goroutine;
  (* ghost: what was queued, the pings that were handled, the frames written *)
  accepted : list string;
  pinged : list string;
  wire : list wsMsg;
}.

Definition closeChan (s : ws_state) : bool := bool_decide (0 < closes s)%nat.
Definition ctrl_cap : nat := 2%nat.
Definition full (s : ws_state) : Prop := (capacity s ≤ length (queue s))%nat.
Definition ctrl_full (s : ws_state) : Prop := (ctrl_cap ≤ length (ctrl s))%nat.

Definition set_go (g : nat) (u : goroutine) (s : ws_state) : ws_state :=
  mkWS (queue s) (capacity s) (wsMsgOp s) (ctrl s) (pongs_seen s) (is_closed s) (closes s)
    (match u with WDone => true | _ => doneWriting s end) (conn_closed s)
    (<[g := u]> (goroutines s)) (accepted s) (pinged s) (wire s).
Definition enqueue (data : string) (s : ws_state) : ws_state :=
  mkWS (queue s ++ [data]) (capacity s) (wsMsgOp s) (ctrl s) (pongs_seen s) (is_closed s)
    (closes s) (doneWriting s) (conn_closed s) (goroutines s) (accepted s ++ [data]) (pinged s)
    (wire s).
Definition dequeue (q : list string) (s : ws_state) : ws_state :=
  mkWS q (capacity s) (wsMsgOp s) (ctrl s) (pongs_seen s) (is_closed s) (closes s)
    (doneWriting s) (conn_closed s) (goroutines s) (accepted s) (pinged s) (wire s).
Definition set_ctrl (q : list wsMsg) (s : ws_state) : ws_state :=
  mkWS (queue s) (capacity s) (wsMsgOp s) q (pongs_seen s) (is_closed s) (closes s)
    (doneWriting s) (conn_closed s) (goroutines s) (accepted s) (pinged s) (wire s).
Definition set_pongs (n : nat) (s : ws_state) : ws_state :=
  mkWS (queue s) (capacity s) (wsMsgOp s) (ctrl s) n (is_closed s) (closes s)
    (doneWriting s) (conn_closed s) (goroutines s) (accepted s) (pinged s) (wire s).
Definition handle_ping (data : string) (s : ws_state) : ws_state :=
  mkWS (queue s) (capacity s) (wsMsgOp s) (ctrl s) (pongs_seen s) (is_closed s) (closes s)
    (doneWriting s) (conn_closed s) (goroutines s) (accepted s) (pinged s ++ [data]) (wire s).
Definition mark (s : ws_state) : ws_state :=
  mkWS (queue s) (capacity s) (wsMsgOp s) (ctrl s) (pongs_seen s) true (closes s)
    (doneWriting s) (conn_closed s) (goroutines s) (accepted s) (pinged s) (wire s).
(** [close(c.closeChan)] *)
Definition close_chan (s : ws_state) : ws_state :=
  mkWS (queue s) (capacity s) (wsMsgOp s) (ctrl s) (pongs_seen s) (is_closed s) (S (closes s))
    (doneWriting s) (conn_closed s) (goroutines s) (accepted s) (pinged s) (wire s).
Definition close_conn (s : ws_state) : ws_state :=
  mkWS (queue s) (capacity s) (wsMsgOp s) (ctrl s) (pongs_seen s) (is_closed s) (closes s)
    (doneWriting s) true (goroutines s) (accepted s) (pinged s) (wire s).
Definition transmit (m : wsMsg) (s : ws_state) : ws_state :=
  mkWS (queue s) (capacity s) (wsMsgOp s) (ctrl s) (pongs_seen s) (is_closed s) (closes s)
    (doneWriting s) (conn_closed s) (goroutines s) (accepted s) (pinged s) (wire s ++ [m]).

(** [NewWebSocketPeer]: goroutine 0 is the writer, goroutine 1 the pinger, if
    there is a keep-alive interval. *)
Definition NewWebSocketPeer (OutQueueSize : nat) (binary keep_alive : bool) : ws_state :=
  mkWS [] (queue_size OutQueueSize) (if binary then OpBinary else OpText) [] 0 false 0 false false
    (<[0%nat := WSelect]> (if keep_alive then {[1%nat := PTicker]} else {[1%nat := Finished true]}))
    [] [] [].

(** [WebSocketPeer.Write]: the check of [closed], and the send without the lock. *)
Inductive Write_step (g : nat) : ws_state → ws_state → Prop :=
| write_begin data s : goroutines s !! g = None → Write_step g s (set_go g (WantWrite data) s)
| write_closed data s :
    goroutines s !! g = Some (WantWrite data) → is_closed s = true →
    Write_step g s (set_go g (Finished false) s)
| write_check data s :
    goroutines s !! g = Some (WantWrite data) → is_closed s = false →
    Write_step g s (set_go g (CheckedWrite data) s)
| write_send data s :
    goroutines s !! g = Some (CheckedWrite data) → ¬ full s →
    Write_step g s (set_go g (Finished true) (enqueue data s)).

(** [WebSocketPeer.TryWrite] *)
Inductive TryWrite_step (g : nat) : ws_state → ws_state → Prop :=
| try_begin data s : goroutines s !! g = None → TryWrite_step g s (set_go g (WantTry data) s)
| try_closed data s :
    goroutines s !! g = Some (WantTry data) → is_closed s = true →
    TryWrite_step g s (set_go g (Finished false) s)
| try_check data s :
    goroutines s !! g = Some (WantTry data) → is_closed s = false →
    TryWrite_step g s (set_go g (CheckedTry data) s)
| try_queued data s :
    goroutines s !! g = Some (CheckedTry data) → ¬ full s →
    TryWrite_step g s (set_go g (Finished true) (enqueue data s))
| try_would_block data s :
    goroutines s !! g = Some (CheckedTry data) → full s →
    TryWrite_step g s (set_go g (Finished false) s).

(** What the caller of [Close] does when it returns. *)
Definition after (k : caller) : goroutine :=
  match k with
  | ByWriter => WDone
  | ByReader => Finished false
  | _ => Finished true
  end.

(** [WebSocketPeer.Close] *)
Inductive Close_step (g : nat) : ws_state → ws_state → Prop :=
| close_again k s :
    goroutines s !! g = Some (Closing CWant k) → is_closed s = true →
    Close_step g s (set_go g (after k) s)
| close_mark k s :
    goroutines s !! g = Some (Closing CWant k) → is_closed s = false →
    Close_step g s (set_go g (Closing CMarked k) (mark s))
| close_signal k s :
    goroutines s !! g = Some (Closing CMarked k) →
    Close_step g s (set_go g (Closing CWait k) (close_chan s))
| close_done k s :
    goroutines s !! g = Some (Closing CWait k) → doneWriting s = true →
    Close_step g s (set_go g (after k) (close_conn s))
| close_timeout k s :
    goroutines s !! g = Some (Closing CWait k) →
    Close_step g s (set_go g (after k) (close_conn s)).

(** A call of [Close] by a user of the peer. *)
Inductive call_Close_step (g : nat) : ws_state → ws_state → Prop :=
| close_begin s :
    goroutines s !! g = None → call_Close_step g s (set_go g (Closing CWant ByUser) s).

(** [WebSocketPeer.writer] *)
Inductive writer_step : ws_state → ws_state → Prop :=
| writer_take data q s :
    goroutines s !! 0%nat = Some WSelect → queue s = data :: q →
    writer_step s (set_go 0 (WWrite (mkMsg (wsMsgOp s) data)) (dequeue q s))
| writer_take_ctrl m q s :
    goroutines s !! 0%nat = Some WSelect → ctrl s = m :: q →
    writer_step s (set_go 0 (WWrite m) (set_ctrl q s))
| writer_stop s :
    goroutines s !! 0%nat = Some WSelect → closeChan s = true → writer_step s (set_go 0 WDone s)
| writer_sent m s :
    goroutines s !! 0%nat = Some (WWrite m) → conn_closed s = false →
    writer_step s (set_go 0 WSelect (transmit m s))
| writer_error m s :
    goroutines s !! 0%nat = Some (WWrite m) →
    writer_step s (set_go 0 (Closing CWant ByWriter) s).

(** [WebSocketPeer.startPinger] *)
Inductive pinger_step (g : nat) : ws_state → ws_state → Prop :=
| pinger_tick s : goroutines s !! g = Some PTicker → pinger_step g s (set_go g PPing s)
| pinger_stop s :
    goroutines s !! g = Some PTicker ∨ goroutines s !! g = Some PPing ∨
    goroutines s !! g = Some PAwait →
    closeChan s = true → pinger_step g s (set_go g (Finished true) s)
| pinger_no_random s : goroutines s !! g = Some PPing → pinger_step g s (set_go g PTicker s)
| pinger_ping data s :
    goroutines s !! g = Some PPing → ¬ ctrl_full s → String.length data = 4%nat →
    pinger_step g s (set_go g PAwait (set_ctrl (ctrl s ++ [mkMsg OpPing data]) s))
| pinger_full s :
    goroutines s !! g = Some PPing → ctrl_full s → closeChan s = false →
    pinger_step g s (set_go g (Closing CWant ByPinger) s)
| pinger_pong n s :
    goroutines s !! g = Some PAwait → pongs_seen s = S n →
    pinger_step g s (set_go g PTicker (set_pongs n s))
| pinger_timeout s :
    goroutines s !! g = Some PAwait → pinger_step g s (set_go g (Closing CWant ByPinger) s).

(** [WebSocketPeer.Read] *)
Inductive Read_step (g : nat) : ws_state → ws_state → Prop :=
| read_begin s : goroutines s !! g = None → Read_step g s (set_go g RFrame s)
| read_error s : goroutines s !! g = Some RFrame → Read_step g s (set_go g (Finished false) s)
| read_message s : goroutines s !! g = Some RFrame → Read_step g s (set_go g (Finished true) s)
| read_ping data s : goroutines s !! g = Some RFrame → Read_step g s (set_go g (RPing data) s)
| read_answers data s :
    goroutines s !! g = Some (RPing data) → ¬ ctrl_full s →
    Read_step g s
      (set_go g RFrame (set_ctrl (ctrl s ++ [mkMsg OpPong data]) (handle_ping data s)))
| read_closed data s :
    goroutines s !! g = Some (RPing data) → closeChan s = true →
    Read_step g s (set_go g (Finished false) s)
| read_drops data s :
    goroutines s !! g = Some (RPing data) → ctrl_full s → closeChan s = false →
    Read_step g s (set_go g RFrame (handle_ping data s))
| read_pong s :
    goroutines s !! g = Some RFrame → Read_step g s (set_go g RFrame (set_pongs 1 s))
| read_close s :
    goroutines s !! g = Some RFrame → Read_step g s (set_go g (Closing CWant ByReader) s).

Definition step (s s' : ws_state) : Prop :=
  writer_step s s' ∨
  ∃ g, Write_step g s s' ∨ TryWrite_step g s s' ∨ Close_step g s s' ∨
       call_Close_step g s s' ∨ pinger_step g s s' ∨ Read_step g s s'.

Ltac step_cases H :=
  let g := fresh "g" in
  destruct H as [H|(g & [H|[H|[H|[H|[H|H]]]]])]; destruct H.

(** ** What always holds *)

Definition is_writer (u : goroutine) : bool :=
  match u with WSelect | WWrite _ | WDone | Closing _ ByWriter => true | _ => false end.
Definition marked (u : goroutine) : bool :=
  match u with Closing CMarked _ => true | _ => false end.

(** The goroutines, the flag and [closeChan]. *)
Record closing_inv (s : ws_state) : Prop := {
  inv_zero : goroutines s !! 0%nat ≠ None;
  inv_writer g u : goroutines s !! g = Some u → is_writer u = bool_decide (g = 0%nat);
  (* closeChan is closed by the goroutine that set the flag *)
  inv_closes : (closes s + count marked (goroutines s) = Nat.b2n (is_closed s))%nat;
  inv_wait g k : goroutines s !! g = Some (Closing CWait k) → is_closed s = true;
  inv_stopped : goroutines s !! 0%nat = Some WDone → is_closed s = true;
  inv_done : doneWriting s = bool_decide (goroutines s !! 0%nat = Some WDone);
}.

Lemma count_set_go g u s :
  (count marked (<[g := u]> (goroutines s)) + Nat.b2n (from_option marked false (goroutines s !! g))
   = count marked (goroutines s) + Nat.b2n (marked u))%nat.
Proof.
  destruct (goroutines s !! g) as [v|] eqn:Hv; simpl.
  - by rewrite (count_update marked _ g v u Hv).
  - rewrite count_new by done. lia.
Qed.

(** A goroutine moves to [u], and the rest of the state from [s] to [t]. *)
Lemma set_go_closing g u s t :
  goroutines t = goroutines s → doneWriting t = doneWriting s →
  (is_closed s = true → is_closed t = true) →
  (closes t + Nat.b2n (marked u) + Nat.b2n (is_closed s) =
   closes s + Nat.b2n (from_option marked false (goroutines s !! g)) + Nat.b2n (is_closed t))%nat →
  is_writer u = from_option is_writer false (goroutines s !! g) →
  goroutines s !! g ≠ Some WDone →
  (u = WDone ∨ (∃ k, u = Closing CWait k) → is_closed t = true) →
  closing_inv s → closing_inv (set_go g u t).
Proof.
  intros Hgo Hdn Hcl Hcs Hwr Hnd Hu [Hz Hw Hc Hwt Hs Hd].
  pose proof (count_set_go g u s) as Hcount.
  assert (is_writer u = bool_decide (g = 0%nat)) as Hwu.
  { rewrite Hwr. destruct (goroutines s !! g) as [v|] eqn:Hv; simpl; [by apply Hw|].
    symmetry. apply bool_decide_eq_false. intros ->. done. }
  split; simpl; rewrite ?Hgo.
  - rewrite lookup_insert_None. naive_solver.
  - intros h v [[<- <-]|[? ?]]%lookup_insert_Some; eauto.
  - lia.
  - intros h k [[<- ->]|[? ?]]%lookup_insert_Some; [|by eauto]. apply Hu. eauto.
  - intros [[-> ->]|[? ?]]%lookup_insert_Some; [|by eauto]. apply Hu. eauto.
  - rewrite Hdn. destruct (decide (g = 0%nat)) as [->|Hg].
    + rewrite lookup_insert_eq. destruct u; try done; rewrite Hd, !bool_decide_eq_false_2; congruence.
    + rewrite lookup_insert_ne by done. rewrite bool_decide_eq_false_2 in Hwu by done.
      by destruct u.
Qed.

Ltac closing_tac :=
  match goal with H : goroutines _ !! ?g = _ |- closing_inv _ =>
    eapply set_go_closing; [..|eassumption];
      rewrite ?H; simpl; try done; try congruence; try lia; try naive_solver
  end.

Lemma closeChan_closed s : closeChan s = true → closing_inv s → is_closed s = true.
Proof.
  intros Hc%bool_decide_eq_true I. pose proof (inv_closes _ I).
  destruct (is_closed s); [done|simpl in *; lia].
Qed.

Lemma marked_closed s g k :
  goroutines s !! g = Some (Closing CMarked k) → closing_inv s → is_closed s = true.
Proof.
  intros Hg I. pose proof (inv_closes _ I).
  pose proof (count_pos marked _ g _ Hg eq_refl). destruct (is_closed s); [done|simpl in *; lia].
Qed.

Lemma writer_step_closing s s' : writer_step s s' → closing_inv s → closing_inv s'.
Proof.
  intros [] I; try closing_tac.
  intros _. by apply closeChan_closed.
Qed.

Lemma Close_step_closing g s s' : Close_step g s s' → closing_inv s → closing_inv s'.
Proof.
  intros [k s0 H|k s0 H|k s0 H|k s0 H|k s0 H] I.
  - destruct k; closing_tac.
  - closing_tac. rewrite H0. simpl. lia.
  - pose proof (marked_closed s0 g k H I). closing_tac.
  - pose proof (inv_wait _ I g k H). destruct k; closing_tac.
  - pose proof (inv_wait _ I g k H). destruct k; closing_tac.
Qed.

Lemma step_closing s s' : step s s' → closing_inv s → closing_inv s'.
Proof.
  intros [H|(g & [H|[H|[H|[H|[H|H]]]]])];
    eauto using writer_step_closing, Close_step_closing; destruct H; intros I; try closing_tac.
  destruct H as [H|[H|H]]; closing_tac.
Qed.

(** The payloads of the messages and of the pongs among frames. *)
Definition is_data (m : wsMsg) : Prop := opCode m = OpText ∨ opCode m = OpBinary.
#[global] Instance is_data_dec m : Decision (is_data m) := _.
Definition messages (l : list wsMsg) : list string := payload <$> filter is_data l.
Definition pongs (l : list wsMsg) : list string :=
  payload <$> filter (λ m, opCode m = OpPong) l.

Lemma messages_app l m : messages (l ++ m) = (messages l ++ messages m)%list.
Proof. unfold messages. by rewrite filter_app, fmap_app. Qed.
Lemma pongs_app l m : pongs (l ++ m) = (pongs l ++ pongs m)%list.
Proof. unfold pongs. by rewrite filter_app, fmap_app. Qed.

(** The frame that the writer is writing. *)
Definition in_flight (w : option goroutine) : list wsMsg :=
  match w with Some (WWrite m) => [m] | _ => [] end.

(** The queues and the wire, when the writer is at [w]. *)
Record queueing_inv (w : option goroutine) (s : ws_state) : Prop := {
  inv_op : is_data (mkMsg (wsMsgOp s) "");
  inv_bound : (length (queue s) ≤ capacity s)%nat;
  inv_ctrl : (length (ctrl s) ≤ ctrl_cap)%nat ∧ messages (ctrl s) = [];
  inv_pongs_seen : (pongs_seen s ≤ 1)%nat;
  inv_order : w = Some WSelect ∨ (∃ m, w = Some (WWrite m)) →
    accepted s = (messages (wire s) ++ messages (in_flight w) ++ queue s)%list;
  inv_prefix : messages (wire s) `prefix_of` accepted s;
  inv_pongs : (pongs (wire s) ++ pongs (in_flight w) ++ pongs (ctrl s))%list
    `sublist_of` pinged s;
}.

Lemma messages_data op data :
  is_data (mkMsg op "") → messages [mkMsg op data] = [data] ∧ pongs [mkMsg op data] = [].
Proof. by intros [H|H]; simpl in H; subst op. Qed.

Lemma messages_cons m l : messages (m :: l) = (messages [m] ++ messages l)%list.
Proof. apply (messages_app [m] l). Qed.
Lemma pongs_cons m l : pongs (m :: l) = (pongs [m] ++ pongs l)%list.
Proof. apply (pongs_app [m] l). Qed.

Lemma ws_writer_step_queueing s s' :
  writer_step s s' → queueing_inv (goroutines s !! 0%nat) s →
  queueing_inv (goroutines s' !! 0%nat) s'.
Proof.
  intros [data q s0 Hw Hq|m q s0 Hw Hq|s0 Hw Hc|m s0 Hw Hc|m s0 Hw];
    rewrite Hw; simpl; rewrite lookup_insert_eq; intros [Hop Hb Hct Hps Ho Hp Hpo];
    try specialize (Ho ltac:(eauto)); simpl in *.
  - destruct (messages_data _ data Hop) as [Hm Hpg].
    split; simpl; try done.
    + rewrite Hq in Hb. simpl in Hb. lia.
    + intros _. by rewrite Ho, Hm, Hq.
    + by rewrite Hpg.
  - destruct Hct as [Hlen Hct]. rewrite Hq in *. rewrite messages_cons in Hct.
    apply app_eq_nil in Hct as [Hm Hct]. simpl in *. split; simpl; try done.
    + split; [lia|done].
    + intros _. by rewrite Ho, Hm.
    + by rewrite pongs_cons in Hpo.
  - by split.
  - split; simpl; try done.
    + intros _. by rewrite Ho, messages_app, <-(assoc_L app).
    + rewrite Ho, messages_app, (assoc_L app). by apply prefix_app_r.
    + by rewrite pongs_app, <-(assoc_L app).
  - split; simpl; try done; [by intros [|[]]|]. etrans; [|exact Hpo].
    apply sublist_app; [done|]. by apply sublist_inserts_l.
Qed.

(** The steps of the other goroutines. *)
Lemma set_go_queueing g u w s : queueing_inv w s → queueing_inv w (set_go g u s).
Proof. by intros []. Qed.
Lemma ws_mark_queueing w s : queueing_inv w s → queueing_inv w (mark s).
Proof. by intros []. Qed.
Lemma close_chan_queueing w s : queueing_inv w s → queueing_inv w (close_chan s).
Proof. by intros []. Qed.
Lemma close_conn_queueing w s : queueing_inv w s → queueing_inv w (close_conn s).
Proof. by intros []. Qed.
Lemma set_pongs_queueing n w s : (n ≤ 1)%nat → queueing_inv w s → queueing_inv w (set_pongs n s).
Proof. by intros ? []. Qed.

Lemma ws_enqueue_queueing data w s :
  ¬ full s → queueing_inv w s → queueing_inv w (enqueue data s).
Proof.
  unfold full. intros Hf [Hop Hb Hct Hps Ho Hp Hpo]. split; simpl; try done.
  - rewrite length_app. simpl. lia.
  - intros Hw. by rewrite Ho, <-!(assoc_L app).
  - by apply prefix_app_r.
Qed.

Lemma handle_ping_queueing data w s : queueing_inv w s → queueing_inv w (handle_ping data s).
Proof.
  intros [Hop Hb Hct Hps Ho Hp Hpo]. split; simpl; try done. by apply sublist_inserts_r.
Qed.

Lemma ping_queueing data w s :
  ¬ ctrl_full s → queueing_inv w s →
  queueing_inv w (set_ctrl (ctrl s ++ [mkMsg OpPing data]) s).
Proof.
  unfold ctrl_full. intros Hf [Hop Hb [Hlen Hct] Hps Ho Hp Hpo]. split; simpl; try done.
  - rewrite length_app, messages_app, Hct. simpl. split; [lia|done].
  - by rewrite pongs_app, app_nil_r.
Qed.

Lemma pong_queueing data w s :
  ¬ ctrl_full s → queueing_inv w s →
  queueing_inv w (set_ctrl (ctrl s ++ [mkMsg OpPong data]) (handle_ping data s)).
Proof.
  unfold ctrl_full. intros Hf [Hop Hb [Hlen Hct] Hps Ho Hp Hpo]. split; simpl; try done.
  - rewrite length_app, messages_app, Hct. simpl. split; [lia|done].
  - rewrite pongs_app, !(assoc_L app). apply sublist_app; [by rewrite <-(assoc_L app)|done].
Qed.

Create HintDb ws_peer.
#[export] Hint Resolve set_go_queueing ws_mark_queueing close_chan_queueing close_conn_queueing
  set_pongs_queueing ws_enqueue_queueing handle_ping_queueing ping_queueing pong_queueing : ws_peer.

Lemma other_step_queueing s s' w :
  step s s' → queueing_inv w s → writer_step s s' ∨ queueing_inv w s'.
Proof.
  intros [H|(g & [H|[H|[H|[H|[H|H]]]]])] I; [by left|..]; right; destruct H; auto with ws_peer.
  pose proof (inv_pongs_seen _ _ I). apply set_go_queueing, set_pongs_queueing; [lia|done].
Qed.

(** A writer that no longer writes: it closes the peer, or is done. *)
Definition writes_no_more (w : option goroutine) : Prop :=
  ∃ u, w = Some u ∧ (u = WDone ∨ ∃ c, u = Closing c ByWriter).

Lemma no_more_queueing w w' s :
  writes_no_more w → writes_no_more w' → queueing_inv w s → queueing_inv w' s.
Proof.
  intros (u & -> & Hu) (u' & -> & Hu') [Hop Hb Hct Hps Ho Hp Hpo].
  split; try done.
  - intros [[= ->]|[m [= ->]]]; naive_solver.
  - by destruct Hu as [->|[? ->]], Hu' as [->|[? ->]].
Qed.

(** The writer moves in its own steps, and when it closes the peer. *)
Lemma writer_moves s s' :
  step s s' → closing_inv s → writer_step s s' ∨
    goroutines s' !! 0%nat = goroutines s !! 0%nat ∨
    writes_no_more (goroutines s !! 0%nat) ∧ writes_no_more (goroutines s' !! 0%nat).
Proof.
  intros [H|(g & H)] I; [by left|right]. destruct (decide (g = 0%nat)) as [->|Hg].
  - right. unfold writes_no_more.
    assert (∀ u, goroutines s !! 0%nat = Some u → is_writer u = true) as Hw
      by (intros u Hu; by rewrite (inv_writer _ I _ _ Hu)).
    assert (goroutines s !! 0%nat ≠ None) as Hz by apply (inv_zero _ I).
    destruct H as [H|[H|[H|[H|[H|H]]]]]; destruct H; simpl; rewrite ?lookup_insert_eq;
      try congruence; try (destruct_or?; by (apply Hw in H)).
    all: pose proof (Hw _ H) as Hk; simpl in Hk; destruct k; try done; eauto 10.
  - left. destruct H as [H|[H|[H|[H|[H|H]]]]]; destruct H; simpl; by rewrite lookup_insert_ne.
Qed.

Definition inv (s : ws_state) : Prop := closing_inv s ∧ queueing_inv (goroutines s !! 0%nat) s.

Lemma ws_step_inv s s' : step s s' → inv s → inv s'.
Proof.
  intros Hs [I Q]. split; [by eapply step_closing|].
  destruct (writer_moves s s' Hs I) as [Hw|Hw]; [by eapply ws_writer_step_queueing|].
  destruct (other_step_queueing s s' _ Hs Q) as [Hw'|Q']; [by eapply ws_writer_step_queueing|].
  destruct Hw as [->|[H1 H2]]; [done|]. exact (no_more_queueing _ _ _ H1 H2 Q').
Qed.

Lemma start_inv size binary keep : inv (NewWebSocketPeer size binary keep).
Proof.
  split.
  - assert (count marked (goroutines (NewWebSocketPeer size binary keep)) = 0%nat) as Hc.
    { apply count_none. intros i a. simpl. intros [[<- <-]|[? Ha]]%lookup_insert_Some; [done|].
      by destruct keep; apply lookup_singleton_Some in Ha as [? <-]. }
    split; rewrite ?Hc; try done; simpl.
    + by rewrite lookup_insert_eq.
    + intros g u. simpl. intros [[<- <-]|[? Ha]]%lookup_insert_Some; [done|].
      by destruct keep; apply lookup_singleton_Some in Ha as [<- <-].
    + intros g k. simpl. intros [[? ?]|[? Ha]]%lookup_insert_Some; [done|].
      by destruct keep; apply lookup_singleton_Some in Ha as [? ?].
    + by rewrite lookup_insert_eq.
    + by rewrite lookup_insert_eq.
  - simpl. rewrite lookup_insert_eq. split; simpl; try done; try lia.
    + destruct binary; [by right|by left].
    + unfold ctrl_cap. split; [lia|done].
Qed.

Lemma ws_reachable_inv size binary keep s :
  rtc step (NewWebSocketPeer size binary keep) s → inv s.
Proof.
  intros Hr. apply (rtc_invariant _ _ _ _ ws_step_inv Hr), start_inv.
Qed.

(** C39. In every interleaving of writes, closes, reads, pings and failures of the
    connection, a WebSocket peer closes [closeChan] at most once (closing it
    again would panic); its queues stay within their capacities; the messages
    on the connection are the queued payloads, in order, none twice; and the
    pongs are answers to pings that arrived, in order, none twice. *)
Theorem websocket_peer_transmits_in_order size binary keep s :
  rtc step (NewWebSocketPeer size binary keep) s →
  (closes s ≤ 1)%nat ∧ (length (queue s) ≤ capacity s)%nat ∧ (length (ctrl s) ≤ ctrl_cap)%nat ∧
  messages (wire s) `prefix_of` accepted s ∧ pongs (wire s) `sublist_of` pinged s.
Proof.
  intros [I [_ Hb [Hc _] _ _ Hp Hpo]]%ws_reachable_inv. split_and!; try done.
  - pose proof (inv_closes _ I). destruct (is_closed s); simpl in *; lia.
  - etrans; [|exact Hpo]. by apply sublist_inserts_r.
Qed.

(** ** Closing *)

(** A call of [Close] of a WebSocket peer returns by its own steps, from
    every state and whoever makes it: it waits for no other goroutine longer
    than its timeout.  The call that closes the peer closes the connection. *)
Theorem websocket_close_returns size binary keep s g c k :
  rtc step (NewWebSocketPeer size binary keep) s → goroutines s !! g = Some (Closing c k) →
  ∃ s', rtc (Close_step g) s s' ∧ goroutines s' !! g = Some (after k) ∧ is_closed s' = true ∧
    (c ≠ CWant ∨ is_closed s = false → conn_closed s' = true).
Proof.
  intros [I _]%ws_reachable_inv Hg.
  assert (∀ t, goroutines t !! g = Some (Closing CWait k) →
    Close_step g t (set_go g (after k) (close_conn t))) as Hwait by (intros; by apply close_timeout).
  set (closed t := set_go g (after k) (close_conn (set_go g (Closing CWait k) (close_chan t)))).
  assert (∀ t, goroutines t !! g = Some (Closing CMarked k) → rtc (Close_step g) t (closed t)) as Hmark.
  { intros t Ht. eapply rtc_l; [by apply close_signal|]. apply rtc_once, Hwait, lookup_insert_eq. }
  destruct c.
  - destruct (is_closed s) eqn:Hc.
    + eexists. split; [by eapply rtc_once, close_again|]. split_and!; [apply lookup_insert_eq|done|].
      naive_solver.
    + exists (closed (set_go g (Closing CMarked k) (mark s))). split_and!; try done.
      * eapply rtc_l; [by eapply close_mark|]. apply Hmark, lookup_insert_eq.
      * apply lookup_insert_eq.
  - exists (closed s). split_and!; [by apply Hmark|apply lookup_insert_eq| |done].
    simpl. by eapply marked_closed.
  - eexists. split; [by apply rtc_once, Hwait|]. split_and!; [apply lookup_insert_eq| |done].
    simpl. by eapply inv_wait.
Qed.

(** A writer that closes the peer after an error waits for itself: only the
    timeout ends that. *)
Theorem failed_writer_waits_for_itself size binary keep s s' :
  rtc step (NewWebSocketPeer size binary keep) s →
  goroutines s !! 0%nat = Some (Closing CWait ByWriter) → step s s' →
  goroutines s' !! 0%nat = Some (Closing CWait ByWriter) ∧ doneWriting s' = false ∨
  s' = set_go 0 WDone (close_conn s).
Proof.
  intros [I _]%ws_reachable_inv Hg Hs.
  assert (doneWriting s = false) as Hd
    by (rewrite (inv_done _ I); apply bool_decide_eq_false_2; congruence).
  destruct Hs as [H|(g & H)]; [destruct H; congruence|].
  destruct (decide (g = 0%nat)) as [->|Hne].
  - destruct H as [H|[H|[H|[H|[H|H]]]]]; destruct H; destruct_or?; try congruence.
    rewrite Hg in H. simplify_eq. by right.
  - left. destruct H as [H|[H|[H|[H|[H|H]]]]]; destruct H; simpl; rewrite lookup_insert_ne by done;
      split; try done; pose proof (inv_writer _ I _ _ H) as Hk;
      rewrite bool_decide_eq_false_2 in Hk by done; by destruct k.
Qed.

(** ** A [Write] that is overtaken by [Close] *)

(** A [Write] that has passed its check waits on the full queue of a peer whose
    writer is gone. *)
Definition lost (g : nat) (data : string) (s : ws_state) : Prop :=
  goroutines s !! 0%nat = Some WDone ∧ full s ∧ goroutines s !! g = Some (CheckedWrite data).

Lemma lost_step g data s s' : step s s' → lost g data s → lost g data s'.
Proof.
  unfold lost, full. intros Hs (Hw & Hf & Hu).
  destruct Hs as [H|(h & H)]; [destruct H; congruence|].
  assert (h ≠ 0%nat ∧ h ≠ g) as [H0 Hg].
  { split; intros ->; destruct H as [H|[H|[H|[H|[H|H]]]]]; destruct H; unfold full in *;
      destruct_or?; try congruence; simplify_eq/=; done. }
  destruct H as [H|[H|[H|[H|[H|H]]]]]; destruct H; simpl; rewrite !lookup_insert_ne by done;
    try done; unfold full in *; done.
Qed.

Lemma ws_step_writer s s' : writer_step s s' → step s s'.
Proof. by left. Qed.
Lemma ws_step_write g s s' : Write_step g s s' → step s s'.
Proof. right. exists g. by left. Qed.
Lemma ws_step_close g s s' : Close_step g s s' → step s s'.
Proof. right. exists g. by do 2 right; left. Qed.
Lemma step_call_close g s s' : call_Close_step g s s' → step s s'.
Proof. right. exists g. by do 3 right; left. Qed.

(** A peer whose queue fills: the goroutines from [2 + k] on are unused. *)
Definition filling (k : nat) (s : ws_state) : Prop :=
  goroutines s !! 0%nat = Some WSelect ∧ is_closed s = false ∧ length (queue s) = k ∧
  ∀ h, (2 + k ≤ h)%nat → goroutines s !! h = None.

Lemma write_checked g data s :
  goroutines s !! g = None → is_closed s = false →
  rtc step s (set_go g (CheckedWrite data) (set_go g (WantWrite data) s)).
Proof.
  intros Hg Hc. eapply rtc_l; [by apply (ws_step_write g), write_begin|].
  apply rtc_once, (ws_step_write g), write_check; [apply lookup_insert_eq|done].
Qed.

Lemma ws_fill_one k s :
  filling k s → (k < capacity s)%nat →
  ∃ s', rtc step s s' ∧ filling (S k) s' ∧ capacity s' = capacity s.
Proof.
  intros (Hw & Hc & Hq & Hu) Hk.
  eexists. split; [eapply rtc_r; [apply (write_checked (2 + k) "x"); [apply Hu; lia|done]|]|].
  { apply (ws_step_write (2 + k)), write_send; [apply lookup_insert_eq|]. unfold full. simpl. lia. }
  split; [|done]. repeat split; try done; simpl.
  - by rewrite !lookup_insert_ne.
  - by rewrite length_app, Hq, Nat.add_1_r.
  - intros h Hh. rewrite !lookup_insert_ne by lia. apply Hu. lia.
Qed.

Lemma ws_fill j : ∀ k s,
  filling k s → (k + j = capacity s)%nat →
  ∃ s', rtc step s s' ∧ filling (capacity s') s' ∧ capacity s' = capacity s.
Proof.
  induction j as [|j IH]; intros k s Hf Hk.
  - exists s. replace (capacity s) with k by lia. eauto using rtc_refl.
  - destruct (ws_fill_one k s) as (s1 & Hr & Hf1 & Hc1); [done|lia|].
    destruct (IH (S k) s1) as (s2 & Hr2 & Hf2 & Hc2); [done|lia|].
    exists s2. split_and!; [by etrans|done|congruence].
Qed.

(** A whole [Close] while the writer is idle. *)
Lemma close_runs h s :
  goroutines s !! h = None → goroutines s !! 0%nat = Some WSelect → is_closed s = false →
  h ≠ 0%nat →
  ∃ s', rtc step s s' ∧ goroutines s' !! 0%nat = Some WDone ∧ conn_closed s' = true ∧
    queue s' = queue s ∧ capacity s' = capacity s ∧
    goroutines s' !! h = Some (Finished true) ∧
    ∀ g, g ≠ 0%nat → g ≠ h → goroutines s' !! g = goroutines s !! g.
Proof.
  intros Hh Hw Hc Hne. set (s1 := set_go h (Closing CWant ByUser) s).
  assert (step s s1) as H1 by (by eapply step_call_close, close_begin).
  assert (step s1 (set_go h (Closing CMarked ByUser) (mark s1))) as H2
    by (apply (ws_step_close h), close_mark; [apply lookup_insert_eq|done]).
  set (s2 := set_go h _ _) in H2.
  assert (step s2 (set_go h (Closing CWait ByUser) (close_chan s2))) as H3
    by (apply (ws_step_close h), close_signal, lookup_insert_eq).
  set (s3 := set_go h _ _) in H3.
  assert (step s3 (set_go 0 WDone s3)) as H4
    by (apply ws_step_writer, writer_stop; [simpl; by rewrite !lookup_insert_ne|done]).
  set (s4 := set_go 0 _ _) in H4.
  assert (step s4 (set_go h (Finished true) (close_conn s4))) as H5.
  { apply (ws_step_close h), (close_done h ByUser); [|done].
    simpl. rewrite lookup_insert_ne by done. apply lookup_insert_eq. }
  eexists. split; [eapply rtc_l, rtc_l, rtc_l, rtc_l, rtc_once; eassumption|].
  split_and!; try done; simpl.
  - by rewrite lookup_insert_ne, lookup_insert_eq.
  - apply lookup_insert_eq.
  - intros g H0 Hg. by rewrite !lookup_insert_ne.
Qed.

(** A [Write] to a WebSocket peer that waits for room when the peer is
    closed never returns: [Close] finishes, the writer is gone and the
    connection closed, and nothing ever makes room.  This can happen whatever
    the size of the queue. *)
Theorem write_overtaken_by_close_never_returns size binary keep :
  ∃ s g h, rtc step (NewWebSocketPeer size binary keep) s ∧
    goroutines s !! h = Some (Finished true) ∧ conn_closed s = true ∧
    goroutines s !! g = Some (CheckedWrite "x") ∧
    ∀ s', rtc step s s' → goroutines s' !! g = Some (CheckedWrite "x").
Proof.
  set (s0 := NewWebSocketPeer size binary keep).
  assert (filling 0 s0) as Hf0.
  { split_and!; try done; [apply lookup_insert_eq|]. intros h Hh. simpl.
    rewrite lookup_insert_ne by lia. destruct keep; by rewrite lookup_singleton_ne by lia. }
  destruct (ws_fill (capacity s0) 0 s0 Hf0 eq_refl) as (s1 & Hr1 & (Hw & Hc & Hq & Hu) & Hc1).
  set (g := (2 + capacity s1)%nat).
  assert (goroutines s1 !! g = None) as Hg by (apply Hu; lia).
  pose proof (write_checked g "x" s1 Hg Hc) as Hr2. set (s2 := set_go g _ _) in Hr2.
  destruct (close_runs (S g) s2) as (s3 & Hr3 & Hw3 & Hcc & Hq3 & Hc3 & Hh3 & Hg3); try done.
  { simpl. rewrite !lookup_insert_ne by lia. apply Hu. lia. }
  { simpl. by rewrite !lookup_insert_ne by lia. }
  assert (lost g "x" s3) as Hl.
  { split_and!; [done|unfold full; rewrite Hq3, Hc3; simpl; lia|].
    rewrite Hg3 by lia. apply lookup_insert_eq. }
  exists s3, g, (S g). split_and!; try done; [|apply Hl|].
  - etrans; [done|]. by etrans.
  - intros s' Hr'. apply (rtc_invariant step (lost g "x") s3 s' (lost_step g "x") Hr' Hl).
Qed.

(** ** Examples *)

Example websocket_peer_transmits_in_order_witness :
  rtc step (NewWebSocketPeer 8 true true) (set_go 5 (WantWrite "HELLO") (NewWebSocketPeer 8 true true)) ∧
  (closes (NewWebSocketPeer 8 true true) ≤ 1)%nat ∧ messages [] `prefix_of` [].
Proof.
  assert (rtc step (NewWebSocketPeer 8 true true)
            (set_go 5 (WantWrite "HELLO") (NewWebSocketPeer 8 true true))) as Hr
    by (by apply rtc_once, (ws_step_write 5), write_begin).
  split; [done|].
  destruct (websocket_peer_transmits_in_order 8 true true _ Hr) as (H1 & _ & _ & H2 & _).
  exact (conj H1 H2).
Defined.

Example websocket_close_returns_witness :
  let s := set_go 5 (Closing CWant ByUser) (NewWebSocketPeer 8 true true) in
  ∃ s', rtc (Close_step 5) s s' ∧ goroutines s' !! 5%nat = Some (Finished true) ∧
    is_closed s' = true ∧ conn_closed s' = true.
Proof.
  intros s.
  assert (rtc step (NewWebSocketPeer 8 true true) s) as Hr
    by (by apply rtc_once, (step_call_close 5), close_begin).
  destruct (websocket_close_returns 8 true true s 5 CWant ByUser Hr eq_refl) as (s' & H1 & H2 & H3 & H4).
  exists s'. exact (conj H1 (conj H2 (conj H3 (H4 (or_intror eq_refl))))).
Defined.
