(* ===== verification/Acceptor.v ===== *)
(** * Handshakes (acceptor.go, joiner.go, helpers.go)

    How a connection becomes a session: the registries of serializers, the
    HELLO of a client, and the exchange that the acceptor or the joiner of
    wampproto-go steers.  What a peer reads from its connection is a list of
    results, one for each [Read]; a read after the last one waits. *)

From S2P Require Import Prelude GoStd Wamp Peers.

Local Open Scope string_scope.

Definition JsonWebsocketProtocol : string := "wamp.2.json".
Definition MsgpackWebsocketProtocol : string := "wamp.2.msgpack".
Definition CborWebsocketProtocol : string := "wamp.2.cbor".
Definition JsonSerializerID : Z := 1.
Definition MsgPackSerializerID : Z := 2.
Definition CborSerializerID : Z := 3.

(** [SessionDetails] *)
Record details := {
  d_ID : Z; d_Realm : string; d_AuthID : string; d_AuthRole : string;
  d_AuthMethod : string; d_AuthExtra : dict }.

(** The acceptor and the joiner of wampproto-go: state machines that take the
    messages of the other side and say what to send. *)
Class WampHandshake `{WampSerializers} := {
  (** The realm of a message whose dynamic type is HELLO. *)
  hello_realm : Message → option string;
  (** [NewAbort(details, reason, nil, nil)] *)
  NewAbort : dict → string → Message;
  ErrNoSuchRealm : string;
  (** [transports.MAGIC] *)
  MAGIC : Z;
  ServerAuthenticator : Type;
  Acceptor : Type;
  NewAcceptor : Serializer → ServerAuthenticator → Acceptor;
  Acceptor_ReceiveMessage : Acceptor → Message → Acceptor * result Message;
  Acceptor_Receive : Acceptor → string → Acceptor * result (string * bool);
  Acceptor_SessionDetails : Acceptor → result details;
  ClientAuthenticator : Type;
  Joiner : Type;
  NewJoiner : string → Serializer → ClientAuthenticator → Joiner;
  Joiner_SendHello : Joiner → Joiner * result string;
  (** nil bytes: the session is established *)
  Joiner_Receive : Joiner → string → Joiner * result (option string);
  Joiner_SessionDetails : Joiner → result details;
}.

(** ** The registries of serializers *)

Section Specs.
Context `{WampSerializers}.

Record SerializerSpec := NewSerializerSpec {
  SubProtocol : string; spec_Serializer : Serializer; SerializerID : Z }.

Definition SerializersByWSSubProtocol : gmap string Serializer :=
  <[JsonWebsocketProtocol := JSONSerializer]> (<[MsgpackWebsocketProtocol := MsgPackSerializer]>
    (<[CborWebsocketProtocol := CBORSerializer]> ∅)).

(** The package variable [serializersBySerializerID], when the program starts. *)
Definition default_serializersBySerializerID : gmap Z Serializer :=
  <[JsonSerializerID := JSONSerializer]> (<[MsgPackSerializerID := MsgPackSerializer]>
    (<[CborSerializerID := CBORSerializer]> ∅)).

(** Every WebSocket acceptor has a table of its own, nil until it is used; the
    RawSocket acceptors share the table of the package. *)
Record registries := mkRegistries {
  ws_specs : gmap nat (gmap string Serializer);
  serializersBySerializerID : gmap Z Serializer;
}.

Definition initial_registries : registries := mkRegistries ∅ default_serializersBySerializerID.

(** [w.once.Do(w.init)] and [w.specs] of the WebSocket acceptor [w] *)
Definition specs_of (w : nat) (r : registries) : gmap string Serializer :=
  default SerializersByWSSubProtocol (ws_specs r !! w).

Definition WebSocketAcceptor_RegisterSpec (w : nat) (spec : SerializerSpec) : M registries unit :=
  specs ← get (specs_of w);
  match specs !! SubProtocol spec with
  | Some _ => fail ("spec for " +:+ SubProtocol spec +:+ " is already registered")
  | None =>
      modify (λ r, mkRegistries
        (<[w := <[SubProtocol spec := spec_Serializer spec]> (specs_of w r)]> (ws_specs r))
        (serializersBySerializerID r))
  end.

Definition WebSocketAcceptor_Spec (w : nat) (subProtocol : string) (r : registries)
    : result Serializer :=
  match specs_of w r !! subProtocol with
  | None => Err ("spec for " +:+ subProtocol +:+ " is not registered")
  | Some s => Ok s
  end.

Definition RawSocketAcceptor_RegisterSpec (spec : SerializerSpec) : M registries unit :=
  specs ← get serializersBySerializerID;
  match specs !! SerializerID spec with
  | Some _ => fail "spec is already registered"
  | None =>
      modify (λ r, mkRegistries (ws_specs r)
        (<[SerializerID spec := spec_Serializer spec]> (serializersBySerializerID r)))
  end.

Definition RawSocketAcceptor_Spec (serializerID : Z) (r : registries) : result Serializer :=
  match serializersBySerializerID r !! serializerID with
  | None => Err ("spec for " +:+ pretty serializerID +:+ " is not registered")
  | Some s => Ok s
  end.

(** [Server.RegisterSpec] of the server whose WebSocket acceptor is [w] *)
Definition Server_RegisterSpec (w : nat) (spec : SerializerSpec) : M registries unit :=
  WebSocketAcceptor_RegisterSpec w spec;; RawSocketAcceptor_RegisterSpec spec.

End Specs.

(** ** The exchange *)

Section Handshake.
Context `{WampHandshake}.

Abbreviation reads := (list (result string)).

(** [peer.Read] *)
Definition next_read {A} (rs : reads) (k : string → reads → M Peer A) : M Peer A :=
  match rs with
  | [] => λ p, (p, Blocks)
  | Err e :: _ => fail e
  | Ok payload :: rs => k payload rs
  end.

(** [ReadHello]: the HELLO and its realm. *)
Definition ReadHello (s : Serializer) (rs : reads) : M Peer (Message * string * reads) :=
  next_read rs (λ payload rs,
    match Deserialize s payload with
    | Err e => fail e
    | Ok msg =>
        if bool_decide (Message_Type msg ≠ MessageTypeHello)
        then fail ("first message must be HELLO, but was " +:+ pretty (Message_Type msg))
        else
          match hello_realm msg with
          | None => crash "interface conversion"
          | Some realm => mret (msg, realm, rs)
          end
    end).

Definition WriteMessage (message : Message) (s : Serializer) : M Peer unit :=
  match Serialize s message with
  | Err e => fail ("failed to serialize message: " +:+ e)
  | Ok payload =>
      r ← try (Write payload); of_result (wrap "failed to write message: " r)
  end.

(** The loop of [Accept]. *)
Fixpoint accept_loop (a : Acceptor) (rs : reads) : M Peer (Acceptor * reads) :=
  match rs with
  | [] => λ p, (p, Blocks)
  | Err e :: _ => fail e
  | Ok payload :: rs =>
      let '(a, r) := Acceptor_Receive a payload in
      match r with
      | Err e => fail e
      | Ok (toSend, welcomed) =>
          Write toSend;;
          if (welcomed : bool) then mret (a, rs) else accept_loop a rs
      end
  end.

(** [Accept].  The details of the session, and what is left to read. *)
Definition Accept (hello : Message) (s : Serializer) (authenticator : ServerAuthenticator)
    (rs : reads) : M Peer (details * reads) :=
  let '(a, r) := Acceptor_ReceiveMessage (NewAcceptor s authenticator) hello in
  match r with
  | Err e => fail e
  | Ok toSend =>
      WriteMessage toSend s;;
      done ← (if bool_decide (Message_Type toSend = MessageTypeWelcome) then mret (a, rs)
              else accept_loop a rs);
      match Acceptor_SessionDetails done.1 with
      | Err _ => crash "invalid memory address or nil pointer dereference"
      | Ok d => mret (d, done.2)
      end
  end.

(** [OutQueueSize] of a server peer, as [UpgradeWebSocket] and
    [UpgradeRawSocket] set it. *)
Definition server_queue_size (outQueueSize : nat) : nat :=
  if bool_decide (outQueueSize = 0%nat) then RouterOutQueueSizeDefault else outQueueSize.

(** [WebSocketAcceptor.Accept] on the peer of an upgraded connection, whose
    negotiated subprotocol is [protocol]; [HasRealm] is the router's. *)
Definition WebSocketAcceptor_Accept (specs : registries) (w : nat) (protocol : string)
    (HasRealm : string → bool) (authenticator : ServerAuthenticator) (rs : reads)
    : M Peer (details * Serializer * reads) :=
  serializer ← of_result (wrap "unknown subprotocol: " (WebSocketAcceptor_Spec w protocol specs));
  hello ← try (ReadHello serializer rs);
  hello ← of_result (wrap "failed to read hello: " hello);
  let '(msg, realm, rs) := hello in
  if negb (HasRealm realm) then
    serializedAbort ← of_result (wrap "failed to serialize abort: "
      (Serialize serializer (NewAbort ∅ ErrNoSuchRealm)));
    r ← try (Write serializedAbort);
    of_result (wrap "failed to send abort: " r);;
    fail ErrNoSuchRealm
  else
    d ← Accept msg serializer authenticator rs; mret (d.1, serializer, d.2).

(** [RawSocketAcceptor.Accept] on the peer of an upgraded connection, whose
    handshake asked for [serializerID]. *)
Definition RawSocketAcceptor_Accept (specs : registries) (serializerID : Z)
    (authenticator : ServerAuthenticator) (rs : reads) : M Peer (details * Serializer * reads) :=
  serializer ← of_result (wrap "failed to init reader/writer: "
    (RawSocketAcceptor_Spec serializerID specs));
  hello ← try (ReadHello serializer rs);
  match hello with
  | Err _ => fail ""
  | Ok (msg, _, rs) => d ← Accept msg serializer authenticator rs; mret (d.1, serializer, d.2)
  end.

(** The loop of [Join]. *)
Fixpoint join_loop (j : Joiner) (rs : reads) : M Peer (Joiner * reads) :=
  match rs with
  | [] => λ p, (p, Blocks)
  | Err e :: _ => fail ("failed to parse websocket: " +:+ e)
  | Ok msg :: rs =>
      let '(j, r) := Joiner_Receive j msg in
      match r with
      | Err e => fail e
      | Ok None => mret (j, rs)
      | Ok (Some toSend) =>
          r ← try (Write toSend);
          of_result (wrap "failed to send message: " r);;
          join_loop j rs
      end
  end.

Definition Join (realm : string) (s : Serializer) (authenticator : ClientAuthenticator)
    (rs : reads) : M Peer (details * reads) :=
  let '(j, hello) := Joiner_SendHello (NewJoiner realm s authenticator) in
  hello ← of_result hello;
  r ← try (Write hello);
  of_result (wrap "failed to send wamp hello: " r);;
  done ← join_loop j rs;
  match Joiner_SessionDetails done.1 with
  | Err e => fail e
  | Ok d => mret (d, done.2)
  end.

End Handshake.

(** ** What a handshake does *)

Section HandshakeSpec.
Context `{WampHandshake}.

Implicit Types (p : Peer) (rs : list (result string)).

(** The exchange from an acceptor state: what was sent, and how it ended. *)
Inductive exchange : Acceptor → list (result string) → list string →
    Acceptor → list (result string) → Prop :=
| ex_welcomed a payload a' out rs :
    Acceptor_Receive a payload = (a', Ok (out, true)) →
    exchange a (Ok payload :: rs) [out] a' rs
| ex_more a payload a1 out rs sent a' rs' :
    Acceptor_Receive a payload = (a1, Ok (out, false)) →
    exchange a1 rs sent a' rs' →
    exchange a (Ok payload :: rs) (out :: sent) a' rs'.

(** What a successful write does to a peer. *)
Lemma Write_Val data p p' u :
  Write data p = (p', Val u) → p' = push data p ∧ closed p = false.
Proof. rewrite Write_run. intros. repeat case_match; simplify_eq. by split. Qed.

Definition push_all (sent : list string) p : Peer := foldl (λ p d, push d p) p sent.

Lemma push_all_queue sent p : writeChan (push_all sent p) = (writeChan p ++ sent)%list.
Proof.
  revert p. induction sent as [|d sent IH]; intros p; simpl; [by rewrite app_nil_r|].
  unfold push_all in *. rewrite IH. simpl. by rewrite <-(assoc_L app).
Qed.

Lemma accept_loop_exchange rs a p p' a' rs' :
  accept_loop a rs p = (p', Val (a', rs')) →
  ∃ sent, exchange a rs sent a' rs' ∧ p' = push_all sent p.
Proof.
  revert a p. induction rs as [|[payload|e] rs IH]; intros a p; simpl; [done| |done].
  destruct (Acceptor_Receive a payload) as [a1 [[out welcomed]|e]] eqn:Ha; [|done].
  intros (p1 & u & [-> _]%Write_Val & Hr)%bind_Val_inv. destruct welcomed.
  - injection Hr as <- <- <-. exists [out]. split; [by constructor|done].
  - apply IH in Hr as (sent & Hx & ->). exists (out :: sent). split; [by econstructor|done].
Qed.

Lemma WriteMessage_Val m s p p' u :
  WriteMessage m s p = (p', Val u) → ∃ bytes, Serialize s m = Ok bytes ∧ p' = push bytes p.
Proof.
  unfold WriteMessage. destruct (Serialize s m) as [bytes|e]; [|done].
  intros (p1 & [[]|e] & Hw & Hr)%bind_Val_inv; simplify_eq/=. exists bytes. split; [done|].
  unfold try in Hw. destruct (Write bytes p) as [p2 [[]|?|?|]] eqn:Hwr; simplify_eq.
  injection Hr as <-. by apply Write_Val in Hwr as [-> _].
Qed.

(** A server accepts a session only when the acceptor says so: after a WELCOME
    in answer to HELLO, or after an exchange in which the acceptor welcomed the
    client.  The session has the details of the acceptor, and the client has
    been sent exactly the acceptor's messages, in order. *)
Theorem accepted_sessions_are_welcomed hello s authenticator rs p p' d rs' :
  Accept hello s authenticator rs p = (p', Val (d, rs')) →
  ∃ a first bytes sent a',
    Acceptor_ReceiveMessage (NewAcceptor s authenticator) hello = (a, Ok first) ∧
    (Message_Type first = MessageTypeWelcome ∧ a' = a ∧ sent = [] ∧ rs' = rs ∨
     exchange a rs sent a' rs') ∧
    Acceptor_SessionDetails a' = Ok d ∧ Serialize s first = Ok bytes ∧
    writeChan p' = (writeChan p ++ bytes :: sent)%list.
Proof.
  unfold Accept. destruct (Acceptor_ReceiveMessage _ hello) as [a [first|e]]; [|done].
  intros (p1 & ? & (bytes & Hs & ->)%WriteMessage_Val & Hr)%bind_Val_inv.
  apply bind_Val_inv in Hr as (p2 & [a' rs2] & Hx & Hd). simpl in Hd.
  destruct (Acceptor_SessionDetails a') as [d'|e] eqn:Hdet; [|done]. injection Hd as <- <- <-.
  case_bool_decide as Hw.
  - injection Hx as <- <- <-. exists a, first, bytes, [], a. split_and!; [done|by left|done..].
  - apply accept_loop_exchange in Hx as (sent & Hx & ->).
    exists a, first, bytes, sent, a'. split_and!; [done|by right|done..|].
    rewrite push_all_queue. simpl. by rewrite <-(assoc_L app).
Qed.

End HandshakeSpec.

Section SpecsSpec.
Context `{WampSerializers}.

(** The tables of RawSocket serializers are one table: a serializer that one
    server registers is accepted by the RawSocket clients of every server, and
    a second server that registers it too fails, although its WebSocket
    acceptor has taken it.  WebSocket acceptors do not see each other. *)
Theorem raw_specs_are_shared w1 w2 spec r r1 :
  w1 ≠ w2 → specs_of w2 r !! SubProtocol spec = None →
  Server_RegisterSpec w1 spec r = (r1, Val tt) →
  WebSocketAcceptor_Spec w1 (SubProtocol spec) r1 = Ok (spec_Serializer spec) ∧
  RawSocketAcceptor_Spec (SerializerID spec) r1 = Ok (spec_Serializer spec) ∧
  (∀ p, WebSocketAcceptor_Spec w2 p r1 = WebSocketAcceptor_Spec w2 p r) ∧
  ∃ r2, Server_RegisterSpec w2 spec r1 = (r2, Fail "spec is already registered") ∧
    WebSocketAcceptor_Spec w2 (SubProtocol spec) r2 = Ok (spec_Serializer spec).
Proof.
  intros Hne Hw2. unfold Server_RegisterSpec at 1.
  intros (r0 & [] & Hws & Hraw)%bind_Val_inv.
  unfold WebSocketAcceptor_RegisterSpec in Hws. apply bind_Val_inv in Hws as (? & ? & [= <- <-] & Hws).
  destruct (specs_of w1 r !! SubProtocol spec) eqn:Hw1; [done|]. injection Hws as <-.
  unfold RawSocketAcceptor_RegisterSpec in Hraw. apply bind_Val_inv in Hraw as (? & ? & [= <- <-] & Hraw).
  simpl in Hraw. destruct (_ !! SerializerID spec) eqn:Hid; [done|]. injection Hraw as <-.
  assert (specs_of w2 (mkRegistries (<[w1 := <[SubProtocol spec := spec_Serializer spec]>
    (specs_of w1 r)]> (ws_specs r)) (<[SerializerID spec := spec_Serializer spec]>
    (serializersBySerializerID r))) = specs_of w2 r) as Hsame.
  { unfold specs_of. simpl. by rewrite lookup_insert_ne. }
  split_and!.
  - unfold WebSocketAcceptor_Spec, specs_of. simpl. rewrite lookup_insert_eq. simpl. by rewrite lookup_insert_eq.
  - unfold RawSocketAcceptor_Spec. simpl. by rewrite lookup_insert_eq.
  - intros q. unfold WebSocketAcceptor_Spec. by rewrite Hsame.
  - eexists. unfold Server_RegisterSpec, WebSocketAcceptor_RegisterSpec. split.
    + erewrite bind_Val.
      2: { erewrite bind_Val by done. rewrite Hsame, Hw2. reflexivity. }
      unfold RawSocketAcceptor_RegisterSpec. erewrite bind_Val by done. simpl.
      rewrite lookup_insert_eq. reflexivity.
    + unfold WebSocketAcceptor_Spec, specs_of. simpl. rewrite lookup_insert_eq. simpl. by rewrite lookup_insert_eq.
Qed.

End SpecsSpec.
