(* ===== verification/Auth.v ===== *)
(** * What the authenticators rely on (wampproto-go's auth package)

    An authenticator of this repository is asked to accept a request and
    answers by a response of the auth package or an error.  A request has a
    dynamic type of its own beside the method it names. *)

From S2P Require Import Prelude GoStd.

Local Open Scope string_scope.

(** The fields every request has. *)
Record request_fields := { AuthMethod : string; Realm : string; AuthID : string }.

(** [auth.Request], by its dynamic type. *)
Inductive Request :=
| TicketRequest (f : request_fields) (ticket : string)
| RequestCryptoSign (f : request_fields) (publicKey : string)
| OtherRequest (f : request_fields).

Definition fields (r : Request) : request_fields :=
  match r with TicketRequest f _ | RequestCryptoSign f _ | OtherRequest f => f end.

Class WampAuth := {
  MethodAnonymous : string; MethodTicket : string; MethodCRA : string;
  MethodCryptoSign : string; WAMPCRA : string;
  Response : Type;
  (** [NewResponse(authID, authRole, ttl)] *)
  NewResponse : string → string → Z → result Response;
  (** [NewCRAResponse(authID, authRole, secret, ttl)] *)
  NewCRAResponse : string → string → string → Z → Response;
  (** [NewCRAResponseSalted(authID, authRole, secret, salt, iterations, keylen, ttl)] *)
  NewCRAResponseSalted : string → string → string → string → Z → Z → Z → Response;
  Response_AuthID : Response → string;
  Response_AuthRole : Response → string;
}.

(** The methods are different, and a response carries what it was made with. *)
Class WampAuthOk `{WampAuth} : Prop := {
  methods_differ : NoDup [MethodAnonymous; MethodTicket; MethodCRA; MethodCryptoSign];
  NewResponse_carries i r t x :
    NewResponse i r t = Ok x → Response_AuthID x = i ∧ Response_AuthRole x = r;
  NewCRAResponse_carries i r s t :
    Response_AuthID (NewCRAResponse i r s t) = i ∧ Response_AuthRole (NewCRAResponse i r s t) = r;
  NewCRAResponseSalted_carries i r s l n k t :
    Response_AuthID (NewCRAResponseSalted i r s l n k t) = i ∧
    Response_AuthRole (NewCRAResponseSalted i r s l n k t) = r;
}.

(** The loops of the authenticators: the first entry for which [c] holds. *)
Fixpoint first {A} (c : A → bool) (l : list A) : option A :=
  match l with [] => None | x :: l => if c x then Some x else first c l end.

Lemma first_Some {A} (c : A → bool) l x : first c l = Some x → x ∈ l ∧ c x = true.
Proof.
  induction l as [|y l IH]; simpl; [done|]. destruct (c y) eqn:Hc.
  - intros [= <-]. by split; [left|].
  - intros [? ?]%IH. by split; [right|].
Qed.

Lemma first_is_Some {A} (c : A → bool) l x : x ∈ l → c x = true → is_Some (first c l).
Proof.
  induction 1 as [x l|x y l _ IH]; simpl; intros Hc; [by rewrite Hc|].
  destruct (c y); [done|]. by apply IH.
Qed.

(** A concrete auth package, which refuses an empty authid. *)
Record sample_response := {
  sr_authid : string; sr_role : string; sr_secret : string; sr_ttl : Z }.

#[global] Instance sample_auth : WampAuth := {|
  MethodAnonymous := "anonymous"; MethodTicket := "ticket"; MethodCRA := "wampcra";
  MethodCryptoSign := "cryptosign"; WAMPCRA := "wampcra";
  Response := sample_response;
  NewResponse i r t :=
    if bool_decide (i = "") then Err "authid must not be empty"
    else Ok {| sr_authid := i; sr_role := r; sr_secret := ""; sr_ttl := t |};
  NewCRAResponse i r s t := {| sr_authid := i; sr_role := r; sr_secret := s; sr_ttl := t |};
  NewCRAResponseSalted i r s l _ _ t :=
    {| sr_authid := i; sr_role := r; sr_secret := s +:+ l; sr_ttl := t |};
  Response_AuthID := sr_authid;
  Response_AuthRole := sr_role;
|}.

#[global] Instance sample_auth_ok : WampAuthOk.
Proof.
  split; simpl; try done.
  - apply (bool_decide_eq_true_1 _). vm_compute. done.
  - intros i r t x. case_bool_decide; [done|]. by intros [= <-].
Qed.
