(* ===== verification/NxtAuth.v ===== *)
(** * The authenticator of the nxt router (nxt/authenticator.go, nxt/types.go)

    The configured authenticators, and the decision on a request.  A client
    gets in only with a credential of the configuration, with its role. *)

From S2P Require Import Prelude GoStd Auth.

Local Open Scope string_scope.

Module Types.
Record CryptoSign := {
  cs_AuthID : string; cs_Realm : string; cs_Role : string; cs_AuthorizedKeys : list string }.
Record WAMPCRA := {
  cra_AuthID : string; cra_Realm : string; cra_Role : string; cra_Secret : string;
  cra_Salt : string; cra_Iterations : Z; cra_KeyLen : Z }.
Record Ticket := {
  t_AuthID : string; t_Realm : string; t_Role : string; t_Ticket : string }.
Record Anonymous := { a_AuthID : string; a_Realm : string; a_Role : string }.
Record Authenticators := {
  cryptoSigns : list CryptoSign; wampcras : list WAMPCRA; tickets : list Ticket;
  anonymouses : list Anonymous }.
End Types.
Import Types.

(** [fmt.Sprintf("%012x", n)[:12]] *)
Fixpoint hex_of (fuel : nat) (n : Z) (acc : string) : string :=
  match fuel with
  | O => acc
  | S fuel =>
      let acc := String (hex_digit (Z.to_nat (n mod 16))) acc in
      if bool_decide (n < 16)%Z then acc else hex_of fuel (n / 16) acc
  end.
Fixpoint zeros (n : nat) (s : string) : string :=
  match n with O => s | S n => String "0" (zeros n s) end.
Fixpoint first_bytes (n : nat) (s : string) : string :=
  match n, s with
  | S n, String c s => String c (first_bytes n s)
  | _, _ => ""
  end.
Definition fmt_012x (n : Z) : string :=
  let s := hex_of 16 n "" in zeros (12 - String.length s) s.
Definition generated_authid (n : Z) : string := first_bytes 12 (fmt_012x n).

Section Authenticator.
Context `{WampAuth}.

Definition Methods : list string := [MethodAnonymous; MethodTicket; MethodCRA; MethodCryptoSign].

(** [random]: what [rand.Uint64] gives. *)
Definition Authenticate (a : Authenticators) (random : Z) (request : Request) : result Response :=
  let r := fields request in
  let m := AuthMethod r in
  if bool_decide (m = MethodAnonymous) then
    match first (λ e, bool_decide (a_Realm e = Realm r)) (anonymouses a) with
    | Some e =>
        let authID := if bool_decide (a_AuthID e = AuthID r) then AuthID r
                      else generated_authid random in
        NewResponse authID (a_Role e) 0
    | None => Err "invalid realm"
    end
  else if bool_decide (m = MethodTicket) then
    match request with
    | TicketRequest r ticket =>
        match first (λ e, bool_decide (t_Realm e = Realm r ∧ t_AuthID e = AuthID r ∧
                                       t_Ticket e = ticket)) (tickets a) with
        | Some e => NewResponse (AuthID r) (t_Role e) 0
        | None => Err "invalid ticket"
        end
    | _ => Err "invalid request"
    end
  else if bool_decide (m = MethodCRA) then
    match first (λ e, bool_decide (cra_Realm e = Realm r ∧ cra_AuthID e = AuthID r))
            (wampcras a) with
    | Some e =>
        if bool_decide (cra_Salt e ≠ "") then
          Ok (NewCRAResponseSalted (AuthID r) (cra_Role e) (cra_Secret e) (cra_Salt e)
                (cra_Iterations e) (cra_KeyLen e) 0)
        else Ok (NewCRAResponse (AuthID r) (cra_Role e) (cra_Secret e) 0)
    | None => Err "invalid realm"
    end
  else if bool_decide (m = MethodCryptoSign) then
    match request with
    | RequestCryptoSign r publicKey =>
        match first (λ e, bool_decide (cs_Realm e = Realm r ∧ cs_AuthID e = AuthID r ∧
                                       publicKey ∈ cs_AuthorizedKeys e)) (cryptoSigns a) with
        | Some e => NewResponse (AuthID r) (cs_Role e) 0
        | None => Err "unknown publickey"
        end
    | _ => Err "invalid request"
    end
  else Err ("unknown authentication method: " +:+ m).

(** ** What a request must show

    [credential a q role response]: the configuration entitles [q] to [role],
    and to [response]. *)
Inductive credential (a : Authenticators) (random : Z) (q : Request)
    : string → result Response → Prop :=
| by_anonymous e :
    AuthMethod (fields q) = MethodAnonymous → e ∈ anonymouses a → a_Realm e = Realm (fields q) →
    credential a random q (a_Role e)
      (NewResponse (if bool_decide (a_AuthID e = AuthID (fields q)) then AuthID (fields q)
                    else generated_authid random) (a_Role e) 0)
| by_ticket f ticket e :
    q = TicketRequest f ticket → AuthMethod f = MethodTicket → e ∈ tickets a →
    t_Realm e = Realm f → t_AuthID e = AuthID f → t_Ticket e = ticket →
    credential a random q (t_Role e) (NewResponse (AuthID f) (t_Role e) 0)
| by_secret e :
    AuthMethod (fields q) = MethodCRA → e ∈ wampcras a → cra_Realm e = Realm (fields q) →
    cra_AuthID e = AuthID (fields q) → cra_Salt e = "" →
    credential a random q (cra_Role e)
      (Ok (NewCRAResponse (AuthID (fields q)) (cra_Role e) (cra_Secret e) 0))
| by_salted_secret e :
    AuthMethod (fields q) = MethodCRA → e ∈ wampcras a → cra_Realm e = Realm (fields q) →
    cra_AuthID e = AuthID (fields q) → cra_Salt e ≠ "" →
    credential a random q (cra_Role e)
      (Ok (NewCRAResponseSalted (AuthID (fields q)) (cra_Role e) (cra_Secret e) (cra_Salt e)
             (cra_Iterations e) (cra_KeyLen e) 0))
| by_key f publicKey e :
    q = RequestCryptoSign f publicKey → AuthMethod f = MethodCryptoSign → e ∈ cryptoSigns a →
    cs_Realm e = Realm f → cs_AuthID e = AuthID f → publicKey ∈ cs_AuthorizedKeys e →
    credential a random q (cs_Role e) (NewResponse (AuthID f) (cs_Role e) 0).

Ltac auth_cases :=
  repeat match goal with
  | |- context [bool_decide (AuthMethod ?f = ?m)] => destruct (decide (AuthMethod f = m));
      [rewrite (bool_decide_eq_true_2 (AuthMethod f = m)) by done
      |rewrite (bool_decide_eq_false_2 (AuthMethod f = m)) by done]
  | |- context [first ?c ?l] => destruct (first c l) eqn:?
  end.

Ltac found H :=
  apply first_Some in H as [? H%bool_decide_eq_true]; destruct_and?.

(** What a response says is what the credential entitles to. *)
Lemma credential_role `{!WampAuthOk} a n q role resp :
  credential a n q role (Ok resp) → Response_AuthRole resp = role.
Proof.
  inversion 1; subst;
    try first [by apply NewCRAResponse_carries | by apply NewCRAResponseSalted_carries].
  all: match goal with E : NewResponse _ _ _ = Ok _ |- _ =>
         by apply NewResponse_carries in E as [_ ?] end.
Qed.

Lemma Authenticate_credential a n q resp :
  Authenticate a n q = Ok resp → ∃ role, credential a n q role (Ok resp).
Proof.
  unfold Authenticate. intros Hr. rewrite <-Hr. revert Hr. auth_cases; try done.
  - found Heqo. intros _. eexists. by eapply by_anonymous.
  - destruct q as [f ticket|f key|f]; try done. auth_cases; [|done]. found Heqo.
    intros _. eexists. by eapply by_ticket.
  - found Heqo. intros _. case_bool_decide; eexists.
    + by eapply by_salted_secret.
    + eapply by_secret; try done; by apply dec_stable.
  - destruct q as [f ticket|f key|f]; try done. auth_cases; [|done]. found Heqo.
    intros _. eexists. by eapply by_key.
Qed.

Lemma methods_neq `{!WampAuthOk} :
  MethodTicket ≠ MethodAnonymous ∧ MethodCRA ≠ MethodAnonymous ∧ MethodCRA ≠ MethodTicket ∧
  MethodCryptoSign ≠ MethodAnonymous ∧ MethodCryptoSign ≠ MethodTicket ∧
  MethodCryptoSign ≠ MethodCRA.
Proof.
  pose proof methods_differ as Hd. rewrite !NoDup_cons, !not_elem_of_cons in Hd. naive_solver.
Qed.

(** The entry that gives the credential makes the loop find one. *)
Ltac finds e :=
  match goal with
  | |- context [first ?c ?l] =>
      destruct (first_is_Some c l e) as [? Hfirst];
      [done|rewrite bool_decide_eq_true; done|rewrite Hfirst; found Hfirst]
  end.

Lemma credential_answered `{!WampAuthOk} a n q role r :
  credential a n q role r → ∃ role', credential a n q role' (Authenticate a n q).
Proof.
  pose proof methods_neq as (? & ? & ? & ? & ? & ?). unfold Authenticate.
  intros [e Hm|f t e -> Hm|e Hm|e Hm|f k e -> Hm]; simpl; rewrite Hm.
  all: repeat first [rewrite (bool_decide_eq_true_2 (_ = _)) by done
                    |rewrite (bool_decide_eq_false_2 (_ = _)) by done].
  - finds e. eexists. by eapply by_anonymous.
  - finds e. eexists. by eapply by_ticket.
  - finds e. case_bool_decide; eexists; [by eapply by_salted_secret|].
    eapply by_secret; try done; by apply dec_stable.
  - finds e. case_bool_decide; eexists; [by eapply by_salted_secret|].
    eapply by_secret; try done; by apply dec_stable.
  - finds e. eexists. by eapply by_key.
Qed.

(** The authid in a response: the client's own, or a generated one. *)
Lemma credential_authid `{!WampAuthOk} a n q role resp :
  credential a n q role (Ok resp) →
  Response_AuthID resp = AuthID (fields q) ∨
  AuthMethod (fields q) = MethodAnonymous ∧ Response_AuthID resp = generated_authid n.
Proof.
  inversion 1; subst; simpl;
    try (left; first [by apply NewCRAResponse_carries | by apply NewCRAResponseSalted_carries]).
  all: match goal with E : NewResponse _ _ _ = Ok _ |- _ =>
         apply NewResponse_carries in E as [Hi _]; rewrite Hi end; try case_bool_decide; auto.
Qed.

(** C15. A request is accepted only with a credential of the configuration: an
    anonymous entry for its realm, or a ticket, a secret or an authorized key
    for its realm and its authid.  The client gets the role of that entry, and
    its own authid or, if anonymous, a generated one.  A request that has a
    credential is answered by what one of its credentials entitles it to. *)
Theorem authenticates_only_configured_credentials `{!WampAuthOk} a n q :
  (∀ resp, Authenticate a n q = Ok resp →
    ∃ role, credential a n q role (Ok resp) ∧ Response_AuthRole resp = role ∧
      (Response_AuthID resp = AuthID (fields q) ∨
       AuthMethod (fields q) = MethodAnonymous ∧ Response_AuthID resp = generated_authid n)) ∧
  ((∃ role r, credential a n q role r) →
    ∃ role, credential a n q role (Authenticate a n q)).
Proof.
  split.
  - intros resp [role Hc]%Authenticate_credential. exists role.
    eauto using credential_role, credential_authid.
  - intros (role & r & Hc). by eapply credential_answered.
Qed.

End Authenticator.

(** ** Generated authids *)

Lemma zeros_length n s : String.length (zeros n s) = (n + String.length s)%nat.
Proof. induction n as [|n IH]; simpl; [done|]. by rewrite IH. Qed.

Lemma first_bytes_length n s : String.length (first_bytes n s) = Nat.min n (String.length s).
Proof. revert s. induction n as [|n IH]; intros [|c s]; simpl; [done..|]. by rewrite IH. Qed.

(** Slicing the first twelve bytes of the printed number never panics. *)
Lemma generated_authid_length n : String.length (generated_authid n) = 12%nat.
Proof.
  unfold generated_authid, fmt_012x. rewrite first_bytes_length, zeros_length. lia.
Qed.

Example generated_authid_255 : generated_authid 255 = "0000000000ff".
Proof. reflexivity. Qed.
Example generated_authid_max : generated_authid (2 ^ 64 - 1) = "ffffffffffff".
Proof. reflexivity. Qed.

Definition sample_authenticators : Authenticators :=
  {| cryptoSigns := [{| cs_AuthID := "device"; cs_Realm := "realm1"; cs_Role := "device";
                        cs_AuthorizedKeys := ["k1"; "k2"] |}];
     wampcras := []; tickets := []; anonymouses := [] |}.
Definition sample_request : Request :=
  RequestCryptoSign {| AuthMethod := "cryptosign"; Realm := "realm1"; AuthID := "device" |} "k2".

Example authenticates_only_configured_credentials_witness :
  ∃ resp, Authenticate sample_authenticators 0 sample_request = Ok resp ∧
    ∃ role, credential sample_authenticators 0 sample_request role (Ok resp) ∧
      Response_AuthRole resp = role ∧
      (Response_AuthID resp = "device" ∨
       "cryptosign" = MethodAnonymous ∧ Response_AuthID resp = generated_authid 0).
Proof.
  eexists. split; [reflexivity|].
  by apply (authenticates_only_configured_credentials sample_authenticators 0 sample_request).
Defined.
