(* ===== verification/Relay.v ===== *)
(** * The stream relay of a device (xconn/relay.go, xconn/helpers.go)

    Relay frames and length-prefixed messages on a connection, and the two
    directions of a relayed data channel: from the channel to the connection
    through a bounded queue, and back under the back-pressure of the channel. *)

From S2P Require Import Prelude GoStd GoPath.

Local Open Scope string_scope.

(** ** Bytes *)

(** [binary.BigEndian.PutUint32] and [Uint32] *)
Definition byte_of (z : Z) : ascii := ascii_of_nat (Z.to_nat (Z.land z 255)).
Definition to_byte (c : ascii) : Z := Z.of_nat (nat_of_ascii c).

Definition PutUint32 (v : Z) : string :=
  String (byte_of (Z.shiftr v 24)) (String (byte_of (Z.shiftr v 16))
    (String (byte_of (Z.shiftr v 8)) (String (byte_of v) ""))).

Definition Uint32 (a b c d : ascii) : Z :=
  Z.lor (Z.lor (Z.lor (to_byte d) (Z.shiftl (to_byte c) 8)) (Z.shiftl (to_byte b) 16))
    (Z.shiftl (to_byte a) 24).

(** [uint32(len(s))] *)
Definition uint32 (z : Z) : Z := z mod 2 ^ 32.

(** ** A connection *)

Record conn := mkConn { input : string; output : string; up : bool }.

Definition EOF : error := "EOF".
Definition ErrUnexpectedEOF : error := "unexpected EOF".

(** [conn.Write(p)] *)
Definition conn_write (p : string) : M conn unit := λ c,
  if up c then (mkConn (input c) (output c +:+ p) (up c), Val tt)
  else (c, Fail "write: broken pipe").

Fixpoint split_at (n : nat) (s : string) : option (string * string) :=
  match n with
  | O => Some ("", s)
  | S n =>
      match s with
      | EmptyString => None
      | String c s => (λ p, (String c p.1, p.2)) <$> split_at n s
      end
  end.

(** [io.ReadFull] of [n] bytes *)
Definition ReadFull (n : Z) : M conn string := λ c,
  match split_at (Z.to_nat n) (input c) with
  | Some (p, rest) => (mkConn rest (output c) (up c), Val p)
  | None =>
      (mkConn "" (output c) (up c),
       Fail (match input c with EmptyString => EOF | _ => ErrUnexpectedEOF end))
  end.

(** ** Length-prefixed messages *)

(** 1 MiB *)
Definition maxMsgSize : Z := Z.shiftl 1 20.

(** [writeMsg], given the JSON text of the message. *)
Definition writeMsg (b : string) : M conn unit :=
  conn_write (PutUint32 (uint32 (blen b)));; conn_write b.

(** The length of four bytes read, or 0, which no caller meets. *)
Definition length_of (header : string) : Z :=
  match header with
  | String a (String b (String c (String d _))) => Uint32 a b c d
  | _ => 0
  end.

(** [readMsg], up to the JSON text it decodes. *)
Definition readMsg : M conn string :=
  length ← ReadFull 4;
  let n := length_of length in
  if bool_decide (maxMsgSize < n)%Z then fail ("message too large: " +:+ pretty n +:+ " bytes")
  else ReadFull n.

(** ** Relay frames *)

Definition relayFrameBinary : ascii := ascii_of_nat 0.
Definition relayFrameText : ascii := ascii_of_nat 1.
Definition maxRelayFrameSize : Z := Z.shiftl 1 20.
Definition relayBufferedHigh : Z := 512 * 1024.
Definition relayBufferedLow : Z := 256 * 1024.

Definition WriteRelayFrame (data : string) (isText : bool) : M conn unit :=
  let kind := if isText then relayFrameText else relayFrameBinary in
  conn_write (String kind (PutUint32 (uint32 (blen data))));; conn_write data.

Definition ReadRelayFrame : M conn (string * bool) :=
  header ← ReadFull 5;
  match header with
  | String kind len =>
      let n := length_of len in
      if bool_decide (maxRelayFrameSize < n)%Z
      then fail ("relay frame too large: " +:+ pretty n +:+ " bytes")
      else buf ← ReadFull n; mret (buf, bool_decide (kind = relayFrameText))
  | EmptyString => crash "index out of range"
  end.

Definition write_frames (fs : list (string * bool)) : M conn unit :=
  for_M (λ f, WriteRelayFrame f.1 f.2) fs.

Fixpoint read_frames (n : nat) : M conn (list (string * bool)) :=
  match n with
  | O => mret []
  | S n => f ← ReadRelayFrame; fs ← read_frames n; mret (f :: fs)
  end.

(** ** From the channel to the connection

    [OnMessage] delivers to a queue of 32 messages, which a goroutine writes
    to the connection; when the channel closes it writes what is left. *)

Inductive consumer_state := CLoop | CDrain | CStopped (clean : bool).

Record pipe := mkPipe {
  msgCh : list (string * bool);
  waiting : option (string * bool);   (* a delivery that found the queue full *)
  closed : bool;
  consumer : consumer_state;
  queued : list (string * bool);      (* what has been put in the queue *)
  written : list (string * bool);     (* what has been written as frames *)
}.

Definition msgCh_cap : nat := 32.

Definition put (m : string * bool) (s : pipe) : pipe :=
  mkPipe (msgCh s ++ [m]) None (closed s) (consumer s) (queued s ++ [m]) (written s).
Definition set_waiting (w : option (string * bool)) (s : pipe) : pipe :=
  mkPipe (msgCh s) w (closed s) (consumer s) (queued s) (written s).
Definition set_closed (s : pipe) : pipe :=
  mkPipe (msgCh s) (waiting s) true (consumer s) (queued s) (written s).
Definition set_consumer (c : consumer_state) (s : pipe) : pipe :=
  mkPipe (msgCh s) (waiting s) (closed s) c (queued s) (written s).
Definition relay_one (m : string * bool) (q : list (string * bool)) (s : pipe) : pipe :=
  mkPipe q (waiting s) (closed s) (consumer s) (queued s) (written s ++ [m]).
Definition drop_one (q : list (string * bool)) (s : pipe) : pipe :=
  mkPipe q (waiting s) (closed s) (consumer s) (queued s) (written s).

Definition new_pipe : pipe := mkPipe [] None false CLoop [] [].

(** [deliverUnlessClosed]; the channel delivers one message at a time. *)
Inductive deliver_step : pipe → pipe → Prop :=
| deliver_now m s :
    waiting s = None → (length (msgCh s) < msgCh_cap)%nat → deliver_step s (put m s)
| deliver_full m s :
    waiting s = None → (msgCh_cap ≤ length (msgCh s))%nat →
    deliver_step s (set_waiting (Some m) s)
| deliver_later m s :
    waiting s = Some m → (length (msgCh s) < msgCh_cap)%nat → deliver_step s (put m s)
| deliver_closed m s :
    waiting s = Some m → closed s = true → deliver_step s (set_waiting None s).

(** The goroutine "channel -> conn" of [relayDataChannel]. *)
Inductive consumer_step : pipe → pipe → Prop :=
| relay_message m q s :
    consumer s = CLoop ∨ consumer s = CDrain → msgCh s = m :: q →
    consumer_step s (relay_one m q s)
| relay_fails m q s :
    consumer s = CLoop ∨ consumer s = CDrain → msgCh s = m :: q →
    consumer_step s (set_consumer (CStopped false) (drop_one q s))
| relay_sees_close s :
    consumer s = CLoop → closed s = true → consumer_step s (set_consumer CDrain s)
| relay_done s :
    consumer s = CDrain → msgCh s = [] → consumer_step s (set_consumer (CStopped true) s).

Inductive pipe_step : pipe → pipe → Prop :=
| pipe_deliver s s' : deliver_step s s' → pipe_step s s'
| pipe_consume s s' : consumer_step s s' → pipe_step s s'
| pipe_close s : pipe_step s (set_closed s).

(** ** From the connection to the channel *)

(** [buffered]: what waits in the channel's send buffer.  The loop holds at
    most one frame, and waits while the frame would not fit. *)
Record sender := mkSender {
  buffered : Z;
  held : option (string * bool);
  ended : bool;
  sent : list (string * bool);
}.

Definition must_wait (buffered : Z) (data : string) : bool :=
  bool_decide (relayBufferedHigh < buffered + blen data)%Z.

Inductive sender_step : sender → sender → Prop :=
| sender_read f s :
    held s = None → ended s = false → (blen f.1 ≤ maxRelayFrameSize)%Z →
    sender_step s (mkSender (buffered s) (Some f) false (sent s))
| sender_read_error s :
    held s = None → ended s = false → sender_step s (mkSender (buffered s) None true (sent s))
| sender_send f s :
    held s = Some f → ended s = false → must_wait (buffered s) f.1 = false →
    sender_step s (mkSender (buffered s + blen f.1) None false (sent s ++ [f]))
| sender_fails f s :
    held s = Some f → ended s = false → must_wait (buffered s) f.1 = false →
    sender_step s (mkSender (buffered s) None true (sent s))
| sender_closed f s :
    held s = Some f → ended s = false → must_wait (buffered s) f.1 = true →
    sender_step s (mkSender (buffered s) (Some f) true (sent s))
(* the channel transmits some of its buffer *)
| sender_drain n s :
    (0 ≤ n ≤ buffered s)%Z → sender_step s (mkSender (buffered s - n) (held s) (ended s) (sent s)).

(** ** Bytes round trip *)

#[local] Arguments String.append : simpl nomatch.

Lemma to_byte_of z : to_byte (byte_of z) = (z mod 256)%Z.
Proof.
  unfold to_byte, byte_of. change 255%Z with (Z.ones 8). rewrite Z.land_ones by lia.
  change (2 ^ 8)%Z with 256%Z. pose proof (Z.mod_pos_bound z 256).
  rewrite nat_ascii_embedding by lia. lia.
Qed.

Lemma lor_shift a b k : (0 ≤ k)%Z → (0 ≤ a < 2 ^ k)%Z → Z.lor a (Z.shiftl b k) = (a + b * 2 ^ k)%Z.
Proof.
  intros Hk Ha. rewrite <-Z.shiftl_mul_pow2 by done. symmetry.
  assert (Z.land a (Z.shiftl b k) = 0)%Z as Hl.
  { apply Z.bits_inj'. intros n Hn. rewrite Z.land_spec, Z.bits_0.
    destruct (Z.lt_ge_cases n k).
    - rewrite (Z.shiftl_spec_low _ _ _ H). apply andb_false_r.
    - rewrite <-(Z.mod_small a (2 ^ k)), Z.mod_pow2_bits_high by lia. done. }
  rewrite Z.add_nocarry_lxor by done. by apply Z.lxor_lor.
Qed.

Lemma Uint32_bytes v :
  Uint32 (byte_of (Z.shiftr v 24)) (byte_of (Z.shiftr v 16)) (byte_of (Z.shiftr v 8)) (byte_of v) =
  (v mod 2 ^ 32)%Z.
Proof.
  unfold Uint32. rewrite !to_byte_of, !Z.shiftr_div_pow2 by lia.
  pose proof (Z.mod_pos_bound v 256). pose proof (Z.mod_pos_bound (v / 2 ^ 8) 256).
  pose proof (Z.mod_pos_bound (v / 2 ^ 16) 256).
  rewrite (lor_shift _ _ 8), (lor_shift _ _ 16), (lor_shift _ _ 24) by lia.
  Z.to_euclidean_division_equations. lia.
Qed.

Lemma length_of_PutUint32 v : length_of (PutUint32 v) = uint32 v.
Proof. apply Uint32_bytes. Qed.

Lemma blen_length s : blen s = Z.of_nat (String.length s).
Proof. induction s as [|c s IH]; simpl; [done|]. rewrite IH. lia. Qed.

Lemma split_at_app s t : split_at (String.length s) (s +:+ t) = Some (s, t).
Proof. induction s as [|c s IH]; simpl; [done|]. by rewrite IH. Qed.

Lemma ReadFull_app s t o u :
  ReadFull (blen s) (mkConn (s +:+ t) o u) = (mkConn t o u, Val s).
Proof. unfold ReadFull. cbn [input]. by rewrite blen_length, Nat2Z.id, split_at_app. Qed.

(** ** Frames round trip *)

Definition frame (f : string * bool) : string :=
  String (if f.2 then relayFrameText else relayFrameBinary) (PutUint32 (uint32 (blen f.1))) +:+ f.1.

Fixpoint frames (fs : list (string * bool)) : string :=
  match fs with [] => "" | f :: fs => frame f +:+ frames fs end.

Lemma write_frames_run fs i o :
  write_frames fs (mkConn i o true) = (mkConn i (o +:+ frames fs) true, Val tt).
Proof.
  unfold write_frames. revert o. induction fs as [|f fs IH]; intros o; simpl.
  { by rewrite string_app_nil_r. }
  unfold WriteRelayFrame. erewrite bind_Val.
  2: { erewrite bind_Val by reflexivity. reflexivity. }
  rewrite IH. rewrite string_app_assoc. cbn [input output up]. by rewrite string_app_assoc.
Qed.

Definition fits (f : string * bool) : Prop := (blen f.1 ≤ maxRelayFrameSize)%Z.

Lemma uint32_small n : (0 ≤ n ≤ maxRelayFrameSize)%Z → uint32 n = n.
Proof.
  change maxRelayFrameSize with 1048576%Z. unfold uint32. intros. apply Z.mod_small. lia.
Qed.

Lemma blen_nonneg s : (0 ≤ blen s)%Z.
Proof. rewrite blen_length. lia. Qed.

Lemma ReadRelayFrame_frame f rest o u :
  fits f → ReadRelayFrame (mkConn (frame f +:+ rest) o u) = (mkConn rest o u, Val f).
Proof.
  destruct f as [data isText]. unfold fits, frame. simpl. intros Hf.
  pose proof (blen_nonneg data) as Hn. rewrite uint32_small by done.
  unfold ReadRelayFrame. 
  set (header := String (if isText then relayFrameText else relayFrameBinary)
                   (PutUint32 (blen data))).
  erewrite bind_Val.
  2: { exact (ReadFull_app header (data +:+ rest) o u). }
  unfold header. cbv beta iota. rewrite length_of_PutUint32, uint32_small by done.
  rewrite bool_decide_eq_false_2 by lia. erewrite bind_Val by apply ReadFull_app.
  by destruct isText.
Qed.

Lemma read_frames_run fs rest o u :
  Forall fits fs →
  read_frames (length fs) (mkConn (frames fs +:+ rest) o u) = (mkConn rest o u, Val fs).
Proof.
  induction 1 as [|f fs Hf _ IH]; simpl; [done|]. rewrite string_app_assoc.
  erewrite bind_Val by by apply ReadRelayFrame_frame. by erewrite bind_Val by exact IH.
Qed.

(** Frames survive the relay: what [WriteRelayFrame] has written of any
    sequence of messages of at most 1 MiB, [ReadRelayFrame] reads back, kinds
    included, and nothing of what follows on the connection. *)
Theorem relay_frames_roundtrip fs i rest u :
  Forall fits fs →
  ∃ out, write_frames fs (mkConn i "" true) = (mkConn i out true, Val tt) ∧
    read_frames (length fs) (mkConn (out +:+ rest) "" u) = (mkConn rest "" u, Val fs).
Proof.
  intros Hf. exists (frames fs). split; [apply write_frames_run|by apply read_frames_run].
Qed.

(** What a reader allocates is bounded, whatever the bytes are. *)
Lemma split_at_length n s p rest : split_at n s = Some (p, rest) → String.length p = n.
Proof.
  revert s p rest. induction n as [|n IH]; intros s p rest; simpl; [by intros [= <- <-]|].
  destruct s as [|c s]; [done|]. destruct (split_at n s) as [[q r]|] eqn:Hs; [|done].
  intros [= <- <-]. simpl. f_equal. by eapply IH.
Qed.

Lemma ReadFull_length n c c' p : (0 ≤ n)%Z → ReadFull n c = (c', Val p) → blen p = n.
Proof.
  unfold ReadFull. intros Hn. destruct (split_at _ _) as [[q r]|] eqn:Hs; intros [= <- <-].
  apply split_at_length in Hs. rewrite blen_length, Hs. lia.
Qed.

(** A frame or message that a peer announces as too long is refused before
    anything is allocated for it. *)
Lemma ReadRelayFrame_bounded c c' f : ReadRelayFrame c = (c', Val f) → fits f.
Proof.
  unfold ReadRelayFrame, fits. intros (c1 & header & _ & Hr)%bind_Val_inv.
  destruct header as [|k len]; [done|]. case_bool_decide; [done|].
  apply bind_Val_inv in Hr as (c2 & buf & Hbuf & [= <- <-]). simpl.
  destruct (Z.lt_ge_cases (length_of len) 0).
  - unfold ReadFull in Hbuf. replace (Z.to_nat (length_of len)) with 0%nat in Hbuf by lia. simplify_eq/=.
    change maxRelayFrameSize with 1048576%Z. lia.
  - apply ReadFull_length in Hbuf; lia.
Qed.

(** ** The channel's messages reach the connection *)

Record pipe_inv (s : pipe) : Prop := {
  pi_running : (∀ b, consumer s ≠ CStopped b) → queued s = (written s ++ msgCh s)%list;
  pi_prefix : written s `prefix_of` queued s;
  pi_bound : (length (msgCh s) ≤ msgCh_cap)%nat;
  pi_drain : consumer s = CDrain → closed s = true;
}.

Lemma put_inv m s : (length (msgCh s) < msgCh_cap)%nat → pipe_inv s → pipe_inv (put m s).
Proof.
  intros Hl [Hr Hp Hb Hd]. split; simpl; [| |rewrite length_app; simpl; lia|done].
  - intros Hc. by rewrite Hr, <-(assoc_L app).
  - by apply prefix_app_r.
Qed.

Lemma running s : consumer s = CLoop ∨ consumer s = CDrain → ∀ b, consumer s ≠ CStopped b.
Proof. intros [-> | ->]; done. Qed.

Lemma consumer_step_inv s s' : consumer_step s s' → pipe_inv s → pipe_inv s'.
Proof.
  intros Hs [Hr Hp Hb Hd]. destruct Hs as [m q s Hc Hq|m q s Hc Hq|s Hc Hcl|s Hc Hq].
  - specialize (Hr (running _ Hc)). rewrite Hq in Hr, Hb. simpl in *. split; simpl.
    + intros _. by rewrite Hr, <-(assoc_L app).
    + rewrite Hr. exists q. by rewrite <-(assoc_L app).
    + lia.
    + done.
  - rewrite Hq in Hb. simpl in Hb. split; simpl; [|done|lia|done]. intros Hn. by destruct (Hn false).
  - split; simpl; [|done..]. intros _. apply Hr, running. auto.
  - split; simpl; [|done..]. intros Hn. by destruct (Hn true).
Qed.

Lemma pipe_step_inv s s' : pipe_step s s' → pipe_inv s → pipe_inv s'.
Proof.
  intros [? ? []|? ? ?|?] I; eauto using put_inv, consumer_step_inv; by destruct I.
Qed.

Lemma pipe_reachable s : rtc pipe_step new_pipe s → pipe_inv s.
Proof.
  intros Hr. assert (pipe_inv new_pipe) as I by (split; simpl; (done || lia)).
  revert I. induction Hr; eauto using pipe_step_inv.
Qed.

(** A goroutine that drains has only the queue before it. *)
Lemma drain_run s :
  consumer s = CDrain →
  ∃ s', rtc consumer_step s s' ∧ consumer s' = CStopped true ∧
    written s' = (written s ++ msgCh s)%list ∧ queued s' = queued s.
Proof.
  remember (msgCh s) as l eqn:Hl. revert s Hl. induction l as [|m l IH]; intros s Hl Hc.
  - eexists. split; [by apply rtc_once, relay_done|]. by rewrite app_nil_r.
  - destruct (IH (relay_one m l s)) as (s' & Hr & Hs & Hw & Hq); [done..|].
    exists s'. split; [eapply rtc_l; [by apply relay_message; [right|]|exact Hr]|].
    split_and!; [done| |done]. rewrite Hw. cbn. by rewrite <-(assoc_L app).
Qed.

Lemma closed_pipe_drains s :
  pipe_inv s → closed s = true → (∀ b, consumer s ≠ CStopped b) →
  ∃ s', rtc consumer_step s s' ∧ consumer s' = CStopped true ∧
    written s' = queued s ∧ queued s' = queued s.
Proof.
  intros [Hr _ _ _] Hcl Hc. rewrite (Hr Hc).
  destruct (consumer s) as [| |b] eqn:Hs; [| |by destruct (Hc b)].
  - destruct (drain_run (set_consumer CDrain s) eq_refl) as (s' & Hd & Hs' & Hw & Hq).
    exists s'. split; [eapply rtc_l; [by apply relay_sees_close|exact Hd]|].
    split_and!; [done|exact Hw|]. rewrite Hq. by apply Hr.
  - destruct (drain_run s Hs) as (s' & Hd & Hs' & Hw & Hq).
    exists s'. split_and!; [done..|]. rewrite Hq. by apply Hr.
Qed.

(** C36. The direction from the channel to the connection, by itself: the messages are
    relayed in order, none twice and at most 32 waiting; when it stops without a failed
    write, which is after the channel has closed, every message that was queued until
    then has been written; and once the channel has closed it can go on to there, if no
    write fails.  The other direction can close the connection under it. *)
Theorem relay_drains_before_it_stops s s' :
  rtc pipe_step new_pipe s → pipe_step s s' →
  written s' `prefix_of` queued s' ∧ (length (msgCh s') ≤ msgCh_cap)%nat ∧
  (consumer s ≠ CStopped true → consumer s' = CStopped true →
   written s' = queued s' ∧ closed s' = true) ∧
  (closed s' = true → (∀ b, consumer s' ≠ CStopped b) →
   ∃ t, rtc consumer_step s' t ∧ consumer t = CStopped true ∧
     written t = queued s' ∧ queued t = queued s').
Proof.
  intros I%pipe_reachable Hs. pose proof (pipe_step_inv _ _ Hs I) as I'.
  split; [apply I'|]. split; [apply I'|]. split; [|by apply closed_pipe_drains].
  intros Hn Hc. destruct I as [Hr _ _ Hd]. clear I'.
  destruct Hs as [? ? []|? ? [m q s Hq|m q s Hq|s Hq|s Hq Hm]|?]; simpl in *; try done.
  rewrite Hr by (by rewrite Hq). rewrite Hm, app_nil_r. auto.
Qed.

(** ** Back-pressure *)

Lemma sender_stuck f s s' :
  (relayBufferedHigh < blen f.1)%Z → (0 ≤ buffered s)%Z → held s = Some f →
  sender_step s s' → (0 ≤ buffered s')%Z ∧ held s' = Some f ∧ sent s' = sent s.
Proof.
  intros Hf Hb Hh Hs. assert (must_wait (buffered s) f.1 = true) as Hw.
  { unfold must_wait. rewrite bool_decide_eq_true. lia. }
  destruct Hs; simplify_eq/=; try congruence; split_and!; done || lia.
Qed.

(** The back-pressure limit is a limit on frames: a frame of at most 512 KiB
    can be sent as soon as the channel has drained, while a longer one, which
    [ReadRelayFrame] accepts up to 1 MiB, is held for ever: nothing is sent
    after it until the channel closes. *)
Theorem frames_over_the_limit_are_never_sent f s :
  held s = Some f → ended s = false → (0 ≤ buffered s)%Z →
  if bool_decide (relayBufferedHigh < blen f.1)%Z then
    ∀ s', rtc sender_step s s' → held s' = Some f ∧ sent s' = sent s
  else ∃ s', rtc sender_step s s' ∧ held s' = None ∧ sent s' = (sent s ++ [f])%list.
Proof.
  intros Hh He Hb. case_bool_decide as Hf.
  - intros s' Hr. clear He. revert Hb Hh. induction Hr as [|s s1 s' Hs Hr IH]; [done|].
    intros Hb Hh. destruct (sender_stuck f s s1) as (Hb1 & Hh1 & Hs1); [done..|].
    rewrite <-Hs1. by apply IH.
  - set (s1 := mkSender (buffered s - buffered s) (held s) (ended s) (sent s)).
    assert (sender_step s s1) as H1 by (apply sender_drain; lia).
    assert (sender_step s1 (mkSender (buffered s1 + blen f.1) None false (sent s1 ++ [f]))) as H2.
    { apply sender_send; [done|done|]. unfold must_wait. rewrite bool_decide_eq_false. simpl. lia. }
    eexists. split; [eapply rtc_l, rtc_once; eassumption|done].
Qed.

(** ** Sample frames *)

Example a_frame :
  (WriteRelayFrame "hi" true (mkConn "" "" true)).1 =
  mkConn "" (String relayFrameText (String (ascii_of_nat 0) (String (ascii_of_nat 0)
    (String (ascii_of_nat 0) (String (ascii_of_nat 2) "hi"))))) true.
Proof. reflexivity. Qed.

Example a_long_frame_is_refused :
  (ReadRelayFrame (mkConn (String relayFrameText (String (ascii_of_nat 0) (String (ascii_of_nat 16)
    (String (ascii_of_nat 0) (String (ascii_of_nat 1) ""))))) "" true)).2 =
  Fail "relay frame too large: 1048577 bytes".
Proof. vm_compute. reflexivity. Qed.

Example relay_frames_roundtrip_witness :
  Forall fits [("ab", true); ("", false)] ∧
  ∃ out, write_frames [("ab", true); ("", false)] (mkConn "x" "" true) =
           (mkConn "x" out true, Val tt) ∧
    read_frames 2 (mkConn (out +:+ "rest") "" false) =
      (mkConn "rest" "" false, Val [("ab", true); ("", false)]).
Proof.
  assert (Forall fits [("ab", true); ("", false)]) as Hf
    by (repeat constructor; unfold fits; simpl; change maxRelayFrameSize with 1048576%Z; lia).
  split; [done|]. by apply (relay_frames_roundtrip [("ab", true); ("", false)] "x" "rest" false).
Defined.

(** Two messages are waiting when the channel closes. *)
Definition m1 : string * bool := ("one", true).
Definition m2 : string * bool := ("two", false).
Definition two_waiting : pipe := put m2 (put m1 new_pipe).

Lemma two_waiting_reachable : rtc pipe_step new_pipe two_waiting.
Proof.
  eapply rtc_l; [apply pipe_deliver, (deliver_now m1); [done|by vm_compute; lia]|].
  apply rtc_once, pipe_deliver, (deliver_now m2); [done|by vm_compute; lia].
Qed.

Example relay_drains_before_it_stops_witness :
  ∃ t, rtc consumer_step (set_closed two_waiting) t ∧ consumer t = CStopped true ∧ written t = [m1; m2].
Proof.
  destruct (proj2 (proj2 (proj2 (relay_drains_before_it_stops two_waiting (set_closed two_waiting)
    two_waiting_reachable (pipe_close two_waiting)))) eq_refl) as (t & Ht & Hc & Hw & _); [done|].
  by exists t.
Defined.

Fixpoint filler (n : nat) : string :=
  match n with O => "" | S n => String "x" (filler n) end.

Lemma filler_length n : blen (filler n) = Z.of_nat n.
Proof. induction n as [|n IH]; simpl; [done|]. rewrite IH. lia. Qed.

Definition long_frame : string * bool := (filler (Z.to_nat 600000), true).

Lemma long_frame_length : blen long_frame.1 = 600000%Z.
Proof. unfold long_frame. cbn [fst]. by rewrite filler_length, Z2Nat.id. Qed.

Example frames_over_the_limit_are_never_sent_witness :
  ∀ s', rtc sender_step (mkSender 0 (Some long_frame) false []) s' →
    held s' = Some long_frame ∧ sent s' = [].
Proof.
  pose proof (frames_over_the_limit_are_never_sent long_frame
    (mkSender 0 (Some long_frame) false []) eq_refl eq_refl (Z.le_refl 0)) as H.
  rewrite bool_decide_eq_true_2 in H; [exact H|]. rewrite long_frame_length. reflexivity.
Defined.
