(* ===== verification/Splice.v ===== *)
(** * Splicing connections (xconn/helpers.go, xconn/relay.go)

    [spliceConns] copies between two connections in two goroutines, until either
    side ends, and closes both; [RelayStream] puts it between a client's stream
    and the socket of the application; [relayDataChannel] does the like for a
    WebRTC data channel, with the two directions of Relay.  Each is a transition
    system.  A write of [spliceConns] waits while the connection takes nothing; one of
    [relayDataChannel] returns, perhaps with an error. *)

From S2P Require Import Prelude GoStd Relay.

Local Open Scope string_scope.

(** ** [spliceConns] *)

Inductive side := SideA | SideB.
Definition other (x : side) : side := match x with SideA => SideB | SideB => SideA end.

(** One of the two connections: the chunks that arrive, whether its peer has ended,
    whether the read deadline has been set to the past, how often it has been
    closed, what has been written to it, and how many more chunks it takes before a
    [Write] waits for its peer. *)
Record endpoint := mkEnd {
  arrived : list string; inbox : list string; eof : bool;
  expired : bool; closes : nat; delivered : list string; takes : nat }.

(** A goroutine in [io.Copy], before or in [closeBoth], or after it. *)
Inductive copier := Reading | Writing (chunk : string) | Stopped | Finished.
#[global] Instance copier_eq_dec : EqDecision copier.
Proof. solve_decision. Defined.

(** [closeOnce]: which goroutine runs the function, and which of its four calls is next. *)
Inductive once := Fresh | Doing (by_ : side) (next : nat) | Did.

(** The copier of a side writes to it and reads from the other one: that of [a] is
    the goroutine that is started, that of [b] the caller. *)
Record splice := mkSplice {
  end_a : endpoint; end_b : endpoint; to_a : copier; to_b : copier;
  closeOnce : once; done_closed : bool; returned : bool }.

Definition end_of (s : splice) (x : side) := match x with SideA => end_a s | SideB => end_b s end.
Definition copier_of (s : splice) (x : side) := match x with SideA => to_a s | SideB => to_b s end.

Definition set_end (x : side) (e : endpoint) (s : splice) : splice :=
  match x with
  | SideA => mkSplice e (end_b s) (to_a s) (to_b s) (closeOnce s) (done_closed s) (returned s)
  | SideB => mkSplice (end_a s) e (to_a s) (to_b s) (closeOnce s) (done_closed s) (returned s)
  end.
Definition set_copier (x : side) (c : copier) (s : splice) : splice :=
  match x with
  | SideA => mkSplice (end_a s) (end_b s) c (to_b s) (closeOnce s) (done_closed s) (returned s)
  | SideB => mkSplice (end_a s) (end_b s) (to_a s) c (closeOnce s) (done_closed s) (returned s)
  end.
Definition set_once (o : once) (s : splice) : splice :=
  mkSplice (end_a s) (end_b s) (to_a s) (to_b s) o (done_closed s) (returned s).
Definition set_done (s : splice) : splice :=
  mkSplice (end_a s) (end_b s) (to_a s) (to_b s) (closeOnce s) true (returned s).
Definition set_returned (s : splice) : splice :=
  mkSplice (end_a s) (end_b s) (to_a s) (to_b s) (closeOnce s) (done_closed s) true.

Definition take_chunk (rest : list string) (e : endpoint) : endpoint :=
  mkEnd (arrived e) rest (eof e) (expired e) (closes e) (delivered e) (takes e).
Definition arrive (c : string) (e : endpoint) : endpoint :=
  mkEnd (arrived e ++ [c]) (inbox e ++ [c]) (eof e) (expired e) (closes e) (delivered e) (takes e).
Definition end_input (e : endpoint) : endpoint :=
  mkEnd (arrived e) (inbox e) true (expired e) (closes e) (delivered e) (takes e).
Definition close_end (e : endpoint) : endpoint :=
  mkEnd (arrived e) (inbox e) (eof e) (expired e) (S (closes e)) (delivered e) (takes e).
Definition expire (e : endpoint) : endpoint :=
  mkEnd (arrived e) (inbox e) (eof e) true (closes e) (delivered e) (takes e).
Definition deliver (c : string) (e : endpoint) : endpoint :=
  mkEnd (arrived e) (inbox e) (eof e) (expired e) (closes e) (delivered e ++ [c]) (pred (takes e)).
Definition make_room (e : endpoint) : endpoint :=
  mkEnd (arrived e) (inbox e) (eof e) (expired e) (closes e) (delivered e) (S (takes e)).

(** The four calls of [closeBoth]. *)
Definition closing_call (k : nat) (s : splice) : splice :=
  match k with
  | 0 => set_end SideA (close_end (end_a s)) s
  | 1 => set_end SideB (close_end (end_b s)) s
  | 2 => set_end SideA (expire (end_a s)) s
  | _ => set_end SideB (expire (end_b s)) s
  end.

(** The steps of [spliceConns]: a read of data, of the end, or of an expired
    connection; a write, when the connection takes it; [closeBoth]; [close(done)]; and
    the return.  Closing a connection is not taken to end a write that waits: closing a
    multiplexed stream does not.  Such a write may fail. *)
Inductive own_step : splice → splice → Prop :=
| read_data x c rest s :
    copier_of s x = Reading → inbox (end_of s (other x)) = c :: rest →
    expired (end_of s (other x)) = false →
    own_step s (set_copier x (Writing c) (set_end (other x) (take_chunk rest (end_of s (other x))) s))
| read_eof x s :
    copier_of s x = Reading → inbox (end_of s (other x)) = [] → eof (end_of s (other x)) = true →
    own_step s (set_copier x Stopped s)
| read_expired x s :
    copier_of s x = Reading → expired (end_of s (other x)) = true → own_step s (set_copier x Stopped s)
| write_chunk x c s :
    copier_of s x = Writing c → (0 < takes (end_of s x))%nat →
    own_step s (set_copier x Reading (set_end x (deliver c (end_of s x)) s))
| close_starts x s :
    copier_of s x = Stopped → closeOnce s = Fresh → own_step s (set_once (Doing x 0) s)
| close_calls x k s :
    closeOnce s = Doing x k → (k < 3)%nat → own_step s (set_once (Doing x (S k)) (closing_call k s))
| close_ends x s :
    closeOnce s = Doing x 3 → own_step s (set_once Did (closing_call 3 s))
| close_leaves x s :
    copier_of s x = Stopped → closeOnce s = Did → own_step s (set_copier x Finished s)
| signal_done s :
    to_a s = Finished → done_closed s = false → own_step s (set_done s)
| splice_returns s :
    to_b s = Finished → done_closed s = true → returned s = false → own_step s (set_returned s).

(** A read or a write that fails. *)
Inductive error_step : splice → splice → Prop :=
| read_error x s : copier_of s x = Reading → error_step s (set_copier x Stopped s)
| write_error x c s : copier_of s x = Writing c → error_step s (set_copier x Stopped s).

(** What the other ends of the connections do. *)
Inductive outside_step : splice → splice → Prop :=
| data_arrives x c s :
    eof (end_of s x) = false → outside_step s (set_end x (arrive c (end_of s x)) s)
| input_ends x s : outside_step s (set_end x (end_input (end_of s x)) s)
| room_made x s : outside_step s (set_end x (make_room (end_of s x)) s).

Definition inner_step (s s' : splice) : Prop := own_step s s' ∨ error_step s s'.
Definition splice_step (s s' : splice) : Prop := inner_step s s' ∨ outside_step s s'.

Definition fresh_end : endpoint := mkEnd [] [] false false 0 [] 0.
Definition spliceConns : splice := mkSplice fresh_end fresh_end Reading Reading Fresh false false.

(** *** The invariant *)

(** How far [closeBoth] is. *)
Definition closing_progress (o : once) : nat :=
  match o with Fresh => 0 | Doing _ k => k | Did => 4 end.

Definition flows (s : splice) (x : side) : Prop :=
  ∃ l, arrived (end_of s (other x)) = (delivered (end_of s x) ++ l ++ inbox (end_of s (other x)))%list ∧
    match copier_of s x with Reading => l = [] | Writing c => l = [c] | _ => (length l ≤ 1)%nat end.

Record splice_inv (s : splice) : Prop := {
  si_doing : match closeOnce s with Doing x k => copier_of s x = Stopped ∧ (k < 4)%nat | _ => True end;
  si_closes_a : closes (end_a s) = (if bool_decide (0 < closing_progress (closeOnce s)) then 1 else 0)%nat;
  si_closes_b : closes (end_b s) = (if bool_decide (1 < closing_progress (closeOnce s)) then 1 else 0)%nat;
  si_expired_a : expired (end_a s) = bool_decide (2 < closing_progress (closeOnce s))%nat;
  si_expired_b : expired (end_b s) = bool_decide (3 < closing_progress (closeOnce s))%nat;
  si_finished_a : to_a s = Finished → closeOnce s = Did;
  si_finished_b : to_b s = Finished → closeOnce s = Did;
  si_done : done_closed s = true → to_a s = Finished;
  si_returned : returned s = true → to_b s = Finished ∧ done_closed s = true;
  si_flows x : flows s x;
}.

Lemma spliceConns_inv : splice_inv spliceConns.
Proof. split; try done. intros []; by exists []. Qed.

Lemma flows_stop s x y c :
  c = Stopped ∨ c = Finished → flows s y → flows (set_copier x c s) y.
Proof.
  intros Hc (l & Ha & Hl). exists l. destruct x, y; cbn in *; split; try done;
    destruct Hc as [-> | ->]; case_match; subst; simpl; done || lia.
Qed.

Lemma flows_call k s y : flows s y → flows (closing_call k s) y.
Proof. by destruct k as [|[|[|k]]], y. Qed.

Lemma own_step_flows s s' y : own_step s s' → flows s y → flows s' y.
Proof.
  intros [x c rest t Hc Hi He|x t Hc Hi He|x t Hc He|x c t Hc Hroom|x t Hc Ho|x k t Ho Hk|x t Ho
         |x t Hc Ho|t Hc Hn|t Hc Hn _]; eauto using flows_stop.
  - intros (l & Ha & Hl). destruct x, y; cbn in *; try (exists l; split; [done|by rewrite ?Hc]).
    all: exists [c]; cbn; rewrite Hc in Hl; subst l; by rewrite Ha, Hi.
  - intros (l & Ha & Hl). destruct x, y; cbn in *; try (exists l; done).
    all: exists []; cbn; rewrite Hc in Hl; subst l; by rewrite Ha, <-(assoc_L app).
  - intros Hf. apply (flows_call k) in Hf. exact Hf.
  - intros Hf. apply (flows_call 3) in Hf. exact Hf.
Qed.

Lemma splice_step_flows s s' y : splice_step s s' → flows s y → flows s' y.
Proof.
  intros [[Hs|[x t Hc|x c t Hc]]|[x c t He|x t|x t]]; eauto using own_step_flows, flows_stop.
  - intros (l & Ha & Hl). exists l. destruct x, y; cbn in *; split; try done.
  all: cbn; by rewrite Ha, <-!(assoc_L app).
  - by destruct x, y.
  - by destruct x, y.
Qed.

Lemma splice_step_inv s s' : splice_step s s' → splice_inv s → splice_inv s'.
Proof.
  intros Hs I. pose proof (λ y, splice_step_flows s s' y Hs (si_flows s I y)) as Hfl.
  revert I Hfl. destruct Hs as [[[x c rest t Hc Hi He|x t Hc Hi He|x t Hc He|x c t Hc Hroom|x t Hc Ho|x k t Ho Hk|x t Ho
         |x t Hc Ho|t Hc Hn|t Hc Hn _]|[x t Hc|x c t Hc]]|[x c t He|x t|x t]];
    intros [Hd Ha Hb Ea Eb Hfa Hfb Hdn Hr _] Hfl; split; try exact Hfl; clear Hfl.
  all: try destruct x; cbn in *; try rewrite Ho in *; try done; try congruence.
  all: try (intros ?; simplify_eq; by auto).
  all: try (destruct (closeOnce t) as [|[] ?|]; cbn in *; intuition congruence).
  all: try (split; [done|lia]).
  all: destruct k as [|[|[|?]]]; cbn in *; try lia; intuition (try congruence; try lia).
  all: by rewrite ?Ha, ?Hb.
Qed.

Lemma splice_reachable s : rtc splice_step spliceConns s → splice_inv s.
Proof.
  intros Hr. pose proof spliceConns_inv as I. revert I. induction Hr; eauto using splice_step_inv.
Qed.

(** *** Termination *)

(** A bound on the steps that are left when nothing more arrives. *)
Definition copier_work (c : copier) (chunks : nat) : nat :=
  match c with
  | Reading => 2 * chunks + 12
  | Writing _ => 2 * chunks + 13
  | Stopped => 10
  | Finished => 0
  end.
Definition work (s : splice) : nat :=
  copier_work (to_a s) (length (inbox (end_b s))) + copier_work (to_b s) (length (inbox (end_a s))) +
  match closeOnce s with Fresh => 6 | Doing _ k => 5 - k | Did => 0 end +
  (if done_closed s then 0 else 1) + (if returned s then 0 else 1).

Lemma inner_step_work s s' : inner_step s s' → (work s' < work s)%nat.
Proof.
  unfold work. intros [[x c rest t Hc Hi He|x t Hc Hi He|x t Hc He|x c t Hc Hroom|x t Hc Ho|x k t Ho Hk|x t Ho
         |x t Hc Ho|t Hc Hn|t Hc Hn Hr]|[x t Hc|x c t Hc]].
  all: try destruct x; cbn in *; rewrite ?Ho, ?Hc, ?Hi, ?Hn, ?Hr; cbn; try lia.
  all: destruct k as [|[|[|k]]]; cbn; lia.
Qed.

(** One of the connections has ended, or a goroutine has seen its copying end. *)
Definition ending (s : splice) : Prop :=
  ∃ x, eof (end_of s (other x)) = true ∨ copier_of s x = Stopped ∨ copier_of s x = Finished.

Lemma inner_step_ending s s' : inner_step s s' → ending s → ending s'.
Proof.
  intros Hs (y & Hy). exists y. revert Hy.
  destruct Hs as [[x c rest t Hc Hi He|x t Hc Hi He|x t Hc He|x c t Hc Hroom|x t Hc Ho|x k t Ho Hk|x t Ho
         |x t Hc Ho|t Hc Hn|t Hc Hn Hr]|[x t Hc|x c t Hc]].
  all: try destruct x; destruct y; cbn in *; try (destruct k as [|[|[|k]]]; cbn).
  all: intros [?|[?|?]]; auto; congruence.
Qed.

(** A copier waits in [Write], for the peer of the connection it writes to. *)
Definition waits_to_write (s : splice) : Prop :=
  ∃ x c, copier_of s x = Writing c ∧ takes (end_of s x) = 0%nat.

(** The copier of [x] can go on, unless it waits or has finished. *)
Lemma copier_moves s x :
  splice_inv s → copier_of s x ≠ Finished →
  (copier_of s x = Reading → eof (end_of s (other x)) = true ∨ closeOnce s = Did) →
  waits_to_write s ∨ ∃ s', own_step s s'.
Proof.
  intros I Hf Hr. destruct (copier_of s x) as [|c| |] eqn:Hc; [right| |right|done].
  - destruct (expired (end_of s (other x))) eqn:He; [by eexists; eapply read_expired|].
    destruct (inbox (end_of s (other x))) as [|c rest] eqn:Hi; [|by eexists; eapply read_data].
    destruct (Hr eq_refl) as [|Ho]; [by eexists; eapply read_eof|].
    destruct I as [_ _ _ Ea Eb _ _ _ _ _]. rewrite Ho in Ea, Eb.
    cbn in Ea, Eb. rewrite bool_decide_eq_true_2 in Ea, Eb by lia. destruct x; cbn in *; congruence.
  - destruct (decide (takes (end_of s x) = 0%nat)); [left; by exists x, c|right].
    eexists. eapply write_chunk; [exact Hc|lia].
  - destruct (closeOnce s) as [|y k|] eqn:Ho; [by eexists; eapply close_starts| |by eexists; eapply close_leaves].
    destruct I as [Hd _ _ _ _ _ _ _ _ _]. rewrite Ho in Hd. destruct Hd as [_ Hk].
    destruct (decide (k = 3%nat)) as [->|]; [by eexists; eapply close_ends|].
    eexists. eapply close_calls; [exact Ho|lia].
Qed.

Lemma ending_moves s :
  splice_inv s → ending s → returned s = true ∨ waits_to_write s ∨ ∃ s', own_step s s'.
Proof.
  intros I He. destruct (returned s) eqn:Hr; [by left|right].
  assert (∀ x, copier_of s x = Finished → closeOnce s = Did) as Hdid
    by (intros []; [apply (si_finished_a s I)|apply (si_finished_b s I)]).
  destruct He as (x & Hx).
  assert (copier_of s x ≠ Finished → waits_to_write s ∨ ∃ s', own_step s s') as Hmove.
  { intros Hn. apply (copier_moves s x I Hn). intros Hc. left. destruct Hx as [?|[?|?]]; congruence. }
  destruct (decide (copier_of s x = Finished)) as [Hf|]; [|by apply Hmove].
  destruct (decide (copier_of s (other x) = Finished)) as [Hg|Hg].
  - assert (to_a s = Finished ∧ to_b s = Finished) as [Ha Hb] by by destruct x. right.
    destruct (done_closed s) eqn:Hd; eexists; [by eapply splice_returns|by eapply signal_done].
  - apply (copier_moves s (other x) I Hg). right. by apply (Hdid x).
Qed.

(** The connections take what has arrived and has not been copied. *)
Definition to_write (s : splice) (x : side) : nat :=
  match copier_of s x with
  | Reading => length (inbox (end_of s (other x)))
  | Writing _ => S (length (inbox (end_of s (other x))))
  | _ => 0
  end.
Definition ample (s : splice) : Prop := ∀ x, (to_write s x ≤ takes (end_of s x))%nat.

Lemma ample_writes s : ample s → ¬ waits_to_write s.
Proof. intros Ha (x & c & Hc & Ht). specialize (Ha x). unfold to_write in Ha. rewrite Hc, Ht in Ha. lia. Qed.

Lemma own_step_ample s s' : own_step s s' → ample s → ample s'.
Proof.
  intros Hs Ha y. pose proof (Ha y) as Hy. revert Hy. unfold to_write.
  destruct Hs as [x c rest t Hc Hi He|x t Hc Hi He|x t Hc He|x c t Hc Hroom|x t Hc Ho|x k t Ho Hk|x t Ho
         |x t Hc Ho|t Hc Hn|t Hc Hn Hr].
  all: try destruct x; destruct y; cbn in *; rewrite ?Hc, ?Hi; cbn; try lia.
  all: try (destruct k as [|[|[|k]]]; cbn; lia).
Qed.

Lemma inner_steps_bounded n s s' :
  nsteps inner_step n s s' → (n + work s' ≤ work s)%nat.
Proof.
  induction 1 as [|n s s1 s' Hs _ IH]; [lia|]. apply inner_step_work in Hs. lia.
Qed.

Lemma splice_finishes s :
  splice_inv s → ending s → ample s → ∃ s', rtc own_step s s' ∧ returned s' = true.
Proof.
  remember (work s) as n eqn:Hn. revert s Hn. induction (lt_wf n) as [n _ IH]. intros s -> I He Hroom.
  destruct (ending_moves s I He) as [|[Hw|[s1 Hs]]]; [by exists s|by destruct (ample_writes s Hroom)|].
  assert (inner_step s s1) as Hi by by left.
  destruct (IH _ (inner_step_work _ _ Hi) s1 eq_refl) as (s' & Hr & Hd).
  - eapply splice_step_inv; [|exact I]. by left.
  - by eapply inner_step_ending.
  - by eapply own_step_ample.
  - exists s'. split; [by eapply rtc_l|done].
Qed.

(** C8. However the two goroutines and the ends of the connections interleave,
    the splice of two connections closes neither twice, and writes to each a
    prefix of what arrived at the other, in order; when it has returned it has
    closed both. *)
Theorem splice_copies_and_closes s :
  rtc splice_step spliceConns s →
  (∀ x, (closes (end_of s x) ≤ 1)%nat ∧
        delivered (end_of s x) `prefix_of` arrived (end_of s (other x))) ∧
  (returned s = true → ∀ x, closes (end_of s x) = 1%nat ∧ expired (end_of s x) = true ∧
     copier_of s x = Finished).
Proof.
  intros I%splice_reachable. split.
  - intros x. split.
    + destruct I as [_ Ha Hb _ _ _ _ _ _ _]. destruct x; cbn; rewrite ?Ha, ?Hb; clear; case_bool_decide; lia.
    + destruct (si_flows s I x) as (l & -> & _). by eexists.
  - destruct I as [_ Ha Hb Ea Eb Hfa _ Hdn Hr _]. intros Hret. destruct (Hr Hret) as [Hf Hd].
    pose proof (Hdn Hd) as Hfin. rewrite (Hfa Hfin) in Ha, Hb, Ea, Eb. by intros [].
Qed.

(** C21. As soon as either connection ends, or a read or write fails, the splice
    makes a bounded number of steps before more data arrives, whatever fails on the way;
    only returning leaves it without a step, or a [Write] to a connection that takes
    nothing.  When the connections take what has arrived it can return, having closed
    both. *)
Theorem splice_ends s :
  rtc splice_step spliceConns s → ending s →
  (∀ n s', nsteps inner_step n s s' → (n ≤ work s)%nat) ∧
  (∀ s', rtc inner_step s s' → (∀ t, ¬ own_step s' t) → returned s' = true ∨ waits_to_write s') ∧
  (ample s →
   ∃ s', rtc own_step s s' ∧ returned s' = true ∧ closes (end_a s') = 1%nat ∧ closes (end_b s') = 1%nat).
Proof.
  intros Hr He. pose proof (splice_reachable s Hr) as I. split_and!.
  - intros n s' Hn%inner_steps_bounded. lia.
  - intros s' Hs Hstuck. assert (splice_inv s' ∧ ending s') as [I' He'].
    { clear Hstuck. induction Hs as [|s s1 s' Hs _ IH]; [done|]. apply IH.
      - eapply rtc_r; [exact Hr|by left].
      - by eapply inner_step_ending.
      - eapply splice_step_inv; [by left|exact I]. }
    destruct (ending_moves s' I' He') as [|[|[t Ht]]]; [by left|by right|]. by destruct (Hstuck t).
  - intros Hroom. destruct (splice_finishes s I He Hroom) as (s' & Hs & Hd). exists s'. split_and!; try done.
    all: assert (splice_inv s') as [_ Ha Hb _ _ Hfa _ Hdn Hret _]
      by (clear Hd He Hroom; induction Hs as [|s s1 s' Hs _ IH]; [done|];
          apply IH; [by eapply rtc_r; [exact Hr|by left; left]|by eapply splice_step_inv; [left; left|]]).
    all: destruct (Hret Hd) as [_ Hdone]; by rewrite ?Ha, ?Hb, (Hfa (Hdn Hdone)).
Qed.

(** Until either side ends, then closes both: but a goroutine that waits in a [Write]
    does not see the end of the other connection.  When [b] ends while [a] takes nothing
    and is silent, nothing closes either of them, and only [a] can change that. *)
Theorem splice_waits_for_a_silent_end (c : string) :
  ∃ s, rtc splice_step spliceConns s ∧ eof (end_b s) = true ∧ returned s = false ∧
    closes (end_a s) = 0%nat ∧ closes (end_b s) = 0%nat ∧ ∀ t, ¬ own_step s t.
Proof.
  eexists. split; [|split_and!].
  - eapply rtc_l; [right; by apply (data_arrives SideB c)|].
    eapply rtc_l; [left; left; by apply (read_data SideA c [])|].
    eapply rtc_once. right. apply (input_ends SideB).
  - done.
  - done.
  - done.
  - done.
  - intros t Hs. inversion Hs as [x| x| x|x ? ? Hc Hr|x| | |x| |]; subst; try destruct x; cbn in *; try done; lia.
Qed.

(** ** [RelayStream] *)

(** [conn] and [stream] count the calls of [Close], those of the deferred ones
    included; [conn] is [None] when nothing was dialed. *)
Inductive relay_state :=
| RelayDials
| RelayWritesHeader
| RelaySplices (s : splice)
| RelayEnded (conn : option nat) (stream : nat).

Inductive relay_step : relay_state → relay_state → Prop :=
| relay_dial_fails : relay_step RelayDials (RelayEnded None 1)
| relay_dials : relay_step RelayDials RelayWritesHeader
| relay_header_fails : relay_step RelayWritesHeader (RelayEnded (Some 1) 1)
| relay_header : relay_step RelayWritesHeader (RelaySplices spliceConns)
| relay_splices s s' : splice_step s s' → relay_step (RelaySplices s) (RelaySplices s')
| relay_returns s :
    returned s = true →
    relay_step (RelaySplices s) (RelayEnded (Some (S (closes (end_a s)))) (S (closes (end_b s)))).

Definition relay_ok (r : relay_state) : Prop :=
  match r with
  | RelaySplices s => rtc splice_step spliceConns s
  | RelayEnded conn stream => (1 ≤ stream)%nat ∧ ∀ n, conn = Some n → (1 ≤ n)%nat
  | _ => True
  end.

Lemma relay_step_ok r r' : relay_step r r' → relay_ok r → relay_ok r'.
Proof.
  intros [| | | |s s' Hs|s Hs] Hr; cbn in *; try (by split_and?; auto).
  - split; [lia|]. intros ? [= <-]. lia.
  - by eapply rtc_r.
  - split; [lia|]. intros n [= <-]. lia.
Qed.

Lemma relay_reachable r : rtc relay_step RelayDials r → relay_ok r.
Proof.
  intros Hr. assert (relay_ok RelayDials) as I by done. revert I.
  induction Hr; eauto using relay_step_ok.
Qed.

(** A stream is relayed to the application byte for byte and in order, in
    both directions; however it ends, the stream is closed, and so is the
  Once either has ended the
    relay can end, when both take what has arrived. *)
Theorem relayed_streams_are_closed r :
  rtc relay_step RelayDials r →
  match r with
  | RelayEnded conn stream => (1 ≤ stream)%nat ∧ ∀ n, conn = Some n → (1 ≤ n)%nat
  | RelaySplices s =>
      delivered (end_a s) `prefix_of` arrived (end_b s) ∧
      delivered (end_b s) `prefix_of` arrived (end_a s) ∧
      (ending s → ample s → ∃ conn stream, rtc relay_step r (RelayEnded conn stream))
  | _ => True
  end.
Proof.
  intros Hr. pose proof (relay_reachable r Hr) as Hi. unfold relay_ok in Hi. destruct r as [| |s|conn stream]; try done.
  pose proof (splice_reachable s Hi) as I. split_and!.
  - destruct (si_flows s I SideA) as (l & Hl & _). cbn in Hl. rewrite Hl. by eexists.
  - destruct (si_flows s I SideB) as (l & Hl & _). cbn in Hl. rewrite Hl. by eexists.
  - intros He Hroom. destruct (splice_finishes s I He Hroom) as (s' & Hs & Hd).
    eexists _, _. eapply rtc_r; [|by apply relay_returns].
    clear - Hs. induction Hs as [|s s1 s' Hs _ IH]; [done|].
    eapply rtc_l; [apply relay_splices; by left; left|exact IH].
Qed.

(** ** [relayDataChannel] *)

(** The two directions, whether [conn.Close] and [channel.Close] have been called,
    and whether the caller, which runs the direction to the channel, has returned. *)
Record channel_relay := mkRelay {
  to_conn : pipe; to_channel : sender;
  conn_closed : bool; channel_closed : bool; relay_returned : bool }.

Inductive channel_step : channel_relay → channel_relay → Prop :=
(* OnMessage, OnClose and OnError *)
| ch_deliver p p' s c ch r :
    Relay.deliver_step p p' → channel_step (mkRelay p s c ch r) (mkRelay p' s c ch r)
| ch_close p s c ch r : channel_step (mkRelay p s c ch r) (mkRelay (set_closed p) s c ch r)
(* channel -> conn; a write to a closed connection fails *)
| ch_write m q p s ch r :
    consumer p = CLoop ∨ consumer p = CDrain → msgCh p = m :: q →
    channel_step (mkRelay p s false ch r) (mkRelay (relay_one m q p) s false ch r)
| ch_write_fails m q p s c ch r :
    consumer p = CLoop → msgCh p = m :: q →
    channel_step (mkRelay p s c ch r) (mkRelay (set_consumer (CStopped false) (drop_one q p)) s c true r)
| ch_drain_fails m q p s c ch r :
    consumer p = CDrain → msgCh p = m :: q →
    channel_step (mkRelay p s c ch r) (mkRelay (set_consumer (CStopped false) (drop_one q p)) s true ch r)
| ch_sees_close p s c ch r :
    consumer p = CLoop → closed p = true →
    channel_step (mkRelay p s c ch r) (mkRelay (set_consumer CDrain p) s c ch r)
| ch_drained p s c ch r :
    consumer p = CDrain → msgCh p = [] →
    channel_step (mkRelay p s c ch r) (mkRelay (set_consumer (CStopped true) p) s true ch r)
(* conn -> channel *)
| ch_send p s s' ch c r :
    sender_step s s' → ended s' = false → (held s = None → held s' ≠ None → c = false) →
    channel_step (mkRelay p s c ch r) (mkRelay p s' c ch r)
| ch_read_fails p s c ch r :
    held s = None → ended s = false →
    channel_step (mkRelay p s c ch r) (mkRelay p (mkSender (buffered s) None true (sent s)) c true r)
| ch_send_fails f p s c ch r :
    held s = Some f → ended s = false → must_wait (buffered s) f.1 = false →
    channel_step (mkRelay p s c ch r) (mkRelay p (mkSender (buffered s) None true (sent s)) c ch r)
| ch_closed_while_waiting f p s c ch r :
    held s = Some f → ended s = false → must_wait (buffered s) f.1 = true → closed p = true →
    channel_step (mkRelay p s c ch r) (mkRelay p (mkSender (buffered s) (Some f) true (sent s)) c ch r)
(* the deferred conn.Close() *)
| ch_returns p s c ch :
    ended s = true → channel_step (mkRelay p s c ch false) (mkRelay p s true ch true).

Definition relayDataChannel : channel_relay :=
  mkRelay new_pipe (mkSender 0 None false []) false false false.

(** [handleDataChannel], which dials the application, writes the header and the
    first message, and relays; [conn] says whether the connection is closed. *)
Inductive handler_state :=
| ChannelDials
| ChannelWritesHeader
| ChannelWritesFirst
| ChannelRelays (r : channel_relay)
| ChannelRefused (conn : option bool) (channel : bool).

Inductive handler_step : handler_state → handler_state → Prop :=
| handler_dial_fails : handler_step ChannelDials (ChannelRefused None true)
| handler_dials : handler_step ChannelDials ChannelWritesHeader
| handler_header_fails : handler_step ChannelWritesHeader (ChannelRefused (Some true) true)
| handler_header : handler_step ChannelWritesHeader ChannelWritesFirst
| handler_first_fails : handler_step ChannelWritesFirst (ChannelRefused (Some true) true)
| handler_first : handler_step ChannelWritesFirst (ChannelRelays relayDataChannel)
| handler_relays r r' : channel_step r r' → handler_step (ChannelRelays r) (ChannelRelays r').

Record relay_inv (r : channel_relay) : Prop := {
  ri_pipe : pipe_inv (to_conn r);
  ri_returned : relay_returned r = true → conn_closed r = true;
  ri_drained b : consumer (to_conn r) = CStopped b → conn_closed r = true ∨ channel_closed r = true;
}.

Lemma channel_step_inv r r' : channel_step r r' → relay_inv r → relay_inv r'.
Proof.
  intros Hs [Hp Hr Hd]. assert (pipe_inv (to_conn r')) as Hp'.
  { destruct Hs as [p p' s c ch r Hs|p s c ch r|m q p s ch r Hc Hq|m q p s c ch r Hc Hq|m q p s c ch r Hc Hq
      |p s c ch r Hc Hcl|p s c ch r Hc Hq| | | | |]; try exact Hp;
    cbn in *; eapply pipe_step_inv; try exact Hp.
    - by apply pipe_deliver.
    - apply pipe_close.
    - apply pipe_consume. by apply relay_message.
    - apply pipe_consume. apply relay_fails with m; auto.
    - apply pipe_consume. apply relay_fails with m; auto.
    - apply pipe_consume. by apply relay_sees_close.
    - apply pipe_consume. by apply relay_done. }
  split; [exact Hp'| |].
  - destruct Hs; cbn in *; auto.
  - intros b. clear Hp'. destruct Hs as [p p' s c ch r []| | | | | | | | | | |]; cbn in *; eauto; naive_solver.
Qed.

Lemma relayDataChannel_inv : relay_inv relayDataChannel.
Proof. split; [|done..]. split; simpl; done || lia. Qed.

Definition handler_ok (h : handler_state) : Prop :=
  match h with
  | ChannelRelays r => relay_inv r
  | ChannelRefused conn channel => channel = true ∧ conn ≠ Some false
  | _ => True
  end.

Lemma handler_reachable h : rtc handler_step ChannelDials h → handler_ok h.
Proof.
  intros Hr. assert (handler_ok ChannelDials) as I by done. revert I.
  induction Hr as [|h1 h2 h3 Hs _ IH]; [done|]. intros I. apply IH.
  destruct Hs; cbn in *; eauto using channel_step_inv, relayDataChannel_inv.
Qed.

(** A data channel that cannot be relayed is closed, with the connection to
    the application if there is one.  A relayed one gives the application its
    messages in order, none twice; when the direction to the channel ends the
    connection is closed, and when the other one ends the connection or the
    channel is. *)
Theorem data_channels_are_relayed h :
  rtc handler_step ChannelDials h →
  match h with
  | ChannelRefused conn channel => channel = true ∧ conn ≠ Some false
  | ChannelRelays r =>
      written (to_conn r) `prefix_of` queued (to_conn r) ∧
      (length (msgCh (to_conn r)) ≤ msgCh_cap)%nat ∧
      (relay_returned r = true → conn_closed r = true) ∧
      (∀ b, consumer (to_conn r) = CStopped b → conn_closed r = true ∨ channel_closed r = true)
  | _ => True
  end.
Proof.
  intros Hh%handler_reachable. destruct h as [| | |r|conn channel]; try done.
  destruct Hh as [Hp Hr Hd]. split_and!; [apply (pi_prefix _ Hp)|apply (pi_bound _ Hp)|done..].
Qed.

(** A frame of 300,000 bytes, of which the channel's send buffer has room for one. *)
Definition big_frame : string * bool := (filler (Z.to_nat 300000), true).
Lemma big_frame_length : blen big_frame.1 = 300000%Z.
Proof. unfold big_frame. cbn [fst]. by rewrite filler_length, Z2Nat.id. Qed.

Lemma closed_conn_takes_nothing r r' :
  rtc channel_step r r' → conn_closed r = true → written (to_conn r') = written (to_conn r).
Proof.
  induction 1 as [|r r1 r' Hs _ IH]; [done|]. intros Hc.
  assert (conn_closed r1 = true ∧ written (to_conn r1) = written (to_conn r)) as [Hc1 Hw].
  { destruct Hs as [p p' s c ch r []| | | | | | | | | | |]; cbn in *; done. }
  by rewrite IH.
Qed.

Lemma drain_cut m (f : string * bool) :
  must_wait 0 f.1 = false → must_wait (0 + blen f.1) f.1 = true → (blen f.1 ≤ maxRelayFrameSize)%Z →
  ∃ r, rtc channel_step relayDataChannel r ∧
    closed (to_conn r) = true ∧ queued (to_conn r) = [m] ∧
    ∀ r', rtc channel_step r r' → written (to_conn r') = [].
Proof.
  intros Hw1 Hw2 Hle. eexists. split; [|split_and!].
  - eapply rtc_l; [apply ch_deliver, (deliver_now m); [done|unfold msgCh_cap; simpl; lia]|].
    eapply rtc_l; [apply ch_send; [by apply (sender_read f)|done|done]|].
    eapply rtc_l; [apply ch_send; [by apply (sender_send f)|done|done]|].
    eapply rtc_l; [apply ch_send; [by apply (sender_read f)|done|done]|].
    eapply rtc_l; [apply ch_close|].
    eapply rtc_l; [by apply (ch_closed_while_waiting f)|].
    by eapply rtc_once, ch_returns.
  - done.
  - done.
  - intros r' Hr. by rewrite (closed_conn_takes_nothing _ _ Hr).
Qed.

(** "Relay what arrived before the close, then close conn too": but while the
    other direction waits for room in the send buffer, it is that direction which
    the close ends first, and it closes the connection under the drain.  What had
    arrived is then never written. *)
Theorem drain_can_be_cut m :
  ∃ r, rtc channel_step relayDataChannel r ∧
    closed (to_conn r) = true ∧ queued (to_conn r) = [m] ∧
    ∀ r', rtc channel_step r r' → written (to_conn r') = [].
Proof.
  apply (drain_cut m big_frame); unfold must_wait, relayBufferedHigh; rewrite big_frame_length.
  - by apply bool_decide_eq_false.
  - by apply bool_decide_eq_true.
  - by compute.
Qed.

(** A send that fails ends the relay and closes the connection to the application,
    and not the channel: its client is not told, and unless it sends or closes
    itself nothing more happens. *)
Theorem failed_send_leaves_the_channel_open (f : string * bool) :
  (blen f.1 ≤ relayBufferedHigh)%Z →
  ∃ r, rtc channel_step relayDataChannel r ∧ conn_closed r = true ∧ channel_closed r = false ∧
    ∀ r', channel_step r r' →
      queued (to_conn r') ≠ queued (to_conn r) ∨ closed (to_conn r') ≠ closed (to_conn r).
Proof.
  intros Hf. assert (must_wait 0 f.1 = false) as Hw.
  { unfold must_wait. apply bool_decide_eq_false. lia. }
  eexists. split; [|split_and!].
  - assert (blen f.1 ≤ maxRelayFrameSize)%Z as Hle.
    { change relayBufferedHigh with 524288%Z in Hf. change maxRelayFrameSize with 1048576%Z. lia. }
    eapply rtc_l; [apply ch_send; [by apply (sender_read f)|done|done]|].
    eapply rtc_l; [by apply (ch_send_fails f)|].
    eapply rtc_once, ch_returns. done.
  - done.
  - done.
  - intros r' Hs. cbn. inversion Hs as [p p' s c ch r Hd| | | | | | |p s s' ch c r Hd He| | | |]; subst; cbn in *; try done.
    + inversion Hd; subst; cbn in *; try done; [by left|unfold msgCh_cap in *; lia].
    + by right.
    + inversion Hd; subst; done.
Qed.

(** ** Sample runs *)

(** Data arrives at [b], is copied to [a], and then [b] ends. *)
Definition copied : splice :=
  set_end SideB (end_input (mkEnd ["hi"] [] false false 0 [] 0))
    (mkSplice (mkEnd [] [] false false 0 ["hi"] 0) (mkEnd ["hi"] [] false false 0 [] 0) Reading Reading Fresh false false).

Lemma copied_reachable : rtc splice_step spliceConns copied.
Proof.
  eapply rtc_l; [right; by apply (data_arrives SideB "hi")|].
  eapply rtc_l; [right; by apply (room_made SideA)|].
  eapply rtc_l; [left; left; by apply (read_data SideA "hi" [])|].
  eapply rtc_l; [left; left; apply (write_chunk SideA "hi"); [done|simpl; lia]|].
  eapply rtc_once. right. apply (input_ends SideB).
Qed.

Lemma copied_ample : ample copied.
Proof. intros []; vm_compute; lia. Qed.

Example splice_copies_and_closes_witness :
  (closes (end_a copied) ≤ 1)%nat ∧ delivered (end_a copied) `prefix_of` ["hi"].
Proof. exact (proj1 (splice_copies_and_closes copied copied_reachable) SideA). Defined.

Example splice_ends_witness :
  ∃ s', rtc own_step copied s' ∧ returned s' = true ∧ closes (end_a s') = 1%nat ∧ closes (end_b s') = 1%nat.
Proof.
  refine (proj2 (proj2 (splice_ends copied copied_reachable _)) copied_ample). exists SideA. by left.
Defined.

Example relayed_streams_are_closed_witness :
  ∃ conn stream, rtc relay_step (RelaySplices copied) (RelayEnded conn stream).
Proof.
  refine (proj2 (proj2 (relayed_streams_are_closed (RelaySplices copied) _)) _ copied_ample).
  - eapply rtc_l; [apply relay_dials|]. eapply rtc_l; [apply relay_header|].
    pose proof copied_reachable as Hr. revert Hr. generalize copied spliceConns. intros s s0.
    induction 1; [done|]. eapply rtc_l; [by apply relay_splices|done].
  - exists SideA. by left.
Defined.

Example data_channels_are_relayed_witness :
  written (to_conn relayDataChannel) `prefix_of` queued (to_conn relayDataChannel).
Proof.
  refine (proj1 (data_channels_are_relayed (ChannelRelays relayDataChannel) _)).
  eapply rtc_l; [apply handler_dials|]. eapply rtc_l; [apply handler_header|].
  apply rtc_once, handler_first.
Defined.

Example failed_send_leaves_the_channel_open_witness :
  ∃ r, rtc channel_step relayDataChannel r ∧ conn_closed r = true ∧ channel_closed r = false ∧
    ∀ r', channel_step r r' →
      queued (to_conn r') ≠ queued (to_conn r) ∨ closed (to_conn r') ≠ closed (to_conn r).
Proof. apply (failed_send_leaves_the_channel_open ("frame", true)). by compute. Defined.
