(* ===== verification/Credentials.v ===== *)
(** * Waiting for the credentials of a device (xconn/credentials.go)

    [EnsureCredentials], which reads the credentials file or waits until it
    appears, as a transition system together with the file system and the watcher of
    its directory.  The watcher names a file by the directory that it was given, a
    slash and the name in that directory, as the documentation of fsnotify says; the
    loop compares that with the path as the caller wrote it. *)

From S2P Require Import Prelude GoStd FilePath.

Local Open Scope string_scope.

Definition has_slash (s : string) : bool :=
  existsb (λ c, bool_decide (c = "/"%char)) (String.list_ascii_of_string s).

Record Credentials := mkCredentials {
  cred_Realm : string; cred_AuthID : string; cred_PublicKey : string; cred_PrivateKey : string }.

Module Ensure.

(** The bits of an event of fsnotify. *)
Definition op_Create : Z := 1.
Definition op_Write : Z := 2.
Definition op_Remove : Z := 4.
Record fs_event := mkEvent { Name : string; Op : Z }.

Section Credentials.
(** [json.Unmarshal] and the path of the file. *)
Context (unmarshal : string → result Credentials) (path : string).

Inductive position :=
| Stats
| MakesDir
| NewsWatcher
| AddsDir
| Waits
| Reads
| Returned (r : result Credentials).

(** [contents]: what the file has held.  [silent]: the watcher sends no more events. *)
Record world := mkWorld {
  at_ : position; file : option string; events : list fs_event; ctx_done : bool;
  contents : list string; silent : bool }.

Definition goes (p : position) (w : world) : world :=
  mkWorld p (file w) (events w) (ctx_done w) (contents w) (silent w).
Definition drop_event (es : list fs_event) (w : world) : world :=
  mkWorld (at_ w) (file w) es (ctx_done w) (contents w) (silent w).

(** The case that ends the loop. *)
Definition attached (e : fs_event) : bool :=
  bool_decide (Name e = path) && negb (bool_decide (Z.land (Op e) (Z.lor op_Create op_Write) = 0%Z)).

(** [EnsureCredentials]: a step is a call that returns, or a case of the select. *)
Inductive ensure_step : world → world → Prop :=
| stat_finds t w : at_ w = Stats → file w = Some t → ensure_step w (goes Reads w)
| stat_misses w : at_ w = Stats → file w = None → ensure_step w (goes MakesDir w)
| makes_dir w : at_ w = MakesDir → ensure_step w (goes NewsWatcher w)
| news_watcher w : at_ w = NewsWatcher → ensure_step w (goes AddsDir w)
| adds_dir w : at_ w = AddsDir → ensure_step w (goes Waits w)
| sees_cancel w :
    at_ w = Waits → ctx_done w = true → ensure_step w (goes (Returned (Err "context canceled")) w)
| sees_file e es w :
    at_ w = Waits → events w = e :: es → attached e = true → ensure_step w (goes Reads (drop_event es w))
| sees_other e es w :
    at_ w = Waits → events w = e :: es → attached e = false → ensure_step w (drop_event es w)
| reads t w :
    at_ w = Reads → file w = Some t →
    ensure_step w (goes (Returned (wrap "failed to unmarshal credentials: " (unmarshal t))) w)
| reads_nothing w :
    at_ w = Reads → file w = None →
    ensure_step w (goes (Returned (Err "failed to read credentials file: no such file")) w).

(** Calls that fail. *)
Inductive failing_step : world → world → Prop :=
| makes_dir_fails e w : at_ w = MakesDir → failing_step w (goes (Returned (Err e)) w)
| news_watcher_fails e w :
    at_ w = NewsWatcher → failing_step w (goes (Returned (Err ("failed to create watcher: " +:+ e))) w)
| adds_dir_fails e w :
    at_ w = AddsDir → failing_step w (goes (Returned (Err ("failed to add watcher: " +:+ e))) w)
| watcher_closes w :
    at_ w = Waits → failing_step w (goes (Returned (Err "credentials watcher closed")) w)
| read_fails e w :
    at_ w = Reads → failing_step w (goes (Returned (Err ("failed to read credentials file: " +:+ e))) w).

(** The name of a file of the watched directory, in an event. *)
Definition event_name (b : string) : string := filepath_Dir path +:+ "/" +:+ b.

(** An event is recorded from the time that the directory is watched. *)
Definition notify (b : string) (op : Z) (w : world) : list fs_event :=
  match at_ w with
  | Waits => if silent w then events w else (events w ++ [mkEvent (event_name b) op])%list
  | _ => events w
  end.
Definition notify_file := notify (last_element path).

(** Attaching the device creates the file and then writes it, or moves it there.  A
    watcher that has lost events, or its directory, has an error to send: nobody
    receives from [Errors], so it waits with it. *)
Inductive outside_step : world → world → Prop :=
| creates w :
    file w = None →
    outside_step w (mkWorld (at_ w) (Some "") (notify_file op_Create w) (ctx_done w) ("" :: contents w) (silent w))
| writes t u w :
    file w = Some u →
    outside_step w (mkWorld (at_ w) (Some t) (notify_file op_Write w) (ctx_done w) (t :: contents w) (silent w))
| moves_in t w :
    outside_step w (mkWorld (at_ w) (Some t) (notify_file op_Create w) (ctx_done w) (t :: contents w) (silent w))
| removes t w :
    file w = Some t →
    outside_step w (mkWorld (at_ w) None (notify_file op_Remove w) (ctx_done w) (contents w) (silent w))
| other_file b op w :
    has_slash b = false → b ≠ last_element path →
    outside_step w (mkWorld (at_ w) (file w) (notify b op w) (ctx_done w) (contents w) (silent w))
| watcher_fails w : outside_step w (mkWorld (at_ w) (file w) (events w) (ctx_done w) (contents w) true)
| cancels w : outside_step w (mkWorld (at_ w) (file w) (events w) true (contents w) (silent w)).

Definition world_step (w w' : world) : Prop := ensure_step w w' ∨ failing_step w w' ∨ outside_step w w'.

(** The call, in a file system that may have the file. *)
Definition EnsureCredentials (f : option string) : world :=
  mkWorld Stats f [] false (match f with Some t => [t] | None => [] end) false.

Definition in_contents (w : world) : Prop :=
  (∀ t, file w = Some t → t ∈ contents w) ∧
  ∀ c, at_ w = Returned (Ok c) → ∃ t, t ∈ contents w ∧ unmarshal t = Ok c.

Lemma world_step_contents w w' : world_step w w' → in_contents w → in_contents w'.
Proof.
  intros [[]|[[]|[]]] [Hf Hc]; split; cbn in *; try done; try (intros; set_solver).
  - intros c [= Hr]. apply wrap_Ok in Hr. eauto.
Qed.

(** Credentials that [EnsureCredentials] returns are those that the file held
    at some time, whatever happens to the file meanwhile. *)
Theorem credentials_come_from_the_file f w c :
  rtc world_step (EnsureCredentials f) w → at_ w = Returned (Ok c) →
  ∃ t, t ∈ contents w ∧ unmarshal t = Ok c.
Proof.
  intros Hr. assert (in_contents (EnsureCredentials f)) as I.
  { split; [|done]. cbn. intros t ->. by left. }
  revert I. induction Hr as [w|w w1 w' Hs _ IH]; [intros [_ Hc]; auto|].
  eauto using world_step_contents.
Qed.

(** *** Noticing the file *)

(** The path is the directory that is watched, a slash and the name of the file, as
    [filepath.Join] writes it. *)
Definition named_alike : Prop := event_name (last_element path) = path.

(** While it waits there is no file, or an event says that there is, unless the
    watcher has failed. *)
Definition noticing (w : world) : Prop :=
  at_ w = Waits → silent w = false → file w = None ∨ ∃ e, e ∈ events w ∧ attached e = true.

Lemma attached_here op :
  named_alike → (op = op_Create ∨ op = op_Write) →
  attached (mkEvent (event_name (last_element path)) op) = true.
Proof.
  unfold attached. intros Hn. cbn. rewrite bool_decide_eq_true_2 by done. by intros [-> | ->].
Qed.

Lemma world_step_noticing w w' :
  named_alike → world_step w w' → at_ w ≠ AddsDir → noticing w → noticing w'.
Proof.
  intros Hp Hs.
  assert (∀ op es, (op = op_Create ∨ op = op_Write) →
    ∃ e, e ∈ (es ++ [mkEvent (event_name (last_element path)) op])%list ∧ attached e = true) as Hseen.
  { intros op es Hop. eexists. split; [apply elem_of_app; right; by left|by apply attached_here]. }
  destruct Hs as [[]|[[]|[]]]; intros Ha Hn; unfold noticing in *; intros Hw Hl; cbn in *; try done;
    unfold notify_file, notify; rewrite ?Hw, ?Hl.
  - destruct (Hn Hw Hl) as [|(e' & He' & Ht)]; [by left|right]. exists e'. split; [|done].
    rewrite H0, elem_of_cons in He'. destruct He' as [->|]; [congruence|done].
  - right. apply Hseen. by left.
  - right. apply Hseen. by right.
  - right. apply Hseen. by left.
  - by left.
  - destruct (Hn Hw Hl) as [|(e' & He' & Ht)]; [by left|right]. exists e'. split; [|done].
    apply elem_of_app. by left.
  - by apply Hn.
Qed.

Definition past_waiting (w : world) : Prop :=
  match at_ w with Waits | Reads | Returned _ => True | _ => False end.

Lemma world_step_past w w' : world_step w w' → past_waiting w → past_waiting w'.
Proof.
  unfold past_waiting. intros [[]|[[]|[]]]; cbn in *; try done;
    match goal with H : at_ _ = _ |- _ => by rewrite ?H | _ => done end.
Qed.

Lemma waiting_reads t w :
  at_ w = Waits → file w = Some t → (∃ e, e ∈ events w ∧ attached e = true) →
  ∃ w', rtc ensure_step w w' ∧
    at_ w' = Returned (wrap "failed to unmarshal credentials: " (unmarshal t)).
Proof.
  remember (events w) as es eqn:He. revert w He.
  induction es as [|e es IH]; intros w He Hw Hf (e' & Hin & Ha); [by apply elem_of_nil in Hin|].
  destruct (attached e) eqn:Hae.
  - eexists. split; [eapply rtc_l; [by apply (sees_file e es)|]; by apply rtc_once, (reads t)|done].
  - apply elem_of_cons in Hin as [->|Hin]; [congruence|].
    destruct (IH (drop_event es w)) as (w' & Hr & Hat); [done..|by exists e'|].
    exists w'. split; [|done]. eapply rtc_l; [by apply (sees_other e es)|done].
Qed.

(** C26. A device that is attached while [EnsureCredentials] waits is noticed, when
    its path is written as the watcher writes it and the watcher has not failed: once
    the file is there, whatever else has happened in its directory, it can return,
    with what the file holds. *)
Theorem attachment_is_noticed t w0 w :
  named_alike → at_ w0 = Waits → file w0 = None →
  rtc world_step w0 w → at_ w = Waits → file w = Some t → silent w = false →
  ∃ w', rtc ensure_step w w' ∧
    at_ w' = Returned (wrap "failed to unmarshal credentials: " (unmarshal t)).
Proof.
  intros Hp Hw0 Hf0 Hr Hw Hf Hl. apply waiting_reads; [done..|].
  assert (noticing w0 ∧ past_waiting w0) as [Hn Hpast].
  { split; [by left|]. unfold past_waiting. by rewrite Hw0. }
  clear Hw0 Hf0. induction Hr as [w|w0 w1 w Hs _ IH].
  - destruct (Hn Hw Hl) as [|]; [congruence|done].
  - apply IH; [done..| |by eapply world_step_past].
    eapply world_step_noticing; [done|done| |done]. unfold past_waiting in Hpast.
    by intros Ha; rewrite Ha in Hpast.
Qed.

(** No file of the directory has the path for its name, as the watcher writes it. *)
Definition unseen : Prop := ∀ b, has_slash b = false → event_name b ≠ path.

Definition in_vain (w : world) : Prop :=
  (at_ w = Waits ∨ ∃ e, at_ w = Returned (Err e)) ∧ Forall (λ e, Name e ≠ path) (events w).

Lemma notify_unseen b op w :
  unseen → has_slash b = false → Forall (λ e, Name e ≠ path) (events w) →
  Forall (λ e, Name e ≠ path) (notify b op w).
Proof.
  intros Hu Hb Hev. unfold notify. destruct (at_ w); try done. destruct (silent w); [done|].
  apply Forall_app. split; [done|]. apply Forall_singleton. by apply Hu.
Qed.

Lemma world_step_in_vain w w' :
  unseen → has_slash (last_element path) = false → world_step w w' → in_vain w → in_vain w'.
Proof.
  intros Hu Hlast Hs. unfold in_vain, notify_file.
  destruct Hs as [[]|[[]|[]]]; intros [Ha Hev]; cbn in *; split; try done; try (by apply notify_unseen);
    try (by right; eexists); try (destruct Ha as [?|[??]]; congruence).
  - match goal with Hq : events _ = _, Ht : attached _ = true |- _ =>
      rewrite Hq in Hev; apply Forall_cons in Hev as [Hne _]; unfold attached in Ht;
      by rewrite bool_decide_eq_false_2 in Ht end.
  - match goal with Hq : events _ = _ |- _ => rewrite Hq in Hev end. by apply Forall_cons in Hev as [_ Hev].
  - match goal with Hq : events _ = _ |- _ => rewrite Hq in Hev end. by apply Forall_cons in Hev as [_ Hev].
Qed.

(** Then the device is never noticed: whatever is done to the file, the call ends with
    an error or not at all. *)
Theorem unclean_paths_are_not_noticed w0 w :
  unseen → has_slash (last_element path) = false → at_ w0 = Waits → events w0 = [] →
  rtc world_step w0 w → at_ w = Waits ∨ ∃ e, at_ w = Returned (Err e).
Proof.
  intros Hu Hlast Hw He Hr. assert (in_vain w0) as I by (unfold in_vain; rewrite He; by split; [left|]).
  clear Hw He. revert I. induction Hr as [w|w0 w1 w Hs _ IH]; [by intros []|].
  eauto using world_step_in_vain.
Qed.

(** Once the watcher has failed the device is not noticed either: the file is there,
    and the call waits until it is cancelled. *)
Theorem failed_watcher_is_not_noticed t :
  ∃ w, rtc world_step (EnsureCredentials None) w ∧
    at_ w = Waits ∧ file w = Some t ∧ ∀ w', ¬ ensure_step w w'.
Proof.
  eexists. split; [|split_and!].
  - eapply rtc_l; [by left; apply stat_misses|].
    eapply rtc_l; [by left; apply makes_dir|].
    eapply rtc_l; [by left; apply news_watcher|].
    eapply rtc_l; [by left; apply adds_dir|].
    eapply rtc_l; [right; right; apply watcher_fails|].
    eapply rtc_once. right; right; apply (moves_in t).
  - done.
  - done.
  - intros w' Hs. inversion Hs; subst; done.
Qed.

(** A device that is attached between the look for the file and the watching of
    its directory is not noticed: the file is there, with its credentials, and the
    call waits until something else happens. *)
Theorem early_attachment_is_missed t :
  ∃ w, rtc world_step (EnsureCredentials None) w ∧
    at_ w = Waits ∧ file w = Some t ∧ ∀ w', ¬ ensure_step w w'.
Proof.
  eexists. split; [|split_and!].
  - eapply rtc_l; [by left; apply stat_misses|].
    eapply rtc_l; [by left; apply makes_dir|].
    eapply rtc_l; [by left; apply news_watcher|].
    eapply rtc_l; [right; right; by apply creates|].
    eapply rtc_l; [right; right; by apply (writes t "")|].
    eapply rtc_once. by left; apply adds_dir.
  - done.
  - done.
  - intros w' Hs. inversion Hs; subst; done.
Qed.

(** The file is read as soon as it has been created, perhaps before it is written:
    the error then ends the call, although the credentials are on their way. *)
Theorem file_is_read_before_it_is_written e t :
  named_alike → unmarshal "" = Err e →
  ∃ w w', rtc world_step (EnsureCredentials None) w ∧
    at_ w = Returned (Err ("failed to unmarshal credentials: " +:+ e)) ∧
    outside_step w w' ∧ file w' = Some t.
Proof.
  intros Hp He. eexists _, _. split; [|split_and!].
  - eapply rtc_l; [by left; apply stat_misses|].
    eapply rtc_l; [by left; apply makes_dir|].
    eapply rtc_l; [by left; apply news_watcher|].
    eapply rtc_l; [by left; apply adds_dir|].
    eapply rtc_l; [right; right; by apply creates|].
    eapply rtc_l; [left; apply (sees_file (mkEvent (event_name (last_element path)) op_Create) []); [done..|]|].
    { apply attached_here; [done|]. by left. }
    eapply rtc_once. left. by apply (reads "").
  - cbn. by rewrite He.
  - by apply (writes t "").
  - done.
Qed.

End Credentials.

(** ** A sample device *)

(** The file holds the realm. *)
Definition sample_unmarshal (t : string) : result Credentials :=
  if bool_decide (t = "") then Err "unexpected end of JSON input"
  else Ok (mkCredentials t "device" "" "").
Definition sample_path : string := "/etc/device/credentials.json".

Example credentials_come_from_the_file_witness :
  ∃ t, t ∈ ["realm1"] ∧ sample_unmarshal t =
    Ok (mkCredentials "realm1" "device" "" "").
Proof.
  refine (credentials_come_from_the_file sample_unmarshal sample_path (Some "realm1")
    (goes (Returned (wrap "failed to unmarshal credentials: " (sample_unmarshal "realm1")))
      (goes Reads (EnsureCredentials (Some "realm1")))) _ _ _).
  - eapply rtc_l; [left; by apply (stat_finds _ _ "realm1")|].
    apply rtc_once. left. by apply (reads _ _ "realm1").
  - reflexivity.
Defined.

Definition waiting (f : option string) (es : list fs_event) : world := mkWorld Waits f es false [] false.

Lemma sample_path_named : named_alike sample_path.
Proof. by vm_compute. Qed.

Example attachment_is_noticed_witness :
  ∃ w', rtc (ensure_step sample_unmarshal sample_path)
      (mkWorld Waits (Some "") [mkEvent sample_path op_Create] false [""] false) w' ∧
    at_ w' = Returned (Err "failed to unmarshal credentials: unexpected end of JSON input").
Proof.
  refine (attachment_is_noticed sample_unmarshal sample_path "" (waiting None [])
    (mkWorld Waits (Some "") [mkEvent sample_path op_Create] false [""] false)
    sample_path_named eq_refl eq_refl _ eq_refl eq_refl eq_refl).
  apply rtc_once. right. right. by apply (creates sample_path (waiting None [])).
Defined.

(** A file of the working directory: its events are named "./credentials.json". *)
Lemma relative_path_unseen : unseen "credentials.json".
Proof. intros b _ Hb. by vm_compute in Hb. Qed.

Example unclean_paths_are_not_noticed_witness :
  let w := mkWorld Waits (Some "realm1") [mkEvent "./credentials.json" op_Create] false ["realm1"] false in
  at_ w = Waits ∨ ∃ e, at_ w = Returned (Err e).
Proof.
  refine (unclean_paths_are_not_noticed sample_unmarshal "credentials.json" (waiting None []) _
    relative_path_unseen eq_refl eq_refl eq_refl _).
  apply rtc_once. right. right. by apply (moves_in "credentials.json" "realm1" (waiting None [])).
Defined.

(** So is one whose directory is not written as [Clean] writes it. *)
Example doubled_slash_is_not_alike : ¬ named_alike "/etc//credentials.json".
Proof. by vm_compute. Qed.

Example file_is_read_before_it_is_written_witness :
  ∃ w w', rtc (world_step sample_unmarshal sample_path) (EnsureCredentials None) w ∧
    at_ w = Returned (Err ("failed to unmarshal credentials: " +:+ "unexpected end of JSON input")) ∧
    outside_step sample_path w w' ∧ file w' = Some "realm1".
Proof. apply (file_is_read_before_it_is_written sample_unmarshal sample_path _ "realm1"); [exact sample_path_named|reflexivity]. Defined.

End Ensure.
