(* ===== verification/Dialing.v ===== *)
(** * Dialing and upgrading (client.go, joiner.go, acceptor.go, quic.go,
    webtransport.go)

    Which connection a client dials for a URI, the raw-socket handshake byte by
    byte at both ends, the subprotocol that the two ends of a WebSocket take, and
    what happens to a QUIC connection when a session cannot be opened on it.  The
    sessions on its streams are in MuxSessions.
    Dialing itself, TLS and the HTTP upgrade are arguments. *)

From S2P Require Import Prelude GoStd GoPath Wamp Peers Acceptor Relay.

Local Open Scope string_scope.

(** [u.Scheme], [u.Host] and [u.Path] of a parsed URL. *)
Record URL := { Scheme : string; URL_Host : string; Path : string }.

(** ** A stream of bytes, as the calls of [Read] deliver it *)

(** What is still to arrive: a read takes bytes of the first segment only; after
    the last one it waits. *)
Record stream := mkStream { segments : list (result string); output : string }.

(** The first [n] bytes of a segment, and the others. *)
Fixpoint cut (n : nat) (s : string) : string * string :=
  match n, s with
  | S n, String c s => let '(a, b) := cut n s in (String c a, b)
  | _, _ => ("", s)
  end.

Definition put_back (s : string) (segs : list (result string)) : list (result string) :=
  match s with EmptyString => segs | _ => Ok s :: segs end.

(** [conn.Read(b)] with [len(b) = n]: the bytes that it wrote to [b]. *)
Definition conn_Read (n : nat) : M stream string := λ c,
  match segments c with
  | [] => (c, Blocks)
  | Err e :: _ => (c, Fail e)
  | Ok s :: segs =>
      let '(a, b) := cut n s in (mkStream (put_back b segs) (output c), Val a)
  end.

Definition conn_Write (p : string) : M stream unit := λ c,
  (mkStream (segments c) (output c +:+ p), Val tt).

Fixpoint zero_bytes (n : nat) : string :=
  match n with O => "" | S n => String (ascii_of_nat 0) (zero_bytes n) end.

(** [b := make([]byte, n); conn.Read(b)]: a short read leaves zeros. *)
Definition read_buffer (n : nat) : M stream string :=
  a ← conn_Read n; mret (a +:+ zero_bytes (n - String.length a)).

(** [io.ReadFull(conn, b)]; each read takes at least a byte, or nothing of an
    empty segment. *)
Fixpoint read_full (n : nat) (segs : list (result string)) (got : string)
    : list (result string) * exec string :=
  match n with
  | O => (segs, Val got)
  | _ =>
      match segs with
      | [] => (segs, Blocks)
      | Err e :: _ =>
          (segs, Fail (if bool_decide (e = EOF ∧ got ≠ "") then ErrUnexpectedEOF else e))
      | Ok s :: segs =>
          let '(a, b) := cut n s in
          match b with
          | EmptyString => read_full (n - String.length a) segs (got +:+ a)
          | _ => (Ok b :: segs, Val (got +:+ a))
          end
      end
  end.
Definition ReadFull_conn (n : nat) : M stream string := λ c,
  let '(segs, r) := read_full n (segments c) "" in (mkStream segs (output c), r).

(** ** The handshake of the raw-socket transport *)

(** transports of wampproto-go *)
Class RawSocketHandshake := {
  Handshake : Type;
  NewHandshake : Z → Z → Handshake;
  Handshake_Serializer : Handshake → Z;
  SendHandshake : Handshake → result string;
  ReceiveHandshake : string → result Handshake;
  DefaultMaxMsgSize : Z;
  ProtocolMaxMsgSize : Z;
}.

(** The WAMP specification: a handshake is four bytes, from which it can be read
    back; a handshake carries the serializer it was made with. *)
Class RawSocketHandshakeOk `{RawSocketHandshake} : Prop := {
  NewHandshake_Serializer s n : Handshake_Serializer (NewHandshake s n) = s;
  Handshake_length h b : SendHandshake h = Ok b → String.length b = 4%nat;
  Handshake_roundtrip h b : SendHandshake h = Ok b → ReceiveHandshake b = Ok h;
}.

Section Handshakes.
Context `{RawSocketHandshake}.

(** [UpgradeRawSocket], with the [OutQueueSize] of its configuration. *)
Definition UpgradeRawSocket (outQueueSize : nat) : M stream (Peer * Z) :=
  handshakeRequestRaw ← read_buffer 4;
  handshakeRequest ← of_result (ReceiveHandshake handshakeRequestRaw);
  let handshakeResponse := NewHandshake (Handshake_Serializer handshakeRequest) ProtocolMaxMsgSize in
  handshakeResponseRaw ← of_result (SendHandshake handshakeResponse);
  conn_Write handshakeResponseRaw;;
  mret (NewRawSocketPeer (server_queue_size outQueueSize), Handshake_Serializer handshakeRequest).

(** [DialRawSocket], once it is connected. *)
Definition DialRawSocket_handshake (serializer : Z) (outQueueSize : nat) : M stream Peer :=
  headerRaw ← of_result (SendHandshake (NewHandshake serializer DefaultMaxMsgSize));
  conn_Write headerRaw;;
  responseHeader ← read_buffer 4;
  of_result (ReceiveHandshake responseHeader);;
  mret (NewRawSocketPeer outQueueSize).

(** [rawSocketClientHandshake] of quic.go *)
Definition rawSocketClientHandshake (serializer : Z) (outQueueSize : nat) : M stream Peer :=
  headerRaw ← of_result (wrap "failed to build handshake: "
    (SendHandshake (NewHandshake serializer DefaultMaxMsgSize)));
  conn_Write headerRaw;;
  responseHeader ← (r ← try (ReadFull_conn 4); of_result (wrap "failed to read handshake response: " r));
  of_result (wrap "failed to parse handshake response: " (ReceiveHandshake responseHeader));;
  mret (NewRawSocketPeer
    (if bool_decide (outQueueSize = 0%nat) then ClientOutQueueSizeDefault else outQueueSize)).

End Handshakes.

(** ** The subprotocol of a WebSocket *)

Definition wsProtocols : list string :=
  [CborWebsocketProtocol; MsgpackWebsocketProtocol; JsonWebsocketProtocol].
Definition compiledWSProtocols : list string :=
  [JsonWebsocketProtocol; MsgpackWebsocketProtocol; CborWebsocketProtocol].

Record WSPeerConfig := {
  Protocol : string; Binary : bool; Server_ : bool;
  KeepAliveInterval : Z; KeepAliveTimeout : Z; OutQueueSize_ : nat }.

Record WebSocketServerConfig := {
  SubProtocols : list string; ws_KeepAliveInterval : Z; ws_KeepAliveTimeout : Z;
  ws_OutQueueSize : nat }.
Definition DefaultWebSocketServerConfig : WebSocketServerConfig :=
  {| SubProtocols := compiledWSProtocols; ws_KeepAliveInterval := 0; ws_KeepAliveTimeout := 0;
     ws_OutQueueSize := 0 |}.

(** How a client connects: through the dialer of its library, to a Unix socket,
    or with the function it was given, a number. *)
Inductive net_dial := DefaultDial | UnixDial (path : string) | CustomDial (f : nat).
Record ws_request := {
  wr_url : URL; wr_protocols : list string; wr_timeout : Z; wr_NetDial : net_dial }.

Record WSDialerConfig := {
  wd_SubProtocols : list string; wd_DialTimeout : Z; wd_NetDial : option nat;
  wd_KeepAliveInterval : Z; wd_KeepAliveTimeout : Z; wd_OutQueueSize : nat }.

(** gobwas/ws, a third-party package.  [Upgrade]: what a server negotiates with a
    request that offers these subprotocols; [ws_Dial]: the subprotocol in the
    answer to a request, and what is read after it. *)
Class WebSockets := {
  Upgrade : list string → (string → bool) → result string;
  ws_Dial : ws_request → result (string * list (result string)) }.

(** Its documentation: the first subprotocol that the server accepts is sent, and
    none when there is none; a client refuses one that it did not offer. *)
Class WebSocketsOk `{WebSockets} : Prop := {
  Upgrade_chooses offered accept p : Upgrade offered accept = Ok p →
    p = "" ∨ (p ∈ offered ∧ accept p = true);
  Dial_offered q p rs : ws_Dial q = Ok (p, rs) → p = "" ∨ p ∈ wr_protocols q;
}.

Definition accepts_protocol (config : option WebSocketServerConfig) (p : string) : bool :=
  bool_decide (p ∈ match config with
                   | None => compiledWSProtocols
                   | Some c => SubProtocols c
                   end).

Section WebSocket.
Context `{WebSockets}.

(** [UpgradeWebSocket] on a request that offers these subprotocols; a nil
    configuration is dereferenced after the upgrade. *)
Definition UpgradeWebSocket (offered : list string) (config : option WebSocketServerConfig)
    : outcome (result (Peer * WSPeerConfig)) :=
  match Upgrade offered (accepts_protocol config) with
  | Err e => Returns (Err ("failed to upgrade to websocket: " +:+ e))
  | Ok protocol =>
      match config with
      | None => Panics "invalid memory address or nil pointer dereference"
      | Some c =>
          let size := server_queue_size (ws_OutQueueSize c) in
          Returns (Ok (NewWebSocketPeer size,
            {| Protocol := protocol; Binary := negb (bool_decide (protocol = JsonWebsocketProtocol));
               Server_ := true; KeepAliveInterval := ws_KeepAliveInterval c;
               KeepAliveTimeout := ws_KeepAliveTimeout c; OutQueueSize_ := size |}))
      end
  end.

Definition ws_config (config : option WSDialerConfig) : WSDialerConfig :=
  default {| wd_SubProtocols := wsProtocols; wd_DialTimeout := 0; wd_NetDial := None;
             wd_KeepAliveInterval := 0; wd_KeepAliveTimeout := 0; wd_OutQueueSize := 0 |} config.

(** The request that [DialWebSocket] makes. *)
Definition ws_dialed (url : URL) (config : WSDialerConfig) : ws_request :=
  let timeout :=
    if bool_decide (wd_DialTimeout config = 0)%Z then (Second * 10)%Z else wd_DialTimeout config in
  match wd_NetDial config with
  | Some f => {| wr_url := url; wr_protocols := wd_SubProtocols config; wr_timeout := timeout;
                 wr_NetDial := CustomDial f |}
  | None =>
      if bool_decide (Scheme url = "unix+ws") then
        {| wr_url := {| Scheme := "ws"; URL_Host := "unix"; Path := Path url |};
           wr_protocols := wd_SubProtocols config; wr_timeout := timeout;
           wr_NetDial := UnixDial (Path url) |}
      else {| wr_url := url; wr_protocols := wd_SubProtocols config; wr_timeout := timeout;
              wr_NetDial := DefaultDial |}
  end.

Definition DialWebSocket (url : URL) (config : option WSDialerConfig)
    : result (Peer * WSPeerConfig * list (result string)) :=
  let config := ws_config config in
  rmap (λ r : string * list (result string),
    (NewWebSocketPeer (wd_OutQueueSize config),
     {| Protocol := r.1; Binary := negb (bool_decide (r.1 = JsonWebsocketProtocol));
        Server_ := false; KeepAliveInterval := wd_KeepAliveInterval config;
        KeepAliveTimeout := wd_KeepAliveTimeout config; OutQueueSize_ := wd_OutQueueSize config |},
     r.2)) (ws_Dial (ws_dialed url config)).

End WebSocket.

(** ** Clients *)

Section Client.
Context `{WampHandshake} `{RawSocketHandshake} `{WebSockets}.

(** The authenticators of wampproto-go. *)
Class ClientAuths := {
  NewAnonymousAuthenticator : string → ClientAuthenticator;
  NewTicketAuthenticator : string → string → ClientAuthenticator;
  NewWAMPCRAAuthenticator : string → string → ClientAuthenticator;
  NewCryptoSignAuthenticator : string → string → result ClientAuthenticator }.

Record Client := mkClient {
  Authenticator : option ClientAuthenticator;
  SerializerSpec_ : option SerializerSpec;
  NetDial : option nat;
  DialTimeout : Z;
  cl_KeepAliveInterval : Z;
  cl_KeepAliveTimeout : Z;
  cl_OutQueueSize : nat }.

Definition JSONSerializerSpec : SerializerSpec :=
  NewSerializerSpec JsonWebsocketProtocol JSONSerializer JsonSerializerID.
Definition CBORSerializerSpec : SerializerSpec :=
  NewSerializerSpec CborWebsocketProtocol CBORSerializer CborSerializerID.
Definition MsgPackSerializerSpec : SerializerSpec :=
  NewSerializerSpec MsgpackWebsocketProtocol Wamp.MsgPackSerializer MsgPackSerializerID.

(** What a client dialed: a WebSocket, or a plain connection. *)
Inductive dial := WsDialed (q : ws_request) | NetDialed (network address : string).

Record ClientW := mkClientW { client : Client; dials : list dial }.

Record joined := { j_peer : Peer; j_details : details; j_serializer : Serializer }.

(** [url.Parse]; [net.Dialer.DialContext]; what [Read] of a raw-socket peer makes
    of a stream; [Join] with a nil serializer, which wampproto-go gets. *)
Context `{ClientAuths} (parse : string → result URL) (net_Dial : string → string → result stream)
  (frames : list (result string) → list (result string))
  (join_nil : string → ClientAuthenticator → list (result string) → M Peer (details * list (result string))).

Definition add_dial (d : dial) : M ClientW unit :=
  modify (λ w, mkClientW (client w) (dials w ++ [d])%list).

(** [Join] on a new peer, and the session it gives. *)
Definition join_peer (s : Serializer) (m : M Peer (details * list (result string))) (p : Peer)
    : M ClientW joined :=
  match m p with
  | (p, Val (d, _)) => mret {| j_peer := p; j_details := d; j_serializer := s |}
  | (_, Fail e) => fail e
  | (_, Crash why) => crash why
  | (_, Blocks) => λ w, (w, Blocks)
  end.

Definition joiner_authenticator (a : option ClientAuthenticator) : ClientAuthenticator :=
  default (NewAnonymousAuthenticator "") a.

Definition WebSocketJoiner_Join (spec : option SerializerSpec) (a : option ClientAuthenticator)
    (url realm : string) (config : option WSDialerConfig) : M ClientW joined :=
  parsedURL ← of_result (parse url);
  add_dial (WsDialed (ws_dialed parsedURL (ws_config config)));;
  dialed ← of_result (DialWebSocket parsedURL config);
  let '(peer, pc, rs) := dialed in
  let serializer :=
    match spec with
    | Some spec => Some (spec_Serializer spec)
    | None => SerializersByWSSubProtocol !! Protocol pc
    end in
  match serializer with
  | Some s => join_peer s (Join realm s (joiner_authenticator a) rs) peer
  | None => join_peer JSONSerializer (join_nil realm (joiner_authenticator a) rs) peer
  end.

(** [DialRawSocket] dials the scheme's network whatever the configuration says. *)
Definition rs_address (url : URL) : string * string :=
  if bool_decide (Scheme url = "unix" ∨ Scheme url = "unix+rs") then ("unix", Path url)
  else ("tcp", URL_Host url).

Record RawSocketDialerConfig := {
  rd_Serializer : Z; rd_NetDial : option nat; rd_DialTimeout : Z;
  rd_KeepAliveInterval : Z; rd_KeepAliveTimeout : Z; rd_OutQueueSize : nat }.

Definition RawSocketJoiner_Join (spec : SerializerSpec) (a : option ClientAuthenticator)
    (uri realm : string) (config : RawSocketDialerConfig) : M ClientW joined :=
  parsedURL ← of_result (parse uri);
  let '(network, address) := rs_address parsedURL in
  add_dial (NetDialed network address);;
  conn ← of_result (net_Dial network address);
  match DialRawSocket_handshake (rd_Serializer config) (rd_OutQueueSize config) conn with
  | (conn, Val peer) =>
      join_peer (spec_Serializer spec)
        (Join realm (spec_Serializer spec) (joiner_authenticator a) (frames (segments conn))) peer
  | (_, Fail e) => fail e
  | (_, Crash why) => crash why
  | (_, Blocks) => λ w, (w, Blocks)
  end.

Definition has_scheme (uri : string) (schemes : list string) : bool :=
  existsb (λ s, HasPrefix uri (s +:+ "://")) schemes.

Definition set_spec (s : SerializerSpec) (c : Client) : Client :=
  mkClient (Authenticator c) (Some s) (NetDial c) (DialTimeout c) (cl_KeepAliveInterval c)
    (cl_KeepAliveTimeout c) (cl_OutQueueSize c).

Definition Connect (uri realm : string) : M ClientW joined :=
  c ← get client;
  if has_scheme uri ["ws"; "wss"; "unix+ws"] then
    let subprotocols :=
      match SerializerSpec_ c with Some s => [SubProtocol s] | None => wsProtocols end in
    WebSocketJoiner_Join (SerializerSpec_ c) (Authenticator c) uri realm
      (Some {| wd_SubProtocols := subprotocols; wd_DialTimeout := DialTimeout c;
               wd_NetDial := NetDial c; wd_KeepAliveInterval := cl_KeepAliveInterval c;
               wd_KeepAliveTimeout := cl_KeepAliveTimeout c;
               wd_OutQueueSize := cl_OutQueueSize c |})
  else if has_scheme uri ["rs"; "rss"; "unix"; "unix+rs"] then
    let spec := default CBORSerializerSpec (SerializerSpec_ c) in
    modify (λ w, mkClientW (set_spec spec (client w)) (dials w));;
    RawSocketJoiner_Join spec (Authenticator c) uri realm
      {| rd_Serializer := SerializerID spec; rd_NetDial := NetDial c;
         rd_DialTimeout := DialTimeout c; rd_KeepAliveInterval := cl_KeepAliveInterval c;
         rd_KeepAliveTimeout := cl_KeepAliveTimeout c; rd_OutQueueSize := cl_OutQueueSize c |}
  else fail ("unsupported protocol: " +:+ uri).

(** [connect] and the functions that call it, on a client of their own. *)
Definition connect (uri realm : string) (a : option ClientAuthenticator) : exec joined :=
  (Connect uri realm (mkClientW (mkClient a None None 0 0 0 0) [])).2.

Definition ConnectAnonymous (uri realm : string) : exec joined := connect uri realm None.
Definition ConnectTicket (uri realm authid ticket : string) : exec joined :=
  connect uri realm (Some (NewTicketAuthenticator authid ticket)).
Definition ConnectCRA (uri realm authid secret : string) : exec joined :=
  connect uri realm (Some (NewWAMPCRAAuthenticator authid secret)).
Definition ConnectCryptosign (uri realm authid privateKey : string) : exec joined :=
  match NewCryptoSignAuthenticator authid privateKey with
  | Err e => Fail e
  | Ok a => connect uri realm (Some a)
  end.

End Client.
Arguments ClientAuths {_ _ _}.

(** ** Sessions over QUIC and WebTransport *)

Section Multiplexed.
Context `{WampHandshake} `{RawSocketHandshake} `{!ClientAuths}.

(** [TransportDialerConfig]: what the two dialer configurations have in common. *)
Record DialerConfig := mkDialer {
  dc_SerializerSpec : option SerializerSpec;
  dc_Authenticator : option ClientAuthenticator;
  dc_OutQueueSize : nat }.
Definition zero_config : DialerConfig := mkDialer None None 0.

(** The connections and the streams, with their connections, that are open. *)
Record links := mkLinks { open_conns : gset nat; open_streams : gmap nat nat; next_link : nat }.

Definition new_conn (r : result unit) : M links nat :=
  of_result r;;
  ((λ w, (mkLinks ({[next_link w]} ∪ open_conns w) (open_streams w) (S (next_link w)),
          Val (next_link w))) : M links nat).

(** Closing a connection closes its streams. *)
Definition close_conn (c : nat) : M links unit :=
  modify (λ w, mkLinks (open_conns w ∖ {[c]}) (filter (λ e, e.2 ≠ c) (open_streams w)) (next_link w)).

Definition OpenStreamSync (c : nat) (r : result unit) : M links nat :=
  of_result r;;
  ((λ w, (mkLinks (open_conns w) (<[next_link w := c]> (open_streams w)) (S (next_link w)),
          Val (next_link w))) : M links nat).

Record mux_session := {
  ms_conn : nat; ms_stream : nat; ms_peer : Peer; ms_details : details; ms_serializer : Serializer }.

Context (frames : list (result string) → list (result string)).

(** [config == nil], then the fields that are nil. *)
Definition fill_config (config : option DialerConfig) : SerializerSpec * ClientAuthenticator * nat :=
  let c := default zero_config config in
  (default CBORSerializerSpec (dc_SerializerSpec c),
   default (NewAnonymousAuthenticator "") (dc_Authenticator c), dc_OutQueueSize c).

(** [openQUICSession] and [openWebTransportSession] on the connection [c], which
    differ in [name], the word in an error: [opened] is what opening a stream
    gives, [s] what the stream then carries. *)
Definition open_session (name : string) (c : nat) (opened : result unit) (s : stream)
    (realm : string) (config : option DialerConfig) : M links mux_session :=
  let '(spec, authenticator, size) := fill_config config in
  i ← OpenStreamSync c (wrap ("failed to open " +:+ name +:+ " stream: ") opened);
  match rawSocketClientHandshake (SerializerID spec) size s with
  | (s, Val peer) =>
      match Join realm (spec_Serializer spec) authenticator (frames (segments s)) peer with
      | (peer, Val (d, _)) =>
          mret {| ms_conn := c; ms_stream := i; ms_peer := peer; ms_details := d;
                  ms_serializer := spec_Serializer spec |}
      | (_, Fail e) => fail e
      | (_, Crash why) => crash why
      | (_, Blocks) => λ w, (w, Blocks)
      end
  | (_, Fail e) => fail e
  | (_, Crash why) => crash why
  | (_, Blocks) => λ w, (w, Blocks)
  end.

Definition openQUICSession := open_session "WAMP".
Definition openWebTransportSession := open_session "WebTransport".

(** [ConnectQUIC] and [ConnectWebTransport]: [dialed] is what dialing gives. *)
Definition connect_mux (name : string) (dialed opened : result unit) (s : stream)
    (realm : string) (config : option DialerConfig) : M links mux_session :=
  c ← new_conn dialed;
  r ← try (open_session name c opened s realm config);
  match r with
  | Err e => close_conn c;; fail e
  | Ok sess => mret sess
  end.

Definition ConnectQUIC (address : string) (dialed : result unit) :=
  connect_mux "WAMP" (wrap ("failed to dial " +:+ address +:+ ": ") dialed).
Definition ConnectWebTransport (dialed : result unit) :=
  connect_mux "WebTransport" (wrap "failed to dial WebTransport: " dialed).

(** [QUICSession.OpenSession] and that of WebTransport. *)
Definition OpenSession (name : string) (sess : mux_session) (opened : result unit) (s : stream)
    (realm : string) (config : option DialerConfig) : M links mux_session :=
  open_session name (ms_conn sess) opened s realm config.

(** The TLS configuration that [ConnectQUIC] dials with: its protocols. *)
Definition quic_protos (tls : option (list string)) : list string :=
  match tls with
  | None => ["wamp.2.quic"]
  | Some ps => if bool_decide ("wamp.2.quic" ∈ ps) then ps else (ps ++ ["wamp.2.quic"])%list
  end.

(** [OpenRawStream] of a QUIC connection; [AcceptRawStream], which waits for the
    other side to open one. *)
Definition OpenRawStream (c : nat) (r : result unit) : M links nat :=
  OpenStreamSync c (wrap "failed to open quic stream: " r).
Definition AcceptRawStream (c : nat) (r : result unit) : M links nat :=
  OpenStreamSync c (wrap "failed to accept quic stream: " r).
Definition QUICSession_OpenStream (sess : mux_session) := OpenRawStream (ms_conn sess).
Definition QUICSession_AcceptStream (sess : mux_session) := AcceptRawStream (ms_conn sess).
Definition WebTransportSession_OpenStream (sess : mux_session) (r : result unit) : M links nat :=
  OpenStreamSync (ms_conn sess) (wrap "failed to open WebTransport stream: " r).
Definition WebTransportSession_AcceptStream (sess : mux_session) (r : result unit) : M links nat :=
  OpenStreamSync (ms_conn sess) (wrap "failed to accept WebTransport stream: " r).

(** [QUICConn.Close] *)
Definition QUICConn_Close (c : nat) : M links unit := close_conn c.

End Multiplexed.

(** ** The raw-socket handshake *)

#[local] Arguments String.append : simpl nomatch.

Lemma cut_all s : cut (String.length s) s = (s, "").
Proof. induction s as [|c s IH]; simpl; [done|]. by rewrite IH. Qed.

Lemma cut_app n s : ∃ a b, cut n s = (a, b) ∧ s = a +:+ b ∧ (String.length a ≤ n)%nat ∧
  (b = "" ∨ String.length a = n).
Proof.
  revert s. induction n as [|n IH]; intros s.
  - exists "", s. split_and!; [by destruct s|done|simpl; lia|by right].
  - destruct s as [|c s]; [exists "", ""; split_and!; [done|done|simpl; lia|by left]|].
    destruct (IH s) as (a & b & Hc & -> & Hl & Hb). exists (String c a), b. simpl. rewrite Hc.
    split_and!; [done|done|lia|]. destruct Hb as [->|<-]; [by left|by right].
Qed.

(** What segments without an error carry. *)
Fixpoint text (segs : list string) : string :=
  match segs with [] => "" | s :: segs => s +:+ text segs end.

Lemma append_length_cancel a b c d :
  a +:+ b = c +:+ d → String.length a = String.length c → a = c ∧ b = d.
Proof.
  revert c. induction a as [|x a IH]; intros [|y c]; simpl; try lia; [done|].
  intros [= -> H1] [= H2]. destruct (IH c H1 H2) as [-> ->]. done.
Qed.

(** [io.ReadFull] takes its bytes however they arrive. *)
Lemma read_full_text segs p q got :
  text segs = p +:+ q →
  ∃ segs', read_full (String.length p) (map Ok segs) got = (map Ok segs', Val (got +:+ p)) ∧
    text segs' = q.
Proof.
  revert p got. induction segs as [|s segs IH]; intros p got Ht.
  - destruct p; [|done]. simpl in *. exists []. by rewrite string_app_nil_r.
  - destruct p as [|c p]; [exists (s :: segs); simpl; by rewrite string_app_nil_r|].
    remember (String c p) as pp eqn:Hpp. destruct (String.length pp) as [|n] eqn:Hn; [by subst|].
    cbn [map read_full]. destruct (cut_app (S n) s) as (a & b & Hc & -> & Hl & Hb). rewrite Hc.
    destruct b as [|x b].
    + rewrite string_app_nil_r in Ht. simpl in Ht.
      assert (∃ p', pp = a +:+ p') as [p' Hp'].
      { clear -Ht Hl Hn. rewrite <-Hn in Hl. clear Hn. revert pp Ht Hl.
        induction a as [|y a IHa]; intros pp Ht Hl; [by exists pp|].
        destruct pp as [|z pp]; simpl in *; [lia|]. injection Ht as -> Ht.
        destruct (IHa pp Ht) as [p' ->]; [lia|]. by exists p'. }
      subst pp. rewrite Hp' in *. rewrite string_app_assoc in Ht.
      apply append_length_cancel in Ht as [_ Ht]; [|done].
      destruct (IH p' (got +:+ a) Ht) as (segs' & Hr & Hs').
      rewrite string_length_app in Hn.
      replace (S n - String.length a)%nat with (String.length p') by lia.
      exists segs'. rewrite Hr. by rewrite string_app_assoc.
    + destruct Hb as [|Ha]; [done|].
      assert (a = pp ∧ String x b +:+ text segs = q) as [-> <-].
      { apply append_length_cancel; [|lia]. by rewrite <-Ht, <-string_app_assoc. }
      exists (String x b :: segs). done.
Qed.

Section HandshakeSpec.
Context `{RawSocketHandshakeOk}.

Lemma read_buffer_whole b rest out :
  String.length b = 4%nat →
  read_buffer 4 (mkStream (Ok b :: rest) out) = (mkStream rest out, Val b).
Proof.
  intros Hb. unfold read_buffer, conn_Read, mbind, M_bind. cbn [segments].
  rewrite <-Hb, cut_all. cbn. unfold mret, M_ret. by rewrite Nat.sub_diag, string_app_nil_r.
Qed.

Lemma peer_default m :
  NewRawSocketPeer (if bool_decide (m = 0%nat) then ClientOutQueueSizeDefault else m) =
  NewRawSocketPeer m.
Proof. by destruct m. Qed.

(** C11. The two ends of a raw-socket connection agree: from what the client sends
    the server takes the serializer that the client asked for, each end accepts
    what the other sent, and nothing that follows is lost.  The server and a client of
    [DialRawSocket] do so when the four bytes arrive in one piece (otherwise see
    [split_handshake_leaves_its_end]), [rawSocketClientHandshake] in whatever pieces
    the answer arrives. *)
Theorem raw_handshake_agrees serializer n m request response rest_s segs rest :
  SendHandshake (NewHandshake serializer DefaultMaxMsgSize) = Ok request →
  SendHandshake (NewHandshake serializer ProtocolMaxMsgSize) = Ok response →
  text segs = response +:+ rest →
  UpgradeRawSocket n (mkStream (Ok request :: rest_s) "") =
    (mkStream rest_s response, Val (NewRawSocketPeer (server_queue_size n), serializer)) ∧
  DialRawSocket_handshake serializer m (mkStream (Ok response :: rest_s) "") =
    (mkStream rest_s request, Val (NewRawSocketPeer m)) ∧
  ∃ segs', rawSocketClientHandshake serializer m (mkStream (map Ok segs) "") =
    (mkStream (map Ok segs') request, Val (NewRawSocketPeer m)) ∧ text segs' = rest.
Proof.
  intros Hreq Hresp Ht.
  pose proof (Handshake_length _ _ Hreq) as Hlreq. pose proof (Handshake_length _ _ Hresp) as Hlresp.
  split_and!.
  - unfold UpgradeRawSocket. erewrite bind_Val by (by apply read_buffer_whole).
    rewrite (Handshake_roundtrip _ _ Hreq). erewrite bind_Val by done.
    rewrite NewHandshake_Serializer, Hresp. by erewrite bind_Val by done.
  - unfold DialRawSocket_handshake. rewrite Hreq. erewrite bind_Val by done.
    erewrite bind_Val by done. cbn [segments output].
    erewrite bind_Val by (by apply read_buffer_whole). rewrite (Handshake_roundtrip _ _ Hresp).
    by erewrite bind_Val.
  - destruct (read_full_text segs response rest "" Ht) as (segs' & Hr & Hs'). exists segs'.
    split; [|done]. unfold rawSocketClientHandshake. rewrite Hreq. cbn [wrap].
    erewrite bind_Val by done. erewrite bind_Val by done. cbn [segments output].
    rewrite Hlresp in Hr. change ("" +:+ response) with response in Hr. erewrite bind_Val.
    2: { unfold ReadFull_conn, try, mbind, M_bind. cbn [segments output]. rewrite Hr. reflexivity. }
    rewrite (Handshake_roundtrip _ _ Hresp). cbn [wrap]. erewrite bind_Val by done.
    by rewrite peer_default.
Qed.

Lemma zero_bytes_length k : String.length (zero_bytes k) = k.
Proof. induction k; simpl; congruence. Qed.

(** A server, and a client of [DialRawSocket], read the handshake with one call:
    when its zero bytes arrive later, they accept it and take these for the
    header of the first message. *)
Theorem split_handshake_leaves_its_end a k request h n rest response :
  request = a +:+ zero_bytes k → String.length request = 4%nat → (0 < k < 4)%nat →
  ReceiveHandshake request = Ok h →
  SendHandshake (NewHandshake (Handshake_Serializer h) ProtocolMaxMsgSize) = Ok response →
  UpgradeRawSocket n (mkStream (Ok a :: Ok (zero_bytes k) :: rest) "") =
    (mkStream (Ok (zero_bytes k) :: rest) response,
     Val (NewRawSocketPeer (server_queue_size n), Handshake_Serializer h)).
Proof.
  intros -> Hl Hk Hh Hresp. rewrite string_length_app, zero_bytes_length in Hl.
  unfold UpgradeRawSocket. erewrite bind_Val.
  2: { unfold read_buffer, conn_Read, mbind, M_bind. cbn [segments].
       destruct (cut_app 4 a) as (x & y & Hc & Ha & Hx & Hy). rewrite Hc.
       assert (y = "") as ->.
       { destruct Hy as [|Hx4]; [done|]. rewrite Ha, string_length_app in Hl.
         destruct y; [done|simpl in Hl; lia]. }
       rewrite string_app_nil_r in Ha. subst x. simpl. reflexivity. }
  cbn [output]. replace (4 - String.length a)%nat with k by lia.
  rewrite Hh. erewrite bind_Val by done. rewrite Hresp. by erewrite bind_Val by done.
Qed.

(** A client takes any answer of the server for its own serializer. *)
Theorem answer_serializer_is_ignored serializer h m request b rest :
  SendHandshake (NewHandshake serializer DefaultMaxMsgSize) = Ok request →
  String.length b = 4%nat → ReceiveHandshake b = Ok h → Handshake_Serializer h ≠ serializer →
  DialRawSocket_handshake serializer m (mkStream (Ok b :: rest) "") =
    (mkStream rest request, Val (NewRawSocketPeer m)).
Proof.
  intros Hreq Hb Hh _. unfold DialRawSocket_handshake. rewrite Hreq. erewrite bind_Val by done.
  erewrite bind_Val by done. cbn [segments output].
  erewrite bind_Val by (by apply read_buffer_whole). rewrite Hh. by erewrite bind_Val.
Qed.

End HandshakeSpec.

(** ** The subprotocol of a WebSocket *)

Section WebSocketSpec.
Context `{WampSerializers} `{WebSocketsOk}.

(** The subprotocols that a client offers, and the serializer that it then uses:
    those of its specification, or the three that the package knows. *)
Definition offered_by (spec : option SerializerSpec) : list string :=
  match spec with Some s => [SubProtocol s] | None => wsProtocols end.
Definition client_serializer (spec : option SerializerSpec) (protocol : string) : option Serializer :=
  match spec with
  | Some s => Some (spec_Serializer s)
  | None => SerializersByWSSubProtocol !! protocol
  end.

(** [UpgradeAndReadHello] accepts the subprotocols of its table. *)
Definition acceptor_config (w : nat) (r : registries) (c : WebSocketServerConfig)
    : WebSocketServerConfig :=
  {| SubProtocols := map fst (map_to_list (specs_of w r));
     ws_KeepAliveInterval := ws_KeepAliveInterval c; ws_KeepAliveTimeout := ws_KeepAliveTimeout c;
     ws_OutQueueSize := ws_OutQueueSize c |}.

Lemma accepts_registered w r c p :
  accepts_protocol (Some (acceptor_config w r c)) p = true ↔ is_Some (specs_of w r !! p).
Proof.
  unfold accepts_protocol, acceptor_config. rewrite bool_decide_eq_true. simpl.
  rewrite list_elem_of_fmap. split.
  - intros ([q s] & -> & Hq). exists s. by apply elem_of_map_to_list.
  - intros [s Hs]. exists (p, s). split; [done|]. by apply elem_of_map_to_list.
Qed.

(** Registering a serializer keeps the ones that are there. *)
Lemma registered_stay w w' spec r r' v :
  WebSocketAcceptor_RegisterSpec w' spec r = (r', v) → specs_of w r ⊆ specs_of w r'.
Proof.
  unfold WebSocketAcceptor_RegisterSpec, mbind, M_bind, get.
  destruct (specs_of w' r !! SubProtocol spec) as [s|] eqn:Hs; [by intros [= <- _]|].
  intros [= <- _]. unfold specs_of in *. simpl. destruct (decide (w' = w)) as [->|Hne].
  - rewrite lookup_insert_eq. simpl. by apply insert_subseteq.
  - by rewrite lookup_insert_ne.
Qed.

(** When a WebSocket has a subprotocol, both ends speak it: the server has a
    serializer for it, the one that the client uses, and both agree on text or
    binary messages; a client that brought its own serializer must find it
    registered.  Without a subprotocol the server refuses the client. *)
Theorem websocket_ends_agree spec w r c peer pc :
  SerializersByWSSubProtocol ⊆ specs_of w r →
  (∀ s, spec = Some s → SubProtocol s ≠ "" ∧
     ∀ z, specs_of w r !! SubProtocol s = Some z → z = spec_Serializer s) →
  specs_of w r !! "" = None →
  UpgradeWebSocket (offered_by spec) (Some (acceptor_config w r c)) = Returns (Ok (peer, pc)) →
  (Protocol pc = "" ∧ ∃ e, WebSocketAcceptor_Spec w (Protocol pc) r = Err e) ∨
  (∃ s, WebSocketAcceptor_Spec w (Protocol pc) r = Ok s ∧
     client_serializer spec (Protocol pc) = Some s ∧ Protocol pc ∈ offered_by spec ∧
     Binary pc = negb (bool_decide (Protocol pc = JsonWebsocketProtocol))).
Proof.
  intros Hstd Hspec Hempty. unfold UpgradeWebSocket.
  destruct (Upgrade _ _) as [p|e] eqn:Hup; [|done]. intros [= <- <-]. cbn [Protocol Binary].
  destruct (Upgrade_chooses _ _ _ Hup) as [->|[Hp Ha]].
  - left. split; [done|]. unfold WebSocketAcceptor_Spec. rewrite Hempty. by eexists.
  - right. apply accepts_registered in Ha as [s Hs]. exists s.
    unfold WebSocketAcceptor_Spec. rewrite Hs. split_and!; [done| |done|done].
    destruct spec as [sp|]; simpl in *.
    + apply list_elem_of_singleton in Hp as ->.
      destruct (Hspec sp eq_refl) as [_ Hz]. by rewrite (Hz s Hs).
    + assert (is_Some (SerializersByWSSubProtocol !! p)) as [z Hz].
      { unfold wsProtocols in Hp. rewrite !elem_of_cons in Hp.
        destruct Hp as [->|[->|[->|[]%not_elem_of_nil]]]; by eexists. }
      rewrite Hz. f_equal. pose proof (lookup_weaken _ _ _ _ Hz Hstd). congruence.
Qed.

(** [UpgradeWebSocket] says in its callback what to accept without a
    configuration, and then panics without one. *)
Theorem nil_websocket_config_panics offered p :
  Upgrade offered (accepts_protocol None) = Ok p →
  ∃ why, UpgradeWebSocket offered None = Panics why.
Proof. intros Hup. unfold UpgradeWebSocket. rewrite Hup. by eexists. Qed.

End WebSocketSpec.

(** ** What a client dials *)

Section ConnectSpec.
Context `{WampHandshake} `{RawSocketHandshake} `{WebSockets} `{!ClientAuths}
  (parse : string → result URL) (net_Dial : string → string → result stream)
  (frames : list (result string) → list (result string))
  (join_nil : string → ClientAuthenticator → list (result string) → M Peer (details * list (result string))).
Implicit Types (c : Client) (w : ClientW).

Local Abbreviation Connect := (Connect parse net_Dial frames join_nil).

Lemma join_peer_state s m p w : (join_peer s m p w).1 = w.
Proof. unfold join_peer. by destruct (m p) as [p' [[]|e|why|]]. Qed.

Definition ws_uri (uri : string) : Prop := has_scheme uri ["ws"; "wss"; "unix+ws"] = true.
Definition rs_uri (uri : string) : Prop :=
  has_scheme uri ["ws"; "wss"; "unix+ws"] = false ∧ has_scheme uri ["rs"; "rss"; "unix"; "unix+rs"] = true.

(** The WebSocket request for a URI. *)
Definition ws_request_of c (u : URL) : ws_request :=
  {| wr_url := if bool_decide (NetDial c = None ∧ Scheme u = "unix+ws")
               then {| Scheme := "ws"; URL_Host := "unix"; Path := Path u |} else u;
     wr_protocols := offered_by (SerializerSpec_ c);
     wr_timeout := if bool_decide (DialTimeout c = 0)%Z then (10 * Second)%Z else DialTimeout c;
     wr_NetDial := match NetDial c with
                   | Some f => CustomDial f
                   | None => if bool_decide (Scheme u = "unix+ws") then UnixDial (Path u) else DefaultDial
                   end |}.

Lemma connect_ws uri realm w u :
  ws_uri uri → parse uri = Ok u →
  (Connect uri realm w).1 = mkClientW (client w) (dials w ++ [WsDialed (ws_request_of (client w) u)])%list.
Proof.
  intros Huri Hu. unfold Dialing.Connect. erewrite bind_Val by done. rewrite Huri.
  unfold WebSocketJoiner_Join. rewrite Hu. erewrite bind_Val by done. erewrite bind_Val by done.
  assert (ws_dialed u (ws_config (Some {| wd_SubProtocols := offered_by (SerializerSpec_ (client w));
      wd_DialTimeout := DialTimeout (client w); wd_NetDial := NetDial (client w);
      wd_KeepAliveInterval := cl_KeepAliveInterval (client w);
      wd_KeepAliveTimeout := cl_KeepAliveTimeout (client w);
      wd_OutQueueSize := cl_OutQueueSize (client w) |})) = ws_request_of (client w) u) as Hq.
  { unfold ws_dialed, ws_request_of. simpl. destruct (NetDial (client w)).
    - rewrite (bool_decide_eq_false_2 (Some n = None ∧ _)) by (by intros [? _]).
      by rewrite (Z.mul_comm Second).
    - rewrite (Z.mul_comm Second). case_bool_decide as Hs.
      + by rewrite (bool_decide_eq_true_2 (None = None ∧ _)).
      + by rewrite (bool_decide_eq_false_2 (None = None ∧ _)) by (by intros [_ ?]). }
  unfold offered_by in Hq. rewrite Hq.
  rewrite bind_effect. destruct (DialWebSocket _ _) as [[[peer pc] rs]|e]; [|done]. cbn.
  destruct (SerializerSpec_ (client w)) as [s|]; [apply join_peer_state|].
  case_match; apply join_peer_state.
Qed.

Lemma connect_rs uri realm w u :
  rs_uri uri → parse uri = Ok u →
  (Connect uri realm w).1 =
    mkClientW (set_spec (default CBORSerializerSpec (SerializerSpec_ (client w))) (client w))
      (dials w ++ [NetDialed (rs_address u).1 (rs_address u).2])%list.
Proof.
  intros [Hws Hrs] Hu. unfold Dialing.Connect. erewrite bind_Val by done. rewrite Hws, Hrs.
  erewrite bind_Val by done. unfold RawSocketJoiner_Join. rewrite Hu. erewrite bind_Val by done.
  destruct (rs_address u) as [network address]. erewrite bind_Val by done. cbn [client dials fst snd].
  rewrite bind_effect. destruct (net_Dial network address) as [conn|e]; [|done]. cbn [of_result].
  cbn. destruct (DialRawSocket_handshake _ _ _) as [conn' [peer|e|why|]]; try done.
  apply join_peer_state.
Qed.

(** Where a client connects depends on its URI alone for a raw socket: one
    plain connection to the host, or to the path of a Unix socket.  Its [NetDial]
    and its timeout count only for a WebSocket; and [rss] is dialed as [rs] is,
    without TLS. *)
Theorem raw_dial_ignores_configuration uri uri' realm u u' w w' :
  rs_uri uri → rs_uri uri' → parse uri = Ok u → parse uri' = Ok u' →
  dials w = [] → dials w' = [] →
  Scheme u ∉ ["unix"; "unix+rs"] → Scheme u' ∉ ["unix"; "unix+rs"] → URL_Host u = URL_Host u' →
  dials (Connect uri realm w).1 = [NetDialed "tcp" (URL_Host u)] ∧
  dials (Connect uri' realm w').1 = dials (Connect uri realm w).1.
Proof.
  intros Hr Hr' Hu Hu' Hd Hd' Hs Hs' Hh.
  rewrite (connect_rs _ _ _ _ Hr Hu), (connect_rs _ _ _ _ Hr' Hu'). cbn [dials]. rewrite Hd, Hd'.
  assert (∀ v, Scheme v ∉ ["unix"; "unix+rs"] → rs_address v = ("tcp", URL_Host v)) as Hrs.
  { intros v Hv. unfold rs_address. rewrite bool_decide_eq_false_2; [done|]. set_solver. }
  by rewrite !Hrs, Hh by done.
Qed.

(** A client with no serializer of its own that connects to a raw socket keeps
    CBOR as its serializer: it then offers a WebSocket server nothing else. *)
Theorem raw_connect_narrows_websockets uri uri' realm u u' w :
  rs_uri uri → ws_uri uri' → parse uri = Ok u → parse uri' = Ok u' →
  SerializerSpec_ (client w) = None →
  let before := (Connect uri' realm w).1 in
  let after := (Connect uri' realm (Connect uri realm w).1).1 in
  (∃ q, last (dials before) = Some (WsDialed q) ∧ wr_protocols q = wsProtocols) ∧
  (∃ q, last (dials after) = Some (WsDialed q) ∧ wr_protocols q = [CborWebsocketProtocol]).
Proof.
  intros Hr Hw Hu Hu' Hs. cbv zeta.
  rewrite !(connect_ws _ _ _ _ Hw Hu'), (connect_rs _ _ _ _ Hr Hu). cbn [dials client].
  rewrite !last_snoc. split; (eexists; split; [done|]); simpl; by rewrite ?Hs.
Qed.

End ConnectSpec.

(** ** Multiplexed sessions *)

Section MuxSpec.
Context `{WampHandshake} `{RawSocketHandshake} `{!ClientAuths}
  (frames : list (result string) → list (result string)).
Implicit Types (w : links).

(** Streams belong to connections that are open; numbers are given out once. *)
Definition links_wf w : Prop :=
  (∀ i c, open_streams w !! i = Some c → c ∈ open_conns w ∧ (i < next_link w)%nat) ∧
  ∀ c, c ∈ open_conns w → (c < next_link w)%nat.

Lemma open_session_run name c opened s realm config w :
  match open_session frames name c opened s realm config w with
  | (w', Val sess) => ms_conn sess = c ∧ ms_stream sess = next_link w ∧
      w' = mkLinks (open_conns w) (<[next_link w := c]> (open_streams w)) (S (next_link w))
  | (w', _) => w' = w ∨
      w' = mkLinks (open_conns w) (<[next_link w := c]> (open_streams w)) (S (next_link w))
  end.
Proof.
  unfold open_session. destruct (fill_config config) as [[spec a] size].
  unfold OpenStreamSync. destruct (wrap _ opened) as [[]|e]; [|by left].
  cbn. destruct (rawSocketClientHandshake _ _ _) as [s' [peer|e|why|]]; [|by right..].
  destruct (Join _ _ _ _ _) as [peer' [[d rs]|e|why|]]; [done|by right..].
Qed.

(** Connecting over QUIC or WebTransport either gives a session, on one new
    connection with one stream, or leaves nothing: when the session cannot be
    opened the connection is closed, and its stream with it. *)
Theorem mux_connection_is_closed name dialed opened s realm config w :
  links_wf w →
  match connect_mux frames name dialed opened s realm config w with
  | (w', Val sess) => open_conns w' = {[ms_conn sess]} ∪ open_conns w ∧ (ms_conn sess ∉ open_conns w) ∧
      open_streams w' = <[ms_stream sess := ms_conn sess]> (open_streams w)
  | (w', Fail e) => open_conns w' = open_conns w ∧ open_streams w' = open_streams w
  | _ => True
  end.
Proof.
  intros [Hs Hc]. unfold connect_mux, new_conn. destruct dialed as [[]|e]; [|by cbn].
  cbn [of_result]. erewrite bind_Val by (erewrite bind_Val; done).
  set (c := next_link w). set (w1 := mkLinks _ _ _).
  assert (c ∉ open_conns w) as Hfresh by (intros Hin; specialize (Hc _ Hin); unfold c in *; lia).
  assert (open_conns w1 ∖ {[c]} = open_conns w) as Hconns.
  { simpl. apply leibniz_equiv. set_solver. }
  assert (filter (λ e : nat * nat, e.2 ≠ c) (open_streams w) = open_streams w) as Hstreams.
  { apply map_filter_id. intros i c' Hi. simpl. intros ->. by destruct (Hs _ _ Hi). }
  pose proof (open_session_run name c opened s realm config w1) as Hopen.
  unfold mbind, M_bind, try. destruct (open_session frames name c opened s realm config w1) as [w2 [sess|e|why|]]; try done.
  - destruct Hopen as (Hmc & Hms & ->). cbn. rewrite Hmc, Hms. by split_and!.
  - cbn. destruct Hopen as [->| ->]; cbn [open_conns open_streams]; (split; [done|]); [done|].
    rewrite map_filter_insert_False by (simpl; tauto).
    rewrite map_filter_delete. cbn [open_streams w1]. rewrite Hstreams. apply delete_id.
    apply eq_None_not_Some. intros [c' Hi]. destruct (Hs _ _ Hi). simpl in *. lia.
Qed.

(** [OpenSession] has no connection of its own to close: when the handshake or
    the joining fails, its stream stays open. *)
Theorem failed_session_leaves_its_stream name c s realm config w w' e e' s' :
  rawSocketClientHandshake (SerializerID (fill_config config).1.1) (fill_config config).2 s =
    (s', Fail e) →
  open_session frames name c (Ok tt) s realm config w = (w', Fail e') →
  open_streams w' !! next_link w = Some c.
Proof.
  intros Hh. unfold open_session. destruct (fill_config config) as [[spec a] size]. cbn in *.
  rewrite Hh. cbn. intros [= <- _]. simpl. by rewrite lookup_insert_eq.
Qed.

(** Each raw stream of a connection is a stream of its own, and closing the connection
    closes all of its streams, and none of another connection's. *)
Theorem streams_of_a_connection sess w :
  links_wf w →
  let w1 := (QUICSession_OpenStream sess (Ok tt) w).1 in
  let w3 := (QUICConn_Close (ms_conn sess) w).1 in
  (QUICSession_OpenStream sess (Ok tt) w).2 = Val (next_link w) ∧
  open_streams w !! next_link w = None ∧ open_streams w1 !! next_link w = Some (ms_conn sess) ∧
  (ms_conn sess ∈ open_conns w → links_wf w1) ∧ links_wf w3 ∧
  (ms_conn sess ∉ open_conns w3) ∧
  (∀ j c, open_streams w3 !! j = Some c ↔ open_streams w !! j = Some c ∧ c ≠ ms_conn sess).
Proof.
  intros [Hs Hc]. cbn zeta. unfold QUICSession_OpenStream, OpenRawStream, OpenStreamSync,
    QUICConn_Close, close_conn. cbn [wrap of_result]. erewrite !(bind_Val (mret tt)) by done. cbn.
  split_and!; try done.
  - apply eq_None_not_Some. intros [c Hn]. destruct (Hs _ _ Hn). lia.
  - apply lookup_insert_eq.
  - intros Hin. split; cbn.
    + intros j c. rewrite lookup_insert_Some. intros [[<- <-]|[_ [? ?]%Hs]]; split; try done; lia.
    + intros c ?%Hc. lia.
  - split; cbn.
    + intros j c [[Hj ?]%Hs ?]%map_lookup_filter_Some. simpl in *. set_solver.
    + intros c [?%Hc _]%elem_of_difference. lia.
  - set_solver.
  - intros j c. rewrite map_lookup_filter_Some. done.
Qed.

End MuxSpec.
