(* ===== verification/DemoConnect.v ===== *)
(** * Connecting examples (examples/authentications.go, examples/serializers.go)

    One client for each way of authenticating and for each serializer. *)

From S2P Require Import Prelude GoStd Wamp Peers Acceptor Dialing.

Local Open Scope string_scope.

Section DemoConnect.
Context `{WampHandshake} `{RawSocketHandshake} `{WebSockets} `{!ClientAuths}
  (parse : string → result URL) (net_Dial : string → string → result stream)
  (frames : list (result string) → list (result string))
  (join_nil : string → ClientAuthenticator → list (result string) → M Peer (details * list (result string))).

(** [client.Connect] of a new client with these two fields: the client afterwards, what
    it dialed, and the session. *)
Definition connect_client (authenticator : option ClientAuthenticator) (spec : SerializerSpec)
    (url realm : string) : ClientW * exec joined :=
  Connect parse net_Dial frames join_nil url realm
    (mkClientW (mkClient authenticator (Some spec) None 0 0 0 0) []).

(** authentications.go *)
Definition connect (url realm : string) (authenticator : ClientAuthenticator)
    (serializerSpec : SerializerSpec) : exec joined :=
  (connect_client (Some authenticator) serializerSpec url realm).2.
Definition connectTicket (url realm authid ticket : string) (serializerSpec : SerializerSpec) :=
  connect url realm (NewTicketAuthenticator authid ticket) serializerSpec.
Definition connectWAMPCRA (url realm authid secret : string) (serializerSpec : SerializerSpec) :=
  connect url realm (NewWAMPCRAAuthenticator authid secret) serializerSpec.
Definition connectCryptosign (url realm authid privateKey : string) (serializerSpec : SerializerSpec)
    : exec joined :=
  match NewCryptoSignAuthenticator authid privateKey with
  | Err e => Fail e
  | Ok ticketAuthenticator => connect url realm ticketAuthenticator serializerSpec
  end.

(** serializers.go *)
Definition connectJSON (url realm : string) : exec joined :=
  (connect_client None JSONSerializerSpec url realm).2.
Definition connectCBOR (url realm : string) : exec joined :=
  (connect_client None CBORSerializerSpec url realm).2.
Definition connectMsgPack (url realm : string) : exec joined :=
  (connect_client None MsgPackSerializerSpec url realm).2.

Lemma join_peer_serializer s m p w w' j :
  join_peer s m p w = (w', Val j) → j_serializer j = s.
Proof. unfold join_peer. destruct (m p) as [p' [[d x]|e|why|]]; by intros [= _ <-]. Qed.

(** [c ← m; k c] gave a value, and so did its parts. *)
Ltac bind_inv H w x Hx := apply bind_Val_inv in H as (w & x & Hx & H).

(** Whatever it connects to, a client with a serializer speaks it: it offers a WebSocket
    server that subprotocol alone, and the session it returns uses it. *)
Theorem clients_speak_their_serializer a spec url realm w j :
  connect_client a spec url realm = (w, Val j) →
  j_serializer j = spec_Serializer spec ∧ SerializerSpec_ (client w) = Some spec ∧
  ∀ q, WsDialed q ∈ dials w → wr_protocols q = [SubProtocol spec].
Proof.
  unfold connect_client. intros Hrun. set (c := mkClient a (Some spec) None 0 0 0 0) in *.
  set (w0 := mkClientW c []) in *.
  pose proof Hrun as Hj. unfold Connect in Hj. bind_inv Hj w1 c' Hc. injection Hc as <- <-.
  change (client w0) with c in Hj.
  destruct (has_scheme url ["ws"; "wss"; "unix+ws"]) eqn:Hws.
  - unfold WebSocketJoiner_Join in Hj. bind_inv Hj w2 u Hu.
    destruct (parse url) as [u'|e] eqn:Hp; [|done]. injection Hu as <- ->.
    pose proof (connect_ws parse net_Dial frames join_nil url realm w0 u Hws Hp) as Hw.
    rewrite Hrun in Hw. cbn [fst] in Hw. rewrite Hw. split; [|split; [done|]].
    + bind_inv Hj w3 x Hx. bind_inv Hj w4 y Hy. destruct y as [[peer pc] rs].
      by apply join_peer_serializer in Hj.
    + cbn [dials app]. intros q Hq%list_elem_of_singleton. by injection Hq as ->.
  - destruct (has_scheme url ["rs"; "rss"; "unix"; "unix+rs"]) eqn:Hrs; [|done].
    bind_inv Hj w2 x Hx. unfold RawSocketJoiner_Join in Hj. bind_inv Hj w3 u Hu.
    destruct (parse url) as [u'|e] eqn:Hp; [|done]. injection Hu as -> ->.
    pose proof (connect_rs parse net_Dial frames join_nil url realm w0 u (conj Hws Hrs) Hp) as Hw.
    rewrite Hrun in Hw. cbn [fst] in Hw. rewrite Hw. split; [|split; [done|]].
    + destruct (rs_address u) as [network address]. bind_inv Hj w4 y Hy. bind_inv Hj w5 conn Hconn.
      destruct (DialRawSocket_handshake _ _ _) as [conn' [peer|e|why|]]; try done.
      by apply join_peer_serializer in Hj.
    + cbn [dials app]. intros q Hq%list_elem_of_singleton. done.
Qed.

End DemoConnect.
