(* ===== verification/Framing.v ===== *)
(** * The frames of a raw socket (peer.go)

    What the writer of a raw-socket peer puts on its connection, and what [Read]
    makes of the bytes that arrive, in whatever pieces.  A ping is answered through a
    channel that holds two pongs, from which the writer takes them: [Read] waits when
    it takes no more.  PeerClose has the goroutines; here are their bytes. *)

From S2P Require Import Prelude GoStd GoPath Peers Relay Dialing.

Local Open Scope string_scope.

(** transports of wampproto-go *)
Class MessageHeaders := {
  MessageHeader : Type;
  MessageWamp : Z;
  MessagePing : Z;
  MessagePong : Z;
  NewMessageHeader : Z → Z → MessageHeader;
  Header_Kind : MessageHeader → Z;
  Header_Length : MessageHeader → Z;
  SendMessageHeader : MessageHeader → string;
  ReceiveMessageHeader : string → result MessageHeader;
}.

(** The WAMP specification: a header is a byte for the kind and three for the
    length, so a length below 2^24 is read back, and none is larger. *)
Class MessageHeadersOk `{MessageHeaders} : Prop := {
  kinds_distinct : NoDup [MessageWamp; MessagePing; MessagePong];
  Header_size h : String.length (SendMessageHeader h) = 4%nat;
  Header_roundtrip k n :
    k ∈ [MessageWamp; MessagePing; MessagePong] → (0 ≤ n < 2 ^ 24)%Z →
    ∃ h, ReceiveMessageHeader (SendMessageHeader (NewMessageHeader k n)) = Ok h ∧
         Header_Kind h = k ∧ Header_Length h = n;
  Header_range b h : ReceiveMessageHeader b = Ok h → (0 ≤ Header_Length h < 2 ^ 24)%Z;
}.

(** ** Writing *)

Definition ErrShortWrite : error := "short write".

(** [writes]: what the next calls of [Write] return, the number of bytes that they
    take or an error; a call after the last one waits. *)
Record wire := mkWire { writes : list (result nat); sent : string }.

(** The loop of [writeFull] on what is left of the buffer. *)
Fixpoint write_loop (ws : list (result nat)) (buf out : string) : wire * exec unit :=
  match buf with
  | EmptyString => (mkWire ws out, Val tt)
  | _ =>
      match ws with
      | [] => (mkWire [] out, Blocks)
      | Err e :: ws => (mkWire ws out, Fail e)
      | Ok n :: ws =>
          if bool_decide (n = 0%nat) then (mkWire ws out, Fail ErrShortWrite)
          else let '(a, b) := cut n buf in write_loop ws b (out +:+ a)
      end
  end.
Definition writeFull (buf : string) : M wire unit := λ w, write_loop (writes w) buf (sent w).

Section Frames.
Context `{MessageHeaders}.

(** A case of the writer: the header, then the payload. *)
Definition write_frame (kind : Z) (payload : string) : M wire unit :=
  writeFull (SendMessageHeader (NewMessageHeader kind (blen payload)));;
  writeFull payload.

(** The writer on the messages of its queue, until a write fails. *)
Definition write_frames (fs : list (Z * string)) : M wire unit := for_M (λ f, write_frame f.1 f.2) fs.

Definition frame (f : Z * string) : string :=
  SendMessageHeader (NewMessageHeader f.1 (blen f.2)) +:+ f.2.
Fixpoint frames (fs : list (Z * string)) : string :=
  match fs with [] => "" | f :: fs => frame f +:+ frames fs end.

(** ** Reading *)

(** [pongs]: the answers to pings, in the order in which they were put into [ctrlChan].
    [takes]: how many of them the writer takes, sooner or later: all, while it is not
    stuck in a write. *)
Record reader := mkReader { incoming : stream; pongs : list string; takes : nat }.

(** [make(chan rsMsg, 2)] *)
Definition ctrlChan_cap : nat := 2.

Definition on_stream {A} : M stream A → M reader A :=
  zoom incoming (λ s r, mkReader s (pongs r) (takes r)).

(** [r.ctrlChan <- rsMsg{...}]: it waits while the channel is full, for ever when the
    writer takes no more from it. *)
Definition send_pong (payload : string) : M reader unit := λ r,
  if bool_decide (length (pongs r) < takes r + ctrlChan_cap)%nat
  then (mkReader (incoming r) (pongs r ++ [payload])%list (takes r), Val tt)
  else (r, Blocks).

(** One round of [Read]: [None] when it calls itself again. *)
Definition read_frame : M reader (option string) :=
  headerRaw ← on_stream (ReadFull_conn 4);
  header ← of_result (ReceiveMessageHeader headerRaw);
  if bool_decide (maxRawSocketPayload < Header_Length header)%Z
  then fail (too_large (Header_Length header))
  else
    payload ← on_stream (ReadFull_conn (Z.to_nat (Header_Length header)));
    if bool_decide (Header_Kind header = MessageWamp) then mret (Some payload)
    else if bool_decide (Header_Kind header = MessagePing) then
      send_pong payload;; mret None
    else if bool_decide (Header_Kind header = MessagePong) then mret None
    else fail ("unknown message type: " +:+ pretty (Header_Kind header)).

(** Every round takes four bytes or more, so the number of bytes is enough fuel. *)
Fixpoint read_rounds (fuel : nat) : M reader string :=
  match fuel with
  | O => λ r, (r, Blocks)
  | S fuel =>
      m ← read_frame;
      match m with Some payload => mret payload | None => read_rounds fuel end
  end.

Fixpoint bytes_left (segs : list (result string)) : nat :=
  match segs with
  | Ok s :: segs => String.length s + bytes_left segs
  | Err _ :: segs => bytes_left segs
  | [] => 0
  end.

Definition RawSocketPeer_Read : M reader string := λ r,
  read_rounds (S (bytes_left (segments (incoming r)))) r.

(** Reading [n] messages. *)
Fixpoint read_messages (n : nat) : M reader (list string) :=
  match n with
  | O => mret []
  | S n => m ← RawSocketPeer_Read; ms ← read_messages n; mret (m :: ms)
  end.

End Frames.

(** ** [writeFull] *)

Lemma write_outcome buf w :
  let r := writeFull buf w in
  (∃ p q, buf = p +:+ q ∧ sent r.1 = sent w +:+ p ∧
     (r.2 = Val tt ↔ q = "") ∧
     ((String.length buf ≤ length (writes w))%nat → r.2 ≠ Blocks) ∧
     (∃ used, writes w = (used ++ writes r.1)%list ∧ (length used ≤ S (String.length p))%nat)) ∧
  ((r.2 = Val tt) ∨ r.2 = Fail ErrShortWrite ∨ (∃ e, Err e ∈ writes w ∧ r.2 = Fail e) ∨ r.2 = Blocks).
Proof.
  cbv zeta. unfold writeFull. destruct w as [ws out]. cbn [writes sent].
  revert buf out. induction ws as [|[n|e] ws IH]; intros buf out.
  - destruct buf as [|c buf].
    { simpl. split; [|by left]. exists "", "". rewrite !string_app_nil_r.
      split_and!; try done; try (by split). exists []. split; [done|simpl; lia]. }
    simpl. split; [|by do 3 right]. exists "", (String c buf). rewrite !string_app_nil_r.
    split_and!; try done; try (by split); [lia|]. exists []. split; [done|simpl; lia].
  - destruct buf as [|c buf].
    { simpl. split; [|by left]. exists "", "". rewrite !string_app_nil_r.
      split_and!; try done; try (by split). exists []. split; [done|simpl; lia]. }
    cbn [write_loop]. case_bool_decide as Hn.
    + split; [|by right; left]. exists "", (String c buf). rewrite !string_app_nil_r.
      split_and!; try done; try (by split). exists [Ok n]. split; [done|simpl; lia].
    + destruct (cut_app n (String c buf)) as (a & b & Hc & Hb & Hl & Hab). rewrite Hc.
      assert (1 ≤ String.length a)%nat as Ha.
      { destruct Hab as [->|Hab]; [|lia]. rewrite string_app_nil_r in Hb. subst a. simpl. lia. }
      destruct (IH b (out +:+ a)) as [(p & q & -> & Hs & Hv & Hnb & used & Hu & Hlu) Hend].
      split; [exists (a +:+ p), q; split_and!|].
      * by rewrite Hb, string_app_assoc.
      * by rewrite Hs, string_app_assoc.
      * done.
      * intros Hlen. apply Hnb. rewrite Hb, !string_length_app in Hlen. simpl in Hlen.
        rewrite string_length_app. lia.
      * exists (Ok n :: used). split; [simpl; f_equal; exact Hu|]. rewrite string_length_app. simpl. lia.
      * destruct Hend as [?|[?|[(e & He & Hr)|?]]]; [by left|by right; left| |by do 3 right].
        do 2 right. left. exists e. split; [by right|done].
  - destruct buf as [|c buf].
    { simpl. split; [|by left]. exists "", "". rewrite !string_app_nil_r.
      split_and!; try done; try (by split). exists []. split; [done|simpl; lia]. }
    simpl. split; [|do 2 right; left; exists e; split; [by left|done]].
    exists "", (String c buf). rewrite !string_app_nil_r. split_and!; try done.
    exists [Err e]. split; [done|simpl; lia].
Qed.

Lemma write_done buf w :
  ∃ p q, buf = p +:+ q ∧ sent (writeFull buf w).1 = sent w +:+ p ∧
    ((writeFull buf w).2 = Val tt ↔ q = "").
Proof. destruct (write_outcome buf w) as [(p & q & ? & ? & ? & _) _]. by exists p, q. Qed.

(** [writeFull] ends: every call of [Write] that it makes takes a byte or is
    its last.  It returns nil only when the whole buffer has been taken, once and
    in order; otherwise a prefix has been, and the error is that of a write, or
    says that a write took nothing. *)
Theorem writeFull_spec buf w :
  let r := writeFull buf w in
  (∃ p q, buf = p +:+ q ∧ sent r.1 = sent w +:+ p ∧
     (r.2 = Val tt ↔ q = "") ∧
     ((String.length buf ≤ length (writes w))%nat → r.2 ≠ Blocks) ∧
     (∃ used, writes w = (used ++ writes r.1)%list ∧ (length used ≤ S (String.length p))%nat)) ∧
  ((r.2 = Val tt) ∨ r.2 = Fail ErrShortWrite ∨ (∃ e, Err e ∈ writes w ∧ r.2 = Fail e) ∨ r.2 = Blocks).
Proof. apply write_outcome. Qed.

(** ** Reading what was written *)

Lemma bytes_left_text segs : bytes_left (map Ok segs) = String.length (text segs).
Proof. induction segs as [|s segs IH]; simpl; [done|]. by rewrite IH, string_length_app. Qed.

Lemma ReadFull_text n segs p q out :
  text segs = p +:+ q → String.length p = n →
  ∃ segs', ReadFull_conn n (mkStream (map Ok segs) out) = (mkStream (map Ok segs') out, Val p) ∧
    text segs' = q.
Proof.
  intros Ht <-. destruct (read_full_text segs p q "" Ht) as (segs' & Hr & Hq).
  exists segs'. split; [|done]. unfold ReadFull_conn. cbn [segments output]. by rewrite Hr.
Qed.

(** What [ReadFull] takes is gone from the stream. *)
Lemma read_full_takes n segs got segs' x :
  read_full n segs got = (segs', Val x) →
  bytes_left segs = (n + bytes_left segs')%nat ∧ String.length x = (String.length got + n)%nat.
Proof.
  revert n got. induction segs as [|[s|e] segs IH]; intros [|n] got; try done;
    try (intros [= <- <-]; simpl; lia).
  cbn [read_full]. destruct (cut_app (S n) s) as (a & b & -> & Hs & Hl & Hb).
  assert (String.length s = String.length a + String.length b)%nat as Hls
    by (by rewrite Hs, string_length_app).
  destruct b as [|c b].
  - intros Hr. destruct (IH _ _ Hr) as [Hb1 Hb2]. rewrite string_length_app in Hb2.
    simpl in *. lia.
  - destruct Hb as [|Ha]; [done|]. intros [= <- <-]. rewrite string_length_app. simpl in *. lia.
Qed.

Section FramesSpec.
Context `{MessageHeadersOk}.
Implicit Types (f : Z * string) (fs : list (Z * string)) (r : reader).

(** The frames that a writer makes: a known kind and a length of 24 bits. *)
Definition good f : Prop :=
  f.1 ∈ [MessageWamp; MessagePing; MessagePong] ∧ (blen f.2 < 2 ^ 24)%Z.

Definition payloads fs : list string :=
  fs ≫= λ f, if bool_decide (f.1 = MessageWamp) then [f.2] else [].
Definition pings fs : list string :=
  fs ≫= λ f, if bool_decide (f.1 = MessagePing) then [f.2] else [].

(** What a frame is for the reader: a ping is answered, if there is room for that. *)
Definition room (ps : list string) (n : nat) : Prop := (length ps ≤ n + ctrlChan_cap)%nat.
#[global] Instance room_dec ps n : Decision (room ps n) := decide (length ps ≤ n + ctrlChan_cap)%nat.

Lemma read_frame_run f rest segs out ps n :
  good f → text segs = frame f +:+ rest →
  ∃ segs', read_frame (mkReader (mkStream (map Ok segs) out) ps n) =
    (if bool_decide (f.1 = MessagePing ∧ ¬ room (ps ++ [f.2]) n)
     then (mkReader (mkStream (map Ok segs') out) ps n, Blocks)
     else (mkReader (mkStream (map Ok segs') out) (ps ++ pings [f])%list n,
           Val (if bool_decide (f.1 = MessageWamp) then Some f.2 else None))) ∧ text segs' = rest.
Proof.
  intros [Hk Hn] Ht. destruct f as [k p]. unfold frame in Ht. cbn [fst snd] in *.
  rewrite string_app_assoc in Ht.
  destruct (Header_roundtrip k (blen p)) as (h & Hh & Hkind & Hlen); [done|rewrite blen_length in *; lia|].
  destruct (ReadFull_text 4 segs (SendMessageHeader (NewMessageHeader k (blen p))) (p +:+ rest) out Ht
    (Header_size _)) as (segs1 & Hr1 & Ht1).
  destruct (ReadFull_text (Z.to_nat (blen p)) segs1 p rest out Ht1) as (segs2 & Hr2 & Ht2);
    [rewrite blen_length; lia|].
  exists segs2. split; [|done]. unfold read_frame, on_stream.
  rewrite bind_effect, zoom_run. cbn [incoming fst snd pongs takes]. rewrite Hr1. cbn [fst snd].
  rewrite Hh. erewrite bind_Val by done. rewrite Hlen.
  rewrite bool_decide_eq_false_2 by (unfold maxRawSocketPayload; lia).
  rewrite bind_effect, zoom_run. cbn [incoming fst snd pongs takes]. rewrite Hr2. cbn [fst snd].
  rewrite Hkind. pose proof kinds_distinct as Hd. unfold pings. cbn [list_bind mbind fst snd].
  assert (MessageWamp ≠ MessagePing ∧ MessageWamp ≠ MessagePong ∧ MessagePing ≠ MessagePong)
    as (Hwp & Hwo & Hpo).
  { repeat (apply NoDup_cons in Hd as [? Hd]). set_solver. }
  rewrite !elem_of_cons in Hk. destruct Hk as [->|[->|[->|[]%not_elem_of_nil]]].
  - rewrite bool_decide_eq_true_2, !bool_decide_eq_false_2 by naive_solver. cbn. by rewrite app_nil_r.
  - rewrite bool_decide_eq_false_2, (bool_decide_eq_true_2 (MessagePing = _)) by done.
    unfold mbind, M_bind, send_pong, room. cbn [pongs takes incoming].
    destruct (decide (length ps < n + ctrlChan_cap)%nat) as [Hroom|Hroom].
    + rewrite (bool_decide_eq_true_2 (_ < _)%nat) by done. rewrite bool_decide_eq_false_2; [done|].
      rewrite length_app. simpl. intros [_ Hn2]. lia.
    + rewrite (bool_decide_eq_false_2 (_ < _)%nat) by done. rewrite bool_decide_eq_true_2; [done|].
      split; [done|]. rewrite length_app. simpl. lia.
  - rewrite !bool_decide_eq_false_2, bool_decide_eq_true_2 by naive_solver. cbn. rewrite app_nil_r.
    by rewrite bool_decide_eq_false_2 by naive_solver.
Qed.

Lemma read_frame_ok f rest segs out ps n :
  good f → room (ps ++ pings [f]) n → text segs = frame f +:+ rest →
  ∃ segs', read_frame (mkReader (mkStream (map Ok segs) out) ps n) =
    (mkReader (mkStream (map Ok segs') out) (ps ++ pings [f])%list n,
     Val (if bool_decide (f.1 = MessageWamp) then Some f.2 else None)) ∧ text segs' = rest.
Proof.
  intros Hg Hr Ht. destruct (read_frame_run f rest segs out ps n Hg Ht) as (segs' & Hf & Ht').
  exists segs'. split; [|done]. rewrite Hf. rewrite bool_decide_eq_false_2; [done|].
  intros [Hk Hn]. apply Hn. unfold pings in Hr. cbn in Hr. by rewrite bool_decide_eq_true_2 in Hr.
Qed.

Lemma room_app ps l1 l2 n : room (ps ++ l1 ++ l2) n → room (ps ++ l1) n.
Proof. unfold room. rewrite !length_app. lia. Qed.

Lemma pings_cons f fs : pings (f :: fs) = (pings [f] ++ pings fs)%list.
Proof. unfold pings. cbn. by rewrite app_nil_r. Qed.

Lemma frame_length f : (4 ≤ String.length (frame f))%nat.
Proof. unfold frame. rewrite string_length_app, Header_size. lia. Qed.

Lemma read_rounds_run ctl p rest segs out ps n fuel :
  Forall good ctl → payloads ctl = [] → good (MessageWamp, p) → room (ps ++ pings ctl) n →
  text segs = frames ctl +:+ (frame (MessageWamp, p) +:+ rest) → (length ctl < fuel)%nat →
  ∃ segs', read_rounds fuel (mkReader (mkStream (map Ok segs) out) ps n) =
    (mkReader (mkStream (map Ok segs') out) (ps ++ pings ctl)%list n, Val p) ∧ text segs' = rest.
Proof.
  intros Hg Hp Hw. revert segs ps fuel. induction ctl as [|f ctl IH]; intros segs ps [|fuel] Hroom Ht Hf;
    simpl in Hf; try lia; cbn [read_rounds].
  - assert (pings [(MessageWamp, p)] = []) as Hnp.
    { unfold pings. cbn. pose proof kinds_distinct as [Hd _]%NoDup_cons.
      rewrite bool_decide_eq_false_2; [done|]. set_solver. }
    destruct (read_frame_ok (MessageWamp, p) rest segs out ps n Hw) as (segs' & Hr & Ht');
      [by rewrite Hnp|done|].
    rewrite (bind_Val _ _ _ _ _ Hr). cbn [fst snd]. rewrite bool_decide_eq_true_2 by done.
    exists segs'. by rewrite Hnp.
  - apply Forall_cons in Hg as [Hgf Hg]. unfold payloads in Hp. cbn in Hp.
    apply app_eq_nil in Hp as [Hpf Hp]. cbn [frames] in Ht. rewrite string_app_assoc in Ht.
    rewrite pings_cons in Hroom |- *.
    destruct (read_frame_ok f _ segs out ps n Hgf (room_app _ _ _ _ Hroom) Ht) as (segs' & Hr & Ht').
    rewrite (bind_Val _ _ _ _ _ Hr). destruct (bool_decide (f.1 = MessageWamp)) eqn:Hfw; [done|].
    rewrite (assoc_L app) in Hroom |- *.
    exact (IH Hg Hp segs' (ps ++ pings [f])%list fuel Hroom Ht' ltac:(lia)).
Qed.

Lemma frames_length fs : (4 * length fs ≤ String.length (frames fs))%nat.
Proof.
  induction fs as [|f fs IH]; simpl; [lia|]. rewrite string_length_app.
  pose proof (frame_length f). lia.
Qed.

Lemma frames_app fs gs : frames (fs ++ gs) = frames fs +:+ frames gs.
Proof. induction fs as [|f fs IH]; simpl; [done|]. by rewrite IH, string_app_assoc. Qed.

Lemma Read_run ctl p rest segs out ps n :
  Forall good ctl → payloads ctl = [] → good (MessageWamp, p) → room (ps ++ pings ctl) n →
  text segs = frames ctl +:+ (frame (MessageWamp, p) +:+ rest) →
  ∃ segs', RawSocketPeer_Read (mkReader (mkStream (map Ok segs) out) ps n) =
    (mkReader (mkStream (map Ok segs') out) (ps ++ pings ctl)%list n, Val p) ∧ text segs' = rest.
Proof.
  intros Hg Hp Hw Hroom Ht. unfold RawSocketPeer_Read. apply read_rounds_run; try done.
  cbn [incoming segments]. rewrite bytes_left_text, Ht, string_length_app.
  pose proof (frames_length ctl). lia.
Qed.

(** A ping for whose pong there is no room, before anything that the reader returns:
    [Read] waits for the writer, whatever follows. *)
Theorem ping_flood_blocks_the_reader ctl f rest segs out ps n :
  Forall good ctl → payloads ctl = [] → good f → f.1 = MessagePing →
  room (ps ++ pings ctl) n → ¬ room (ps ++ pings ctl ++ [f.2]) n →
  text segs = frames ctl +:+ (frame f +:+ rest) →
  (RawSocketPeer_Read (mkReader (mkStream (map Ok segs) out) ps n)).2 = Blocks.
Proof.
  intros Hg Hp Hf Hk. unfold RawSocketPeer_Read. generalize (S (bytes_left
    (segments (incoming (mkReader (mkStream (map Ok segs) out) ps n))))). intros fuel.
  revert segs ps fuel. induction ctl as [|g ctl IH]; intros segs ps [|fuel] Hroom Hfull Ht;
    try done; cbn [read_rounds].
  - destruct (read_frame_run f rest segs out ps n Hf Ht) as (segs' & Hr & _).
    rewrite bool_decide_eq_true_2 in Hr by (split; [done|exact Hfull]).
    unfold mbind, M_bind. by rewrite Hr.
  - apply Forall_cons in Hg as [Hgf Hg]. unfold payloads in Hp. cbn in Hp.
    apply app_eq_nil in Hp as [Hpf Hp]. cbn [frames] in Ht. rewrite string_app_assoc in Ht.
    rewrite pings_cons in Hroom, Hfull.
    destruct (read_frame_ok g _ segs out ps n Hgf (room_app _ _ _ _ Hroom) Ht) as (segs' & Hr & Ht').
    rewrite (bind_Val _ _ _ _ _ Hr). destruct (bool_decide (g.1 = MessageWamp)) eqn:Hgw; [done|].
    rewrite <-(assoc_L app) in Hfull. rewrite (assoc_L app) in Hroom, Hfull.
    by apply (IH Hg Hp segs' (ps ++ pings [g])%list fuel).
Qed.

(** A message, and the pings and pongs before it. *)
Definition message_frames (m : list (Z * string) * string) : list (Z * string) :=
  (m.1 ++ [(MessageWamp, m.2)])%list.
Definition sendable (m : list (Z * string) * string) : Prop :=
  Forall (λ f, f.1 ∈ [MessagePing; MessagePong] ∧ (blen f.2 < 2 ^ 24)%Z) m.1 ∧
  (blen m.2 < 2 ^ 24)%Z.

Lemma sendable_good m :
  sendable m → Forall good m.1 ∧ payloads m.1 = [] ∧ good (MessageWamp, m.2).
Proof.
  pose proof kinds_distinct as [Hd _]%NoDup_cons. intros [Hc Hm]. split_and!.
  - eapply Forall_impl; [exact Hc|]. intros f [Hk Hl]. split; [by right|done].
  - induction Hc as [|f l [Hk _] Hc IH]; [done|]. unfold payloads in *. cbn.
    rewrite bool_decide_eq_false_2; [done|]. intros Heq. by rewrite Heq in Hk.
  - split; [by left|done].
Qed.

Lemma read_messages_run ms segs rest out ps n :
  Forall sendable ms → room (ps ++ (ms ≫= λ m, pings m.1)) n →
  text segs = frames (ms ≫= message_frames) +:+ rest →
  ∃ segs', read_messages (length ms) (mkReader (mkStream (map Ok segs) out) ps n) =
    (mkReader (mkStream (map Ok segs') out) (ps ++ (ms ≫= λ m, pings m.1))%list n, Val (map snd ms)) ∧
    text segs' = rest.
Proof.
  intros Hs. revert segs ps. induction Hs as [|m ms Hm Hs IH]; intros segs ps Hroom Ht.
  - exists segs. simpl. by rewrite app_nil_r.
  - destruct (sendable_good m Hm) as (Hg & Hp & Hw). cbn [mbind list_bind] in Ht, Hroom |- *.
    unfold message_frames at 1 in Ht.
    rewrite !frames_app, !string_app_assoc in Ht. cbn [frames] in Ht.
    rewrite string_app_nil_r in Ht.
    destruct (Read_run m.1 m.2 _ segs out ps n Hg Hp Hw (room_app _ _ _ _ Hroom) Ht) as (segs1 & Hr & Ht1).
    rewrite (assoc_L app) in Hroom |- *.
    destruct (IH segs1 (ps ++ pings m.1)%list Hroom Ht1) as (segs2 & Hr2 & Ht2).
    exists segs2. split; [|done]. cbn [length read_messages].
    by rewrite (bind_Val _ _ _ _ _ Hr), (bind_Val _ _ _ _ _ Hr2).
Qed.

(** What the writer makes of frames, when the connection takes every write. *)
Lemma raw_frames_written fs ws out w :
  write_frames fs (mkWire ws out) = (w, Val tt) → sent w = out +:+ frames fs.
Proof.
  revert ws out. induction fs as [|f fs IH]; intros ws out.
  { intros [= <-]. simpl. by rewrite string_app_nil_r. }
  unfold write_frames. cbn [for_M]. intros (w1 & [] & Hf & Hr)%bind_Val_inv.
  unfold write_frame in Hf. apply bind_Val_inv in Hf as (w2 & [] & H1 & H2).
  assert (∀ buf w w', writeFull buf w = (w', Val tt) → sent w' = sent w +:+ buf) as Hfull.
  { intros buf v v' Hv. destruct (write_done buf v) as (p & q & -> & Hs & Hq).
    rewrite Hv in Hs, Hq. cbn in *. destruct Hq as [Hq _]. rewrite (Hq eq_refl), string_app_nil_r.
    done. }
  apply Hfull in H1, H2. destruct w1 as [ws1 out1]. apply IH in Hr. cbn [sent] in *.
  rewrite Hr, H2, H1. cbn [frames]. unfold frame. by rewrite !string_app_assoc.
Qed.

(** C7. What the writer of a raw-socket peer puts on the connection, when no write
    fails, the other end reads: every message once, in order and unchanged, in
    whatever pieces the bytes are taken and arrive; the pings between them are
    answered in their order, the pongs skipped, and what follows is left to be read.
    The reader's own writer has to take the pongs, but for the two that [ctrlChan]
    holds. *)
Theorem raw_frames_roundtrip ms ws w segs rest out ps n :
  Forall sendable ms → write_frames (ms ≫= message_frames) (mkWire ws "") = (w, Val tt) →
  text segs = sent w +:+ rest → room (ps ++ (ms ≫= λ m, pings m.1)) n →
  ∃ segs', read_messages (length ms) (mkReader (mkStream (map Ok segs) out) ps n) =
    (mkReader (mkStream (map Ok segs') out) (ps ++ (ms ≫= λ m, pings m.1))%list n, Val (map snd ms)) ∧
    text segs' = rest.
Proof.
  intros Hs Hw%raw_frames_written Ht Hroom. cbn in Hw. rewrite Hw in Ht. by apply read_messages_run.
Qed.

(** *** Termination and limits *)

Lemma ReadFull_takes n r r' x :
  on_stream (ReadFull_conn n) r = (r', Val x) →
  bytes_left (segments (incoming r)) = (n + bytes_left (segments (incoming r')))%nat ∧
  String.length x = n.
Proof.
  unfold on_stream. rewrite zoom_run. unfold ReadFull_conn.
  destruct (read_full n _ _) as [segs v] eqn:E. cbn [fst snd]. intros [= <- ->].
  by apply read_full_takes in E.
Qed.

Lemma read_frame_takes r r' o :
  read_frame r = (r', Val o) →
  (4 + bytes_left (segments (incoming r')) ≤ bytes_left (segments (incoming r)))%nat ∧
  ∀ p, o = Some p → (blen p < 2 ^ 24)%Z.
Proof.
  unfold read_frame. intros (r1 & b & [E1 _]%ReadFull_takes & Hr)%bind_Val_inv.
  apply bind_Val_inv in Hr as (r2 & h & Hh & Hr).
  destruct (ReceiveMessageHeader b) as [h'|e] eqn:Hb; [|done]. injection Hh as <- <-.
  pose proof (Header_range _ _ Hb) as Hrange. case_bool_decide; [done|].
  apply bind_Val_inv in Hr as (r3 & p & [E2 Hl]%ReadFull_takes & Hr).
  assert (blen p < 2 ^ 24)%Z as Hp by (rewrite blen_length; lia).
  case_bool_decide; [|case_bool_decide; [|case_bool_decide; [|done]]].
  - injection Hr as <- <-. split; [lia|]. by intros ? [= <-].
  - apply bind_Val_inv in Hr as (r4 & [] & Hp4 & [= <- <-]). unfold send_pong in Hp4.
    case_bool_decide; [|done]. injection Hp4 as <-. split; [simpl; lia|done].
  - injection Hr as <- <-. split; [lia|done].
Qed.

Lemma read_rounds_fuel n m r :
  (bytes_left (segments (incoming r)) < n)%nat → (bytes_left (segments (incoming r)) < m)%nat →
  read_rounds n r = read_rounds m r.
Proof.
  revert m r. induction n as [|n IH]; intros [|m] r Hn Hm; try lia. cbn [read_rounds].
  unfold mbind, M_bind. destruct (read_frame r) as [r1 [[p|]|e|why|]] eqn:Hr; try done.
  destruct (read_frame_takes _ _ _ Hr) as [Ht _]. apply IH; lia.
Qed.

(** [Read] returns or waits for more bytes: it calls itself at most once for
    every four bytes that have arrived, so the fuel of the model is enough. *)
Theorem read_terminates fuel r :
  (bytes_left (segments (incoming r)) < fuel)%nat → read_rounds fuel r = RawSocketPeer_Read r.
Proof. intros Hf. apply read_rounds_fuel; [done|lia]. Qed.

(** Every ping or pong before a message is a call of [Read] within a call of
    [Read]: the depth grows with what the other end sends, which nothing bounds. *)
Theorem control_frames_nest_reads ctl p rest segs out ps n :
  sendable (ctl, p) → room (ps ++ pings ctl) n →
  text segs = frames ctl +:+ (frame (MessageWamp, p) +:+ rest) →
  (∃ r, read_rounds (length ctl) (mkReader (mkStream (map Ok segs) out) ps n) = (r, Blocks)) ∧
  ∃ r, read_rounds (S (length ctl)) (mkReader (mkStream (map Ok segs) out) ps n) = (r, Val p).
Proof.
  intros Hs Hroom Ht. destruct (sendable_good _ Hs) as (Hg & Hp & Hw). cbn [fst snd] in *. split.
  - clear Hw Hs. revert segs ps Hroom Ht.
    induction ctl as [|f ctl IH]; intros segs ps Hroom Ht; cbn [length read_rounds].
    { by eexists. }
    apply Forall_cons in Hg as [Hgf Hg]. unfold payloads in Hp. cbn in Hp.
    apply app_eq_nil in Hp as [Hpf Hp]. cbn [frames] in Ht. rewrite string_app_assoc in Ht.
    rewrite pings_cons in Hroom.
    destruct (read_frame_ok f _ segs out ps n Hgf (room_app _ _ _ _ Hroom) Ht) as (segs' & Hr & Ht').
    rewrite (bind_Val _ _ _ _ _ Hr). destruct (bool_decide (f.1 = MessageWamp)); [done|].
    rewrite (assoc_L app) in Hroom. by apply (IH Hg Hp _ _ Hroom).
  - destruct (read_rounds_run ctl p rest segs out ps n (S (length ctl)) Hg Hp Hw Hroom Ht ltac:(lia))
      as (segs' & Hr & _). by eexists.
Qed.

(** A payload of 16 MiB is accepted for writing, but its length does not fit in a
    header: no reader ever returns it. *)
Theorem largest_payload_is_never_read data (p : Peer) :
  blen data = maxRawSocketPayload → Peers.closed p = false →
  (RawSocketPeer_TryWrite data p).2 = Val (negb (chan_full p)) ∧
  ∀ fuel r r', read_rounds fuel r ≠ (r', Val data).
Proof.
  intros Hd Hc. split.
  - unfold RawSocketPeer_TryWrite, oversized. rewrite Hd.
    rewrite bool_decide_eq_false_2 by lia. erewrite bind_Val by done. rewrite Hc.
    unfold try_send. by destruct (chan_full p).
  - intros fuel. induction fuel as [|fuel IH]; intros r r'; cbn [read_rounds]; [done|].
    unfold mbind, M_bind. destruct (read_frame r) as [r1 [[q|]|e|why|]] eqn:Hr; try done.
    destruct (read_frame_takes _ _ _ Hr) as [_ Hq]. intros [= _ ->]. specialize (Hq _ eq_refl).
    rewrite Hd in Hq. unfold maxRawSocketPayload in Hq. lia.
Qed.

End FramesSpec.
