(* ===== verification/DeviceAuth.v ===== *)
(** * The authenticators of a device (xconn/auth.go, xconn/router.go)

    [Authenticator] knows the principals of the device by pointer, follows the
    key events of the cloud, and keeps the principals in a file.  A nil pointer
    can be stored for an authid.  The slices of authorized keys are values
    here: no two principals share one.  [standaloneAuthenticator] has a fixed
    set of keys and passwords. *)

From S2P Require Import Prelude GoStd Values Wamp Accessors Auth.

Local Open Scope string_scope.

Record CryptosignPrincipal := mkPrincipal {
  AuthID : string; AuthorizedKeys : list string; AuthRole : string }.

(** What [ReadPrincipalsFromFile] finds: the error that the file does not
    exist, another error, or a list, in which an entry may be null. *)
Inductive principals_file :=
| NotExist
| Unreadable (e : error)
| Principals (l : list (option CryptosignPrincipal)).

Record Authenticator := mkAuth {
  principalByAuthID : gmap string (option nat);
  (** the objects behind the pointers *)
  store : gmap nat CryptosignPrincipal;
  principalsFile : principals_file;
}.

Definition set_table (t : gmap string (option nat)) (a : Authenticator) : Authenticator :=
  mkAuth t (store a) (principalsFile a).
Definition set_store (s : gmap nat CryptosignPrincipal) (a : Authenticator) : Authenticator :=
  mkAuth (principalByAuthID a) s (principalsFile a).
Definition set_file (f : principals_file) (a : Authenticator) : Authenticator :=
  mkAuth (principalByAuthID a) (store a) f.

(** [principal.X] through a pointer. *)
Definition deref (p : option nat) : M Authenticator CryptosignPrincipal := λ a,
  match p with
  | Some l =>
      match store a !! l with
      | Some x => (a, Val x)
      | None => (a, Crash "invalid memory address or nil pointer dereference")
      end
  | None => (a, Crash "invalid memory address or nil pointer dereference")
  end.

Definition nil_pointer {A} : M Authenticator A :=
  crash "invalid memory address or nil pointer dereference".

(** ** Principals *)

Definition SetPrincipal (authid : string) (principal : option nat) : M Authenticator unit :=
  modify (λ a, set_table (<[authid := principal]> (principalByAuthID a)) a).

Definition RetrievePrincipal (authid : string) : M Authenticator (option (option nat)) :=
  get (λ a, principalByAuthID a !! authid).

(** [SetPrincipals] reads the authid of each principal; later entries win. *)
Fixpoint principals_table (ps : list (option nat)) (t : gmap string (option nat))
    : M Authenticator (gmap string (option nat)) :=
  match ps with
  | [] => mret t
  | p :: ps => x ← deref p; principals_table ps (<[AuthID x := p]> t)
  end.
Definition SetPrincipals (ps : list (option nat)) : M Authenticator unit :=
  t ← principals_table ps ∅; modify (set_table t).

(** The objects [json.Unmarshal] makes for the entries of a file. *)
Fixpoint allocate (ps : list (option CryptosignPrincipal)) : M Authenticator (list (option nat)) :=
  match ps with
  | [] => mret []
  | None :: ps => ls ← allocate ps; mret (None :: ls)
  | Some x :: ps =>
      l ← get (λ a, fresh (dom (store a)));
      modify (λ a, set_store (<[l := x]> (store a)) a);;
      ls ← allocate ps; mret (Some l :: ls)
  end.

Section DeviceAuth.
Context `{WampAuth} `{FloatConv} `{WampConstants} `{MapRange}.
(** What the file reads as after a list has been written to it. *)
Context (disk : list (option CryptosignPrincipal) → principals_file).

Definition WritePrincipalsToFile (ps : list (option CryptosignPrincipal)) : M Authenticator unit :=
  modify (set_file (disk ps)).

Definition Authenticate (request : Request) : M Authenticator Response :=
  let m := AuthMethod (fields request) in
  if bool_decide (m = MethodCryptoSign) then
    match request with
    | RequestCryptoSign f publicKey =>
        principal ← get (λ a, principalByAuthID a !! Auth.AuthID f);
        match principal with
        | None => fail ("unknown authid " +:+ Auth.AuthID f)
        | Some p =>
            principal ← deref p;
            if bool_decide (publicKey ∈ AuthorizedKeys principal)
            then of_result (NewResponse (Auth.AuthID f) (AuthRole principal) 0)
            else fail "unknown publickey"
        end
    | _ => fail "invalid request"
    end
  else fail ("unknown authentication method: " +:+ m).

(** ** Key events *)

(** The file's entry for an authid: the first one, replaced by [f]. *)
Fixpoint update_first (authid : string) (f : CryptosignPrincipal → CryptosignPrincipal)
    (ps : list (option CryptosignPrincipal))
    : M Authenticator (bool * list (option CryptosignPrincipal)) :=
  match ps with
  | [] => mret (false, [])
  | None :: _ => nil_pointer
  | Some p :: ps =>
      if bool_decide (AuthID p = authid) then mret (true, Some (f p) :: ps)
      else r ← update_first authid f ps; mret (r.1, Some p :: r.2)
  end.

Definition set_keys (keys : list string) (p : CryptosignPrincipal) : CryptosignPrincipal :=
  mkPrincipal (AuthID p) keys (AuthRole p).
Definition add_key (key : string) (p : CryptosignPrincipal) : CryptosignPrincipal :=
  set_keys (AuthorizedKeys p ++ [key]) p.

(** [principal.AuthorizedKeys = keys] *)
Definition assign_keys (p : option nat) (keys : CryptosignPrincipal → list string)
    : M Authenticator unit :=
  x ← deref p;
  modify (λ a, match p with
               | Some l => set_store (<[l := set_keys (keys x) x]> (store a)) a
               | None => a
               end).

(** An argument that cannot be parsed is logged and left empty. *)
Definition handleAddKey (event : Event.Event) : M Authenticator unit :=
  let authid := result_or "" (Event.ArgString event 0) in
  let pubKey := result_or "" (Event.ArgString event 1) in
  let authrole := result_or "" (Event.ArgString event 2) in
  found ← RetrievePrincipal authid;
  match found with
  | None => SetPrincipal authid None
  | Some principal =>
      assign_keys principal (λ x, (AuthorizedKeys x ++ [pubKey])%list);;
      SetPrincipal authid principal
  end;;
  file ← get principalsFile;
  match file with
  | NotExist | Unreadable _ => mret tt
  | Principals principals =>
      r ← update_first authid (add_key pubKey) principals;
      WritePrincipalsToFile
        (if (r.1 : bool) then r.2
         else r.2 ++ [Some (mkPrincipal authid [pubKey] authrole)])%list
  end.

(** [json.Unmarshal] of the JSON text of a deserialized value, into
    [map[string][]string]: null leaves the zero value. *)
Definition as_text (v : any) : option string :=
  match v with AString s => Some s | ANil => Some "" | _ => None end.
Definition as_texts (v : any) : option (list string) :=
  match v with
  | ANil => Some []
  | ASlice l => mapM as_text l
  | AStrings l => Some l
  | _ => None
  end.
Definition keys_by_authid (v : any) : option (gmap string (list string)) :=
  match v with
  | ANil => Some ∅
  | AMap m =>
      list_to_map <$> mapM (λ e, (λ ks, (e.1, ks)) <$> as_texts e.2) (map_to_list m)
  | _ => None
  end.

Definition kept (keysToRemove keys : list string) : list string :=
  filter (λ k, k ∉ keysToRemove) keys.

Fixpoint remove_keys (entries : list (string * list string))
    (principals : list (option CryptosignPrincipal))
    : M Authenticator (list (option CryptosignPrincipal)) :=
  match entries with
  | [] => mret principals
  | (authid, keysToRemove) :: entries =>
      found ← RetrievePrincipal authid;
      match found with
      | None => remove_keys entries principals
      | Some p =>
          x ← deref p;
          let filtered := kept keysToRemove (AuthorizedKeys x) in
          if bool_decide (length filtered = 0%nat) then
            modify (λ a, set_table (delete authid (principalByAuthID a)) a);;
            remove_keys entries principals
          else
            assign_keys p (λ _, filtered);;
            SetPrincipal authid p;;
            r ← update_first authid (set_keys filtered) principals;
            remove_keys entries r.2
      end
  end.

Definition handleRemoveKey (event : Event.Event) : M Authenticator unit :=
  match Event.Args event with
  | [] => crash "index out of range [0] with length 0"
  | v :: _ =>
      match keys_by_authid v with
      | None => mret tt
      | Some keysByAuthID =>
          file ← get principalsFile;
          match file with
          | NotExist | Unreadable _ => mret tt
          | Principals principals =>
              principals ← remove_keys (range_entries keysByAuthID) principals;
              WritePrincipalsToFile principals
          end
      end
  end.

(** The authenticator [runDeviceSession] makes when the device starts. *)
Definition NewAuthenticator_from_file : M Authenticator unit :=
  file ← get principalsFile;
  match file with
  | Unreadable e => fail e
  | NotExist => SetPrincipals []
  | Principals principals => ps ← allocate principals; SetPrincipals ps
  end.

End DeviceAuth.

(** ** The standalone authenticator *)

Module Standalone.
Section Standalone.
Context `{WampAuth}.

Definition standaloneAuthRole : string := "owner".

Record standaloneAuthenticator := mkStandalone {
  keys : gset string; passwords : gmap string string }.

Definition NewStandaloneAuthenticator (ks : list string) (ps : gmap string string)
    : standaloneAuthenticator := mkStandalone (list_to_set ks) ps.

Definition Methods (a : standaloneAuthenticator) : list string :=
  (if bool_decide (0 < size (keys a))%nat then [MethodCryptoSign] else []) ++
  (if bool_decide (0 < size (passwords a))%nat then [WAMPCRA] else []).

Definition Authenticate (a : standaloneAuthenticator) (request : Request) : result Response :=
  match request with
  | RequestCryptoSign f publicKey =>
      if bool_decide (publicKey ∈ keys a)
      then NewResponse (Auth.AuthID f) standaloneAuthRole 0 else Err "unknown publickey"
  | _ =>
      let f := fields request in
      if bool_decide (AuthMethod f ≠ WAMPCRA)
      then Err ("unsupported authmethod " +:+ AuthMethod f)
      else
        match passwords a !! Auth.AuthID f with
        | None => Err ("unknown authid " +:+ Auth.AuthID f)
        | Some password => Ok (NewCRAResponse (Auth.AuthID f) standaloneAuthRole password 0)
        end
  end.

(** Everybody who is let in is an owner, by a known key or with a password to prove. *)
Lemma standalone_lets_in `{!WampAuthOk} ks ps q resp :
  Authenticate (NewStandaloneAuthenticator ks ps) q = Ok resp →
  Response_AuthID resp = Auth.AuthID (fields q) ∧ Response_AuthRole resp = standaloneAuthRole ∧
  ((∃ f key, q = RequestCryptoSign f key ∧ key ∈ ks) ∨
   ∃ password, ps !! Auth.AuthID (fields q) = Some password ∧
     resp = NewCRAResponse (Auth.AuthID (fields q)) standaloneAuthRole password 0).
Proof.
  unfold Authenticate. destruct q as [f t|f key|f]; simpl.
  - case_bool_decide; [done|]. destruct (ps !! _) as [p|] eqn:Hp; [|done]. intros [= <-].
    destruct (NewCRAResponse_carries (Auth.AuthID f) standaloneAuthRole p 0). eauto 10.
  - case_bool_decide as Hk; [|done]. apply elem_of_list_to_set in Hk. intros Hr.
    destruct (NewResponse_carries _ _ _ _ Hr). eauto 10.
  - case_bool_decide; [done|]. destruct (ps !! _) as [p|] eqn:Hp; [|done]. intros [= <-].
    destruct (NewCRAResponse_carries (Auth.AuthID f) standaloneAuthRole p 0). eauto 10.
Qed.

End Standalone.
End Standalone.

(** ** Who is accepted *)

Section DeviceAuthSpec.
Context `{WampAuthOk} `{FloatConv} `{WampConstants} `{MapRange}.
Context (disk : list (option CryptosignPrincipal) → principals_file).

Implicit Types (a : Authenticator) (event : Event.Event).

(** The principal of an authid holds the key, with a role. *)
Definition authorized a (authid key role : string) : Prop :=
  ∃ l p, principalByAuthID a !! authid = Some (Some l) ∧ store a !! l = Some p ∧
         key ∈ AuthorizedKeys p ∧ AuthRole p = role.

(** C33. A device accepts exactly the cryptosign requests whose key is one of the
    authorized keys of the principal of their authid, with the role of the
    principal; a decision changes nothing. *)
Theorem device_accepts_authorized_keys a q :
  (Authenticate q a).1 = a ∧
  ∀ resp, (Authenticate q a).2 = Val resp ↔
    ∃ f key role, q = RequestCryptoSign f key ∧ AuthMethod f = MethodCryptoSign ∧
      authorized a (Auth.AuthID f) key role ∧ NewResponse (Auth.AuthID f) role 0 = Ok resp.
Proof.
  unfold Authenticate, authorized.
  case_bool_decide as Hm; [|split; [done|]; split; [done|]].
  2: { intros (f & key & role & -> & ? & _). done. }
  destruct q as [f t|f key|f]; simpl in Hm.
  1,3: split; [done|]; split; [done|]; intros (? & ? & ? & ? & _); done.
  unfold deref, get, mbind, M_bind, of_result, fail, mret, M_ret, crash.
  destruct (principalByAuthID a !! Auth.AuthID f) as [[l|]|] eqn:Hl; simpl.
  2,3: split; [done|]; split; [done|];
    intros (? & ? & ? & ? & _ & (? & ? & ? & _) & _); simplify_eq.
  destruct (store a !! l) as [p|] eqn:Hp; simpl.
  2: { split; [done|]. split; [done|]. intros (? & ? & ? & ? & _ & (? & ? & ? & ? & _) & _).
       simplify_eq. }
  case_bool_decide as Hk; simpl.
  - destruct (NewResponse (Auth.AuthID f) (AuthRole p) 0) as [r|e] eqn:Hr; simpl;
      (split; [done|]; split); intros Hx.
    + simplify_eq. exists f, key, (AuthRole p). eauto 10.
    + destruct Hx as (? & ? & ? & ? & _ & (? & ? & ? & ? & _ & <-) & ?); simplify_eq; congruence.
    + done.
    + destruct Hx as (? & ? & ? & ? & _ & (? & ? & ? & ? & _ & <-) & ?); simplify_eq; congruence.
  - split; [done|]. split; [done|]. intros (? & ? & ? & ? & _ & (? & ? & ? & ? & ? & _) & _).
    by simplify_eq.
Qed.

(** *** Removing keys *)

(** Principals and keys are only taken away. *)
Definition shrinks a a' : Prop :=
  (∀ authid p, principalByAuthID a' !! authid = Some p → principalByAuthID a !! authid = Some p) ∧
  (∀ l x', store a' !! l = Some x' → ∃ x, store a !! l = Some x ∧
     AuthRole x' = AuthRole x ∧ ∀ k, k ∈ AuthorizedKeys x' → k ∈ AuthorizedKeys x).

#[local] Instance shrinks_preorder : PreOrder shrinks.
Proof.
  split; [intros a; split; eauto|]. intros a b c [Ht1 Hs1] [Ht2 Hs2]. split; [auto|].
  intros l x Hx. destruct (Hs2 _ _ Hx) as (y & Hy & Hr & Hk).
  destruct (Hs1 _ _ Hy) as (z & Hz & Hr' & Hk'). exists z. split_and!; [done|congruence|auto].
Qed.

Lemma shrinks_authorized a a' authid key role :
  shrinks a a' → authorized a' authid key role → authorized a authid key role.
Proof.
  intros [Ht Hs] (l & x & Hl & Hx & Hk & <-). destruct (Hs _ _ Hx) as (y & Hy & -> & Hky).
  exists l, y. auto.
Qed.

Lemma update_first_state authid f ps a a' r :
  update_first authid f ps a = (a', Val r) → a' = a.
Proof.
  revert a' r. induction ps as [|[p|] ps IH]; intros a' r; simpl; [by intros [= <- _]| |done].
  case_bool_decide; [by intros [= <- _]|].
  intros (b & y & Hy & Hr)%bind_Val_inv. apply IH in Hy as ->. by injection Hr.
Qed.

Lemma deref_Val p a a' x :
  deref p a = (a', Val x) → a' = a ∧ ∃ l, p = Some l ∧ store a !! l = Some x.
Proof. unfold deref. intros. repeat case_match; simplify_eq. eauto. Qed.

Lemma elem_of_kept ks keys k : k ∈ kept ks keys ↔ (k ∉ ks) ∧ k ∈ keys.
Proof. unfold kept. by rewrite list_elem_of_filter. Qed.

(** One entry of the event. *)
Lemma remove_keys_step authid ks entries ps a a' ps' :
  remove_keys ((authid, ks) :: entries) ps a = (a', Val ps') →
  ∃ a1 ps1, remove_keys entries ps1 a1 = (a', Val ps') ∧ shrinks a a1 ∧
    ∀ key role, key ∈ ks → ¬ authorized a1 authid key role.
Proof.
  simpl. intros (? & found & [= <- <-] & Hr)%bind_Val_inv.
  destruct (principalByAuthID a !! authid) as [p|] eqn:Hp.
  2: { exists a, ps. split_and!; [done|done|]. intros key role _ (l & x & Hl & _). congruence. }
  apply bind_Val_inv in Hr as (? & x & (-> & l & -> & Hx)%deref_Val & Hr).
  case_bool_decide as Hlen.
  - apply bind_Val_inv in Hr as (? & ? & [= <- <-] & Hr). eexists _, _. split; [exact Hr|]. split.
    + split; simpl; [|by eauto]. intros i p Hi. by apply lookup_delete_Some in Hi as [_ ?].
    + intros key role _ (l' & y & Hl & _). simpl in Hl. by rewrite lookup_delete_eq in Hl.
  - apply bind_Val_inv in Hr as (? & [] & Hr1 & Hr).
    apply bind_Val_inv in Hr1 as (? & ? & (-> & l' & [= <-] & Hx')%deref_Val & [= <-]).
    simplify_eq.
    apply bind_Val_inv in Hr as (? & [] & [= <-] & Hr).
    apply bind_Val_inv in Hr as (? & r & ->%update_first_state & Hr).
    eexists _, _. split; [exact Hr|]. split; [split|]; simpl.
    + intros i p [[<- <-]|[_ ?]]%lookup_insert_Some; done.
    + intros i y [[<- <-]|[_ ?]]%lookup_insert_Some; [|by eauto]. exists x.
      split_and!; [done|done|]. simpl. by intros k [_ ?]%elem_of_kept.
    + intros key role Hk (i & y & Hi & Hy & Hin & _). simpl in *.
      rewrite lookup_insert_eq in Hi. simplify_eq. rewrite lookup_insert_eq in Hy.
      simplify_eq/=. by apply elem_of_kept in Hin as [? _].
Qed.

Lemma remove_keys_removes entries ps a a' ps' :
  remove_keys entries ps a = (a', Val ps') →
  shrinks a a' ∧
  ∀ authid ks key role, (authid, ks) ∈ entries → key ∈ ks → ¬ authorized a' authid key role.
Proof.
  revert ps a. induction entries as [|[authid ks] entries IH]; intros ps a Hr.
  { injection Hr as <- <-. split; [done|]. intros. set_solver. }
  apply remove_keys_step in Hr as (a1 & ps1 & Hr & Hs & Hno).
  apply IH in Hr as [Hs' Hno']. split; [by etrans|].
  intros i ks' key role [[= -> ->]|Hin]%elem_of_cons Hk; [|by eapply Hno'].
  intros Ha. eapply Hno, shrinks_authorized; eauto.
Qed.

(** A key event revokes: once it has been handled, with a readable file, none
    of the keys it lists for an authid is accepted for it, and no key is
    accepted that was not before. *)
Theorem removed_keys_are_refused event a a' v rest m l :
  Event.Args event = v :: rest → keys_by_authid v = Some m → principalsFile a = Principals l →
  handleRemoveKey disk event a = (a', Val tt) →
  (∀ authid ks key role, m !! authid = Some ks → key ∈ ks → ¬ authorized a' authid key role) ∧
  (∀ authid key role, authorized a' authid key role → authorized a authid key role).
Proof.
  unfold handleRemoveKey. intros -> -> Hfile.
  intros (? & ? & [= <- <-] & Hr)%bind_Val_inv. rewrite Hfile in Hr.
  apply bind_Val_inv in Hr as (a1 & ps & [Hs Hno]%remove_keys_removes & [= <-]). split.
  - intros authid ks key role Hm Hk (i & p & Ha). eapply (Hno authid ks key role); [|done|by exists i, p].
    rewrite (range_entries_perm m). by apply elem_of_map_to_list.
  - intros authid key role (i & p & Ha). apply (shrinks_authorized a a1); [done|]. by exists i, p.
Qed.

(** Without a readable file a key event changes nothing: its keys stay accepted. *)
Lemma revocation_needs_the_file event a v rest :
  Event.Args event = v :: rest → (∀ l, principalsFile a ≠ Principals l) →
  handleRemoveKey disk event a = (a, Val tt).
Proof.
  unfold handleRemoveKey. intros -> Hfile. destruct (keys_by_authid v); [|done].
  erewrite bind_Val by done. destruct (principalsFile a) eqn:Hf; [done..|]. by destruct (Hfile l).
Qed.

(** *** Starting from the file *)

Lemma allocate_objects qs a :
  ∃ a' ls, allocate (map Some qs) a = (a', Val (map Some ls)) ∧
    principalsFile a' = principalsFile a ∧
    (∀ i x, store a !! i = Some x → store a' !! i = Some x) ∧
    Forall2 (λ l q, store a' !! l = Some q) ls qs.
Proof.
  revert a. induction qs as [|q qs IH]; intros a; simpl; [by exists a, []|].
  set (l := fresh (dom (store a))).
  assert (store a !! l = None) as Hl by apply not_elem_of_dom, is_fresh.
  destruct (IH (set_store (<[l := q]> (store a)) a)) as (a' & ls & Hr & Hf & Hs & Hall).
  exists a', (l :: ls). split_and!; [|done| |].
  - erewrite bind_Val by done. erewrite bind_Val by done. erewrite bind_Val by exact Hr. done.
  - intros i x Hi. apply Hs. simpl. rewrite lookup_insert_ne; [done|]. congruence.
  - constructor; [|done]. apply Hs. apply lookup_insert_eq.
Qed.

Lemma principals_table_run ls qs t a :
  Forall2 (λ l q, store a !! l = Some q) ls qs →
  ∃ t', principals_table (map Some ls) t a = (a, Val t') ∧
    (∀ i, i ∉ map AuthID qs → t' !! i = t !! i) ∧
    (∀ qs1 q qs2, qs = (qs1 ++ q :: qs2)%list → AuthID q ∉ map AuthID qs2 →
       ∃ l, t' !! AuthID q = Some (Some l) ∧ store a !! l = Some q).
Proof.
  intros Hall. revert t. induction Hall as [|l q ls qs Hl _ IH]; intros t; simpl.
  { exists t. split_and!; [done|done|]. intros [] ? ? ?; simplify_eq/=. }
  destruct (IH (<[AuthID q := Some l]> t)) as (t' & Hr & Hout & Hin).
  exists t'. split_and!.
  - erewrite bind_Val by (unfold deref; by rewrite Hl). exact Hr.
  - intros i Hi. rewrite Hout by set_solver. apply lookup_insert_ne. set_solver.
  - intros [|q' qs1] r qs2 Heq Hr'; simplify_eq/=; [|by eapply Hin].
    exists l. split; [|done]. rewrite Hout by done. apply lookup_insert_eq.
Qed.

Lemma start_authorizes qs1 q qs2 a :
  principalsFile a = Principals (map Some (qs1 ++ q :: qs2)%list) → AuthID q ∉ map AuthID qs2 →
  ∃ a', NewAuthenticator_from_file a = (a', Val tt) ∧
    ∀ key, key ∈ AuthorizedKeys q → authorized a' (AuthID q) key (AuthRole q).
Proof.
  intros Hf Hq. unfold NewAuthenticator_from_file. erewrite bind_Val by done. rewrite Hf.
  destruct (allocate_objects (qs1 ++ q :: qs2)%list a) as (a1 & ls & Hr & _ & _ & Hall).
  erewrite bind_Val by exact Hr.
  destruct (principals_table_run ls _ ∅ a1 Hall) as (t & Ht & _ & Hin).
  destruct (Hin qs1 q qs2 eq_refl Hq) as (l & Hl & Hs).
  unfold SetPrincipals. eexists. split; [erewrite bind_Val by exact Ht; done|].
  intros key Hk. exists l, q. auto.
Qed.

(** Revoking all the keys of a principal lasts until the device restarts: the
    principal leaves the table but its entry stays in the file, from which the
    next start authorizes its keys again. *)
Theorem last_keys_return_at_restart event a v rest authid ks l p qs1 q qs2 :
  (∀ ps, disk ps = Principals ps) →
  Event.Args event = v :: rest → keys_by_authid v = Some {[authid := ks]} →
  principalByAuthID a !! authid = Some (Some l) → store a !! l = Some p →
  (∀ k, k ∈ AuthorizedKeys p → k ∈ ks) →
  principalsFile a = Principals (map Some (qs1 ++ q :: qs2)%list) →
  AuthID q = authid → authid ∉ map AuthID qs2 →
  ∃ a' a'', handleRemoveKey disk event a = (a', Val tt) ∧
    (∀ key role, ¬ authorized a' authid key role) ∧
    NewAuthenticator_from_file a' = (a'', Val tt) ∧
    ∀ key, key ∈ AuthorizedKeys q → authorized a'' authid key (AuthRole q).
Proof.
  intros Hdisk Hargs Hkeys Ht Hs Hall Hf <- Hlast. unfold handleRemoveKey. rewrite Hargs, Hkeys.
  assert (range_entries {[AuthID q := ks]} = [(AuthID q, ks)]) as ->.
  { apply Permutation_singleton_r. rewrite range_entries_perm. by rewrite map_to_list_singleton. }
  set (a1 := set_file (principalsFile a) (set_table (delete (AuthID q) (principalByAuthID a)) a)).
  destruct (start_authorizes qs1 q qs2 a1) as (a2 & Hrun & Hauth); [done|done|].
  exists a1, a2. split_and!; [|..|done|done].
  - erewrite bind_Val by done. rewrite Hf. erewrite bind_Val; [unfold WritePrincipalsToFile|].
    2: { simpl. erewrite bind_Val by done. rewrite Ht.
         erewrite bind_Val by (unfold deref; by rewrite Hs).
         rewrite bool_decide_eq_true_2; [by erewrite bind_Val by done|].
         apply length_zero_iff_nil, elem_of_nil_inv. intros k [? ?]%elem_of_kept. auto. }
    unfold modify, a1. by rewrite Hdisk, Hf.
  - intros key role (i & x & Hi & _). simpl in Hi. by rewrite lookup_delete_eq in Hi.
Qed.

(** *** Adding keys *)

Lemma update_first_run authid f qs a :
  ∃ r, update_first authid f (map Some qs) a = (a, Val r).
Proof.
  induction qs as [|q qs [r IH]]; simpl; [by eexists|]. case_bool_decide; [by eexists|].
  erewrite bind_Val by exact IH. by eexists.
Qed.

(** A key added for an authid the device does not know stores a nil
    principal: the client that uses the key, and the next key event for that
    authid, panic.  Only a restart, from the file, makes the principal usable. *)
Theorem new_principal_is_nil event a authid qs :
  Event.ArgString event 0 = Ok authid → principalByAuthID a !! authid = None →
  principalsFile a = Principals (map Some qs) →
  ∃ a', handleAddKey disk event a = (a', Val tt) ∧
    (∀ f key, AuthMethod f = MethodCryptoSign → Auth.AuthID f = authid →
       ∃ why, (Authenticate (RequestCryptoSign f key) a').2 = Crash why) ∧
    (∀ event', Event.ArgString event' 0 = Ok authid →
       ∃ why, (handleAddKey disk event' a').2 = Crash why).
Proof.
  intros Hi Ht Hf. unfold handleAddKey at 1. rewrite Hi. simpl.
  destruct (update_first_run authid
    (add_key (result_or "" (Event.ArgString event 1))) qs
    (set_table (<[authid := None]> (principalByAuthID a)) a)) as [r Hr].
  eexists. split; [|split].
  - erewrite bind_Val by done. rewrite Ht. erewrite bind_Val by done. erewrite bind_Val by done.
    simpl. rewrite Hf. erewrite bind_Val by exact Hr. done.
  - intros f key Hm <-. unfold Authenticate. simpl. rewrite Hm, bool_decide_eq_true_2 by done.
    erewrite bind_Val by done. simpl. rewrite lookup_insert_eq. by eexists.
  - intros event' Hi'. unfold handleAddKey. rewrite Hi'. simpl. erewrite bind_Val by done. simpl.
    rewrite lookup_insert_eq. by eexists.
Qed.

End DeviceAuthSpec.
