(* ===== verification/DeviceExamples.v ===== *)
(** * A sample device

    A device that knows one principal with one key, and the events that add
    and remove keys. *)

From S2P Require Import Prelude GoStd Values Wamp Accessors Sample Auth DeviceAuth.

Local Open Scope string_scope.

Definition alice : CryptosignPrincipal := mkPrincipal "alice" ["k1"] "admin".

Definition sample_device : Authenticator :=
  mkAuth {["alice" := Some 0%nat]} {[0%nat := alice]} (Principals [Some alice]).

Definition sample_disk (ps : list (option CryptosignPrincipal)) : principals_file := Principals ps.

Definition removed : any := AMap {["alice" := ASlice [AString "k1"]]}.
Definition remove_event : Event.Event := Event.NewEvent [removed] ∅ ∅.
Definition add_event : Event.Event :=
  Event.NewEvent [AString "bob"; AString "k2"; AString "user"] ∅ ∅.

Definition sign_in (key : string) : Request :=
  RequestCryptoSign
    {| AuthMethod := "cryptosign"; Realm := "realm1"; Auth.AuthID := "alice" |} key.

Example alice_signs_in :
  (Authenticate (sign_in "k1") sample_device).2 =
  Val {| sr_authid := "alice"; sr_role := "admin"; sr_secret := ""; sr_ttl := 0 |}.
Proof. reflexivity. Qed.

Example device_accepts_authorized_keys_witness :
  (Authenticate (sign_in "k2") sample_device).1 = sample_device ∧
  ∀ resp, (Authenticate (sign_in "k2") sample_device).2 = Val resp ↔
    ∃ f key role, sign_in "k2" = RequestCryptoSign f key ∧ AuthMethod f = MethodCryptoSign ∧
      authorized sample_device (Auth.AuthID f) key role ∧
      NewResponse (Auth.AuthID f) role 0 = Ok resp.
Proof. apply (device_accepts_authorized_keys sample_device (sign_in "k2")). Defined.

Example removed_keys_are_refused_witness :
  ∃ a', handleRemoveKey sample_disk remove_event sample_device = (a', Val tt) ∧
    (∀ authid ks key role, ({["alice" := ["k1"]]} : gmap string (list string)) !! authid = Some ks →
       key ∈ ks → ¬ authorized a' authid key role) ∧
    (∀ authid key role, authorized a' authid key role → authorized sample_device authid key role).
Proof.
  eexists. split; [vm_compute; reflexivity|].
  apply (removed_keys_are_refused sample_disk remove_event sample_device _ removed [] _ [Some alice]);
    reflexivity.
Defined.

Example last_keys_return_at_restart_witness :
  ∃ a' a'', handleRemoveKey sample_disk remove_event sample_device = (a', Val tt) ∧
    (∀ key role, ¬ authorized a' "alice" key role) ∧
    NewAuthenticator_from_file a' = (a'', Val tt) ∧
    ∀ key, key ∈ ["k1"] → authorized a'' "alice" key "admin".
Proof.
  apply (last_keys_return_at_restart sample_disk remove_event sample_device removed [] "alice" ["k1"]
    0 alice [] alice []); try done. by intros ?%elem_of_nil.
Defined.

Example new_principal_is_nil_witness :
  ∃ a', handleAddKey sample_disk add_event sample_device = (a', Val tt) ∧
    (∀ f key, AuthMethod f = MethodCryptoSign → Auth.AuthID f = "bob" →
       ∃ why, (Authenticate (RequestCryptoSign f key) a').2 = Crash why) ∧
    (∀ event', Event.ArgString event' 0 = Ok "bob" →
       ∃ why, (handleAddKey sample_disk event' a').2 = Crash why).
Proof.
  apply (new_principal_is_nil sample_disk add_event sample_device "bob" [alice]); vm_compute;
    reflexivity.
Defined.
