(* ===== verification/Realm.v ===== *)
(** * Realms (realm.go)

    A realm routes the messages of its clients through the broker and the
    dealer of wampproto-go, after checking them against the permissions of
    the sender's role.  The state a call works on is the realm and the states
    behind the session pointers ([net]); every write to a session may be
    refused, and the theorems say what happens then. *)

From stdpp Require Import functions.
From S2P Require Import Prelude GoStd Wamp Permissions Peers.

Local Open Scope string_scope.

(** Constants of wamp.go. *)
Definition CloseGoodByeAndOut : string := "wamp.close.goodbye_and_out".
Definition CloseCloseRealm : string := "wamp.close.close_realm".
Definition CloseSystemShutdown : string := "wamp.close.system_shutdown".
Definition ErrNetworkFailure : string := "wamp.error.network_failure".

Section Realm.
Context `{WampMessages} `{!WampSerializers} `{!WampRouting} `{WampConstants}.
Context {St : Type} `{!SessionOps St}.

(** [Authorize(baseSession, msg) (bool, error)]. *)
Definition Authorizer : Type := BaseSession → Message → bool * option error.

Record Realm := mkRealm {
  broker : Broker;
  dealer : Dealer;
  clients : gmap Z BaseSession;
  roles : gmap string RealmRole;
  authorizer : option Authorizer;
}.

(** A realm and the session states it writes to. *)
Record RealmW := mkW { rlm : Realm; net : nat → St }.

Definition set_broker (b : Broker) (r : Realm) : Realm :=
  mkRealm b (dealer r) (clients r) (roles r) (authorizer r).
Definition set_dealer (d : Dealer) (r : Realm) : Realm :=
  mkRealm (broker r) d (clients r) (roles r) (authorizer r).
Definition set_clients (c : gmap Z BaseSession) (r : Realm) : Realm :=
  mkRealm (broker r) (dealer r) c (roles r) (authorizer r).
Definition set_roles (x : gmap string RealmRole) (r : Realm) : Realm :=
  mkRealm (broker r) (dealer r) (clients r) x (authorizer r).

Definition on_broker {A} : M Broker A → M RealmW A :=
  zoom (λ w, broker (rlm w)) (λ b w, mkW (set_broker b (rlm w)) (net w)).
Definition on_dealer {A} : M Dealer A → M RealmW A :=
  zoom (λ w, dealer (rlm w)) (λ d w, mkW (set_dealer d (rlm w)) (net w)).
Definition on_realm (f : Realm → Realm) : M RealmW unit :=
  modify (λ w, mkW (f (rlm w)) (net w)).
(** A method call on a session: it acts on the state behind its pointer. *)
Definition on_session {A} (b : BaseSession) : M St A → M RealmW A :=
  zoom (λ w, net w (ref b)) (λ s w, mkW (rlm w) (<[ref b := s]> (net w))).

Definition load_client (id : Z) : M RealmW (option BaseSession) :=
  get (λ w, clients (rlm w) !! id).

(** ** Operations *)

Definition NewRealm : Realm := mkRealm NewBroker NewDealer ∅ ∅ None.

Definition session_details (w : RealmW) (base : BaseSession) : SessionDetails :=
  NewSessionDetails (ID base) (Realm_ base) (AuthID base) (AuthRole base)
    (AuthMethod base) (Static (session_serializer (net w (ref base)))) (AuthExtra base).

Definition AttachClient (base : BaseSession) : M RealmW unit :=
  on_realm (λ r, set_clients (<[ID base := base]> (clients r)) r);;
  details ← get (λ w, session_details w base);
  on_broker (Broker_AddSession details);;
  on_dealer (Dealer_AddSession details).

Definition DetachClient (base : BaseSession) : M RealmW unit :=
  on_realm (λ r, set_clients (delete (ID base) (clients r)) r);;
  on_broker (Broker_RemoveSession (ID base));;
  on_dealer (Dealer_RemoveSession (ID base)).

Definition AutoDiscloseCaller (disclose : bool) (r : Realm) : Realm :=
  set_dealer (Dealer_AutoDiscloseCaller disclose (dealer r)) r.

Definition AutoDisclosePublisher (disclose : bool) (r : Realm) : Realm :=
  set_broker (Broker_AutoDisclosePublisher disclose (broker r)) r.

Definition AddRole (role : RealmRole) (r : Realm) : result Realm :=
  match roles r !! Name role with
  | Some _ => Err ("role '" +:+ Name role +:+ "' already exists")
  | None => Ok (set_roles (<[Name role := role]> (roles r)) r)
  end.

Definition RemoveRole (role : string) (r : Realm) : result Realm :=
  match roles r !! role with
  | None => Err ("role " +:+ role +:+ " does not exists")
  | Some _ => Ok (set_roles (delete role (roles r)) r)
  end.

Definition HasRole (role : string) (r : Realm) : bool := bool_decide (is_Some (roles r !! role)).

Definition SetAuthorizer (a : Authorizer) (r : Realm) : Realm :=
  mkRealm (broker r) (dealer r) (clients r) (roles r) (Some a).

Definition isAuthorized (roleName : string) (msgType : Z) (uri : string) (r : Realm) : bool :=
  match roles r !! roleName with
  | None => false
  | Some role => existsb (λ perm, Allows perm msgType && MatchURI perm uri) (Permissions role)
  end.

Definition authorization_error (msg : Message) (requestID : Z) (authErr : option error) : Message :=
  NewError (Message_Type msg) requestID ∅ ErrAuthorizationFailed
    (match authErr with Some e => [AString e] | None => [] end) ∅.

Definition authorize (baseSession : BaseSession) (msg : Message) (uri : string)
    (requestID : Z) (sendMsg : bool) : M RealmW bool :=
  r ← get rlm;
  if isAuthorized (AuthRole baseSession) (Message_Type msg) uri r then mret true
  else
    let '(ok, authErr) :=
      match authorizer r with
      | Some f => f baseSession msg
      | None => (false, None)
      end in
    if (ok : bool) then mret true
    else if negb sendMsg then mret false
    else
      on_session baseSession
        (TryWriteMessage (authorization_error msg requestID authErr));;
      mret false.

Definition handleCancel (baseSession : BaseSession) (cancel : Message) : M RealmW unit :=
  msgs ← on_dealer (Dealer_ReceiveCancel (ID baseSession) cancel);
  for_M (λ msg,
    client ← load_client (mt_recipient msg);
    match client with
    | None => mret tt
    | Some c => on_session c (TryWriteMessage (mt_message msg));; mret tt
    end) msgs.

Definition network_failure_error (msg : Message) (callMsg : call_msg) : Message :=
  NewError (Message_Type msg) (call_id callMsg) ∅ ErrNetworkFailure
    [AString "callee blocked, cannot call procedure"] ∅.

Definition type_assertion {A} : M RealmW A := crash "interface conversion".

Definition handleDealerBoundMessage (baseSession : BaseSession) (msg : Message)
    : M RealmW unit :=
  msgWithRecipient ← on_dealer (Dealer_ReceiveMessage (ID baseSession) msg);
  match msgWithRecipient with
  | None => mret tt
  | Some mr =>
      client ← load_client (mt_recipient mr);
      match client with
      | None => fail ("could not find client for recipient: " +:+ pretty (mt_recipient mr))
      | Some c =>
          success ← on_session c (TryWriteMessage (mt_message mr));
          if (success : bool) then mret tt
          else if bool_decide (Message_Type msg = MessageTypeCall) then
            caller ← load_client (ID baseSession);
            match caller with
            | None => mret tt
            | Some caller =>
                match view msg with
                | VCall callMsg =>
                    ignore (on_session caller
                      (TryWriteMessage (network_failure_error msg callMsg)))
                | _ => type_assertion
                end
            end
          else mret tt
      end
  end.

Definition handleBrokerBoundMessage (baseSession : BaseSession) (msg : Message)
    : M RealmW unit :=
  mr ← on_broker (Broker_ReceiveMessage (ID baseSession) msg);
  client ← load_client (mt_recipient mr);
  match client with
  | None => fail ("could not find client for recipient: " +:+ pretty (mt_recipient mr))
  | Some c => on_session c (TryWriteMessage (mt_message mr));; mret tt
  end.

(** One write of a publication: to a client that is still there, whatever the
    outcome of the write. *)
Definition deliver (recipientID : Z) (m : Message) : M RealmW unit :=
  client ← load_client recipientID;
  match client with
  | None => mret tt
  | Some c => ignore (on_session c (TryWriteMessage m))
  end.

Definition handlePublish (baseSession : BaseSession) (msg : Message) : M RealmW unit :=
  publication ← on_broker (Broker_ReceivePublish (ID baseSession) msg);
  for_M (λ recipientID, deliver recipientID (p_event publication)) (p_recipients publication);;
  match p_ack publication with
  | None => mret tt
  | Some ack => deliver (mt_recipient ack) (mt_message ack)
  end.

(** [authorized, err := r.authorize(...); if err != nil || !authorized]. *)
Definition when_authorized (authorized : M RealmW bool) (handle : M RealmW unit)
    : M RealmW unit :=
  ok ← authorized; if (ok : bool) then handle else mret tt.

Definition ReceiveMessage (baseSession : BaseSession) (msg : Message) : M RealmW unit :=
  let t := Message_Type msg in
  if bool_decide (t = MessageTypeCall) then
    match view msg with
    | VCall call =>
        when_authorized
          (authorize baseSession msg (call_procedure call) (call_id call) true)
          (handleDealerBoundMessage baseSession msg)
    | _ => type_assertion
    end
  else if bool_decide (t = MessageTypeRegister) then
    match view msg with
    | VRegister reg =>
        when_authorized
          (authorize baseSession msg (register_procedure reg) (register_id reg) true)
          (handleDealerBoundMessage baseSession msg)
    | _ => type_assertion
    end
  else if bool_decide (t = MessageTypeYield ∨ t = MessageTypeUnregister ∨ t = MessageTypeError)
  then handleDealerBoundMessage baseSession msg
  else if bool_decide (t = MessageTypeCancel) then
    match view msg with
    | VCancel => handleCancel baseSession msg
    | _ => type_assertion
    end
  else if bool_decide (t = MessageTypeSubscribe) then
    match view msg with
    | VSubscribe sub =>
        when_authorized
          (authorize baseSession msg (subscribe_topic sub) (subscribe_id sub) true)
          (handleBrokerBoundMessage baseSession msg)
    | _ => type_assertion
    end
  else if bool_decide (t = MessageTypeUnsubscribe) then handleBrokerBoundMessage baseSession msg
  else if bool_decide (t = MessageTypePublish) then
    match view msg with
    | VPublish publish =>
        let acknowledge :=
          ToBool (default ANil (publish_options publish !! "acknowledge")) in
        when_authorized
          (authorize baseSession msg (publish_topic publish) (publish_id publish) acknowledge)
          (handlePublish baseSession msg)
    | _ => type_assertion
    end
  else if bool_decide (t = MessageTypeGoodbye) then
    on_session baseSession (TryWriteMessage (NewGoodBye CloseGoodByeAndOut ∅));;
    ignore (on_session baseSession CloseSession)
  else fail ("unknown message type: " +:+ pretty t).

Definition close_client (client : BaseSession) : M RealmW unit :=
  ignore (on_session client (TryWriteMessage (NewGoodBye CloseSystemShutdown ∅)));;
  ignore (on_session client CloseSession);;
  ignore (DetachClient client).

(** [Close] drops every client: the map is visited once in some order. *)
Definition Close `{MapRange} : M RealmW unit :=
  cs ← get (λ w, range_entries (clients (rlm w)));
  for_M (λ e, close_client e.2) cs.

End Realm.

(** ** What the operations promise *)

Section RealmSpec.
Context `{WampMessagesOk} `{!WampSerializers} `{!WampRouting} `{!WampRoutingOk}
  `{WampConstants} {St : Type} `{!SessionOps St} `{!SessionOpsOk (St := St)}.

Implicit Types (w : RealmW (St := St)) (r : Realm) (b c : BaseSession) (msg : Message).

Lemma on_session_run {A} c (m : M St A) w :
  on_session c m w =
  (mkW (rlm w) (<[ref c := (m (net w (ref c))).1]> (net w)), (m (net w (ref c))).2).
Proof. unfold on_session. by rewrite zoom_run. Qed.

Lemma on_session_ends {A} c (m : M St A) : ends m → ends (on_session c m).
Proof. apply ends_zoom. Qed.
Lemma on_broker_ends {A} (m : M Broker A) : ends m → ends (on_broker (St := St) m).
Proof. apply ends_zoom. Qed.
Lemma on_dealer_ends {A} (m : M Dealer A) : ends m → ends (on_dealer (St := St) m).
Proof. apply ends_zoom. Qed.
Hint Resolve on_session_ends on_broker_ends on_dealer_ends : go.

(** *** Publication *)

(** The writes a publication asks for, in order. *)
Definition deliveries (p : publication) : list (Z * Message) :=
  map (λ i, (i, p_event p)) (p_recipients p) ++
  match p_ack p with Some a => [(mt_recipient a, mt_message a)] | None => [] end.

(** Those that reach the session behind pointer [q]. *)
Definition messages_to r (q : nat) (ds : list (Z * Message)) : list Message :=
  omap (λ d, match clients r !! d.1 with
             | Some c => if bool_decide (ref c = q) then Some d.2 else None
             | None => None
             end) ds.

Definition write_all (ms : list Message) (s : St) : St :=
  for_state (λ s m, (TryWriteMessage m s).1) ms s.

Lemma deliver_run i m w :
  (deliver i m w).2 = Val tt ∧ rlm (deliver i m w).1 = rlm w ∧
  ∀ q, net (deliver i m w).1 q = write_all (messages_to (rlm w) q [(i, m)]) (net w q).
Proof.
  unfold deliver, load_client, messages_to, get, mbind, M_bind. simpl.
  destruct (clients (rlm w) !! i) as [c|]; simpl; [|done].
  rewrite ignore_run by eauto with go. rewrite on_session_run. simpl.
  split_and!; [done..|]. intros q.
  case_bool_decide as Hq; subst; simpl.
  - by rewrite fn_lookup_insert.
  - by rewrite fn_lookup_insert_ne.
Qed.

Lemma messages_to_app r q ds ds' :
  messages_to r q (ds ++ ds')%list = (messages_to r q ds ++ messages_to r q ds')%list.
Proof. unfold messages_to. by rewrite omap_app. Qed.

Lemma messages_to_cons r q d ds :
  messages_to r q (d :: ds) = (messages_to r q [d] ++ messages_to r q ds)%list.
Proof. apply (messages_to_app r q [d] ds). Qed.

Lemma deliver_all_run ds w :
  let w' := (for_M (λ d, deliver d.1 d.2) ds w).1 in
  (for_M (λ d, deliver d.1 d.2) ds w).2 = Val tt ∧ rlm w' = rlm w ∧
  ∀ q, net w' q = write_all (messages_to (rlm w) q ds) (net w q).
Proof.
  revert w. induction ds as [|[i m] ds IH]; intros w; [done|]. cbn [for_M fst snd].
  destruct (deliver_run i m w) as (Hv & Hr & Hn).
  destruct (deliver i m w) as [w1 v1] eqn:Hd. simpl in Hv, Hr, Hn. subst v1.
  rewrite (bind_Val _ _ _ _ _ Hd).
  destruct (IH w1) as (Hv' & Hr' & Hn'). split_and!; [done|congruence|].
  intros q. rewrite (messages_to_cons _ _ (i, m)), Hn', Hn, Hr.
  unfold write_all. by rewrite for_state_app.
Qed.

Lemma handlePublish_run b msg w br pub :
  Broker_ReceivePublish (ID b) msg (broker (rlm w)) = (br, Val pub) →
  let w' := (handlePublish b msg w).1 in
  (handlePublish b msg w).2 = Val tt ∧ rlm w' = set_broker br (rlm w) ∧
  ∀ q, net w' q = write_all (messages_to (rlm w) q (deliveries pub)) (net w q).
Proof.
  intros Hp. set (w1 := mkW (set_broker br (rlm w)) (net w)).
  assert (handlePublish b msg w = for_M (λ d, deliver d.1 d.2) (deliveries pub) w1) as ->.
  { unfold handlePublish. erewrite bind_Val by (unfold on_broker, zoom; by rewrite Hp).
    unfold deliveries. rewrite for_M_app.
    unfold mbind, M_bind. rewrite for_M_map. simpl.
    destruct (for_M _ (p_recipients pub) _) as [w2 [[]|?|?|]]; try done.
    destruct (p_ack pub) as [a|]; [|done]. simpl. unfold mbind, M_bind.
    destruct (deliver_run (mt_recipient a) (mt_message a) w2) as [Hv _].
    destruct (deliver _ _ w2) as [w3 v]. simpl in *. by subst. }
  apply (deliver_all_run (deliveries pub) w1).
Qed.

(** Distinct clients have distinct sessions. *)
Definition distinct_refs r : Prop :=
  ∀ i j c c', clients r !! i = Some c → clients r !! j = Some c' → ref c = ref c' → i = j.

Lemma messages_to_client r i c ds :
  distinct_refs r → clients r !! i = Some c →
  messages_to r (ref c) ds = map snd (filter (λ d, d.1 = i) ds).
Proof.
  intros Hd Hi. induction ds as [|[j m] ds IH]; [done|].
  rewrite messages_to_cons, filter_cons, IH. unfold messages_to. simpl.
  destruct (decide (j = i)) as [->|Hne].
  - rewrite Hi. by rewrite bool_decide_true.
  - destruct (clients r !! j) as [c'|] eqn:Hj; [|done].
    rewrite bool_decide_false; [done|]. intros Hr. by apply Hne, (Hd j i c' c).
Qed.

Lemma filter_no_recipients i (m : Message) l :
  i ∉ l → filter (λ d : Z * Message, d.1 = i) (map (λ j, (j, m)) l) = [].
Proof.
  intros Hj. induction l as [|j l IH]; [done|]. simpl. rewrite filter_cons. simpl.
  rewrite decide_False by set_solver. apply IH. set_solver.
Qed.

Lemma filter_recipients i (m : Message) l :
  NoDup l → i ∈ l → map snd (filter (λ d : Z * Message, d.1 = i) (map (λ j, (j, m)) l)) = [m].
Proof.
  intros Hnd Hin. induction Hnd as [|j l Hj Hnd IH]; [set_solver|]. simpl.
  rewrite filter_cons. simpl. destruct (decide (j = i)) as [->|Hne].
  - simpl. by rewrite filter_no_recipients.
  - apply IH. set_solver.
Qed.

(** C2. A publication, when the broker names each recipient once and the publisher is
    none of them, is delivered to each attached recipient exactly once: the
    session gets the event at the end of its queue if it accepts it, whatever
    the other recipients do.  Sessions that are neither recipients nor the
    publisher waiting for the acknowledgement are left alone, and the call
    itself succeeds even when every write is refused. *)
Theorem event_reaches_each_subscriber b msg w br pub :
  Broker_ReceivePublish (ID b) msg (broker (rlm w)) = (br, Val pub) →
  distinct_refs (rlm w) → NoDup (p_recipients pub) →
  match p_ack pub with Some a => mt_recipient a ∉ p_recipients pub | None => True end →
  let w' := (handlePublish b msg w).1 in
  (handlePublish b msg w).2 = Val tt ∧ rlm w' = set_broker br (rlm w) ∧
  ∀ i c, clients (rlm w) !! i = Some c →
    (i ∈ p_recipients pub →
      outbox (net w' (ref c)) =
        (outbox (net w (ref c)) ++ queued (net w (ref c)) (p_event pub))%list) ∧
    (i ∉ p_recipients pub → (∀ a, p_ack pub = Some a → mt_recipient a ≠ i) →
      net w' (ref c) = net w (ref c)).
Proof.
  intros Hp Hd Hnd Hack. destruct (handlePublish_run b msg w br pub Hp) as (Hv & Hr & Hn).
  split_and!; [done..|]. intros i c Hc. rewrite Hn, (messages_to_client _ i) by done.
  unfold deliveries. rewrite filter_app, map_app.
  assert ((∀ a, p_ack pub = Some a → mt_recipient a ≠ i) →
    filter (λ d : Z * Message, d.1 = i)
      match p_ack pub with Some a => [(mt_recipient a, mt_message a)] | None => [] end = [])
    as Hno.
  { intros Ha. destruct (p_ack pub) as [a|]; [|done]. rewrite filter_cons. simpl.
    rewrite decide_False; [done|auto]. }
  split.
  - intros Hi. rewrite Hno, filter_recipients by (done || (intros a Ha <-; by rewrite Ha in Hack)).
    apply TryWriteMessage_outbox.
  - intros Hi Ha. rewrite Hno, filter_no_recipients by done. done.
Qed.

(** *** Authorization *)

(** What a message asks permission for: the URI, the request to answer, and
    whether a refusal is answered. *)
Definition permission_needed msg : option (string * Z * bool) :=
  match view msg with
  | VCall m => Some (call_procedure m, call_id m, true)
  | VRegister m => Some (register_procedure m, register_id m, true)
  | VSubscribe m => Some (subscribe_topic m, subscribe_id m, true)
  | VPublish m =>
      Some (publish_topic m, publish_id m,
            ToBool (default ANil (publish_options m !! "acknowledge")))
  | _ => None
  end.

(** The verdict of the realm's own authorizer, with its error. *)
Definition verdict r b msg : bool * option error :=
  match authorizer r with Some f => f b msg | None => (false, None) end.

Definition permitted r b msg (uri : string) : bool :=
  isAuthorized (AuthRole b) (Message_Type msg) uri r || (verdict r b msg).1.

(** Where a permitted message goes. *)
Definition route b msg : M (RealmW (St := St)) unit :=
  match view msg with
  | VCall _ | VRegister _ => handleDealerBoundMessage b msg
  | VSubscribe _ => handleBrokerBoundMessage b msg
  | _ => handlePublish b msg
  end.

Definition refuse b msg (id : Z) (send : bool) : M (RealmW (St := St)) unit :=
  r ← get rlm;
  if send then
    on_session b (TryWriteMessage (authorization_error msg id (verdict r b msg).2));; mret tt
  else mret tt.

Lemma isAuthorized_spec roleName t uri r :
  isAuthorized roleName t uri r = true ↔
  ∃ role perm, roles r !! roleName = Some role ∧ perm ∈ Permissions role ∧
    Allows perm t = true ∧ MatchURI perm uri = true.
Proof.
  unfold isAuthorized. destruct (roles r !! roleName) as [role|]; [|naive_solver].
  rewrite existsb_exists. setoid_rewrite andb_true_iff.
  setoid_rewrite <-list_elem_of_In. naive_solver.
Qed.

Lemma authorize_run b msg uri id send w :
  authorize b msg uri id send w =
  if permitted (rlm w) b msg uri then (w, Val true)
  else (refuse b msg id send;; mret false) w.
Proof.
  unfold authorize, permitted, refuse, verdict, get, mbind, M_bind, mret, M_ret. simpl.
  destruct (isAuthorized _ _ _ _); [done|]. simpl.
  destruct (match authorizer (rlm w) with Some f => f b msg | None => (false, None) end)
    as [[] e]; [done|]. simpl. destruct send; [|done]. simpl.
  by destruct (on_session _ _ w) as [w' []].
Qed.

Lemma when_authorized_run b msg uri id send w k :
  when_authorized (authorize b msg uri id send) k w =
  if permitted (rlm w) b msg uri then k w else refuse b msg id send w.
Proof.
  unfold when_authorized. unfold mbind at 1, M_bind. rewrite authorize_run.
  destruct (permitted _ _ _ _); [done|]. unfold mbind, M_bind.
  by destruct (refuse b msg id send w) as [w' [[]|?|?|]].
Qed.

(** A message that needs a permission is routed or refused. *)
Lemma ReceiveMessage_checked b msg uri id send w :
  permission_needed msg = Some (uri, id, send) →
  ReceiveMessage b msg w =
  if permitted (rlm w) b msg uri then route b msg w else refuse b msg id send w.
Proof.
  unfold permission_needed, ReceiveMessage, route. intros Hp.
  destruct (view msg) eqn:Hv; simplify_eq;
    pose proof (view_type_of msg _ _ Hv eq_refl) as ->;
    types_decide; apply when_authorized_run.
Qed.

Lemma refuse_state b msg id send w :
  (refuse b msg id send w).1 =
  if send then
    mkW (rlm w) (<[ref b := (TryWriteMessage
      (authorization_error msg id (verdict (rlm w) b msg).2) (net w (ref b))).1]> (net w))
  else w.
Proof.
  unfold refuse, get. unfold mbind at 1, M_bind. simpl. destruct send; [|done].
  unfold mbind, M_bind. rewrite on_session_run.
  by destruct (TryWriteMessage _ _) as [s' [[]|?|?|]].
Qed.

(** C1. A CALL, REGISTER, SUBSCRIBE or PUBLISH that neither a permission of the
    sender's role nor the authorizer permits is not routed: the realm is as
    before, broker and dealer included, no other session is written to, and the
    sender is sent at most the authorization error, with the authorizer's text
    when there is one. *)
Theorem denied_message_not_routed b msg uri id send w :
  permission_needed msg = Some (uri, id, send) →
  permitted (rlm w) b msg uri = false →
  let w' := (ReceiveMessage b msg w).1 in
  rlm w' = rlm w ∧ (∀ q, q ≠ ref b → net w' q = net w q) ∧
  outbox (net w' (ref b)) =
    (outbox (net w (ref b)) ++
     if send then queued (net w (ref b)) (authorization_error msg id (verdict (rlm w) b msg).2)
     else [])%list.
Proof.
  intros Hp Hd. rewrite (ReceiveMessage_checked _ _ _ _ _ _ Hp), Hd.
  simpl. rewrite refuse_state. destruct send; simpl.
  - split_and!; [done|intros; by rewrite fn_lookup_insert_ne|].
    rewrite fn_lookup_insert. apply TryWriteMessage_outbox.
  - by rewrite app_nil_r.
Qed.

(** C17. A permitted CALL whose callee has no room in its queue is not lost
    silently: the caller is sent a network-failure error for its request, and
    the call itself counts as handled. *)
Theorem blocked_callee_is_reported b msg call w dl callee m c caller :
  view msg = VCall call → permitted (rlm w) b msg (call_procedure call) = true →
  Dealer_ReceiveMessage (ID b) msg (dealer (rlm w)) =
    (dl, Val (Some {| mt_recipient := callee; mt_message := m |})) →
  clients (rlm w) !! callee = Some c →
  (TryWriteMessage m (net w (ref c))).2 = Val false →
  clients (rlm w) !! ID b = Some caller → ref caller ≠ ref c →
  let w' := (ReceiveMessage b msg w).1 in
  (ReceiveMessage b msg w).2 = Val tt ∧
  outbox (net w' (ref caller)) =
    (outbox (net w (ref caller)) ++
     queued (net w (ref caller)) (network_failure_error msg call))%list.
Proof.
  intros Hv Hp Hdl Hc Hblocked Hcaller Hne.
  rewrite (ReceiveMessage_checked _ _ (call_procedure call) (call_id call) true)
    by (unfold permission_needed; by rewrite Hv).
  unfold route. rewrite Hp, Hv. cbv beta iota zeta. unfold handleDealerBoundMessage.
  erewrite bind_Val by (unfold on_dealer, zoom; by rewrite Hdl).
  cbv iota. erewrite bind_Val by done. simpl. rewrite Hc.
  erewrite bind_Val by (rewrite on_session_run; simpl; by rewrite Hblocked). simpl.
  rewrite (view_type_of msg _ _ Hv eq_refl). types_decide.
  erewrite bind_Val by done. simpl. rewrite Hcaller, Hv.
  rewrite ignore_run by eauto with go. rewrite on_session_run. simpl. split; [done|].
  rewrite fn_lookup_insert, fn_lookup_insert_ne by done. apply TryWriteMessage_outbox.
Qed.

(** *** No panic, no waiting *)

Lemma handleDealerBoundMessage_ends b msg :
  (Message_Type msg = MessageTypeCall → ∃ m, view msg = VCall m) →
  ends (handleDealerBoundMessage (St := St) b msg).
Proof.
  intros Hv. unfold handleDealerBoundMessage, load_client. go_effect.
  all: go_bools; destruct Hv; congruence.
Qed.

Lemma handleBrokerBoundMessage_ends b msg : ends (handleBrokerBoundMessage (St := St) b msg).
Proof. unfold handleBrokerBoundMessage, load_client. go_effect. Qed.

Lemma handlePublish_ends b msg : ends (handlePublish (St := St) b msg).
Proof. unfold handlePublish, deliver, load_client. go_effect. Qed.

Lemma handleCancel_ends b msg : ends (handleCancel (St := St) b msg).
Proof. unfold handleCancel, load_client. go_effect. Qed.

Lemma when_authorized_ends b msg uri id send k :
  ends k → ends (when_authorized (authorize (St := St) b msg uri id send) k).
Proof.
  intros. unfold when_authorized, authorize. go_effect.
Qed.

Hint Resolve handleDealerBoundMessage_ends handleBrokerBoundMessage_ends
  handlePublish_ends handleCancel_ends when_authorized_ends : go.

(** Closing a session that is closed already, or whose writer is not stuck, returns. *)
Lemma on_session_close_run c w :
  ignore (on_session c CloseSession) w =
  (mkW (rlm w) (<[ref c := (CloseSession (net w (ref c))).1]> (net w)),
   if closes (net w (ref c)) then Val tt else Blocks).
Proof.
  pose proof (ignore_CloseSession (net w (ref c))) as Hi.
  unfold ignore, try, mbind, M_bind in *. rewrite on_session_run.
  destruct (CloseSession (net w (ref c))) as [s v]. simpl in *.
  destruct v, (closes (net w (ref c))); by simplify_eq.
Qed.

Lemma try_write_run c m w :
  ignore (on_session c (TryWriteMessage m)) w =
  (mkW (rlm w) (<[ref c := (TryWriteMessage m (net w (ref c))).1]> (net w)), Val tt).
Proof. rewrite ignore_run by eauto with go. by rewrite on_session_run. Qed.

(** A message is handled or refused; only a GOODBYE may wait, for the writer of its
    sender. *)
Lemma ReceiveMessage_returns b msg w :
  returns_or (closes (net w (ref b)) = false) (ReceiveMessage (St := St) b msg w).2.
Proof.
  unfold ReceiveMessage.
  repeat case_bool_decide;
    try match goal with Ht : Message_Type msg = ?t |- _ => view_cases msg Ht end.
  all: lazymatch goal with
    | |- context [CloseSession] => idtac
    | _ => apply ends_returns; try apply when_authorized_ends;
           try apply handleDealerBoundMessage_ends; try (by go_effect); naive_solver
    end.
  apply returns_bind; [apply ends_returns; eauto with go|]. intros _.
  rewrite on_session_run, on_session_close_run. simpl. rewrite fn_lookup_insert.
  destruct (TryWriteMessage_keeps (net w (ref b)) (NewGoodBye CloseGoodByeAndOut ∅)) as (_ & _ & ->).
  destruct (closes (net w (ref b))); [left; by eexists|by right; right].
Qed.

Lemma ReceiveMessage_ends b msg w :
  closes (net w (ref b)) = true →
  (∃ a, (ReceiveMessage (St := St) b msg w).2 = Val a) ∨
  (∃ e, (ReceiveMessage (St := St) b msg w).2 = Fail e).
Proof.
  intros Hc. destruct (ReceiveMessage_returns b msg w) as [?|[?|[_ Hf]]]; [by left|by right|congruence].
Qed.

(** *** Invariants *)

(** Clients are stored under their session id, roles under their name, and
    distinct clients are distinct session objects. *)
Definition realm_wf r : Prop :=
  (∀ i c, clients r !! i = Some c → ID c = i) ∧
  (∀ n role, roles r !! n = Some role → Name role = n) ∧
  distinct_refs r.

(** A step of a realm: one operation by one goroutine.  A session pointer
    that is attached again belongs to the same session. *)
Inductive realm_step `{MapRange} : RealmW (St := St) → RealmW (St := St) → Prop :=
| step_attach base w :
    (∀ i c, clients (rlm w) !! i = Some c → ref c = ref base → c = base) →
    realm_step w (AttachClient base w).1
| step_detach base w : realm_step w (DetachClient base w).1
| step_receive base msg w : realm_step w (ReceiveMessage base msg w).1
| step_add_role role w r' :
    AddRole role (rlm w) = Ok r' → realm_step w (mkW r' (net w))
| step_remove_role role w r' :
    RemoveRole role (rlm w) = Ok r' → realm_step w (mkW r' (net w))
| step_authorizer a w : realm_step w (mkW (SetAuthorizer a (rlm w)) (net w))
| step_disclose_caller d w : realm_step w (mkW (AutoDiscloseCaller d (rlm w)) (net w))
| step_disclose_publisher d w : realm_step w (mkW (AutoDisclosePublisher d (rlm w)) (net w))
| step_session q s w : realm_step w (mkW (rlm w) (<[q := s]> (net w)))
| step_close w : realm_step w (Close w).1.

(** Operations that change no table of the realm. *)
Definition same_tables w w' : Prop :=
  clients (rlm w') = clients (rlm w) ∧ roles (rlm w') = roles (rlm w) ∧
  authorizer (rlm w') = authorizer (rlm w).
#[local] Instance same_tables_pre : PreOrder same_tables.
Proof.
  split; [done|]. intros ??? (?&?&?) (?&?&?). unfold same_tables. split_and!; congruence.
Qed.

(** Operations that at most drop clients. *)
Definition drops_clients w w' : Prop :=
  clients (rlm w') ⊆ clients (rlm w) ∧ roles (rlm w') = roles (rlm w).
#[local] Instance drops_clients_pre : PreOrder drops_clients.
Proof. split; [done|]. intros ??? [? ?] [? ?]. split; [by etrans|congruence]. Qed.

Lemma same_tables_effects :
  (∀ A (m : M Broker A), keeps same_tables (on_broker m)) ∧
  (∀ A (m : M Dealer A), keeps same_tables (on_dealer m)) ∧
  (∀ A c (m : M St A), keeps same_tables (on_session c m)).
Proof. split_and!; intros; by apply keeps_zoom. Qed.

Lemma ReceiveMessage_same_tables b msg : keeps same_tables (ReceiveMessage b msg).
Proof.
  pose proof same_tables_effects as (Hb & Hd & Hs).
  unfold ReceiveMessage, when_authorized, authorize, handleDealerBoundMessage,
    handleBrokerBoundMessage, handlePublish, handleCancel, deliver, load_client, type_assertion.
  go_effect.
Qed.

(** No operation gets a writer stuck. *)
Definition closes_kept w w' : Prop :=
  ∀ q, closes (net w q) = true → closes (net w' q) = true.
#[local] Instance closes_kept_pre : PreOrder closes_kept.
Proof. split; [by intros w q|]. intros w1 w2 w3 H12 H23 q Hq. by apply H23, H12. Qed.

Lemma ReceiveMessage_closes b msg : keeps closes_kept (ReceiveMessage b msg).
Proof.
  assert (∀ A (m : M Broker A), keeps closes_kept (on_broker m)) as Hb
    by (intros; apply keeps_zoom; by intros v w q).
  assert (∀ A (m : M Dealer A), keeps closes_kept (on_dealer m)) as Hd
    by (intros; apply keeps_zoom; by intros v w q).
  assert (∀ A c (m : M St A), (∀ s, closes s = true → closes (m s).1 = true) →
    keeps closes_kept (on_session c m)) as Hs.
  { intros A c m Hm w q. rewrite on_session_run. simpl. destruct (decide (ref c = q)) as [<-|Hne].
    - rewrite fn_lookup_insert. apply Hm.
    - by rewrite fn_lookup_insert_ne. }
  assert (∀ c, keeps closes_kept (on_session c CloseSession)) as Hc.
  { intros c. apply Hs. intros s _. by apply closes_closed, CloseSession_ok. }
  assert (∀ c m, keeps closes_kept (on_session c (TryWriteMessage m))) as Hw.
  { intros c m. apply Hs. intros s. by destruct (TryWriteMessage_keeps s m) as (_ & _ & ->). }
  unfold ReceiveMessage, when_authorized, authorize, handleDealerBoundMessage,
    handleBrokerBoundMessage, handlePublish, handleCancel, deliver, load_client, type_assertion.
  go_effect.
Qed.

Lemma DetachClient_run c w :
  ends (DetachClient (St := St) c) ∧
  clients (rlm (DetachClient c w).1) = delete (ID c) (clients (rlm w)) ∧
  roles (rlm (DetachClient c w).1) = roles (rlm w) ∧ net (DetachClient c w).1 = net w.
Proof.
  split; [unfold DetachClient, on_realm; by go_effect|].
  unfold DetachClient, on_realm, modify, mbind, M_bind, on_broker, on_dealer. simpl.
  rewrite zoom_run. destruct (Broker_RemoveSession _ _) as [br [[]|?|?|]]; simpl;
    rewrite ?zoom_run; done.
Qed.

Lemma AttachClient_run c w :
  ends (AttachClient (St := St) c) ∧
  clients (rlm (AttachClient c w).1) = <[ID c := c]> (clients (rlm w)) ∧
  roles (rlm (AttachClient c w).1) = roles (rlm w) ∧ net (AttachClient c w).1 = net w.
Proof.
  split; [unfold AttachClient, on_realm; by go_effect|].
  unfold AttachClient, on_realm, modify, get, mbind, M_bind, on_broker, on_dealer. simpl.
  rewrite zoom_run. destruct (Broker_AddSession _ _) as [br [[]|?|?|]]; simpl;
    rewrite ?zoom_run; done.
Qed.

(** Sessions that are closed stay closed, and those that can be closed remain so. *)
Definition closing w w' : Prop :=
  ∀ q, (session_closed (net w q) = true → session_closed (net w' q) = true) ∧
       (closes (net w q) = true → closes (net w' q) = true).
#[local] Instance closing_pre : PreOrder closing.
Proof.
  split; [done|]. intros w1 w2 w3 H12 H23 q. destruct (H12 q), (H23 q). split; auto.
Qed.

Lemma closing_session c (m : M St unit) w v :
  (session_closed (net w (ref c)) = true → session_closed (m (net w (ref c))).1 = true) ∧
  (closes (net w (ref c)) = true → closes (m (net w (ref c))).1 = true) →
  closing w (mkW v (<[ref c := (m (net w (ref c))).1]> (net w))).
Proof.
  intros Hm q. simpl. destruct (decide (ref c = q)) as [<-|Hne].
  - by rewrite fn_lookup_insert.
  - by rewrite fn_lookup_insert_ne.
Qed.

(** [close_client] closes the session; when that returns, the client is dropped. *)
Lemma close_client_run c w :
  let w' := (close_client c w).1 in
  (close_client c w).2 = (if closes (net w (ref c)) then Val tt else Blocks) ∧
  clients (rlm w') =
    (if closes (net w (ref c)) then delete (ID c) (clients (rlm w)) else clients (rlm w)) ∧
  roles (rlm w') = roles (rlm w) ∧ session_closed (net w' (ref c)) = true ∧ closing w w'.
Proof.
  unfold close_client. rewrite bind_effect, try_write_run. cbn [fst snd].
  set (w1 := mkW (rlm w) _). rewrite bind_effect, on_session_close_run. cbn [fst snd].
  set (w2 := mkW (rlm w1) (<[ref c := _]> (net w1))).
  destruct (TryWriteMessage_keeps (net w (ref c)) (NewGoodBye CloseSystemShutdown ∅)) as (Hk1 & _ & Hk2).
  assert (net w1 (ref c) = (TryWriteMessage (NewGoodBye CloseSystemShutdown ∅) (net w (ref c))).1) as Hn1
    by apply fn_lookup_insert.
  assert (closing w w2 ∧ session_closed (net w2 (ref c)) = true) as [Hcl Hc2].
  { destruct (CloseSession_ok (net w1 (ref c))) as (_ & Hc & _). split.
    - transitivity w1; (intros q; simpl; destruct (decide (ref c = q)) as [<-|Hne];
        [rewrite !fn_lookup_insert|by rewrite !fn_lookup_insert_ne by done]).
      + rewrite Hk1, Hk2. done.
      + split; intros _; [apply CloseSession_ok|apply closes_closed, CloseSession_ok].
    - simpl. by rewrite fn_lookup_insert. }
  replace (closes (net w1 (ref c))) with (closes (net w (ref c))) by (by rewrite Hn1, Hk2).
  destruct (closes (net w (ref c))); cbn [fst snd]; [|by split_and!].
  destruct (DetachClient_run c w2) as (He & Hc & Hr & Hn).
  rewrite ignore_run by done. cbn [fst snd]. split_and!; [done|by rewrite Hc|by rewrite Hr| |].
  - by rewrite Hn.
  - intros q. rewrite Hn. apply Hcl.
Qed.

(** Closing several: up to the first whose writer is stuck, if there is one. *)
Lemma close_all_run cs w :
  let r := for_M (λ e : Z * BaseSession, close_client e.2) cs w in
  clients (rlm r.1) ⊆ clients (rlm w) ∧ roles (rlm r.1) = roles (rlm w) ∧ closing w r.1 ∧
  (r.2 = Val tt ∧ (∀ i c, (i, c) ∈ cs →
     clients (rlm r.1) !! ID c = None ∧ session_closed (net r.1 (ref c)) = true) ∨
   r.2 = Blocks ∧ ∃ e, e ∈ cs ∧ closes (net w (ref e.2)) = false).
Proof.
  revert w. induction cs as [|[i c] cs IH]; intros w; cbn [for_M snd].
  { split_and!; [done..|]. left. split; [done|set_solver]. }
  destruct (close_client_run c w) as (Hv & Hc & Hr & Hcl & Hm). rewrite bind_effect, Hv.
  destruct (closes (net w (ref c))) eqn:Hs; cbn [fst snd].
  - destruct (IH (close_client c w).1) as (Hsub & Hr' & Hm' & Ho).
    split_and!; [| |by etrans|].
    + etrans; [exact Hsub|]. rewrite Hc. apply delete_subseteq.
    + by rewrite Hr'.
    + destruct Ho as [[Hv' Hall]|[Hv' (e & He & Hf)]].
      * left. split; [done|]. intros j d [[= -> ->]|Hin]%elem_of_cons; [|eauto].
        split; [|by apply Hm']. eapply lookup_weaken_None; [|exact Hsub]. rewrite Hc. by simplify_map_eq.
      * right. split; [done|]. exists e. split; [set_solver|].
        destruct (closes (net w (ref e.2))) eqn:Hcw; [|done].
        destruct (Hm (ref e.2)) as [_ Hk]. by rewrite Hk in Hf.
  - split_and!; [by rewrite Hc|done|done|]. right. split; [done|]. exists (i, c). split; [set_solver|done].
Qed.

(** Every client can be closed: no writer of a raw socket is stuck. *)
Definition closable w : Prop := ∀ i c, clients (rlm w) !! i = Some c → closes (net w (ref c)) = true.

Lemma realm_close_run `{MapRange} w :
  realm_wf (rlm w) →
  let w' := (Close w).1 in
  roles (rlm w') = roles (rlm w) ∧ clients (rlm w') ⊆ clients (rlm w) ∧ closing w w' ∧
  ((Close w).2 = Val tt ∧ clients (rlm w') = ∅ ∧
   (∀ i c, clients (rlm w) !! i = Some c → session_closed (net w' (ref c)) = true) ∨
   (Close w).2 = Blocks ∧ ¬ closable w).
Proof.
  intros (Hid & _ & _).
  destruct (close_all_run (range_entries (clients (rlm w))) w) as (Hsub & Hr & Hm & Ho).
  assert (∀ i c, clients (rlm w) !! i = Some c ↔ (i, c) ∈ range_entries (clients (rlm w)))
    as Hin.
  { intros i c. rewrite range_entries_perm. symmetry. apply elem_of_map_to_list. }
  unfold Close. erewrite bind_Val by done. split_and!; [done..|].
  destruct Ho as [[Hv Hall]|[Hv ([i c] & He & Hf)]]; [left|right]; split_and!; try done.
  - apply map_eq. intros i. rewrite lookup_empty.
    destruct (clients (rlm w) !! i) as [c|] eqn:Hc.
    + rewrite <-(Hid i c Hc). by apply (Hall i c), Hin.
    + by eapply lookup_weaken_None.
  - intros i c Hc. by apply (Hall i c), Hin.
  - intros Hcl. apply Hin in He. cbn [snd] in Hf. rewrite (Hcl i c He) in Hf. done.
Qed.

Lemma subseteq_wf r r' :
  clients r' ⊆ clients r → roles r' = roles r → realm_wf r → realm_wf r'.
Proof.
  intros Hc Hr (Hid & Hn & Hd). split_and!.
  - intros i c Hi. eapply Hid, lookup_weaken; done.
  - by rewrite Hr.
  - intros i j c c' Hi Hj. eapply Hd; by eapply lookup_weaken.
Qed.

Lemma attach_wf base r r' :
  (∀ i c, clients r !! i = Some c → ref c = ref base → c = base) →
  clients r' = <[ID base := base]> (clients r) → roles r' = roles r →
  realm_wf r → realm_wf r'.
Proof.
  intros Href Hc Hr (Hid & Hn & Hd). split_and!; [| by rewrite Hr |].
  - intros i c. rewrite Hc, lookup_insert_Some. naive_solver.
  - intros i j c c'. rewrite Hc, !lookup_insert_Some.
    intros [[<- <-]|[Hi Hic]] [[<- <-]|[Hj Hjc]] Heq; [done|..|by eapply Hd].
    + rewrite <-(Href j c' Hjc (eq_sym Heq)). by apply Hid.
    + rewrite <-(Href i c Hic Heq). symmetry. by apply Hid.
Qed.

Lemma realm_step_wf `{MapRange} w w' : realm_step w w' → realm_wf (rlm w) → realm_wf (rlm w').
Proof.
  intros Hs Hwf. destruct Hs as [base w Href|base w|base msg w|role w r' Ha|role w r' Ha
    |a w|d w|d w|q s w|w]; try done.
  - destruct (AttachClient_run base w) as (_ & Hc & Hr & _). by eapply attach_wf.
  - destruct (DetachClient_run base w) as (_ & Hc & Hr & _).
    eapply subseteq_wf; [|done..]. rewrite Hc. apply delete_subseteq.
  - destruct (ReceiveMessage_same_tables base msg w) as (Hc & Hr & _).
    eapply subseteq_wf; [by rewrite Hc|done..].
  - destruct Hwf as (Hid & Hn & Hd). unfold AddRole in Ha. case_match; simplify_eq.
    split_and!; [done| |done]. simpl. intros n ro. rewrite lookup_insert_Some. naive_solver.
  - destruct Hwf as (Hid & Hn & Hd). unfold RemoveRole in Ha. case_match; simplify_eq.
    split_and!; [done| |done]. simpl. intros n ro. rewrite lookup_delete_Some. naive_solver.
  - destruct (close_all_run (range_entries (clients (rlm w))) w) as (Hsub & Hr & _).
    by eapply subseteq_wf.
Qed.

(** Starting from a new realm, whatever clients attach and detach, whatever
    messages they send and whatever roles come and go: the clients are stored
    under their session ids, the roles under their names, and no session is in
    the table twice. *)
Theorem realm_reachable_wf `{MapRange} w w' :
  rlm w = NewRealm → rtc realm_step w w' → realm_wf (rlm w').
Proof.
  intros Hnew Hs. assert (realm_wf (rlm w)) as Hwf.
  { rewrite Hnew. split_and!; intros ?; intros; simplify_map_eq. }
  clear Hnew. induction Hs as [|w1 w2 w3 H12 _ IH]; [done|].
  by apply IH, (realm_step_wf w1 w2).
Qed.

(** A session that the broker rejects is reported to the caller and yet
    stays in the realm's table of clients, in the place of the session that had
    its id, if there was one. *)
Theorem rejected_session_stays_attached c w br e :
  Broker_AddSession (session_details w c) (broker (rlm w)) = (br, Fail e) →
  (AttachClient c w).2 = Fail e ∧
  clients (rlm (AttachClient c w).1) = <[ID c := c]> (clients (rlm w)).
Proof.
  intros Hb. split; [|apply AttachClient_run].
  unfold AttachClient, on_realm, modify, get, mbind, M_bind, on_broker. simpl.
  rewrite zoom_run. simpl. change (session_details _ c) with (session_details w c).
  by rewrite Hb.
Qed.
End RealmSpec.
