(* ===== verification/Router.v ===== *)
(** * The router (router.go, and the in-memory connection of client.go)

    A router owns its realms by pointer: an alias stores the pointer of the
    realm it names, so both names reach one realm.  The world of a router is
    its own fields, the heap of realms, the session states, and the goroutines
    the meta API has spawned and that have not run yet.

    The meta and the management API talk to the router through an in-memory
    session.  A request on it is modelled by the round trip of its goroutines:
    the message is received from the session, and the answer is what the
    router then queued for it. *)

From S2P Require Import Prelude GoStd Wamp Accessors Permissions Peers Realm.

Local Open Scope string_scope.

Definition ManagementRealm : string := "io.xconn.mgmt".

(** The levels of the logging package, which [LogLevel] renames. *)
Class LogLevels := {
  TraceLevel : Z; DebugLevel : Z; InfoLevel : Z; WarnLevel : Z; ErrorLevel : Z;
}.
Definition LogLevel : Type := Z.
Definition LogLevelTrace `{LogLevels} : LogLevel := TraceLevel.
Definition LogLevelDebug `{LogLevels} : LogLevel := DebugLevel.
Definition LogLevelInfo `{LogLevels} : LogLevel := InfoLevel.
Definition LogLevelWarn `{LogLevels} : LogLevel := WarnLevel.
Definition LogLevelError `{LogLevels} : LogLevel := ErrorLevel.

(** Constants of meta.go and management.go. *)
Definition MetaProcedureSessionKill := "wamp.session.kill".
Definition MetaProcedureSessionCount := "wamp.session.count".
Definition MetaProcedureSessionList := "wamp.session.list".
Definition MetaProcedureSessionGet := "wamp.session.get".
Definition MetaProcedureSessionKillByAuthID := "wamp.session.kill_by_authid".
Definition MetaProcedureSessionKillByAuthRole := "wamp.session.kill_by_authrole".
Definition MetaProcedureSessionKillAll := "wamp.session.kill_all".
Definition MetaTopicSessionJoin := "wamp.session.on_join".
Definition MetaTopicSessionLeave := "wamp.session.on_leave".

Definition management_procedures : list string :=
  ["io.xconn.mgmt.stats.status.set"; "io.xconn.mgmt.stats.status.get";
   "io.xconn.mgmt.stats.get"; "io.xconn.mgmt.log.level.set"; "io.xconn.mgmt.log.level.get";
   "io.xconn.mgmt.realm.list"; "io.xconn.mgmt.session.list"; "io.xconn.mgmt.session.kill";
   "io.xconn.mgmt.runtime.gomaxprocs.set"; "io.xconn.mgmt.runtime.gomaxprocs.get";
   "io.xconn.mgmt.runtime.force_gc"; "io.xconn.mgmt.session.log.set";
   "io.xconn.mgmt.runtime.goroutines.get"].

Definition meta_procedures : list string :=
  [MetaProcedureSessionKill; MetaProcedureSessionCount; MetaProcedureSessionList;
   MetaProcedureSessionGet; MetaProcedureSessionKillByAuthID;
   MetaProcedureSessionKillByAuthRole; MetaProcedureSessionKillAll].

Section Router.
Context `{WampMessages} `{!WampSerializers} `{!WampRouting} `{WampConstants}
  `{MapRange} `{FmtV} `{LogLevels}.

Record RouterConfig := { Management : bool; LogLevel_ : LogLevel }.
Definition DefaultRouterConfig : RouterConfig :=
  {| Management := false; LogLevel_ := LogLevelDebug |}.

Record RealmConfig := {
  cfg_AutoDiscloseCaller : bool;
  cfg_AutoDisclosePublisher : bool;
  cfg_Meta : bool;
  cfg_Authorizer : option Realm.Authorizer;
  cfg_Roles : list RealmRole;
}.
Definition DefaultRealmConfig : RealmConfig :=
  {| cfg_AutoDiscloseCaller := false; cfg_AutoDisclosePublisher := false; cfg_Meta := false;
     cfg_Authorizer := None; cfg_Roles := [] |}.

(** The meta API of a realm: its session, as the router holds it. *)
Record meta := { meta_realm : string; meta_session : BaseSession }.

Record Router := mkRouter {
  realms : gmap string nat;
  metaAPI : gmap string meta;
  managementAPI : bool;
  trackingMsg : bool;
  msgCount : Z;
  msgsPerSec : Z;
  (** running goroutines of [setMessageRateTracking] *)
  rate_loops : nat;
}.

(** A spawned goroutine: it publishes on a topic through a session. *)
Record spawned_publish := { sp_session : BaseSession; sp_topic : string; sp_args : list any }.

Record RouterW := mkRouterW {
  rt : Router;
  heap : gmap nat Realm;
  sess : nat → base_session;
  next_session : nat;
  spawned : list spawned_publish;
  log_level : Z;
}.

Definition on_router (f : Router → Router) : M RouterW unit :=
  modify (λ w, mkRouterW (f (rt w)) (heap w) (sess w) (next_session w) (spawned w) (log_level w)).

Definition set_realms (m : gmap string nat) (r : Router) : Router :=
  mkRouter m (metaAPI r) (managementAPI r) (trackingMsg r) (msgCount r) (msgsPerSec r)
    (rate_loops r).
Definition set_metaAPI (m : gmap string meta) (r : Router) : Router :=
  mkRouter (realms r) m (managementAPI r) (trackingMsg r) (msgCount r) (msgsPerSec r)
    (rate_loops r).
Definition set_managementAPI (b : bool) (r : Router) : Router :=
  mkRouter (realms r) (metaAPI r) b (trackingMsg r) (msgCount r) (msgsPerSec r) (rate_loops r).
Definition set_tracking (t : bool) (count rate : Z) (loops : nat) (r : Router) : Router :=
  mkRouter (realms r) (metaAPI r) (managementAPI r) t count rate loops.

(** A method call on the realm behind a pointer. *)
Definition at_ptr {A} (p : nat) (m : M (RealmW (St := base_session)) A) : M RouterW A := λ w,
  match heap w !! p with
  | None => (w, Crash "invalid memory address or nil pointer dereference")
  | Some r =>
      let '(rw, v) := m (mkW r (sess w)) in
      (mkRouterW (rt w) (<[p := rlm rw]> (heap w)) (net rw) (next_session w) (spawned w)
         (log_level w), v)
  end.

Definition load_realm (name : string) : M RouterW (option nat) := get (λ w, realms (rt w) !! name).

(** [r.realms.Store(name, realm)] for a realm just made. *)
Definition store_new (name : string) (realm : Realm) : M RouterW unit := λ w,
  let p := fresh (dom (heap w)) in
  (mkRouterW (set_realms (<[name := p]> (realms (rt w))) (rt w)) (<[p := realm]> (heap w))
     (sess w) (next_session w) (spawned w) (log_level w), Val tt).

Definition no_realm (name : string) : error := "could not find realm: " +:+ name.

Definition with_realm {A} (name : string) (k : nat → M RouterW A) : M RouterW A :=
  p ← load_realm name;
  match p with None => fail (no_realm name) | Some p => k p end.

(** A call that changes the realm and returns an error or not. *)
Definition update_realm (f : Realm → result Realm) : M (RealmW (St := base_session)) unit := λ w,
  match f (rlm w) with Ok r => (mkW r (net w), Val tt) | Err e => (w, Fail e) end.

(** ** Clients *)

Definition onJoin (m : meta) (base : BaseSession) : M RouterW unit :=
  let details : dict := <["session" := AUint64 (ID base)]> (<["authid" := AString (AuthID base)]>
    (<["authrole" := AString (AuthRole base)]> (<["authmethod" := AString (AuthMethod base)]>
    (<["authextra" := AMap (AuthExtra base)]> (<["authprovider" := AString ""]> ∅))))) in
  modify (λ w, mkRouterW (rt w) (heap w) (sess w) (next_session w)
    (spawned w ++ [{| sp_session := meta_session m; sp_topic := MetaTopicSessionJoin;
                      sp_args := [AMap details] |}]) (log_level w)).

Definition onLeave (m : meta) (base : BaseSession) : M RouterW unit :=
  modify (λ w, mkRouterW (rt w) (heap w) (sess w) (next_session w)
    (spawned w ++ [{| sp_session := meta_session m; sp_topic := MetaTopicSessionLeave;
                      sp_args := [AUint64 (ID base); AString (AuthID base);
                                  AString (AuthRole base)] |}]) (log_level w)).

Definition AttachClient (base : BaseSession) : M RouterW unit :=
  with_realm (Realm_ base) (λ p,
    at_ptr p (Realm.AttachClient base);;
    metaObj ← get (λ w, metaAPI (rt w) !! Realm_ base);
    match metaObj with Some m => onJoin m base | None => mret tt end).

(** A call on the base session of a client. *)
Definition on_client_session {A} (c : BaseSession) : M base_session A → M RouterW A :=
  zoom (λ w, sess w (ref c))
    (λ s w, mkRouterW (rt w) (heap w) (<[ref c := s]> (sess w)) (next_session w) (spawned w)
              (log_level w)).

(** The deferred [base.Close()]. *)
Definition close_session (base : BaseSession) : M RouterW unit :=
  ignore (on_client_session base CloseSession).

Definition DetachClient (base : BaseSession) : M RouterW unit :=
  with_realm (Realm_ base) (λ p,
    at_ptr p (Realm.DetachClient base);;
    metaObj ← get (λ w, metaAPI (rt w) !! Realm_ base);
    match metaObj with Some m => onLeave m base | None => mret tt end;;
    close_session base).

Definition count_message (r : Router) : Router :=
  if trackingMsg r
  then set_tracking true (wrap_uint64 (msgCount r + 1)) (msgsPerSec r) (rate_loops r) r
  else r.

Definition ReceiveMessage (base : BaseSession) (msg : Message) : M RouterW unit :=
  with_realm (Realm_ base) (λ p,
    at_ptr p (Realm.ReceiveMessage base msg);; on_router count_message).

(** ** Realms *)

Definition AddRealmAlias (realm alias : string) : M RouterW unit :=
  rlm ← load_realm realm;
  match rlm with
  | None => fail ("realm '" +:+ realm +:+ "' not found")
  | Some p =>
      ok ← load_realm alias;
      match ok with
      | Some _ => fail ("realm '" +:+ alias +:+ "' already registered")
      | None => on_router (λ r, set_realms (<[alias := p]> (realms r)) r)
      end
  end.

Definition RemoveRealm (name : string) : M RouterW unit :=
  on_router (λ r, set_realms (delete name (realms r)) r).

Definition HasRealm (name : string) : M RouterW bool :=
  get (λ w, bool_decide (is_Some (realms (rt w) !! name))).

Definition AddRealmRole (realm : string) (role : RealmRole) : M RouterW unit :=
  with_realm realm (λ p, at_ptr p (update_realm (AddRole role))).

Definition SetRealmAuthorizer (realm : string) (a : Realm.Authorizer) : M RouterW unit :=
  with_realm realm (λ p, at_ptr p (update_realm (λ r, Ok (SetAuthorizer a r)))).

Definition HasRealmRole (realm roleName : string) : M RouterW bool :=
  with_realm realm (λ p, at_ptr p (get (λ w, HasRole roleName (rlm w)))).

Definition RemoveRealmRole (realm roleName : string) : M RouterW unit :=
  with_realm realm (λ p, at_ptr p (update_realm (RemoveRole roleName))).

Definition autoDiscloseCaller (realm : string) (disclose : bool) : M RouterW unit :=
  with_realm realm (λ p, at_ptr p (update_realm (λ r, Ok (AutoDiscloseCaller disclose r)))).

(** ** In-memory sessions *)

(** [NewBaseSession(...)] over the router's end of an in-memory peer pair. *)
Definition new_session (s : Serializer) (outQueueSize : nat) : M RouterW nat := λ w,
  let '(_, routerPeer) := NewInMemoryPeerPair outQueueSize in
  (mkRouterW (rt w) (heap w) (<[next_session w := NewBaseSession routerPeer s]> (sess w))
     (S (next_session w)) (spawned w) (log_level w), Val (next_session w)).

(** [sessionID] is the generated id.  The result stands for both ends of the
    pair: they agree in every field but the pointer, which is the router's. *)
Definition ConnectInMemoryBase (realm authID authRole : string)
    (serializer : option Serializer) (outQueueSize : nat) (sessionID : Z)
    : M RouterW BaseSession :=
  match serializer with
  | None => fail "serializer must not be nil"
  | Some s =>
      p ← new_session s outQueueSize;
      let routerSession := {| ID := sessionID; Realm_ := realm; AuthID := authID;
        AuthRole := authRole; AuthMethod := ""; AuthExtra := ∅; ref := p |} in
      r ← try (AttachClient routerSession);
      match r with
      | Err e => fail ("unable to start local session with ID " +:+ pretty sessionID
                         +:+ ": " +:+ e)
      | Ok _ => mret routerSession
      end
  end.

(** [ids]: the generated session id and authid. *)
Definition ConnectInMemory (realm : string) (ids : Z * string) : M RouterW BaseSession :=
  ConnectInMemoryBase realm (snd ids) "trusted" (Some MsgPackSerializer) 16 (fst ids).

(** The answer to a REGISTER among the messages queued for the session. *)
Fixpoint register_answer (s : Serializer) (requestID : Z) (payloads : list string)
    : result unit :=
  match payloads with
  | [] => Err "register request timed out"
  | p :: ps =>
      match Deserialize s p with
      | Err _ => register_answer s requestID ps
      | Ok m =>
          match view m with
          | VRegistered r =>
              if bool_decide (registered_id r = requestID) then Ok tt
              else register_answer s requestID ps
          | VError e =>
              if bool_decide (error_type e = MessageTypeRegister ∧ error_id e = requestID)
              then Err (Error.Error_ (Error.of_msg e)) else register_answer s requestID ps
          | _ => register_answer s requestID ps
          end
      end
  end.

(** [session.Register(uri, handler).Do()] on an in-memory session. *)
Definition register_in_memory (session : BaseSession) (requestID : Z) (uri : string)
    : M RouterW unit :=
  before ← get (λ w, length (outbox (sess w (ref session))));
  ignore (ReceiveMessage session (NewRegister requestID ∅ uri));;
  answer ← get (λ w, register_answer (serializer (sess w (ref session))) requestID
    (drop before (outbox (sess w (ref session)))));
  of_result answer.

(** Register each procedure, in the order the map gives them; the first
    failure is returned. *)
Definition register_all (session : BaseSession) (uris : list string) : M RouterW unit :=
  let table : gmap string unit := list_to_map (map (λ u, (u, tt)) uris) in
  for_M (λ e, register_in_memory session (Z.of_nat (S e.1)) e.2)
    (imap pair (map fst (range_entries table))).

Definition newMetAPI (realm : string) (ids : Z * string) : M RouterW meta :=
  session ← ConnectInMemory realm ids;
  mret {| meta_realm := realm; meta_session := session |}.

Definition meta_start (m : meta) : M RouterW unit := register_all (meta_session m) meta_procedures.

Definition EnableMetaAPI (realm : string) (ids : Z * string) : M RouterW unit :=
  m ← newMetAPI realm ids;
  meta_start m;;
  on_router (λ r, set_metaAPI (<[realm := m]> (metaAPI r)) r);;
  autoDiscloseCaller realm true.

Definition trusted_role : RealmRole := {| Name := "trusted"; Permissions := [
  {| URI := ""; MatchPolicy := "prefix"; AllowCall := true; AllowPublish := true;
     AllowRegister := true; AllowSubscribe := true |}] |}.

Fixpoint add_roles (roles : list RealmRole) (realm : Realm) : result Realm :=
  match roles with
  | [] => Ok realm
  | role :: roles => rbind (AddRole role realm) (add_roles roles)
  end.

Definition AddRealm (name : string) (cfg : option RealmConfig) (ids : Z * string)
    : M RouterW unit :=
  ok ← load_realm name;
  match ok with
  | Some _ => fail ("realm '" +:+ name +:+ "' already registered")
  | None =>
      realm ← of_result (AddRole trusted_role NewRealm);
      match cfg with
      | None => store_new name realm
      | Some cfg =>
          let realm :=
            if cfg_AutoDiscloseCaller cfg then AutoDiscloseCaller true realm else realm in
          let realm :=
            if cfg_AutoDisclosePublisher cfg then AutoDisclosePublisher true realm else realm in
          match cfg_Authorizer cfg with
          | Some a => SetRealmAuthorizer name a
          | None => mret tt
          end;;
          realm ← of_result (add_roles (cfg_Roles cfg) realm);
          store_new name realm;;
          if cfg_Meta cfg then EnableMetaAPI name ids else mret tt
      end
  end.

(** ** Management and life cycle *)

Definition enableManagementAPI (ids : Z * string) : M RouterW unit :=
  on ← get (λ w, managementAPI (rt w));
  if (on : bool) then mret tt
  else
    session ← ConnectInMemory ManagementRealm ids;
    register_all session management_procedures;;
    on_router (set_managementAPI true);;
    autoDiscloseCaller ManagementRealm true.

Definition management_realm_config : RealmConfig :=
  {| cfg_AutoDiscloseCaller := false; cfg_AutoDisclosePublisher := false; cfg_Meta := false;
     cfg_Authorizer := None;
     cfg_Roles := [{| Name := "anonymous"; Permissions := [
       {| URI := "io.xconn.mgmt."; MatchPolicy := "prefix"; AllowCall := true;
          AllowPublish := false; AllowRegister := false; AllowSubscribe := true |}] |}] |}.

Definition new_router : Router := mkRouter ∅ ∅ false false 0 0 0.

(** The router it returns is the one of the resulting world. *)
Definition NewRouter (cfg : option RouterConfig) (ids : Z * string) : M RouterW unit :=
  on_router (λ _, new_router);;
  match cfg with
  | None => mret tt
  | Some cfg =>
      (if Management cfg then
         AddRealm ManagementRealm (Some management_realm_config) ids;;
         enableManagementAPI ids
       else mret tt);;
      let level := if bool_decide (LogLevel_ cfg = 0)%Z then LogLevelInfo else LogLevel_ cfg in
      modify (λ w, mkRouterW (rt w) (heap w) (sess w) (next_session w) (spawned w) level)
  end.

(** [waiting]: a counting goroutine is at its [select] when tracking is
    switched off, and takes the stop signal; otherwise the signal is lost. *)
Definition setMessageRateTracking (enabled waiting : bool) : M RouterW unit :=
  on_router (λ r,
    if enabled then
      if trackingMsg r then r
      else set_tracking true (msgCount r) (msgsPerSec r) (S (rate_loops r)) r
    else
      set_tracking false (msgCount r) (msgsPerSec r)
        (if waiting then Nat.pred (rate_loops r) else rate_loops r) r).

(** One tick of a counting goroutine. *)
Definition rate_tick : M RouterW unit :=
  on_router (λ r, set_tracking (trackingMsg r) 0 (msgCount r) (rate_loops r) r).

Definition Close : M RouterW unit :=
  entries ← get (λ w, range_entries (realms (rt w)));
  for_M (λ e, at_ptr e.2 Realm.Close;; RemoveRealm e.1) entries.

End Router.

(** ** What the operations promise *)

Section RouterSpec.
Context `{WampMessagesOk} `{!WampSerializers} `{!WampRouting} `{!WampRoutingOk}
  `{WampConstants} `{MapRange} `{FmtV} `{LogLevels}.

Implicit Types (w : RouterW) (base : BaseSession) (name : string) (ids : Z * string).

Lemma with_realm_run {A} name (k : nat → M RouterW A) w :
  with_realm name k w =
  match realms (rt w) !! name with
  | Some p => k p w
  | None => (w, Fail (no_realm name))
  end.
Proof.
  unfold with_realm, load_realm. erewrite bind_Val by done. by case_match.
Qed.

Lemma at_ptr_run {A} p (m : M (RealmW (St := base_session)) A) w r :
  heap w !! p = Some r →
  at_ptr p m w =
  (mkRouterW (rt w) (<[p := rlm (m (mkW r (sess w))).1]> (heap w)) (net (m (mkW r (sess w))).1)
     (next_session w) (spawned w) (log_level w), (m (mkW r (sess w))).2).
Proof. unfold at_ptr. intros ->. by destruct (m _). Qed.

(** *** Aliases *)

(** An alias is the realm: after [AddRealmAlias realm alias] every operation
    that names the alias is the operation on the realm. *)
Theorem alias_is_the_realm realm alias w w' :
  AddRealmAlias realm alias w = (w', Val tt) →
  heap w' = heap w ∧ is_Some (realms (rt w') !! alias) ∧
  ∀ A (k : nat → M RouterW A), with_realm alias k w' = with_realm realm k w'.
Proof.
  unfold AddRealmAlias, load_realm. erewrite bind_Val by done.
  destruct (realms (rt w) !! realm) as [p|] eqn:Hr; [|done].
  erewrite bind_Val by done. destruct (realms (rt w) !! alias) eqn:Ha; [done|].
  unfold on_router, modify. intros [= <-]. simpl.
  split_and!; [done|by simplify_map_eq|]. intros A k. rewrite !with_realm_run. simpl.
  assert (alias ≠ realm) by congruence. by simplify_map_eq.
Qed.

(** *** Adding realms *)

Lemma AddRole_run role r :
  AddRole role r =
  match roles r !! Name role with
  | Some _ => Err ("role '" +:+ Name role +:+ "' already exists")
  | None => Ok (set_roles (<[Name role := role]> (roles r)) r)
  end.
Proof. done. Qed.

(** Adding roles to a realm adds each under its name, or fails on the first
    name that is taken. *)
Lemma add_roles_spec (rs : list RealmRole) r :
  (∀ r', add_roles rs r = Ok r' →
    clients r' = clients r ∧ NoDup (map Name rs) ∧
    (∀ role, role ∈ rs → roles r !! Name role = None ∧ roles r' !! Name role = Some role) ∧
    (∀ n, n ∉ map Name rs → roles r' !! n = roles r !! n)) ∧
  (NoDup (map Name rs) → (∀ role, role ∈ rs → roles r !! Name role = None) →
    is_ok (add_roles rs r) = true).
Proof.
  revert r. induction rs as [|x rs IH]; intros r; simpl.
  { split; [|done]. intros r' [= <-]. split_and!; [done|constructor|set_solver|done]. }
  rewrite AddRole_run. destruct (roles r !! Name x) eqn:Hx; simpl.
  { split; [done|]. intros _ Hn. specialize (Hn x). rewrite Hn in Hx by set_solver. done. }
  destruct (IH (set_roles (<[Name x := x]> (roles r)) r)) as [IH1 IH2]. simpl in *. split.
  - intros r' Hr'. destruct (IH1 r' Hr') as (Hc & Hnd & Hin & Hout).
    assert (Name x ∉ map Name rs) as Hfresh.
    { intros (y & Hy & Hyin)%list_elem_of_fmap. destruct (Hin y Hyin) as [Hn _].
      rewrite <-Hy in Hn. by simplify_map_eq. }
    split_and!; [done|by constructor| |].
    + intros role [->|Hrole]%elem_of_cons.
      * split; [done|]. rewrite Hout by done. by simplify_map_eq.
      * destruct (Hin role Hrole) as [Hn ?].
        rewrite lookup_insert_None in Hn. naive_solver.
    + intros n Hn. rewrite Hout by set_solver. apply lookup_insert_ne. set_solver.
  - intros [Hfresh Hnd]%NoDup_cons Hnone. apply IH2; [done|].
    intros role Hrole. rewrite lookup_insert_ne; [set_solver|].
    intros Heq. apply Hfresh. rewrite Heq. by apply list_elem_of_fmap_2.
Qed.

(** What [AddRealm] does without the meta API, on every branch. *)
Lemma AddRealm_run name cfg ids w :
  cfg_Authorizer cfg = None → cfg_Meta cfg = false →
  AddRealm name (Some cfg) ids w =
  match realms (rt w) !! name with
  | Some _ => (w, Fail ("realm '" +:+ name +:+ "' already registered"))
  | None =>
      let r := set_roles {["trusted" := trusted_role]} NewRealm in
      let r := if cfg_AutoDiscloseCaller cfg then AutoDiscloseCaller true r else r in
      let r := if cfg_AutoDisclosePublisher cfg then AutoDisclosePublisher true r else r in
      match add_roles (cfg_Roles cfg) r with
      | Ok r => store_new name r w
      | Err e => (w, Fail e)
      end
  end.
Proof.
  intros Ha Hm. unfold AddRealm, load_realm. erewrite bind_Val by done.
  destruct (realms (rt w) !! name); [done|]. erewrite bind_Val by done.
  rewrite Ha. erewrite bind_Val by done. rewrite Hm. cbv zeta.
  change (<[_ := trusted_role]> _) with ({["trusted" := trusted_role]} : gmap string RealmRole).
  destruct (add_roles (cfg_Roles cfg) _) as [r|e]; [|done].
  by erewrite bind_Val by done.
Qed.

(** A realm is added exactly when its name is free and its roles have
    distinct names other than [trusted]; it then has these roles, the trusted
    role and no client, and everything else is as before. *)
Theorem AddRealm_adds name cfg ids w :
  cfg_Authorizer cfg = None → cfg_Meta cfg = false → realms (rt w) !! name = None →
  let w' := (AddRealm name (Some cfg) ids w).1 in
  if bool_decide (NoDup (map Name (trusted_role :: cfg_Roles cfg))) then
    (AddRealm name (Some cfg) ids w).2 = Val tt ∧
    ∃ p r, heap w !! p = None ∧ heap w' = <[p := r]> (heap w) ∧
      realms (rt w') = <[name := p]> (realms (rt w)) ∧ clients r = ∅ ∧
      (∀ role, role ∈ trusted_role :: cfg_Roles cfg → roles r !! Name role = Some role) ∧
      (∀ n, n ∉ map Name (trusted_role :: cfg_Roles cfg) → roles r !! n = None)
  else w' = w ∧ ∃ e, (AddRealm name (Some cfg) ids w).2 = Fail e.
Proof.
  intros Ha Hm Hfree. rewrite AddRealm_run, Hfree by done. cbv zeta.
  set (r0 := if cfg_AutoDisclosePublisher cfg then _ else _).
  assert (clients r0 = ∅ ∧ roles r0 = {["trusted" := trusted_role]}) as [Hc0 Hr0].
  { subst r0. destruct (cfg_AutoDiscloseCaller cfg), (cfg_AutoDisclosePublisher cfg); done. }
  destruct (add_roles_spec (cfg_Roles cfg) r0) as [Hok Hdo]. simpl. case_bool_decide as Hnd.
  - apply NoDup_cons in Hnd as [Hfresh Hnd].
    destruct (add_roles (cfg_Roles cfg) r0) as [r|e] eqn:Hadd.
    2: { exfalso. discriminate Hdo; [done|]. intros role Hrole. rewrite Hr0.
         apply lookup_singleton_None. intros Heq. apply Hfresh. simpl. rewrite Heq.
         by apply list_elem_of_fmap_2. }
    destruct (Hok r eq_refl) as (Hc & _ & Hin & Hout). split; [done|].
    exists (fresh (dom (heap w))), r. split_and!; [|done|done|congruence| |].
    + apply not_elem_of_dom, is_fresh.
    + intros role [->|Hrole]%elem_of_cons; [|by apply Hin].
      rewrite Hout by done. rewrite Hr0. by simplify_map_eq.
    + intros n Hn. rewrite Hout by set_solver. rewrite Hr0.
      apply lookup_singleton_None. set_solver.
  - destruct (add_roles (cfg_Roles cfg) r0) as [r|e] eqn:Hadd; [|by eauto].
    exfalso. apply Hnd. destruct (Hok r eq_refl) as (_ & Hnd' & Hin & _).
    apply NoDup_cons. split; [|done]. intros (role & Heq & Hrole)%list_elem_of_fmap.
    destruct (Hin role Hrole) as [Hn _]. rewrite Hr0, <-Heq in Hn. by simplify_map_eq.
Qed.

(** A realm cannot be added with an authorizer: [AddRealm] looks for the
    realm to set it on before the realm is stored, and fails without a change. *)
Theorem AddRealm_with_authorizer_fails name cfg ids w a :
  cfg_Authorizer cfg = Some a → realms (rt w) !! name = None →
  AddRealm name (Some cfg) ids w = (w, Fail (no_realm name)).
Proof.
  intros Ha Hfree. unfold AddRealm, load_realm. erewrite bind_Val by done. rewrite Hfree.
  erewrite bind_Val by done. rewrite Ha. cbv zeta. erewrite bind_Fail; [done|].
  unfold SetRealmAuthorizer. by rewrite with_realm_run, Hfree.
Qed.

(** *** Messages *)

(** A message is handled by the realm its sender joined and by no other: that
    realm and the sessions become what the realm's handling makes of them, the
    other realms and the table of realms are as before, and the counter of
    messages moves, by one, only for a success while tracking is on. *)
Theorem message_stays_in_its_realm base msg w p r :
  realms (rt w) !! Realm_ base = Some p → heap w !! p = Some r →
  let w' := (ReceiveMessage base msg w).1 in
  let rw := (Realm.ReceiveMessage base msg (mkW r (sess w))).1 in
  realms (rt w') = realms (rt w) ∧ heap w' = <[p := rlm rw]> (heap w) ∧ sess w' = net rw ∧
  (∀ q, q ≠ p → heap w' !! q = heap w !! q) ∧
  (msgCount (rt w') = msgCount (rt w) ∨
   trackingMsg (rt w) = true ∧ (ReceiveMessage base msg w).2 = Val tt ∧
   msgCount (rt w') = wrap_uint64 (msgCount (rt w) + 1)).
Proof.
  intros Hp Hr. unfold ReceiveMessage. rewrite with_realm_run, Hp, bind_effect.
  rewrite (at_ptr_run _ _ _ _ Hr). simpl.
  destruct (Realm.ReceiveMessage base msg (mkW r (sess w))).2 as [[]|e|s|]; simpl;
    try (split_and!; [done..|intros; by rewrite lookup_insert_ne|by left]).
  unfold count_message. destruct (trackingMsg (rt w)); simpl;
    (split_and!; [done..|intros; by rewrite lookup_insert_ne|auto]).
Qed.

(** *** Invariants *)

(** Every name leads to a realm, every realm is well formed, and the sessions
    of clients have been allocated. *)
Definition router_wf w : Prop :=
  (∀ n p, realms (rt w) !! n = Some p → is_Some (heap w !! p)) ∧
  (∀ p r, heap w !! p = Some r → realm_wf r ∧
    ∀ i c, clients r !! i = Some c → (ref c < next_session w)%nat).

(** The base session of a client that connects: its pointer was allocated for
    it, so a client that shares it is the same session. *)
Definition connecting base w : Prop :=
  (ref base < next_session w)%nat ∧
  ∀ p r i c, heap w !! p = Some r → clients r !! i = Some c → ref c = ref base → c = base.

Definition preserves w w' : Prop := router_wf w → router_wf w'.
#[local] Instance preserves_pre : PreOrder preserves.
Proof. split; [by intros w Hw|intros x y z Hxy Hyz Hx; by apply Hyz, Hxy]. Qed.

Lemma with_realm_keeps {A} name (k : nat → M RouterW A) :
  (∀ p, keeps preserves (k p)) → keeps preserves (with_realm name k).
Proof.
  intros Hk w. rewrite with_realm_run. destruct (realms (rt w) !! name); [apply Hk|done].
Qed.

Lemma at_ptr_wf {A} p (m : M (RealmW (St := base_session)) A) w :
  (∀ r, heap w !! p = Some r → realm_wf r →
    let r' := rlm (m (mkW r (sess w))).1 in
    realm_wf r' ∧ ∀ i c, clients r' !! i = Some c →
      clients r !! i = Some c ∨ (ref c < next_session w)%nat) →
  preserves w (at_ptr p m w).1.
Proof.
  intros Hm [Hn Hh]. unfold at_ptr. destruct (heap w !! p) as [r|] eqn:Hr; [|done].
  destruct (Hh p r Hr) as [Hwf Hrefs]. destruct (Hm r eq_refl Hwf) as [Hwf' Hsub].
  destruct (m (mkW r (sess w))) as [rw v]. simpl in *. split; simpl.
  - intros n q Hq. destruct (decide (p = q)) as [<-|Hne]; simplify_map_eq; eauto.
  - intros q r' Hq. destruct (decide (p = q)) as [<-|Hne]; simplify_map_eq; [|by eapply Hh].
    split; [done|]. intros i c Hc. destruct (Hsub i c Hc); eauto.
Qed.

Lemma at_ptr_keeps {A} p (m : M (RealmW (St := base_session)) A) :
  (∀ rw, realm_wf (rlm rw) → realm_wf (rlm (m rw).1) ∧
    clients (rlm (m rw).1) ⊆ clients (rlm rw)) →
  keeps preserves (at_ptr p m).
Proof.
  intros Hm w. apply at_ptr_wf. intros r _ Hwf.
  destruct (Hm (mkW r (sess w)) Hwf) as [? Hsub]. split; [done|].
  intros i c Hc. left. by apply (lookup_weaken _ _ _ _ Hc).
Qed.

Lemma ReceiveMessage_at_ptr base msg p :
  keeps preserves (at_ptr p (Realm.ReceiveMessage base msg)).
Proof.
  apply at_ptr_keeps. intros rw Hwf.
  destruct (ReceiveMessage_same_tables base msg rw) as (Hc & Hr & _).
  split; [|by rewrite Hc]. eapply subseteq_wf; [by rewrite Hc|done..].
Qed.

Lemma update_realm_at_ptr f p :
  (∀ r r', f r = Ok r' → realm_wf r → realm_wf r' ∧ clients r' = clients r) →
  keeps preserves (at_ptr p (update_realm f)).
Proof.
  intros Hf. apply at_ptr_keeps. intros rw Hwf. unfold update_realm.
  destruct (f (rlm rw)) as [r'|e] eqn:Hr; [|done]. simpl.
  destruct (Hf _ _ Hr Hwf) as [? ->]. done.
Qed.

Lemma DetachClient_at_ptr base p : keeps preserves (at_ptr p (Realm.DetachClient base)).
Proof.
  apply at_ptr_keeps. intros rw Hwf. destruct (DetachClient_run base rw) as (_ & Hc & Hr & _).
  rewrite Hc. split; [|apply delete_subseteq].
  eapply subseteq_wf; [by rewrite Hc; apply delete_subseteq|done..].
Qed.

(** Changes of the router's own fields that keep the table of realms. *)
Lemma on_router_keeps f :
  (∀ r, realms (f r) ⊆ realms r) → keeps preserves (on_router f).
Proof.
  intros Hf w [Hn Hh]. split; simpl; [|done]. intros n p Hp.
  eapply Hn, lookup_weaken; [done|apply Hf].
Qed.

Lemma ReceiveMessage_keeps base msg : keeps preserves (ReceiveMessage base msg).
Proof.
  apply with_realm_keeps. intros p. go_effect; [apply ReceiveMessage_at_ptr|].
  apply on_router_keeps. intros r. unfold count_message. by destruct (trackingMsg r).
Qed.

Lemma events_keep (f : RouterW → RouterW) :
  (∀ w, rt (f w) = rt w ∧ heap (f w) = heap w ∧ next_session (f w) = next_session w) →
  keeps preserves (modify f).
Proof.
  intros Hf w Hwf. destruct (Hf w) as (Hr & Hh & Hn). unfold router_wf in *. simpl.
  by rewrite Hr, Hh, Hn.
Qed.

Lemma DetachClient_keeps base : keeps preserves (DetachClient base).
Proof.
  apply with_realm_keeps. intros p. unfold onLeave, close_session. go_effect;
    try (by apply events_keep); [apply DetachClient_at_ptr|apply keeps_zoom; intros v w Hwf; exact Hwf..].
Qed.

Lemma AttachClient_wf base w :
  connecting base w → preserves w (AttachClient base w).1.
Proof.
  intros [Hlt Hc]. unfold AttachClient. rewrite with_realm_run.
  destruct (realms (rt w) !! Realm_ base) as [p|] eqn:Hp; [|done].
  rewrite bind_effect. assert (preserves w (at_ptr p (Realm.AttachClient base) w).1) as Hat.
  { apply at_ptr_wf. intros r Hr Hwf.
    destruct (AttachClient_run base (mkW r (sess w))) as (_ & Hcl & Hro & _). simpl in Hcl, Hro.
    split.
    - eapply attach_wf; [|done..]. intros i c. by eapply Hc.
    - intros i c. rewrite Hcl, lookup_insert_Some. naive_solver. }
  destruct (at_ptr p (Realm.AttachClient base) w) as [w1 [[]|e|s|]]; simpl in *; try done.
  etrans; [done|].
  assert (keeps preserves (metaObj ← get (λ w, metaAPI (rt w) !! Realm_ base);
    match metaObj with Some m => onJoin m base | None => mret tt end)) as Hk.
  { unfold onJoin. go_effect. by apply events_keep. }
  apply Hk.
Qed.

Lemma new_session_keeps s n : keeps preserves (new_session s n).
Proof.
  intros w [Hn Hh]. split; simpl; [done|]. intros p r Hr. destruct (Hh p r Hr) as [? Href].
  split; [done|]. intros i c Hc. specialize (Href i c Hc). lia.
Qed.

Lemma ConnectInMemoryBase_keeps realm a ro s n id :
  keeps preserves (ConnectInMemoryBase realm a ro s n id).
Proof.
  destruct s as [s|]; [|apply keeps_fail, _]. intros w Hwf. unfold ConnectInMemoryBase.
  pose proof (new_session_keeps s n w Hwf) as Hwf1.
  erewrite bind_Val by done. set (base := Build_BaseSession _ _ _ _ _ _ _).
  set (w1 := mkRouterW _ _ _ _ _ _) in *.
  assert (connecting base w1) as Hc.
  { destruct Hwf as [_ Hh]. split; simpl; [lia|]. intros p r i c Hr Hci Heq.
    destruct (Hh p r Hr) as [_ Href]. specialize (Href i c Hci). lia. }
  rewrite bind_effect. unfold try. pose proof (AttachClient_wf base w1 Hc Hwf1) as Hwf2.
  by destruct (AttachClient base w1) as [w2 [[]|e|x|]].
Qed.

Lemma register_all_keeps session uris : keeps preserves (register_all session uris).
Proof.
  unfold register_all, register_in_memory. go_effect. apply ReceiveMessage_keeps.
Qed.

Lemma autoDiscloseCaller_keeps realm d : keeps preserves (autoDiscloseCaller realm d).
Proof.
  apply with_realm_keeps. intros p. apply update_realm_at_ptr. by intros r r' [= <-].
Qed.

Lemma EnableMetaAPI_keeps realm ids : keeps preserves (EnableMetaAPI realm ids).
Proof.
  unfold EnableMetaAPI, newMetAPI, meta_start, ConnectInMemory. go_effect.
  - apply ConnectInMemoryBase_keeps.
  - apply register_all_keeps.
  - by apply on_router_keeps.
  - apply autoDiscloseCaller_keeps.
Qed.

Lemma AddRole_wf role r r' :
  AddRole role r = Ok r' → realm_wf r → realm_wf r' ∧ clients r' = clients r.
Proof.
  intros Ha Hwf. split.
  - apply (realm_step_wf (mkW r (λ _, NewBaseSession (newLocalPeer 0) MsgPackSerializer))
      (mkW r' (λ _, NewBaseSession (newLocalPeer 0) MsgPackSerializer))); [|done].
    by apply step_add_role with (w := mkW r _) (role := role).
  - rewrite AddRole_run in Ha. by case_match; simplify_eq.
Qed.

Lemma RemoveRole_wf role r r' :
  RemoveRole role r = Ok r' → realm_wf r → realm_wf r' ∧ clients r' = clients r.
Proof.
  intros Ha Hwf. split.
  - apply (realm_step_wf (mkW r (λ _, NewBaseSession (newLocalPeer 0) MsgPackSerializer))
      (mkW r' (λ _, NewBaseSession (newLocalPeer 0) MsgPackSerializer))); [|done].
    by apply step_remove_role with (w := mkW r _) (role := role).
  - unfold RemoveRole in Ha. by case_match; simplify_eq.
Qed.

Lemma add_roles_wf rs r r' :
  add_roles rs r = Ok r' → realm_wf r → realm_wf r' ∧ clients r' = clients r.
Proof.
  revert r. induction rs as [|x rs IH]; intros r; cbn [add_roles]; [by intros [= <-]|].
  intros (r1 & Hx & Hr)%rbind_Ok Hwf. destruct (AddRole_wf _ _ _ Hx Hwf) as [Hwf1 <-].
  by apply IH.
Qed.

Lemma store_new_keeps name r :
  realm_wf r → clients r = ∅ → keeps preserves (store_new name r).
Proof.
  intros Hwf Hc w [Hn Hh]. assert (heap w !! fresh (dom (heap w)) = None) as Hf.
  { apply not_elem_of_dom, is_fresh. }
  unfold store_new. set (p := fresh (dom (heap w))) in *. split; simpl.
  - intros n q [[<- <-]|[_ Hq]]%lookup_insert_Some; [by simplify_map_eq|].
    destruct (Hn n q Hq) as [x Hx]. assert (p ≠ q) by congruence. by simplify_map_eq.
  - intros q x [[<- <-]|[_ Hq]]%lookup_insert_Some; [|by eapply Hh].
    split; [done|]. intros i c. by rewrite Hc, lookup_empty.
Qed.

Lemma new_realm_wf : realm_wf NewRealm.
Proof. split_and!; intros ?; intros; simplify_map_eq. Qed.

Lemma AddRealm_keeps name cfg ids : keeps preserves (AddRealm name cfg ids).
Proof.
  unfold AddRealm, load_realm. apply keeps_bind; [apply _|apply keeps_get, _|].
  intros [p|]; [apply keeps_fail, _|]. apply keeps_of_result; [apply _|]. intros r0 Hr0.
  destruct (AddRole_wf _ _ _ Hr0 new_realm_wf) as [Hwf0 Hc0].
  destruct cfg as [cfg|]; [|by apply store_new_keeps]. cbv zeta.
  apply keeps_bind; [apply _| |intros _].
  { destruct (cfg_Authorizer cfg); [|apply keeps_ret, _]. apply with_realm_keeps.
    intros p. apply update_realm_at_ptr. by intros r r' [= <-]. }
  apply keeps_of_result; [apply _|]. intros r1 Hr1. apply add_roles_wf in Hr1 as [Hwf1 Hc1].
  2: { by destruct (cfg_AutoDiscloseCaller cfg), (cfg_AutoDisclosePublisher cfg). }
  apply keeps_bind; [apply _| |intros _].
  - apply store_new_keeps; [done|]. rewrite Hc1.
    by destruct (cfg_AutoDiscloseCaller cfg), (cfg_AutoDisclosePublisher cfg).
  - destruct (cfg_Meta cfg); [apply EnableMetaAPI_keeps|apply keeps_ret, _].
Qed.

Lemma AddRealmAlias_keeps realm alias : keeps preserves (AddRealmAlias realm alias).
Proof.
  intros w [Hn Hh]. unfold AddRealmAlias, load_realm. erewrite bind_Val by done.
  destruct (realms (rt w) !! realm) as [p|] eqn:Hp; [|done]. erewrite bind_Val by done.
  destruct (realms (rt w) !! alias); [done|]. split; simpl; [|done].
  intros n q [[<- <-]|[_ Hq]]%lookup_insert_Some; eauto.
Qed.

Lemma realm_close_keeps p : keeps preserves (at_ptr p Realm.Close).
Proof.
  apply at_ptr_keeps. intros rw Hwf. destruct (realm_close_run rw Hwf) as (Hr & Hc & _).
  split; [|done]. by eapply subseteq_wf.
Qed.

Lemma Close_keeps : keeps preserves Close.
Proof.
  unfold Close. go_effect; [|apply on_router_keeps; intros; apply delete_subseteq].
  apply realm_close_keeps.
Qed.

(** The operations of a router, apart from connecting a client. *)
Inductive router_op : M RouterW unit → Prop :=
| op_new cfg ids : router_op (NewRouter cfg ids)
| op_add_realm name cfg ids : router_op (AddRealm name cfg ids)
| op_alias realm alias : router_op (AddRealmAlias realm alias)
| op_remove_realm name : router_op (RemoveRealm name)
| op_detach base : router_op (DetachClient base)
| op_receive base msg : router_op (ReceiveMessage base msg)
| op_add_role realm role : router_op (AddRealmRole realm role)
| op_remove_role realm role : router_op (RemoveRealmRole realm role)
| op_authorizer realm a : router_op (SetRealmAuthorizer realm a)
| op_meta realm ids : router_op (EnableMetaAPI realm ids)
| op_management ids : router_op (enableManagementAPI ids)
| op_tracking on waiting : router_op (setMessageRateTracking on waiting)
| op_tick : router_op rate_tick
| op_close : router_op Close.

Inductive router_step : RouterW → RouterW → Prop :=
| rstep_connect base w : connecting base w → router_step w (AttachClient base w).1
| rstep_connect_local realm a ro s n id w :
    router_step w (ConnectInMemoryBase realm a ro s n id w).1
| rstep_op m w : router_op m → router_step w (m w).1.

Lemma enableManagementAPI_keeps ids : keeps preserves (enableManagementAPI ids).
Proof.
  unfold enableManagementAPI, ConnectInMemory. go_effect.
  - apply ConnectInMemoryBase_keeps.
  - apply register_all_keeps.
  - by apply on_router_keeps.
  - apply autoDiscloseCaller_keeps.
Qed.

Lemma router_op_keeps m : router_op m → keeps preserves m.
Proof.
  destruct 1.
  - unfold NewRouter. go_effect;
      first [ apply on_router_keeps; intros r; apply map_empty_subseteq
            | apply AddRealm_keeps | apply enableManagementAPI_keeps | by apply events_keep ].
  - apply AddRealm_keeps.
  - apply AddRealmAlias_keeps.
  - apply on_router_keeps. intros r. apply delete_subseteq.
  - apply DetachClient_keeps.
  - apply ReceiveMessage_keeps.
  - apply with_realm_keeps. intros p. apply update_realm_at_ptr. intros. by eapply AddRole_wf.
  - apply with_realm_keeps. intros p. apply update_realm_at_ptr. intros. by eapply RemoveRole_wf.
  - apply with_realm_keeps. intros p. apply update_realm_at_ptr. by intros r r' [= <-].
  - apply EnableMetaAPI_keeps.
  - apply enableManagementAPI_keeps.
  - apply on_router_keeps. intros r. by destruct on, (trackingMsg r).
  - by apply on_router_keeps.
  - apply Close_keeps.
Qed.

Lemma router_step_wf w w' : router_step w w' → router_wf w → router_wf w'.
Proof.
  destruct 1; [by apply AttachClient_wf|apply ConnectInMemoryBase_keeps|by apply router_op_keeps].
Qed.

(** C3. Whatever clients connect and whatever operations run, in any order: every
    realm name leads to a realm, every realm stores its clients under their
    session ids, its roles under their names, and no session twice. *)
Theorem router_reachable_wf w w' :
  rt w = new_router → heap w = ∅ → rtc router_step w w' → router_wf w'.
Proof.
  intros Hr Hh Hs. assert (router_wf w) as Hwf.
  { split; rewrite ?Hr, ?Hh; simpl; intros ??; by rewrite lookup_empty. }
  clear Hr Hh. induction Hs as [|w1 w2 w3 H12 _ IH]; [done|]. by apply IH, (router_step_wf w1).
Qed.

(** In such a router a message from any session, connected or not, is
    answered by success or an error: it never panics, and never waits for a slow
    client, but with a GOODBYE for the writer of its own sender. *)
Theorem router_message_ends base msg w :
  router_wf w → closes (sess w (ref base)) = true →
  (ReceiveMessage base msg w).2 = Val tt ∨ ∃ e, (ReceiveMessage base msg w).2 = Fail e.
Proof.
  intros [Hn _] Hc. unfold ReceiveMessage. rewrite with_realm_run.
  destruct (realms (rt w) !! Realm_ base) as [p|] eqn:Hp; [|by eauto].
  destruct (Hn _ _ Hp) as [r Hr]. rewrite bind_effect, (at_ptr_run _ _ _ _ Hr). simpl.
  destruct (ReceiveMessage_ends base msg (mkW r (sess w)) Hc) as [[[] ->]|[e ->]]; simpl; eauto.
Qed.

(** A realm that is removed keeps its clients attached, but cuts them off: no
    message of theirs is routed, and they cannot be detached or closed. *)
Theorem removed_realm_strands_clients name base msg w :
  Realm_ base = name →
  let w' := (RemoveRealm name w).1 in
  heap w' = heap w ∧
  ReceiveMessage base msg w' = (w', Fail (no_realm name)) ∧
  DetachClient base w' = (w', Fail (no_realm name)).
Proof.
  intros <-. split; [done|]. unfold ReceiveMessage, DetachClient.
  rewrite !with_realm_run. by simplify_map_eq.
Qed.

(** *** Shutdown *)

(** Sessions that are closed stay closed, and those that can be closed remain so. *)
Definition closing_w w w' : Prop :=
  ∀ q, (session_closed (sess w q) = true → session_closed (sess w' q) = true) ∧
       (closes (sess w q) = true → closes (sess w' q) = true).

(** An open raw-socket client, whose writer is in a write that does not return. *)
Definition stuck_client w : Prop :=
  ∃ n p r i c, realms (rt w) !! n = Some p ∧ heap w !! p = Some r ∧
    clients r !! i = Some c ∧ closes (sess w (ref c)) = false.

Lemma close_entry_run n p r w :
  router_wf w → heap w !! p = Some r →
  let x := (at_ptr p Realm.Close;; RemoveRealm n) w in
  closing_w w x.1 ∧
  (x.2 = Val tt ∧ router_wf x.1 ∧ realms (rt x.1) = delete n (realms (rt w)) ∧
   (∀ q s, heap w !! q = Some s → q ≠ p → heap x.1 !! q = Some s) ∧
   (∃ s, heap x.1 !! p = Some s ∧ clients s = ∅) ∧
   (∀ i c, clients r !! i = Some c → session_closed (sess x.1 (ref c)) = true) ∨
   x.2 = Blocks ∧ ∃ i c, clients r !! i = Some c ∧ closes (sess w (ref c)) = false).
Proof.
  intros Hwf Hr. assert (realm_wf r) as Hrwf by by apply (proj2 Hwf p r).
  destruct (realm_close_run (mkW r (sess w)) Hrwf) as (Hro & Hsub & Hm & Ho).
  assert (keeps preserves (at_ptr p Realm.Close;; RemoveRealm n)) as Hk.
  { go_effect; [apply realm_close_keeps|apply on_router_keeps; intros; apply delete_subseteq]. }
  specialize (Hk w Hwf). rewrite bind_effect, (at_ptr_run _ _ _ _ Hr) in Hk |- *.
  cbn [fst snd] in *.
  destruct Ho as [(Hv & Hc & Hcl)|[Hv Hn]]; rewrite Hv in Hk |- *; simpl in *.
  - split; [exact Hm|]. left. split_and!; [done|done|done| | |exact Hcl].
    + intros q x Hq Hne. by rewrite lookup_insert_ne.
    + eexists. split; [apply lookup_insert_eq|done].
  - split; [exact Hm|]. right. split; [done|].
    assert (¬ map_Forall (λ _ c, closes (sess w (ref c)) = true) (clients r)) as Hx
      by (intros Hall; apply Hn; intros i c Hi; exact (Hall i c Hi)).
    apply map_not_Forall in Hx as (i & c & Hi & Hc); [|apply _].
    exists i, c. split; [done|]. by apply not_true_iff_false.
Qed.

Lemma close_entries_run (es : list (string * nat)) w :
  router_wf w → (∀ e, e ∈ es → is_Some (heap w !! e.2)) →
  let x := for_M (λ e, at_ptr e.2 Realm.Close;; RemoveRealm e.1) es w in
  closing_w w x.1 ∧
  (x.2 = Val tt ∧ realms (rt x.1) ⊆ realms (rt w) ∧
   (∀ e, e ∈ es → realms (rt x.1) !! e.1 = None) ∧
   (∀ e r i c, e ∈ es → heap w !! e.2 = Some r → clients r !! i = Some c →
     session_closed (sess x.1 (ref c)) = true) ∨
   x.2 = Blocks ∧ ∃ e r i c, e ∈ es ∧ heap w !! e.2 = Some r ∧ clients r !! i = Some c ∧
     closes (sess w (ref c)) = false).
Proof.
  revert w. induction es as [|[n p] es IH]; intros w Hwf Hes; cbn [for_M fst snd].
  { split; [done|]. left. split_and!; [done|done|set_solver|set_solver]. }
  destruct (Hes (n, p)) as [r Hr]; [set_solver|]. cbn [snd] in Hr.
  destruct (close_entry_run n p r w Hwf Hr) as (Hm & Ho). rewrite bind_effect.
  destruct Ho as [(Hv & Hwf1 & Hrl & Hh & (r1 & Hr1 & Hr1c) & Hcl)|(Hv & i & c & Hc & Hf)];
    rewrite Hv; [|split; [done|right; split; [done|]; exists (n, p), r, i, c; split_and!; [apply list_elem_of_here|done..]]].
  set (w1 := ((at_ptr p Realm.Close;; RemoveRealm n) w).1) in *.
  assert (∀ e, e ∈ es → is_Some (heap w1 !! e.2)) as Hes1.
  { intros e He. destruct (decide (e.2 = p)) as [->|Hne]; [by exists r1|].
    destruct (Hes e) as [s Hs]; [set_solver|]. exists s. by apply Hh. }
  destruct (IH w1 Hwf1 Hes1) as (Hm1 & Ho). split.
  { intros q. destruct (Hm q), (Hm1 q). split; auto. }
  destruct Ho as [(Hv1 & Hsub & Hnone & Hcl1)|(Hv1 & e & s & i & c & He & Hs & Hc & Hf)].
  - left. split_and!; [done| | |].
    + etrans; [exact Hsub|]. rewrite Hrl. apply delete_subseteq.
    + intros e [->|He]%elem_of_cons; [|by apply Hnone]. cbn [fst].
      eapply lookup_weaken_None; [|exact Hsub]. rewrite Hrl. by simplify_map_eq.
    + intros e s i c He Hs Hc. destruct (decide (e.2 = p)) as [Hp|Hne].
      * rewrite Hp, Hr in Hs. injection Hs as <-. apply Hm1. by eapply Hcl.
      * apply elem_of_cons in He as [->|He]; [done|]. eapply Hcl1; [exact He| |exact Hc]. by apply Hh.
  - right. split; [done|]. exists e, s, i, c. split_and!; [set_solver| |done|].
    + destruct (decide (e.2 = p)) as [Hp|Hne].
      { rewrite Hp, Hr1 in Hs. injection Hs as <-. by rewrite Hr1c, lookup_empty in Hc. }
      destruct (Hes e) as [s' Hs']; [set_solver|]. by rewrite Hs', <-(Hh _ _ Hs' Hne).
    + destruct (closes (sess w (ref c))) eqn:Hcw; [|done]. destruct (Hm (ref c)) as [_ Hk].
      by rewrite Hk in Hf.
Qed.

Lemma close_session_run base w :
  close_session base w =
  (mkRouterW (rt w) (heap w) (<[ref base := (CloseSession (sess w (ref base))).1]> (sess w))
     (next_session w) (spawned w) (log_level w),
   if closes (sess w (ref base)) then Val tt else Blocks).
Proof.
  pose proof (ignore_CloseSession (sess w (ref base))) as Hi.
  unfold close_session, on_client_session, ignore, try, mbind, M_bind in *. rewrite zoom_run.
  destruct (CloseSession (sess w (ref base))) as [s v]. cbn [fst snd] in *.
  destruct v, (closes (sess w (ref base))); by simplify_eq.
Qed.

(** The entries that [Close] goes through are those of the table. *)
Lemma range_realms w n p :
  realms (rt w) !! n = Some p ↔ (n, p) ∈ range_entries (realms (rt w)).
Proof. rewrite range_entries_perm. symmetry. apply elem_of_map_to_list. Qed.

Lemma Close_entries w :
  router_wf w → ∀ e, e ∈ range_entries (realms (rt w)) → is_Some (heap w !! e.2).
Proof. intros Hwf [n p] He. by apply range_realms, (proj1 Hwf) in He. Qed.

Lemma Close_run w :
  router_wf w →
  closing_w w (Close w).1 ∧
  ((Close w).2 = Val tt ∧ realms (rt (Close w).1) = ∅ ∧
   (∀ n p r i c, realms (rt w) !! n = Some p → heap w !! p = Some r →
     clients r !! i = Some c → session_closed (sess (Close w).1 (ref c)) = true) ∨
   (Close w).2 = Blocks ∧ stuck_client w).
Proof.
  intros Hwf. unfold Close. erewrite bind_Val by done.
  destruct (close_entries_run _ w Hwf (Close_entries w Hwf))
    as (Hm & [(Hv & Hsub & Hnone & Hcl)|(Hv & [n p] & r & i & c & He & Hr & Hc & Hf)]);
    (split; [done|]); [left|right]; split_and!; try done.
  - apply map_eq. intros n. rewrite lookup_empty.
    destruct (realms (rt w) !! n) as [p|] eqn:Hn; [|by eapply lookup_weaken_None].
    by apply range_realms, Hnone in Hn.
  - intros n p r i c Hn Hr Hc. apply range_realms in Hn. by apply (Hcl (n, p) r i c).
  - exists n, p, r, i, c. split_and!; try done. by apply range_realms.
Qed.


End RouterSpec.
