(* ===== verification/RouterEnds.v ===== *)
(** * The operations of a router return (router.go, client.go)

    From a well-formed router no operation panics, and none waits but for the writer
    of a raw-socket client that is closed: each returns, with a value or an error.
    [orderly] is that together with keeping the router well formed and getting no
    writer stuck, so that it composes. *)

From stdpp Require Import functions.
From S2P Require Import Prelude GoStd Wamp Permissions Peers Realm Router.

Local Open Scope string_scope.

Section RouterEnds.
Context `{WampMessagesOk} `{!WampSerializers} `{!WampRouting} `{!WampRoutingOk}
  `{WampConstants} `{MapRange} `{FmtV} `{LogLevels}.
Implicit Types (w : RouterW).

#[local] Existing Instance preserves_pre.

(** The writer of an open raw-socket session is in a write that does not return. *)
Definition stuck_writer w : Prop := ∃ q,
  let x := client (sess w q) in
  transportType x = TransportRawSocket ∧ closed x = false ∧ stalled x = true.

Lemma stuck_writer_closes w : stuck_writer w ↔ ∃ q, closes (sess w q) = false.
Proof.
  unfold stuck_writer. split; intros [q Hq]; exists q;
    change (closes (sess w q)) with (close_returns (client (sess w q))) in *; unfold close_returns in *;
    destruct (client (sess w q)) as [[] l cap [] []]; naive_solver.
Qed.

Definition unstuck w w' : Prop := ∀ q, closes (sess w q) = true → closes (sess w' q) = true.
#[local] Instance unstuck_pre : PreOrder unstuck.
Proof. split; [by intros w q|]. intros w1 w2 w3 H12 H23 q Hq. by apply H23, H12. Qed.

Lemma stuck_before w w' : unstuck w w' → stuck_writer w' → stuck_writer w.
Proof.
  rewrite !stuck_writer_closes. intros Hu [q Hq]. exists q.
  destruct (closes (sess w q)) eqn:Hc; [|done]. by rewrite (Hu q Hc) in Hq.
Qed.

Definition settles {A} w (v : exec A) : Prop := returns_or (stuck_writer w) v.

Definition orderly {A} (m : M RouterW A) : Prop :=
  ∀ w, router_wf w → router_wf (m w).1 ∧ unstuck w (m w).1 ∧ settles w (m w).2.

Lemma orderly_keeps {A} (m : M RouterW A) : orderly m → keeps preserves m.
Proof. intros Hm w Hwf. by apply Hm. Qed.

Lemma orderly_intro {A} (m : M RouterW A) :
  keeps preserves m → keeps unstuck m → (∀ w, router_wf w → settles w (m w).2) → orderly m.
Proof. intros Hk Hu Hr w Hwf. split_and!; [by apply Hk|apply Hu|by apply Hr]. Qed.

Lemma settles_before {A} w w' (v : exec A) : unstuck w w' → settles w' v → settles w v.
Proof.
  intros Hu [?|[?|[? Hs]]]; [by left|by right; left|right; right]. eauto using stuck_before.
Qed.

Lemma orderly_bind {A B} (m : M RouterW A) (k : A → M RouterW B) :
  orderly m → (∀ a, orderly (k a)) → orderly (m ≫= k).
Proof.
  intros Hm Hk w Hwf. destruct (Hm w Hwf) as (Hwf1 & Hu & Hr). rewrite bind_effect.
  destruct Hr as [[a ->]|[[e ->]|[-> Hs]]].
  - destruct (Hk a _ Hwf1) as (Hwf2 & Hu2 & Hr2). split_and!; [done|by etrans|by eapply settles_before].
  - split_and!; [done..|]. right. left. by exists e.
  - split_and!; [done..|]. by right; right.
Qed.

Lemma orderly_try {A} (m : M RouterW A) : orderly m → orderly (try m).
Proof.
  intros Hm w Hwf. destruct (Hm w Hwf) as (Hwf1 & Hu & Hr). unfold try.
  destruct (m w) as [w1 r]. simpl in *. destruct Hr as [[a ->]|[[e ->]|[-> Hs]]]; split_and!; try done.
  - left. eauto.
  - left. eauto.
  - by right; right.
Qed.

Lemma orderly_ends {A} (m : M RouterW A) :
  keeps preserves m → keeps unstuck m → ends m → orderly m.
Proof. intros Hk Hu He. apply orderly_intro; [done..|]. intros w _. by apply ends_returns. Qed.

Lemma orderly_pure {A} (m : M RouterW A) : (∀ w, (m w).1 = w) → ends m → orderly m.
Proof. intros Hw. apply orderly_ends; intros w; by rewrite Hw. Qed.

Lemma orderly_ret {A} (a : A) : orderly (mret a).
Proof. apply orderly_pure; [done|apply ends_ret]. Qed.

Lemma orderly_fail {A} e : orderly (fail (A := A) e).
Proof. apply orderly_pure; [done|apply ends_fail]. Qed.

Lemma orderly_get {A} (f : RouterW → A) : orderly (get f).
Proof. apply orderly_pure; [done|apply ends_get]. Qed.

Lemma orderly_of_result {A} (r : result A) : orderly (of_result r).
Proof. destruct r; [apply orderly_ret|apply orderly_fail]. Qed.

Lemma orderly_ignore {A} (m : M RouterW A) : orderly m → orderly (ignore m).
Proof. intros. apply orderly_bind; [by apply orderly_try|intros; apply orderly_ret]. Qed.

Lemma orderly_for_M {A} (f : A → M RouterW unit) l : (∀ x, orderly (f x)) → orderly (for_M f l).
Proof. intros. induction l; simpl; [apply orderly_ret|by apply orderly_bind]. Qed.

(** *** No operation gets a writer stuck *)

Lemma same_sessions_unstuck {A} (m : M RouterW A) : (∀ w, sess (m w).1 = sess w) → keeps unstuck m.
Proof. intros Hm w q. by rewrite Hm. Qed.

Lemma on_router_unstuck f : keeps unstuck (on_router f).
Proof. by apply same_sessions_unstuck. Qed.

Lemma modify_unstuck (f : RouterW → RouterW) : (∀ w, sess (f w) = sess w) → keeps unstuck (modify f).
Proof. intros. by apply same_sessions_unstuck. Qed.

Lemma at_ptr_unstuck {A} p (m : M (RealmW (St := base_session)) A) :
  keeps closes_kept m → keeps unstuck (at_ptr p m).
Proof.
  intros Hm w q. unfold at_ptr. destruct (heap w !! p) as [r|]; [|done].
  specialize (Hm (mkW r (sess w)) q). by destruct (m (mkW r (sess w))).
Qed.

Lemma same_net_unstuck {A} p (m : M (RealmW (St := base_session)) A) :
  (∀ x, net (m x).1 = net x) → keeps unstuck (at_ptr p m).
Proof. intros Hm. apply at_ptr_unstuck. intros x q. by rewrite Hm. Qed.

Lemma with_realm_unstuck {A} name (k : nat → M RouterW A) :
  (∀ p, keeps unstuck (k p)) → keeps unstuck (with_realm name k).
Proof.
  intros Hk w. rewrite with_realm_run. destruct (realms (rt w) !! name); [apply Hk|done].
Qed.

Lemma update_realm_unstuck p f : keeps unstuck (at_ptr p (update_realm f)).
Proof. apply same_net_unstuck. intros x. unfold update_realm. by destruct (f (rlm x)). Qed.

Lemma close_session_unstuck base : keeps unstuck (close_session base).
Proof.
  intros w q. rewrite close_session_run. cbn [fst sess]. destruct (decide (ref base = q)) as [<-|Hne].
  - rewrite fn_lookup_insert. intros _. by apply closes_closed, CloseSession_ok.
  - by rewrite fn_lookup_insert_ne.
Qed.

Lemma AttachClient_unstuck base : keeps unstuck (AttachClient base).
Proof.
  apply with_realm_unstuck. intros p. unfold onJoin. go_effect; try by apply modify_unstuck.
  apply same_net_unstuck. intros x. apply AttachClient_run.
Qed.

Lemma DetachClient_unstuck base : keeps unstuck (DetachClient base).
Proof.
  apply with_realm_unstuck. intros p. unfold onLeave.
  go_effect; try by apply modify_unstuck.
  all: try apply close_session_unstuck.
  apply same_net_unstuck. intros x. apply DetachClient_run.
Qed.

Lemma ReceiveMessage_unstuck base msg : keeps unstuck (ReceiveMessage base msg).
Proof.
  apply with_realm_unstuck. intros p. go_effect; [|apply on_router_unstuck].
  apply at_ptr_unstuck, ReceiveMessage_closes.
Qed.

Lemma new_session_unstuck s n : keeps unstuck (new_session s n).
Proof.
  intros w q. simpl. destruct (decide (next_session w = q)) as [<-|Hne].
  - by rewrite fn_lookup_insert.
  - by rewrite fn_lookup_insert_ne.
Qed.

Lemma ConnectInMemoryBase_unstuck realm a ro s n id :
  keeps unstuck (ConnectInMemoryBase realm a ro s n id).
Proof.
  destruct s as [s|]; [|apply keeps_fail, _]. unfold ConnectInMemoryBase.
  go_effect; [apply new_session_unstuck|apply AttachClient_unstuck].
Qed.

Lemma Close_unstuck w : router_wf w → unstuck w (Close w).1.
Proof. intros Hwf q. apply (Close_run w Hwf). Qed.

Lemma orderly_on_router f : (∀ r, realms (f r) ⊆ realms r) → orderly (on_router f).
Proof.
  intros Hf. apply orderly_ends; [by apply on_router_keeps|apply on_router_unstuck|apply ends_modify].
Qed.

Lemma bind_settles {A B} (m : M RouterW A) (k : A → M RouterW B) w :
  unstuck w (m w).1 → settles w (m w).2 → (∀ a, settles (m w).1 (k a (m w).1).2) →
  settles w ((m ≫= k) w).2.
Proof. intros Hu Hm Hk. apply returns_bind; [done|]. intros a. by eapply settles_before. Qed.

(** A method of a realm that the table leads to. *)
Lemma at_ptr_returns {A} p (m : M (RealmW (St := base_session)) A) w P :
  is_Some (heap w !! p) → ends m → returns_or P (at_ptr p m w).2.
Proof. intros [r Hr] Hm. rewrite (at_ptr_run _ _ _ _ Hr). by apply (ends_returns m). Qed.

Lemma with_realm_returns {A} name (k : nat → M RouterW A) w P :
  router_wf w → (∀ p, is_Some (heap w !! p) → returns_or P (k p w).2) →
  returns_or P (with_realm name k w).2.
Proof.
  intros [Hn _] Hk. rewrite with_realm_run.
  destruct (realms (rt w) !! name) as [p|] eqn:Hp; [by eapply Hk, Hn|right; left; simpl; eauto].
Qed.

Lemma close_session_settles base w : settles w (close_session base w).2.
Proof.
  rewrite close_session_run. cbn [snd]. destruct (closes (sess w (ref base))) eqn:Hc; [left; by eexists|].
  right. right. split; [done|]. apply stuck_writer_closes. by exists (ref base).
Qed.

Lemma update_realm_ends f : ends (update_realm f).
Proof. intros w. unfold update_realm. destruct (f (rlm w)); [left|right]; simpl; eauto. Qed.

Lemma realm_update_orderly name f :
  (∀ r r', f r = Ok r' → realm_wf r → realm_wf r' ∧ clients r' = clients r) →
  orderly (with_realm name (λ p, at_ptr p (update_realm f))).
Proof.
  intros Hf. apply orderly_intro.
  - apply with_realm_keeps. intros p. by apply update_realm_at_ptr.
  - apply with_realm_unstuck. intros p. apply update_realm_unstuck.
  - intros w Hwf. apply with_realm_returns; [done|]. intros p Hp.
    by apply at_ptr_returns, update_realm_ends.
Qed.

(** *** Clients *)

Lemma AttachClient_returns base w P : router_wf w → returns_or P (AttachClient base w).2.
Proof.
  intros Hwf. apply with_realm_returns; [done|]. intros p Hp. apply returns_bind.
  - apply at_ptr_returns; [done|]. by destruct (AttachClient_run base (mkW NewRealm (sess w))).
  - intros _. apply ends_returns. go_effect.
Qed.

Lemma DetachClient_orderly base : orderly (DetachClient base).
Proof.
  apply orderly_intro; [apply DetachClient_keeps|apply DetachClient_unstuck|]. intros w Hwf.
  apply with_realm_returns; [done|]. intros p Hp. apply bind_settles.
  - apply same_net_unstuck. intros x. apply DetachClient_run.
  - apply at_ptr_returns; [done|]. by destruct (DetachClient_run base (mkW NewRealm (sess w))).
  - intros _. apply bind_settles; [by apply same_sessions_unstuck|by left; eexists|]. intros o.
    apply bind_settles; [by destruct o; apply same_sessions_unstuck|by destruct o; left; eexists|].
    intros _. apply close_session_settles.
Qed.

Lemma ReceiveMessage_orderly base msg : orderly (ReceiveMessage base msg).
Proof.
  apply orderly_intro; [apply ReceiveMessage_keeps|apply ReceiveMessage_unstuck|]. intros w Hwf.
  apply with_realm_returns; [done|]. intros p [r Hr]. apply bind_settles.
  - apply at_ptr_unstuck, ReceiveMessage_closes.
  - rewrite (at_ptr_run _ _ _ _ Hr). cbn [snd].
    destruct (ReceiveMessage_returns base msg (mkW r (sess w))) as [?|[?|[Hv Hc]]];
      [by left|by right; left|right; right]. split; [done|]. apply stuck_writer_closes. by exists (ref base).
  - intros _. apply ends_returns, ends_modify.
Qed.

Lemma ConnectInMemoryBase_returns realm a ro s n id w P :
  router_wf w → returns_or P (ConnectInMemoryBase realm a ro s n id w).2.
Proof.
  intros Hwf. destruct s as [s|]; [|right; left; by eexists]. unfold ConnectInMemoryBase.
  apply returns_bind; [by left; eexists|]. intros q.
  pose proof (new_session_keeps s n w Hwf) as Hwf1. set (w1 := (new_session s n w).1) in *.
  apply returns_bind; [|intros [x|e]; [left|right; left]; by eexists].
  unfold try. match goal with |- context [AttachClient ?b _] => pose proof (AttachClient_returns b w1 P Hwf1) as Hr end.
  destruct (AttachClient _ w1) as [w2 v]. simpl in *.
  destruct Hr as [[x ->]|[[e ->]|[-> ?]]]; [left|left|right; right]; eauto.
Qed.

Lemma ConnectInMemoryBase_orderly realm a ro s n id :
  orderly (ConnectInMemoryBase realm a ro s n id).
Proof.
  apply orderly_intro; [apply ConnectInMemoryBase_keeps|apply ConnectInMemoryBase_unstuck|].
  intros w. apply ConnectInMemoryBase_returns.
Qed.

Lemma ConnectInMemory_orderly realm ids : orderly (ConnectInMemory realm ids).
Proof. apply ConnectInMemoryBase_orderly. Qed.

Lemma register_all_orderly session uris : orderly (register_all session uris).
Proof.
  apply orderly_for_M. intros e. apply orderly_bind; [apply orderly_get|]. intros before.
  apply orderly_bind; [apply orderly_ignore, ReceiveMessage_orderly|]. intros _.
  apply orderly_bind; [apply orderly_get|]. intros answer. apply orderly_of_result.
Qed.

(** *** Realms *)

Lemma autoDiscloseCaller_orderly realm d : orderly (autoDiscloseCaller realm d).
Proof. apply realm_update_orderly. by intros r r' [= <-]. Qed.

Lemma EnableMetaAPI_orderly realm ids : orderly (EnableMetaAPI realm ids).
Proof.
  apply orderly_bind.
  - apply orderly_bind; [apply ConnectInMemory_orderly|]. intros s. apply orderly_ret.
  - intros m. apply orderly_bind; [apply register_all_orderly|]. intros _.
    apply orderly_bind; [by apply orderly_on_router|]. intros _. apply autoDiscloseCaller_orderly.
Qed.

Lemma SetRealmAuthorizer_orderly realm a : orderly (SetRealmAuthorizer realm a).
Proof. apply realm_update_orderly. by intros r r' [= <-]. Qed.

Lemma EnableMetaAPI_unstuck realm ids : keeps unstuck (EnableMetaAPI realm ids).
Proof.
  unfold EnableMetaAPI, newMetAPI, meta_start, ConnectInMemory, register_all, register_in_memory.
  go_effect.
  - apply ConnectInMemoryBase_unstuck.
  - apply ReceiveMessage_unstuck.
  - apply on_router_unstuck.
  - apply with_realm_unstuck. intros p. apply update_realm_unstuck.
Qed.

Lemma AddRealm_unstuck name cfg ids : keeps unstuck (AddRealm name cfg ids).
Proof.
  unfold AddRealm, load_realm. go_effect; try by apply same_sessions_unstuck.
  all: try apply EnableMetaAPI_unstuck.
  all: apply with_realm_unstuck; intros p; apply update_realm_unstuck.
Qed.

Lemma AddRealm_returns name cfg ids w : router_wf w → settles w (AddRealm name cfg ids w).2.
Proof.
  intros Hwf. unfold AddRealm, load_realm. erewrite bind_Val by done.
  destruct (realms (rt w) !! name) as [p|]; [by right; left; eauto|].
  destruct (AddRole trusted_role NewRealm) as [r0|e] eqn:Hr0; [|by right; left; eauto].
  destruct (AddRole_wf _ _ _ Hr0 new_realm_wf) as [Hwf0 Hc0]. erewrite bind_Val by done.
  destruct cfg as [cfg|]; [|by left; eauto]. cbv zeta.
  set (r1 := if cfg_AutoDisclosePublisher cfg then _ else _).
  assert (realm_wf r1 ∧ clients r1 = ∅) as [Hwf1 Hc1].
  { unfold r1. by destruct (cfg_AutoDiscloseCaller cfg), (cfg_AutoDisclosePublisher cfg). }
  clearbody r1. assert (∀ w, router_wf w → settles w ((realm ← of_result (add_roles (cfg_Roles cfg) r1);
    store_new name realm;; (if cfg_Meta cfg then EnableMetaAPI name ids else mret tt)) w).2) as Hrest.
  { clear w Hwf. intros w Hwf. destruct (add_roles (cfg_Roles cfg) r1) as [r2|e] eqn:Hr2;
      [|by right; left; eauto].
    apply add_roles_wf in Hr2 as [Hwf2 Hc2]; [|done].
    pose proof (store_new_keeps name r2 Hwf2 (eq_trans Hc2 Hc1) w Hwf) as Hwf3.
    erewrite bind_Val by done. erewrite bind_Val by done.
    destruct (cfg_Meta cfg); [|by left; eauto].
    apply (proj2 (proj2 (EnableMetaAPI_orderly name ids _ Hwf3))). }
  rewrite bind_effect. destruct (cfg_Authorizer cfg) as [a|]; [|by apply Hrest].
  destruct (SetRealmAuthorizer_orderly name a w Hwf) as (Hwf2 & Hu & [[x ->]|[[e ->]|[-> ?]]]);
    [by eapply settles_before, Hrest|by right; left; eauto|by right; right].
Qed.

Lemma AddRealm_orderly name cfg ids : orderly (AddRealm name cfg ids).
Proof.
  apply orderly_intro; [apply AddRealm_keeps|apply AddRealm_unstuck|].
  intros w. apply AddRealm_returns.
Qed.

Lemma AddRealmAlias_orderly realm alias : orderly (AddRealmAlias realm alias).
Proof.
  apply orderly_ends; [apply AddRealmAlias_keeps| |]; unfold AddRealmAlias, load_realm; go_effect.
  apply on_router_unstuck.
Qed.

Lemma AddRealmRole_orderly realm role : orderly (AddRealmRole realm role).
Proof. apply realm_update_orderly. intros. by eapply AddRole_wf. Qed.

Lemma enableManagementAPI_orderly ids : orderly (enableManagementAPI ids).
Proof.
  apply orderly_bind; [apply orderly_get|]. intros []; [apply orderly_ret|].
  apply orderly_bind; [apply ConnectInMemory_orderly|]. intros s.
  apply orderly_bind; [apply register_all_orderly|]. intros _.
  apply orderly_bind; [by apply orderly_on_router|]. intros _. apply autoDiscloseCaller_orderly.
Qed.

Lemma NewRouter_orderly cfg ids : orderly (NewRouter cfg ids).
Proof.
  apply orderly_bind; [apply orderly_on_router; intros r; apply map_empty_subseteq|]. intros _.
  destruct cfg as [cfg|]; [|apply orderly_ret]. apply orderly_bind.
  - destruct (Management cfg); [|apply orderly_ret].
    apply orderly_bind; [apply AddRealm_orderly|]. intros _. apply enableManagementAPI_orderly.
  - intros _. apply orderly_ends; [by apply events_keep|by apply modify_unstuck|apply ends_modify].
Qed.

Lemma Close_orderly : orderly Close.
Proof.
  intros w Hwf. split_and!; [by apply Close_keeps|by apply Close_unstuck|].
  destruct (Close_run w Hwf) as [_ [[-> _]|[-> (n & p & r & i & c & _ & _ & _ & Hc)]]];
    [left; by eexists|right; right]. split; [done|]. apply stuck_writer_closes. by exists (ref c).
Qed.

Lemma router_op_orderly m : router_op m → orderly m.
Proof.
  destruct 1.
  - apply NewRouter_orderly.
  - apply AddRealm_orderly.
  - apply AddRealmAlias_orderly.
  - apply orderly_on_router. intros r. apply delete_subseteq.
  - apply DetachClient_orderly.
  - apply ReceiveMessage_orderly.
  - apply AddRealmRole_orderly.
  - apply realm_update_orderly. intros. by eapply RemoveRole_wf.
  - apply SetRealmAuthorizer_orderly.
  - apply EnableMetaAPI_orderly.
  - apply enableManagementAPI_orderly.
  - apply orderly_on_router. intros r. by destruct on, (trackingMsg r).
  - by apply orderly_on_router.
  - apply Close_orderly.
Qed.

(** When no writer is stuck, every operation returns, and none is stuck after it. *)
Definition calm w : Prop := router_wf w ∧ ¬ stuck_writer w.
Definition returned {A} (v : exec A) : Prop := (∃ a, v = Val a) ∨ (∃ e, v = Fail e).

Lemma orderly_calm {A} (m : M RouterW A) w :
  orderly m → calm w → calm (m w).1 ∧ returned (m w).2.
Proof.
  intros Hm [Hwf Hs]. destruct (Hm w Hwf) as (Hwf1 & Hu & Hr). split.
  - split; [done|]. intros Hs1. by apply Hs, (stuck_before w (m w).1).
  - destruct Hr as [?|[?|[_ ?]]]; [by left|by right|done].
Qed.

Lemma Close_calm w :
  calm w → (Close w).2 = Val tt ∧ realms (rt (Close w).1) = ∅ ∧ calm (Close w).1.
Proof.
  intros Hw. destruct (orderly_calm Close w Close_orderly Hw) as [Hc Hret].
  destruct Hw as [Hwf _]. destruct (Close_run w Hwf) as [_ [(Hv & He & _)|[Hv _]]]; [done|].
  rewrite Hv in Hret. by destruct Hret as [[??]|[??]].
Qed.


End RouterEnds.
