(* ===== verification/Server.v ===== *)
(** * Serving clients (server.go)

    [HandleClient] turns a connection into a session by the handshake of its
    listener, attaches it to its realm, feeds its messages to the router until
    a read fails, and detaches it.  The bytes a connection yields and what the
    handshakes of the transports negotiate are arguments. *)

From stdpp Require Import functions.
From S2P Require Import Prelude GoStd Wamp Permissions Peers Acceptor Realm Router RouterEnds.

Local Open Scope string_scope.

Inductive ListenerType := ListenerWebSocket | ListenerRawSocket | ListenerUniversalTCP.

Section Server.
Context `{WampHandshake} `{!WampRouting} `{WampConstants} `{MapRange} `{FmtV} `{LogLevels}.

Abbreviation reads := (list (result string)).

(** The fields of a server that a handshake uses.  [acceptor] names the tables
    of its WebSocket acceptor. *)
Record Server := {
  acceptor : nat;
  authenticator : ServerAuthenticator;
  outQueueSize : nat;
}.

(** What the transport of a connection negotiates: the first byte (for a
    listener that serves both), the subprotocol of the WebSocket upgrade, the
    serializer of the RawSocket handshake. *)
Record connection := {
  first_byte : result Z;
  upgraded : result string;
  handshaken : result Z;
  incoming : reads;
}.

(** How [HandleClient] ended: no peer was made, the peer was refused, the
    router refused the session, or it was served until a read failed. *)
Inductive ending :=
| NotUpgraded
| Refused (p : Peer) (e : error)
| NotAttached (base : BaseSession) (e : error)
| Detached (base : BaseSession).

(** [base.ReadMessage()] *)
Definition read_message (base : BaseSession) (r : result string) : M RouterW Message :=
  zoom (λ w, sess w (ref base))
    (λ s w, mkRouterW (rt w) (heap w) (<[ref base := s]> (sess w)) (next_session w) (spawned w)
              (log_level w)) (base_ReadMessage r).

(** The loop of [HandleClient]. *)
Fixpoint serve (base : BaseSession) (rs : reads) : M RouterW unit :=
  match rs with
  | [] => λ w, (w, Blocks)
  | r :: rs =>
      msg ← try (read_message base r);
      match msg with
      | Err _ => ignore (DetachClient base)
      | Ok msg => ignore (ReceiveMessage base msg);; serve base rs
      end
  end.

(** [NewBaseSession(d.ID(), ..., peer, serializer)] *)
Definition new_base (d : details) (p : Peer) (s : Serializer) : M RouterW BaseSession := λ w,
  (mkRouterW (rt w) (heap w) (<[next_session w := NewBaseSession p s]> (sess w))
     (S (next_session w)) (spawned w) (log_level w),
   Val {| ID := d_ID d; Realm_ := d_Realm d; AuthID := d_AuthID d; AuthRole := d_AuthRole d;
          AuthMethod := d_AuthMethod d; AuthExtra := d_AuthExtra d; ref := next_session w |}).

(** A handshake on a new peer, and what follows it. *)
Definition handle_accepted (p : Peer)
    (accept : M Peer (details * Serializer * reads)) : M RouterW ending :=
  match accept p with
  | (p, Val (d, s, rs)) =>
      base ← new_base d p s;
      attached ← try (AttachClient base);
      match attached with
      | Err e => mret (NotAttached base e)
      | Ok _ => serve base rs;; mret (Detached base)
      end
  | (p, Fail e) => mret (Refused p e)
  | (_, Crash why) => crash why
  | (_, Blocks) => λ w, (w, Blocks)
  end.

Definition handle_websocket (specs : registries) (s : Server) (c : connection)
    : M RouterW ending :=
  match upgraded c with
  | Err _ => mret NotUpgraded
  | Ok protocol =>
      known ← get (λ w, λ name, bool_decide (is_Some (realms (rt w) !! name)));
      handle_accepted (NewWebSocketPeer (server_queue_size (outQueueSize s)))
        (WebSocketAcceptor_Accept specs (acceptor s) protocol known (authenticator s) (incoming c))
  end.

Definition handle_rawsocket (specs : registries) (s : Server) (c : connection)
    : M RouterW ending :=
  match handshaken c with
  | Err _ => mret NotUpgraded
  | Ok serializerID =>
      handle_accepted (NewRawSocketPeer (server_queue_size (outQueueSize s)))
        (RawSocketAcceptor_Accept specs serializerID (authenticator s) (incoming c))
  end.

Definition HandleClient (specs : registries) (s : Server) (l : ListenerType) (c : connection)
    : M RouterW ending :=
  match l with
  | ListenerWebSocket => handle_websocket specs s c
  | ListenerRawSocket => handle_rawsocket specs s c
  | ListenerUniversalTCP =>
      match first_byte c with
      | Err _ => mret NotUpgraded
      | Ok b =>
          if bool_decide (b = MAGIC) then handle_rawsocket specs s c
          else handle_websocket specs s c
      end
  end.

End Server.

(** ** Serving a client *)

Section ServerSpec.
Context `{WampMessagesOk} `{!WampSerializers} `{!WampHandshake} `{!WampRouting}
  `{!WampRoutingOk} `{WampConstants} `{MapRange} `{FmtV} `{LogLevels}.

Implicit Types (w : RouterW) (base : BaseSession).

(** The read that ends a connection: one that fails or does not parse. *)
Definition ends_connection (s : Serializer) (r : result string) : bool :=
  match r with
  | Err _ => true
  | Ok payload => negb (is_ok (Deserialize s payload))
  end.

Lemma base_ReadMessage_run r b :
  serializer (base_ReadMessage r b).1 = serializer b ∧
  if ends_connection (serializer b) r then ∃ e, (base_ReadMessage r b).2 = Fail e
  else ∃ m, (base_ReadMessage r b).2 = Val m.
Proof.
  unfold base_ReadMessage, ends_connection. destruct r as [payload|e]; simpl; [|by eauto].
  erewrite bind_Val by done. erewrite bind_Val by done.
  destruct (Deserialize (serializer b) payload) as [m|e]; simpl; [|by eauto].
  split; [|by eauto]. by destruct (publish_log_keeps false m b).
Qed.

Lemma base_ReadMessage_client r b : client (base_ReadMessage r b).1 = client b.
Proof.
  unfold base_ReadMessage. destruct r as [payload|e]; [|done].
  erewrite bind_Val by done. erewrite bind_Val by done.
  destruct (Deserialize (serializer b) payload); [|done]. apply publish_log_keeps.
Qed.

Lemma read_message_run base r w :
  let b := (base_ReadMessage r (sess w (ref base))).1 in
  read_message base r w =
  (mkRouterW (rt w) (heap w) (<[ref base := b]> (sess w)) (next_session w) (spawned w)
     (log_level w), (base_ReadMessage r (sess w (ref base))).2).
Proof. unfold read_message. by rewrite zoom_run. Qed.

(** A round of the loop keeps what the end of the loop relies on. *)
Definition serving (base : BaseSession) (p : nat) w : Prop :=
  router_wf w ∧ realms (rt w) !! Realm_ base = Some p.

Lemma serving_realm base p w : serving base p w → ∃ r, heap w !! p = Some r.
Proof. intros [[Hn _] Hp]. by destruct (Hn _ _ Hp) as [r ?]; exists r. Qed.

Lemma ignore_run_at {W A} (m : M W A) (w : W) :
  ((∃ a, (m w).2 = Val a) ∨ ∃ e, (m w).2 = Fail e) → ignore m w = ((m w).1, Val tt).
Proof.
  unfold ignore, try, mbind, M_bind, mret, M_ret.
  destruct (m w) as [w' v]. simpl. by intros [[a ->]|[e ->]].
Qed.

(** What a session's [Close] may wait for. *)
Definition stuck base w : Prop := closes (sess w (ref base)) = false.

(** The end of a detached session: closed, when nothing refused it before; [Close] then
    waits for the writer. *)
Lemma after_detach base w :
  let '(w', v) := (metaObj ← get (λ w, metaAPI (rt w) !! Realm_ base);
                   match metaObj with Some m => onLeave m base | None => mret tt end;;
                   close_session base) w in
  (v = Val tt ∨ v = Blocks ∧ stuck base w) ∧ rt w' = rt w ∧ heap w' = heap w ∧
  next_session w' = next_session w ∧ session_closed (sess w' (ref base)) = true.
Proof.
  unfold stuck. destruct (CloseSession_ok (sess w (ref base))) as (_ & Hc & _).
  erewrite bind_Val by done.
  destruct (metaAPI (rt w) !! Realm_ base) as [m|]; unfold onLeave, modify;
    (erewrite bind_Val by done); rewrite close_session_run; cbn [sess];
    cbn [rt heap next_session sess]; rewrite fn_lookup_insert;
    destruct (closes (sess w (ref base))); split_and!; auto.
Qed.

Lemma DetachClient_leaves base p w :
  serving base p w →
  let w' := (DetachClient base w).1 in
  realms (rt w') !! Realm_ base = Some p ∧
  (∃ r, heap w' !! p = Some r ∧ clients r !! ID base = None) ∧
  ((session_closed (sess w' (ref base)) = true ∧
     ((DetachClient base w).2 = Val tt ∨ (DetachClient base w).2 = Blocks ∧ stuck base w)) ∨
   ∃ e, (DetachClient base w).2 = Fail e).
Proof.
  intros Hs. destruct (serving_realm _ _ _ Hs) as [r Hr]. destruct Hs as (_ & Hp).
  unfold DetachClient. rewrite with_realm_run, Hp, bind_effect, (at_ptr_run _ _ _ _ Hr).
  destruct (DetachClient_run base (mkW r (sess w))) as (He & Hc & _ & Hnet). cbn [fst snd].
  set (w1 := mkRouterW _ _ _ _ _ _).
  assert (∃ r, heap w1 !! p = Some r ∧ clients r !! ID base = None) as Hgone.
  { eexists. split; [apply lookup_insert_eq|]. rewrite Hc. apply lookup_delete_eq. }
  destruct (He (mkW r (sess w))) as [[[] ->]|[e ->]]; cbn [fst snd].
  - assert (stuck base w1 → stuck base w) as Hst by (unfold stuck, w1; cbn [sess]; by rewrite Hnet).
    pose proof (after_detach base w1) as Ha. match type of Ha with match ?t with _ => _ end => destruct t as [w2 v] end.
    destruct Ha as (Hv & Hrt & Hh & _ & Hcl2). simpl. rewrite Hrt, Hh. split_and!; [done|done|].
    left. split; [done|]. naive_solver.
  - split_and!; [done|done|]. right. by eexists.
Qed.

(** No message a client sends changes how a session serializes. *)
Definition same_serializers (f g : nat → base_session) : Prop :=
  ∀ q, serializer (g q) = serializer (f q).
#[local] Instance same_serializers_pre : PreOrder same_serializers.
Proof. split; [by intros f q|]. intros f g h Hfg Hgh q. by rewrite Hgh, Hfg. Qed.

Definition net_serializers (w w' : RealmW (St := base_session)) : Prop :=
  same_serializers (net w) (net w').
#[local] Instance net_serializers_pre : PreOrder net_serializers.
Proof. split; [by intros w q|]. intros f g h Hfg Hgh q. by rewrite (Hgh q), (Hfg q). Qed.

Lemma realm_message_serializers base msg :
  keeps net_serializers (Realm.ReceiveMessage (St := base_session) base msg).
Proof.
  assert (∀ A (m : M Broker A), keeps net_serializers (on_broker m)) as Hb.
  { intros. by apply keeps_zoom. }
  assert (∀ A (m : M Dealer A), keeps net_serializers (on_dealer m)) as Hd.
  { intros. by apply keeps_zoom. }
  assert (∀ A c (m : M base_session A),
    (∀ s, serializer (m s).1 = serializer s) → keeps net_serializers (on_session c m)) as Hs.
  { intros A c m Hm w q. rewrite on_session_run. simpl. destruct (decide (ref c = q)) as [<-|Hne].
    - by rewrite fn_lookup_insert.
    - by rewrite fn_lookup_insert_ne. }
  assert (∀ c, keeps net_serializers (on_session c (CloseSession (St := base_session)))) as Hc.
  { intros c. apply Hs. intros s. simpl. unfold base_Close, on_client. by rewrite zoom_run. }
  assert (∀ c m, keeps net_serializers (on_session c (TryWriteMessage m))) as Hw.
  { intros c m. apply Hs. intros s. by destruct (TryWriteMessage_keeps s m) as (_ & ? & _). }
  unfold Realm.ReceiveMessage, when_authorized, authorize, handleDealerBoundMessage,
    handleBrokerBoundMessage, handlePublish, handleCancel, deliver, load_client, type_assertion.
  go_effect.
Qed.

Lemma serving_message base p w msg :
  serving base p w →
  let w' := (ReceiveMessage base msg w).1 in
  serving base p w' ∧ same_serializers (sess w) (sess w') ∧ (stuck base w' → stuck base w) ∧
  (ignore (ReceiveMessage base msg) w = (w', Val tt) ∨
   ignore (ReceiveMessage base msg) w = (w', Blocks) ∧ stuck base w).
Proof.
  intros Hs. destruct (serving_realm _ _ _ Hs) as [r Hr]. destruct Hs as (Hwf & Hp).
  pose proof (ReceiveMessage_keeps base msg w Hwf) as Hwf'. cbv zeta. unfold stuck.
  pose proof (ReceiveMessage_unstuck base msg w (ref base)) as Hcl.
  assert ((returns_or (stuck base w) (ReceiveMessage base msg w).2) ∧
          realms (rt (ReceiveMessage base msg w).1) = realms (rt w) ∧
          same_serializers (sess w) (sess (ReceiveMessage base msg w).1)) as (Hv & Hrt & Hser).
  { clear Hwf' Hcl. pose proof (realm_message_serializers base msg (mkW r (sess w))) as Hser.
    unfold ReceiveMessage. rewrite with_realm_run, Hp, bind_effect, (at_ptr_run _ _ _ _ Hr).
    cbn [fst snd]. destruct (ReceiveMessage_returns base msg (mkW r (sess w))) as [[[] ->]|[[e ->]|[-> Hst]]];
      cbn [fst snd]; [|split_and!; [right; left; by eexists|done|exact Hser]
                      |split_and!; [by right; right|done|exact Hser]].
    unfold on_router, modify, count_message.
    simpl. destruct (trackingMsg (rt w)); (split_and!; [left; by eexists|done|exact Hser]). }
  split_and!; [split; [done|by rewrite Hrt]|done| |].
  - destruct (closes (sess w (ref base))); [|done]. by rewrite Hcl.
  - destruct Hv as [?|[?|[Hv Hst]]]; [left; apply ignore_run_at; by auto..|right].
    unfold ignore, try, mbind, M_bind. destruct (ReceiveMessage base msg w) as [w' v].
    cbn [fst snd] in *. by rewrite Hv.
Qed.

Lemma serving_read base p w r :
  serving base p w →
  serving base p (read_message base r w).1 ∧ (stuck base (read_message base r w).1 ↔ stuck base w).
Proof.
  rewrite read_message_run. intros (Hwf & Hp). split; [by split|]. unfold stuck. cbn [fst sess].
  rewrite fn_lookup_insert. change (closes ?b) with (close_returns (client b)) in *.
  by rewrite base_ReadMessage_client.
Qed.

Lemma serve_leaves base p rs w :
  serving base p w →
  existsb (ends_connection (serializer (sess w (ref base)))) rs = true →
  ((serve base rs w).2 = Blocks ∧ stuck base w) ∨
  ∃ w', serve base rs w = (w', Val tt) ∧ realms (rt w') !! Realm_ base = Some p ∧
    (∃ r, heap w' !! p = Some r ∧ clients r !! ID base = None) ∧
    (session_closed (sess w' (ref base)) = true ∨
     ∃ w1 e, DetachClient base w1 = (w', Fail e)).
Proof.
  revert w. induction rs as [|r rs IH]; intros w Hs Hend; [done|]. cbn [serve].
  destruct (serving_read base p w r Hs) as [Hs1 Hst].
  pose proof (read_message_run base r w) as Hread. cbv zeta in Hread.
  destruct (base_ReadMessage_run r (sess w (ref base))) as [Hser Hr].
  rewrite Hread in Hs1, Hst. cbn [fst] in Hs1, Hst. simpl in Hend.
  set (w1 := mkRouterW _ _ _ _ _ _) in *.
  destruct (ends_connection _ r).
  - destruct Hr as [e He]. rewrite He in Hread.
    erewrite bind_Val by (unfold try; rewrite Hread; reflexivity). cbv iota.
    destruct (DetachClient_leaves base p w1 Hs1) as (Hrt & Hgone & Hv).
    destruct (DetachClient base w1) as [w2 v] eqn:Hd. cbn [fst snd] in *.
    destruct Hv as [[Hc [->|[-> Hb]]]|[e' ->]].
    + right. exists w2. split_and!; [|done|done|by left].
      unfold ignore, try. unfold mbind, M_bind. by rewrite Hd.
    + left. split; [|by apply Hst]. unfold ignore, try. unfold mbind, M_bind. by rewrite Hd.
    + right. exists w2. split_and!; [|done|done|right; by eexists _, _].
      unfold ignore, try. unfold mbind, M_bind. by rewrite Hd.
  - destruct Hr as [m Hm]. rewrite Hm in Hread.
    erewrite bind_Val by (unfold try; rewrite Hread; reflexivity). cbv iota.
    destruct (serving_message base p w1 m Hs1) as (Hs2 & Hser2 & Hst2 & [Hrun|[Hrun Hb]]).
    + rewrite (bind_Val _ _ _ _ _ Hrun).
      destruct (IH (ReceiveMessage base m w1).1 Hs2) as [[Hb Hst3]|?]; [|left|by right].
      * simpl in Hend. rewrite Hser2. subst w1. simpl. rewrite fn_lookup_insert. by rewrite Hser.
      * split; [done|]. by apply Hst, Hst2.
    + left. split; [|by apply Hst]. rewrite bind_effect, Hrun. done.
Qed.

Lemma new_base_run d p s w :
  new_base d p s w =
  let base := {| ID := d_ID d; Realm_ := d_Realm d; AuthID := d_AuthID d; AuthRole := d_AuthRole d;
                 AuthMethod := d_AuthMethod d; AuthExtra := d_AuthExtra d;
                 ref := next_session w |} in
  (mkRouterW (rt w) (heap w) (<[ref base := NewBaseSession p s]> (sess w))
     (S (next_session w)) (spawned w) (log_level w), Val base).
Proof. done. Qed.

(** A session just made is a session that connects. *)
Lemma new_base_connecting d p s w :
  router_wf w →
  let w' := (new_base d p s w).1 in
  router_wf w' ∧ ∀ base, (new_base d p s w).2 = Val base → connecting base w'.
Proof.
  intros [Hn Hh]. split.
  - split; [done|]. intros q r Hr. destruct (Hh _ _ Hr) as [Hwf Href].
    split; [done|]. intros i c Hc. specialize (Href _ _ Hc). simpl. lia.
  - intros base [= <-]. split; simpl; [lia|]. intros q r i c Hr Hc.
    destruct (Hh _ _ Hr) as [_ Href]. specialize (Href _ _ Hc). simpl. lia.
Qed.

Lemma AttachClient_attaches base w :
  router_wf w →
  let w' := (AttachClient base w).1 in
  sess w' = sess w ∧
  match realms (rt w) !! Realm_ base with
  | None => (AttachClient base w).2 = Fail (no_realm (Realm_ base)) ∧ w' = w
  | Some p =>
      realms (rt w') !! Realm_ base = Some p ∧
      (∃ r, heap w' !! p = Some r ∧ clients r !! ID base = Some base) ∧
      ((AttachClient base w).2 = Val tt ∨ ∃ e, (AttachClient base w).2 = Fail e)
  end.
Proof.
  intros [Hn _]. cbv zeta. unfold AttachClient. rewrite with_realm_run.
  destruct (realms (rt w) !! Realm_ base) as [p|] eqn:Hp; [|done].
  destruct (Hn _ _ Hp) as [r Hr]. rewrite bind_effect, (at_ptr_run _ _ _ _ Hr). cbn [fst snd].
  destruct (AttachClient_run base (mkW r (sess w))) as (He & Hc & _ & Hnet).
  set (w1 := mkRouterW _ _ _ _ _ _).
  assert (∃ r, heap w1 !! p = Some r ∧ clients r !! ID base = Some base) as Hin.
  { eexists. split; [apply lookup_insert_eq|]. rewrite Hc. apply lookup_insert_eq. }
  destruct (He (mkW r (sess w))) as [[[] ->]|[e ->]]; cbn [fst snd].
  - erewrite bind_Val by done. unfold onJoin, modify.
    destruct (metaAPI (rt w1) !! Realm_ base); (split; [done|]); (split_and!; [done..|by left]).
  - split; [done|]. split_and!; [done..|right; by eexists].
Qed.


(** A peer that has just been made takes a message that fits. *)
Lemma Write_fresh data t n :
  fits (mkPeer t [] (queue_size (server_queue_size n)) false false) data = true →
  Write data (mkPeer t [] (queue_size (server_queue_size n)) false false) =
  (mkPeer t [data] (queue_size (server_queue_size n)) false false, Val tt).
Proof.
  intros Hfits. rewrite Write_run, Hfits. simpl. unfold chan_full. rewrite bool_decide_false; [done|].
  simpl. unfold server_queue_size, queue_size. repeat case_bool_decide; vm_compute; lia.
Qed.

Lemma ReadHello_ok s payload rs msg realm peer :
  Deserialize s payload = Ok msg → Message_Type msg = MessageTypeHello →
  hello_realm msg = Some realm →
  ReadHello s (Ok payload :: rs) peer = (peer, Val (msg, realm, rs)).
Proof.
  intros Hd Hty Hr. unfold ReadHello, next_read. rewrite Hd.
  rewrite bool_decide_false by (by rewrite Hty; auto). by rewrite Hr.
Qed.

(** An acceptor that welcomes the client at once. *)
Lemma Accept_welcome hello s auth rs a welcome d bytes peer peer' :
  Acceptor_ReceiveMessage (NewAcceptor s auth) hello = (a, Ok welcome) →
  Message_Type welcome = MessageTypeWelcome → Acceptor_SessionDetails a = Ok d →
  Serialize s welcome = Ok bytes → Write bytes peer = (peer', Val tt) →
  Accept hello s auth rs peer = (peer', Val (d, rs)).
Proof.
  intros Ha Hty Hd Hs Hw. unfold Accept. rewrite Ha.
  assert (Acceptor.WriteMessage welcome s peer = (peer', Val tt)) as Hrun.
  { unfold Acceptor.WriteMessage. rewrite Hs.
    by erewrite bind_Val by (unfold try; rewrite Hw; reflexivity). }
  rewrite (bind_Val _ _ _ _ _ Hrun). rewrite bool_decide_true by done.
  erewrite bind_Val by reflexivity. simpl. by rewrite Hd.
Qed.

(** A client whose realm does not exist, over each transport.  A WebSocket
    client gets an ABORT and no session is made.  A RawSocket client that the
    authenticator lets in gets its WELCOME; only then does the router refuse
    it, and it is neither told nor disconnected. *)
Theorem unknown_realm_by_transport specs srv c w s protocol id payload rs msg realm a welcome d
    wbytes abytes :
  upgraded c = Ok protocol → WebSocketAcceptor_Spec (acceptor srv) protocol specs = Ok s →
  handshaken c = Ok id → RawSocketAcceptor_Spec id specs = Ok s →
  incoming c = Ok payload :: rs → Deserialize s payload = Ok msg →
  Message_Type msg = MessageTypeHello → hello_realm msg = Some realm →
  realms (rt w) !! realm = None → d_Realm d = realm →
  Acceptor_ReceiveMessage (NewAcceptor s (authenticator srv)) msg = (a, Ok welcome) →
  Message_Type welcome = MessageTypeWelcome → Acceptor_SessionDetails a = Ok d →
  Serialize s welcome = Ok wbytes → oversized wbytes = false →
  Serialize s (NewAbort ∅ ErrNoSuchRealm) = Ok abytes →
  (∃ peer, HandleClient specs srv ListenerWebSocket c w = (w, Val (Refused peer ErrNoSuchRealm)) ∧
    writeChan peer = [abytes]) ∧
  ∃ w' base, HandleClient specs srv ListenerRawSocket c w =
      (w', Val (NotAttached base (no_realm realm))) ∧
    writeChan (client (sess w' (ref base))) = [wbytes] ∧
    session_closed (sess w' (ref base)) = false.
Proof.
  intros Hup Hws Hhs Hraw Hin Hdes Hty Hrealm Hnone Hd Hacc Hwt Hdet Hwb Hsize Hab.
  pose proof (λ q, ReadHello_ok s payload rs msg realm q Hdes Hty Hrealm) as Hhello.
  rewrite <-Hin in Hhello. split.
  - unfold HandleClient, handle_websocket. rewrite Hup. erewrite bind_Val by reflexivity.
    unfold handle_accepted, WebSocketAcceptor_Accept. rewrite Hws.
    erewrite bind_Val by reflexivity.
    erewrite bind_Val by (unfold try; rewrite Hhello; reflexivity).
    erewrite bind_Val by reflexivity. cbv iota beta.
    rewrite bool_decide_false by (rewrite Hnone; by intros []). cbn [negb].
    rewrite Hab. erewrite bind_Val by reflexivity. unfold NewWebSocketPeer.
    erewrite bind_Val by (unfold try; rewrite Write_fresh by done; reflexivity).
    erewrite bind_Val by reflexivity. by eexists.
  - assert (RawSocketAcceptor_Accept specs id (authenticator srv) (incoming c)
      (NewRawSocketPeer (server_queue_size (outQueueSize srv))) =
      (push wbytes (NewRawSocketPeer (server_queue_size (outQueueSize srv))),
       Val (d, s, rs))) as Hwelcome.
    { unfold RawSocketAcceptor_Accept. rewrite Hraw. erewrite bind_Val by reflexivity.
      erewrite bind_Val by (unfold try; rewrite Hhello; reflexivity). cbv iota beta.
      erewrite bind_Val; [|eapply Accept_welcome; try done; unfold NewRawSocketPeer;
        apply Write_fresh; unfold fits; simpl; by rewrite Hsize]. done. }
    unfold HandleClient, handle_rawsocket. rewrite Hhs. unfold handle_accepted. rewrite Hwelcome.
    erewrite bind_Val by apply new_base_run. unfold AttachClient.
    erewrite bind_Val by (unfold try; rewrite with_realm_run; simpl; rewrite Hd, Hnone; reflexivity).
    cbv iota. do 2 eexists. split; [reflexivity|]. simpl. by rewrite fn_lookup_insert.
Qed.

End ServerSpec.
