(* ===== verification/RawServing.v ===== *)
(** * A raw-socket connection from its bytes to the router (acceptor.go, peer.go,
    server.go)

    Server takes what the handshake negotiates and what the peer reads as given.
    Here both come from the bytes of the connection: Dialing has the handshake and
    Framing the reads, so that a client's bytes are followed to the router. *)

From stdpp Require Import functions.
From S2P Require Import Prelude GoStd GoPath Wamp Permissions Peers Acceptor Relay Dialing Framing Realm Router Server.

Local Open Scope string_scope.

Section RawServing.
Context `{MessageHeaders} `{RawSocketHandshake} `{WampHandshake} `{!WampRouting} `{WampConstants}
  `{MapRange} `{FmtV} `{LogLevels}.

(** What the calls of [Read] return, one after the other, until one fails.  Every
    one that succeeds takes four bytes or more. *)
Fixpoint peer_reads (fuel : nat) (r : reader) : list (result string) :=
  match fuel with
  | O => []
  | S fuel =>
      match RawSocketPeer_Read r with
      | (r, Val payload) => Ok payload :: peer_reads fuel r
      | (_, Fail e) => [Err e]
      | _ => []
      end
  end.

(** [HandleClient] of a raw-socket listener, on a connection.  [takes]: how many pongs
    the writer of its peer takes, see [reader]. *)
Definition serve_connection (specs : registries) (s : Server) (takes : nat) (conn : stream) : M RouterW ending :=
  match UpgradeRawSocket (outQueueSize s) conn with
  | (conn, Val (_, serializerID)) =>
      HandleClient specs s ListenerRawSocket
        {| first_byte := Err ""; upgraded := Err ""; handshaken := Ok serializerID;
           Server.incoming := peer_reads (S (bytes_left (segments conn))) (mkReader conn [] takes) |}
  | (_, Fail _) => mret NotUpgraded
  | (_, Crash why) => crash why
  | (_, Blocks) => λ w, (w, Blocks)
  end.

(** A message that has been read: it is logged, if the session logs, and routed. *)
Definition routed (base : BaseSession) (msg : Message) : M RouterW unit :=
  modify (λ w, mkRouterW (rt w) (heap w)
    (<[ref base := publish_log false msg (sess w (ref base))]> (sess w))
    (next_session w) (spawned w) (log_level w));;
  ignore (ReceiveMessage base msg).

End RawServing.

(** ** More bytes do not change what has been read *)

Lemma read_full_more n segs got segs' x more :
  read_full n segs got = (segs', Val x) → read_full n (segs ++ more) got = ((segs' ++ more)%list, Val x).
Proof.
  assert (∀ l, read_full 0 l got = (l, Val got)) as H0 by (by intros []).
  revert n got H0. induction segs as [|[s|e] segs IH]; intros [|n] got H0; try done;
    try (by rewrite !H0; intros [= <- <-]). cbn [read_full app].
  destruct (cut (S n) s) as [a [|c b]]; [apply IH; by intros []|]. by intros [= <- <-].
Qed.

Section More.
Context `{MessageHeadersOk}.
Implicit Types r : reader.

Definition more (segs : list (result string)) (r : reader) : reader :=
  mkReader (mkStream (segments (Framing.incoming r) ++ segs) (output (Framing.incoming r))) (pongs r) (takes r).

Lemma ReadFull_more segs n r r' x :
  on_stream (ReadFull_conn n) r = (r', Val x) →
  on_stream (ReadFull_conn n) (more segs r) = (more segs r', Val x).
Proof.
  unfold on_stream. rewrite !zoom_run. unfold ReadFull_conn, more. cbn.
  destruct (read_full n _ _) as [rest v] eqn:E. cbn. intros [= <- ->].
  by rewrite (read_full_more _ _ _ _ _ segs E).
Qed.

Lemma read_frame_more segs r r' o :
  read_frame r = (r', Val o) → read_frame (more segs r) = (more segs r', Val o).
Proof.
  unfold read_frame. intros (r1 & b & E1 & Hr)%bind_Val_inv.
  rewrite (bind_Val _ _ _ _ _ (ReadFull_more segs _ _ _ _ E1)).
  destruct (ReceiveMessageHeader b) as [h|e]; [|done].
  erewrite bind_Val in Hr by done. erewrite bind_Val by done.
  case_bool_decide; [done|].
  apply bind_Val_inv in Hr as (r2 & p & E2 & Hr).
  rewrite (bind_Val _ _ _ _ _ (ReadFull_more segs _ _ _ _ E2)).
  case_bool_decide; [by injection Hr as <- <-|].
  case_bool_decide.
  { apply bind_Val_inv in Hr as (r3 & [] & Hpong & [= <- <-]). unfold send_pong in *.
    cbn [pongs takes more] in *. case_bool_decide as Hroom; [|done]. injection Hpong as <-.
    erewrite bind_Val; [reflexivity|]. cbv beta. by rewrite bool_decide_eq_true_2. }
  case_bool_decide; [by injection Hr as <- <-|done].
Qed.

Lemma read_rounds_more segs n m r r' p :
  read_rounds n r = (r', Val p) → (n ≤ m)%nat → read_rounds m (more segs r) = (more segs r', Val p).
Proof.
  revert m r. induction n as [|n IH]; [done|]. intros [|m] r; [lia|]. cbn [read_rounds].
  intros (r1 & o & E & Hr)%bind_Val_inv Hm. rewrite (bind_Val _ _ _ _ _ (read_frame_more segs _ _ _ E)).
  destruct o as [q|]; [by injection Hr as <- <-|]. apply IH; [done|lia].
Qed.

Lemma bytes_left_app l1 l2 : bytes_left (l1 ++ l2) = (bytes_left l1 + bytes_left l2)%nat.
Proof. induction l1 as [|[s|e] l1 IH]; simpl; lia. Qed.

Lemma Read_more segs r r' p :
  RawSocketPeer_Read r = (r', Val p) → RawSocketPeer_Read (more segs r) = (more segs r', Val p).
Proof.
  intros Hr. unfold RawSocketPeer_Read in Hr |- *. eapply read_rounds_more; [exact Hr|].
  unfold more. cbn. rewrite bytes_left_app. lia.
Qed.

(** A connection that the other end has closed, between two messages. *)
Lemma read_full_closed n segs e :
  text segs = "" → n ≠ 0%nat → read_full n (map Ok segs ++ [Err e]) "" = ([Err e], Fail e).
Proof.
  intros Ht Hn. induction segs as [|s segs IH]; cbn [map app read_full].
  - destruct n; [done|]. rewrite bool_decide_eq_false_2; [done|]. by intros [].
  - destruct s as [|c s]; [|done]. destruct n as [|n]; [done|]. cbn. by apply IH.
Qed.

Lemma Read_closed segs e out ps n :
  text segs = "" →
  ∃ r, RawSocketPeer_Read (mkReader (mkStream (map Ok segs ++ [Err e]) out) ps n) = (r, Fail e).
Proof.
  intros Ht. unfold RawSocketPeer_Read. cbn [read_rounds].
  set (r := mkReader _ _ _).
  assert (on_stream (ReadFull_conn 4) r = (mkReader (mkStream [Err e] out) ps n, Fail e)) as E.
  { unfold on_stream. rewrite zoom_run. unfold ReadFull_conn, r. cbn [Framing.incoming segments output pongs takes].
    by rewrite read_full_closed. }
  assert (read_frame r = (mkReader (mkStream [Err e] out) ps n, Fail e)) as E2
    by apply (bind_Fail _ _ _ _ _ E).
  eexists. exact (bind_Fail _ _ _ _ _ E2).
Qed.

(** The reads of a connection on which frames have been written and that has then
    been closed. *)
Lemma peer_reads_run ms segs e out ps n fuel :
  Forall sendable ms → room (ps ++ (ms ≫= λ m, pings m.1)) n → text segs = frames (ms ≫= message_frames) → (length ms < fuel)%nat →
  peer_reads fuel (mkReader (mkStream (map Ok segs ++ [Err e]) out) ps n) =
    (map Ok (map snd ms) ++ [Err e])%list.
Proof.
  intros Hs. revert segs ps fuel. induction Hs as [|m ms Hm Hs IH]; intros segs ps [|fuel] Hroom Ht Hf;
    cbn in Hf; try lia; cbn [peer_reads].
  - destruct (Read_closed segs e out ps n Ht) as [r Hr]. cbn [map app] in *. by rewrite Hr.
  - destruct (sendable_good m Hm) as (Hg & Hp & Hw).
    cbn [mbind list_bind] in Ht, Hroom. unfold message_frames at 1 in Ht.
    rewrite !frames_app, !string_app_assoc in Ht. cbn [frames] in Ht. rewrite string_app_nil_r in Ht.
    destruct (Read_run m.1 m.2 _ segs out ps n Hg Hp Hw (room_app _ _ _ _ Hroom) Ht) as (segs1 & Hr & Ht1).
    apply (Read_more [Err e]) in Hr. unfold more in Hr. cbn [Framing.incoming segments output pongs takes] in Hr. rewrite Hr. cbn [map app].
    f_equal. rewrite (assoc_L app) in Hroom. apply IH; [done..|lia].
Qed.

Lemma messages_bytes ms segs :
  text segs = frames (ms ≫= message_frames) → (length ms ≤ bytes_left (map Ok segs))%nat.
Proof.
  intros Ht. rewrite bytes_left_text, Ht. pose proof (frames_length (ms ≫= message_frames)) as Hl.
  assert (length ms ≤ length (ms ≫= message_frames))%nat; [|lia]. clear.
  induction ms as [|m ms IH]; [done|]. cbn. rewrite length_app. unfold message_frames at 1.
  rewrite length_app. cbn. lia.
Qed.

End More.

(** ** From the bytes to the router *)

Section RawServingSpec.
Context `{MessageHeadersOk} `{RawSocketHandshakeOk} `{WampMessagesOk} `{!WampSerializers}
  `{!WampHandshake} `{!WampRouting} `{!WampRoutingOk} `{WampConstants} `{MapRange} `{FmtV} `{LogLevels}.

Implicit Types (w : RouterW) (base : BaseSession).

(** The loop of [HandleClient] routes the messages that the payloads carry, and
    detaches the client after the read that fails. *)
Lemma serve_routes base p s payloads msgs e rs w :
  serving base p w → serializer (sess w (ref base)) = s →
  Forall2 (λ d m, Deserialize s d = Ok m) payloads msgs →
  serve base (map Ok payloads ++ Err e :: rs) w =
    (for_M (routed base) msgs;; ignore (read_message base (Err e));; ignore (DetachClient base)) w.
Proof.
  intros Hs Hser Hd. revert w Hs Hser. induction Hd as [|d m payloads msgs Hd _ IH]; intros w Hs Hser.
  - cbn [map app serve for_M]. symmetry. erewrite bind_Val by done. symmetry.
    destruct (read_message base (Err e) w) as [w0 v] eqn:Hr.
    assert (v = Fail e) as ->.
    { by rewrite read_message_run in Hr; injection Hr as _ <-. }
    assert (ignore (read_message base (Err e)) w = (w0, Val tt)) as Hi.
    { rewrite ignore_run_at; rewrite Hr; [done|right; by eexists]. }
    rewrite (bind_Val _ _ _ _ _ Hi). symmetry.
    by erewrite bind_Val by (unfold try; rewrite Hr; reflexivity).
  - cbn [map app serve for_M].
    set (w1 := mkRouterW (rt w) (heap w) (<[ref base := publish_log false m (sess w (ref base))]> (sess w))
      (next_session w) (spawned w) (log_level w)).
    assert (read_message base (Ok d) w = (w1, Val m)) as Hr.
    { rewrite read_message_run. unfold base_ReadMessage.
      erewrite bind_Val by done. erewrite bind_Val by done. rewrite Hser, Hd.
      erewrite bind_Val by done. done. }
    erewrite bind_Val by (unfold try; rewrite Hr; reflexivity). cbv iota.
    destruct (serving_read base p w (Ok d) Hs) as [Hs1 _]. rewrite Hr in Hs1. cbn [fst] in Hs1.
    destruct (serving_message base p w1 m Hs1) as (Hs2 & Hser2 & _ & Hrun).
    assert (routed base m w = ignore (ReceiveMessage base m) w1) as Hrouted.
    { unfold routed. by erewrite bind_Val by done. }
    rewrite bind_bind, (bind_effect (ignore _)), (bind_effect (routed base m)), Hrouted.
    destruct Hrun as [Hrun|[Hrun _]]; rewrite Hrun; cbn [fst snd]; [|done].
    rewrite IH; [done|done|].
    rewrite Hser2. unfold w1. cbn. rewrite fn_lookup_insert.
    by destruct (publish_log_keeps false m (sess w (ref base))) as [_ ->].
Qed.



End RawServingSpec.
