(* ===== verification/Listeners.v ===== *)
(** * Listening (server.go, webtransport.go, types.go)

    The sockets that a process holds, what [ListenAndServe...] does to them, and
    the check of a Unix socket's path before it is bound.  The operating system
    is the state [Host], whose files, abstract names and sockets the calls read
    and change, and the class [OS] of the faults it may return. *)

From S2P Require Import Prelude GoStd Wamp Permissions Peers Acceptor Realm Router Server.

Local Open Scope string_scope.

(** ** Throttles (types.go) *)

Inductive Strategy := Burst | LeakyBucket.
Record Throttle := mkThrottle { rate : Z; duration : Z; strategy : Strategy }.
Definition NewThrottle (rate duration : Z) (strategy : Strategy) : Throttle :=
  mkThrottle rate duration strategy.

(** The constructors of ratelimit, a third-party package. *)
Class RateLimiters (Limiter : Type) := {
  NewLeakyBucket : Z → Z → Limiter;
  NewLimiter : Z → Z → Limiter }.
Definition Throttle_Create `{RateLimiters Limiter} (t : Throttle) : Limiter :=
  match strategy t with
  | LeakyBucket => NewLeakyBucket (rate t) (duration t)
  | Burst => NewLimiter (rate t) (duration t)
  end.

(** ** Servers *)

(** Durations are in nanoseconds. *)
Record ServerConfig := {
  cfg_Throttle : option Throttle; cfg_KeepAliveInterval : Z; cfg_KeepAliveTimeout : Z;
  cfg_OutQueueSize : Z }.
Definition default_server_config : ServerConfig :=
  {| cfg_Throttle := None; cfg_KeepAliveInterval := 0; cfg_KeepAliveTimeout := 0;
     cfg_OutQueueSize := 0 |}.

(** [A]: what decides who may connect; [None] is the nil authenticator. *)
Record server {A : Type} := mkServer {
  authenticator : option A;
  throttle : option Throttle;
  keepAliveInterval : Z;
  keepAliveTimeout : Z;
  outQueueSize : Z }.
Arguments server : clear implicits.

Definition NewServer {A} (authenticator : option A) (config : option ServerConfig) : server A :=
  match config with
  | None => mkServer _ authenticator None 0 0 0
  | Some c => mkServer _ authenticator (cfg_Throttle c) (cfg_KeepAliveInterval c)
                (cfg_KeepAliveTimeout c) (cfg_OutQueueSize c)
  end.

(** ** The operating system *)

Definition NetworkUnix : string := "unix".
Definition NetworkTCP : string := "tcp".
Definition NextProtoWAMP : string := "wamp.2.quic".
Definition NextProtoH3 : string := "h3".

Inductive Addr :=
| TCPAddr (IP : string) (Port : Z)
| UDPAddr (IP : string) (Port : Z)
| UnixAddr (Name : string).

Record QuicConfig := mkQuic {
  MaxIncomingStreams : Z; MaxIncomingUniStreams : Z; KeepAlivePeriod : Z }.
Definition DefaultQuicConfig : QuicConfig := mkQuic 1024 1024 (15 * Second).

(** The field of a [tls.Config] that the code looks at. *)
Record tlsConfig := mkTLS { NextProtos : list string }.

(** What a socket is for: nothing yet, the clients of a server, QUIC streams;
    and a WebTransport server, with the UDP socket that it was given. *)
Inductive resource {A : Type} :=
| Unserved (network address : string)
| Clients (network address : string) (protocol : ListenerType) (s : server A)
| QuicSocket (address : string) (protos : list string) (quic : QuicConfig) (s : server A)
| WebTransportServer (conn : nat) (address path : string) (protos : list string) (s : server A).
Arguments resource : clear implicits.

(** A path of the file system: a socket, which has a listener or is left over
    from one, or something else. *)
Inductive file := SocketFile (listening : bool) | OtherFile.
Global Instance file_eq_dec : EqDecision file.
Proof. solve_decision. Defined.

(** [abstract]: the names of Unix sockets that have no file.  [handled]: the
    connections that were handed to [HandleClient], with their sockets. *)
Record Host {A : Type} := mkHost {
  files : gmap string file;
  abstract : gset string;
  sockets : gmap nat (resource A);
  next_socket : nat;
  handled : list (nat * nat) }.
Arguments Host : clear implicits.

Record Listener := mkListener { closer : nat; addr : Addr }.

(** What may go wrong outside the program. *)
Class OS (A : Type) := {
  dial_fault : Host A → string → option error;
  lstat_fault : Host A → string → option error;
  remove_fault : Host A → string → option error;
  resolve_fault : string → option error;
  listen_fault : Host A → string → string → option error;
  bound : Host A → string → string → Addr }.

Section Listeners.
Context {A : Type} `{OS A}.
Implicit Types (h : Host A) (s : server A).

Definition set_files (f : gmap string file) h : Host A :=
  mkHost _ f (abstract h) (sockets h) (next_socket h) (handled h).
Definition set_abstract (a : gset string) h : Host A :=
  mkHost _ (files h) a (sockets h) (next_socket h) (handled h).
Definition set_sockets (m : gmap nat (resource A)) h : Host A :=
  mkHost _ (files h) (abstract h) m (next_socket h) (handled h).

Definition fault {W B} (o : option error) (m : M W B) : M W B :=
  match o with Some e => fail e | None => m end.

Definition new_socket (r : resource A) : M (Host A) nat := λ h,
  (mkHost _ (files h) (abstract h) (<[next_socket h := r]> (sockets h)) (S (next_socket h))
     (handled h), Val (next_socket h)).

(** A name that begins with [@] is abstract; the empty name lets the system
    choose one. *)
Inductive unix_name := NoName | AbstractName | PathName.
Definition unix_name_of (p : string) : unix_name :=
  match p with
  | EmptyString => NoName
  | String c _ => if bool_decide (c = "@"%char) then AbstractName else PathName
  end.

(** [net.DialTimeout("unix", p, time.Second)], and closing the connection *)
Definition dial_unix (p : string) : M (Host A) unit := λ h,
  let answered :=
    match unix_name_of p with
    | NoName => false
    | AbstractName => bool_decide (p ∈ abstract h)
    | PathName => bool_decide (files h !! p = Some (SocketFile true))
    end in
  if answered then fault (dial_fault h p) (mret tt) h else (h, Fail "connection refused").

(** [os.Lstat]: [Ok None] is an error that [os.IsNotExist] accepts. *)
Definition lstat (p : string) h : result (option file) :=
  match lstat_fault h p with Some e => Err e | None => Ok (files h !! p) end.

Definition os_Remove (p : string) : M (Host A) unit := λ h,
  fault (remove_fault h p) (modify (set_files (delete p (files h)))) h.

(** [net.Listen]: a path that exists cannot be bound. *)
Definition net_Listen (network address : string) : M (Host A) (nat * Addr) := λ h,
  match listen_fault h network address with
  | Some e => (h, Fail e)
  | None =>
      let a := bound h network address in
      let open := (k ← new_socket (Unserved network address); mret (k, a)) in
      if bool_decide (network = NetworkUnix) then
        match unix_name_of address with
        | NoName => open h
        | AbstractName =>
            if bool_decide (address ∈ abstract h) then (h, Fail "bind: address already in use")
            else open (set_abstract ({[address]} ∪ abstract h) h)
        | PathName =>
            match files h !! address with
            | Some _ => (h, Fail "bind: address already in use")
            | None => open (set_files (<[address := SocketFile true]> (files h)) h)
            end
        end
      else open h
  end.

(** Closing the listener of a Unix socket removes its file. *)
Definition unbind (network address : string) h : Host A :=
  if bool_decide (network = NetworkUnix) then
    match unix_name_of address with
    | NoName => h
    | AbstractName => set_abstract (abstract h ∖ {[address]}) h
    | PathName => set_files (delete address (files h)) h
    end
  else h.

(** Closing a WebTransport server leaves the UDP socket that it was given: quic-go's
    http3 documents of [Serve] that closing the server does not close the connection. *)
Definition close_socket (k : nat) : M (Host A) unit := λ h,
  match sockets h !! k with
  | None => (h, Fail "use of closed network connection")
  | Some r =>
      let h' := set_sockets (delete k (sockets h)) h in
      (match r with
       | Unserved network address | Clients network address _ _ => unbind network address h'
       | QuicSocket _ _ _ _ | WebTransportServer _ _ _ _ _ => h'
       end, Val tt)
  end.

(** ** Listeners (server.go) *)

Definition Listener_Close (l : Listener) : M (Host A) unit := close_socket (closer l).

Definition Listener_Port (l : Listener) : Z :=
  match addr l with TCPAddr _ port => port | _ => 0 end.

Definition ensureUnixSocketAvailable (udsPath : string) : M (Host A) unit :=
  dialed ← try (dial_unix udsPath);
  match dialed with
  | Ok _ => fail ("socket at " +:+ udsPath +:+ " is already in use")
  | Err _ =>
      info ← get (lstat udsPath);
      match info with
      | Ok (Some (SocketFile _)) =>
          r ← try (os_Remove udsPath);
          of_result (wrap "failed to remove old unix socket file: " r)
      | Ok (Some OtherFile) =>
          fail ("file at " +:+ udsPath +:+ " exists and is not a unix socket")
      | Ok None => mret tt
      | Err e => fail ("error checking unix socket path: " +:+ e)
      end
  end.

Definition set_service (k : nat) (f : resource A → resource A) : M (Host A) unit :=
  modify (λ h, set_sockets (alter f k (sockets h)) h).

Definition serve_clients (protocol : ListenerType) s (r : resource A) : resource A :=
  match r with
  | Unserved network address => Clients network address protocol s
  | r => r
  end.

(** [Serve]: a goroutine accepts the connections of the socket from now on. *)
Definition Serve s (listener : nat * Addr) (protocol : ListenerType) : M (Host A) Listener :=
  set_service listener.1 (serve_clients protocol s);;
  mret (mkListener listener.1 listener.2).

(** [ListenAndServeWebSocket], [ListenAndServeRawSocket] and
    [ListenAndServeUniversal], which differ in their protocol. *)
Definition ListenAndServe (protocol : ListenerType) s (network address : string)
    : M (Host A) Listener :=
  (if bool_decide (network = NetworkUnix) then ensureUnixSocketAvailable address else mret tt);;
  ln ← (r ← try (net_Listen network address); of_result (wrap "failed to listen: " r));
  Serve s ln protocol.

Definition ListenAndServeWebSocket := ListenAndServe ListenerWebSocket.
Definition ListenAndServeRawSocket := ListenAndServe ListenerRawSocket.
Definition ListenAndServeUniversal := ListenAndServe ListenerUniversalTCP.

(** The loop over what [ln.Accept] returns. *)
Fixpoint startConnectionLoop (ln : nat) (accepts : list (result nat)) : M (Host A) unit :=
  match accepts with
  | [] => λ h, (h, Blocks)
  | Err _ :: _ => ignore (close_socket ln)
  | Ok conn :: accepts =>
      modify (λ h, mkHost _ (files h) (abstract h) (sockets h) (next_socket h)
                     (handled h ++ [(ln, conn)])%list);;
      startConnectionLoop ln accepts
  end.

Definition with_proto (proto : string) (c : tlsConfig) : list string :=
  if bool_decide (proto ∈ NextProtos c) then NextProtos c else (NextProtos c ++ [proto])%list.

Definition ListenAndServeQUIC s (address : string) (tls : option tlsConfig)
    : M (Host A) Listener :=
  match tls with
  | None => fail "tls config is required for QUIC"
  | Some tls =>
      let quicCfg :=
        if bool_decide (0 < keepAliveInterval s)%Z
        then mkQuic (MaxIncomingStreams DefaultQuicConfig) (MaxIncomingUniStreams DefaultQuicConfig)
               (keepAliveInterval s)
        else DefaultQuicConfig in
      err ← get (λ h, listen_fault h "udp" address);
      match err with
      | Some e => fail ("failed to listen: " +:+ e)
      | None =>
          a ← get (λ h, bound h "udp" address);
          k ← new_socket (QuicSocket address (with_proto NextProtoWAMP tls) quicCfg s);
          mret (mkListener k a)
      end
  end.

(** The socket is bound before the server is given it. *)
Definition ListenAndServeWebTransport s (address : string) (tls : option tlsConfig) (path : string)
    : M (Host A) Listener :=
  match tls with
  | None => fail "tls config is required for WebTransport"
  | Some tls =>
      fault ((λ e, "failed to resolve address: " +:+ e) <$> resolve_fault address) (
      udpConn ← (r ← try (net_Listen "udp" address);
                 of_result (wrap "failed to bind UDP socket: " r));
      k ← new_socket (WebTransportServer udpConn.1 address path (with_proto NextProtoH3 tls) s);
      mret (mkListener k udpConn.2))
  end.

End Listeners.

Section ListenersSpec.
Context {A : Type} `{OS A}.
Implicit Types (h : Host A) (s : server A).

(** Every socket has a number that was given out. *)
Definition host_wf h : Prop := ∀ k r, sockets h !! k = Some r → k < next_socket h.

(** Someone answers at the path. *)
Definition answers (p : string) h : Prop :=
  match unix_name_of p with
  | NoName => False
  | AbstractName => p ∈ abstract h
  | PathName => files h !! p = Some (SocketFile true)
  end.

Lemma dial_unix_run p h :
  (answers p h ∧ dial_fault h p = None ∧ dial_unix p h = (h, Val tt)) ∨
  ((answers p h → is_Some (dial_fault h p)) ∧ ∃ e, dial_unix p h = (h, Fail e)).
Proof.
  assert (∀ b : bool, (if b then fault (dial_fault h p) (mret tt) h else (h, Fail "connection refused"))
    = (h, Val tt) ∧ b = true ∧ dial_fault h p = None ∨
    (b = true → is_Some (dial_fault h p)) ∧
    ∃ e, (if b then fault (dial_fault h p) (mret tt) h else (h, Fail "connection refused"))
         = (h, Fail e)) as Hb.
  { intros []; [|by right; split; [|eexists]]. destruct (dial_fault h p) as [e|].
    - right. simpl. eauto.
    - by left. }
  unfold dial_unix, answers. specialize (Hb match unix_name_of p with
    | NoName => false
    | AbstractName => bool_decide (p ∈ abstract h)
    | PathName => bool_decide (files h !! p = Some (SocketFile true)) end).
  destruct Hb as [(Hr & Ht & Hf)|[Hf Hr]]; [left|right]; split_and!; try done.
  - by destruct (unix_name_of p); rewrite ?bool_decide_eq_true in Ht.
  - by destruct (unix_name_of p); rewrite ?bool_decide_eq_true in Hf.
Qed.

(** What the check does: it refuses, finds the path free, or removes a socket
    that does not answer. *)
Lemma ensure_cases p h :
  (∃ e, ensureUnixSocketAvailable p h = (h, Fail e)) ∨
  (ensureUnixSocketAvailable p h = (h, Val tt) ∧ files h !! p = None ∧
     (answers p h → is_Some (dial_fault h p))) ∨
  (∃ b, files h !! p = Some (SocketFile b) ∧ (answers p h → is_Some (dial_fault h p)) ∧
     ensureUnixSocketAvailable p h = (set_files (delete p (files h)) h, Val tt)).
Proof.
  unfold ensureUnixSocketAvailable.
  destruct (dial_unix_run p h) as [(_ & _ & Hd)|(Hq & e & Hd)].
  { left. rewrite (bind_Val _ _ _ _ _ (try_Val _ _ _ _ Hd)). eauto. }
  unfold try, mbind, M_bind. rewrite Hd. unfold get, lstat.
  destruct (lstat_fault h p) as [e'|]; [by eauto|].
  destruct (files h !! p) as [[b|]|] eqn:Hp; simpl; [|by eauto|by eauto].
  unfold os_Remove, try, mbind, M_bind. destruct (remove_fault h p) as [e'|]; simpl; [by eauto|].
  right. right. eauto.
Qed.

(** C25. Before it binds a Unix socket a server dials it.  If the dial succeeds it
    refuses, and nothing changes.  If the dial fails, for whatever reason, it removes
    what is at the path when that is a socket, and nothing else; what is not a socket
    stays, and no other path is touched.  When it goes on, the path is free. *)
Theorem only_sockets_that_refuse_are_removed p h :
  let w := ensureUnixSocketAvailable p h in
  ((dial_unix p h).2 = Val tt → w = (h, Fail ("socket at " +:+ p +:+ " is already in use"))) ∧
  (∀ q, files w.1 !! q ≠ files h !! q →
     q = p ∧ (∃ b, files h !! p = Some (SocketFile b)) ∧ (∃ e, (dial_unix p h).2 = Fail e) ∧
     w.2 = Val tt) ∧
  (w.2 = Val tt → files w.1 !! p = None ∧ ∃ e, (dial_unix p h).2 = Fail e) ∧
  sockets w.1 = sockets h ∧ abstract w.1 = abstract h.
Proof.
  cbv zeta. destruct (dial_unix_run p h) as [(_ & _ & Hd)|(_ & e & Hd)]; rewrite Hd; cbn [snd].
  - assert (ensureUnixSocketAvailable p h = (h, Fail ("socket at " +:+ p +:+ " is already in use"))) as ->.
    { unfold ensureUnixSocketAvailable. by rewrite (bind_Val _ _ _ _ _ (try_Val _ _ _ _ Hd)). }
    by split_and!; [|intros q []|..].
  - split; [done|].
    destruct (ensure_cases p h) as [[e' ->]|[(-> & Hp & Hq)|(b & Hp & Hq & ->)]]; simpl.
    + by split_and!; [intros q []|..].
    + split_and!; [by intros q []|by eauto|done..].
    + split_and!; [|rewrite lookup_delete_eq; by eauto|done..].
      intros q Hne. destruct (decide (q = p)) as [->|Hqp]; [by eauto 6|].
      by rewrite lookup_delete_ne in Hne.
Qed.

Lemma new_socket_wf r h : host_wf h → host_wf (new_socket r h).1.
Proof.
  intros Hwf k r'. simpl. intros [[<- _]|[_ Hk]]%lookup_insert_Some; [lia|].
  specialize (Hwf _ _ Hk). lia.
Qed.

Lemma wf_fresh h : host_wf h → sockets h !! next_socket h = None.
Proof. intros Hwf. apply eq_None_not_Some. intros [r Hr]. specialize (Hwf _ _ Hr). lia. Qed.

(** What [net.Listen] does to the sockets. *)
Lemma net_Listen_run network address h :
  (∃ e, net_Listen network address h = (h, Fail e)) ∨
  (∃ h' a, net_Listen network address h = (h', Val (next_socket h, a)) ∧
     sockets h' = <[next_socket h := Unserved network address]> (sockets h) ∧
     next_socket h' = S (next_socket h)).
Proof.
  unfold net_Listen. destruct (listen_fault h network address) as [e|]; [by eauto|].
  case_bool_decide; [|by right; do 2 eexists].
  destruct (unix_name_of address).
  - by right; do 2 eexists.
  - case_bool_decide; [by eauto|]. by right; do 2 eexists.
  - destruct (files h !! address); [by eauto|]. by right; do 2 eexists.
Qed.

Definition opens_socket {B} (m : M (Host A) B) (h : Host A) (r : resource A) (closer : B → nat) : Prop :=
  host_wf h →
  (∃ e h', m h = (h', Fail e) ∧ sockets h' = sockets h ∧ next_socket h' = next_socket h) ∨
  (∃ l h', m h = (h', Val l) ∧ closer l = next_socket h ∧
     sockets h' = <[closer l := r]> (sockets h) ∧ next_socket h' = S (next_socket h)).

Lemma ListenAndServe_run protocol s network address h :
  opens_socket (ListenAndServe protocol s network address) h (Clients network address protocol s)
    closer.
Proof.
  intros Hwf. unfold ListenAndServe.
  assert (∀ h1, sockets h1 = sockets h → next_socket h1 = next_socket h →
    let m := (ln ← (r ← try (net_Listen network address); of_result (wrap "failed to listen: " r));
              Serve s ln protocol) in
    (∃ e h', m h1 = (h', Fail e) ∧ sockets h' = sockets h ∧ next_socket h' = next_socket h) ∨
    (∃ l h', m h1 = (h', Val l) ∧ closer l = next_socket h ∧
     sockets h' = <[closer l := Clients network address protocol s]> (sockets h) ∧
     next_socket h' = S (next_socket h))) as Hlisten.
  { intros h1 Hs Hn. cbv zeta.
    destruct (net_Listen_run network address h1) as [[e Hl]|(h2 & a & Hl & Hs2 & Hn2)].
    - left. exists ("failed to listen: " +:+ e), h1.
      split; [|done]. unfold mbind, M_bind, try. rewrite Hl. done.
    - right. exists (mkListener (next_socket h1) a). eexists. split.
      + unfold mbind, M_bind, try. rewrite Hl. simpl. done.
      + simpl. rewrite Hs2, Hn2, Hs, Hn. by rewrite alter_insert_eq. }
  case_bool_decide.
  - destruct (ensure_cases address h) as [[e He]|[(He & _)|(b & _ & _ & He)]].
    + left. exists e, h. by erewrite bind_Fail.
    + erewrite bind_Val by exact He. by apply Hlisten.
    + erewrite bind_Val by exact He. by apply Hlisten.
  - by apply Hlisten.
Qed.

(** The description of a QUIC socket. *)
Definition quic_socket s (address : string) (tls : option tlsConfig) : resource A :=
  QuicSocket address (default [] (with_proto NextProtoWAMP <$> tls))
    (mkQuic 1024 1024
       (if bool_decide (0 < keepAliveInterval s)%Z then keepAliveInterval s else 15 * Second)) s.

Lemma ListenAndServeQUIC_run s address tls h :
  opens_socket (ListenAndServeQUIC s address tls) h (quic_socket s address tls) closer.
Proof.
  intros Hwf. unfold ListenAndServeQUIC, quic_socket.
  destruct tls as [tls|]; [|by left; do 2 eexists].
  erewrite bind_Val by done.
  destruct (listen_fault h "udp" address) as [e|]; [by left; do 2 eexists|].
  right. do 2 eexists. split; [by erewrite bind_Val|]. simpl. by case_bool_decide.
Qed.

Lemma ListenAndServeWebTransport_run s address tls path h :
  host_wf h →
  (∃ e h', ListenAndServeWebTransport s address tls path h = (h', Fail e) ∧
     sockets h' = sockets h ∧ next_socket h' = next_socket h) ∨
  (∃ l h', ListenAndServeWebTransport s address tls path h = (h', Val l) ∧
     closer l = S (next_socket h) ∧
     sockets h' = <[S (next_socket h) := WebTransportServer (next_socket h) address path
                      (default [] (with_proto NextProtoH3 <$> tls)) s]>
                  (<[next_socket h := Unserved "udp" address]> (sockets h)) ∧
     next_socket h' = S (S (next_socket h))).
Proof.
  intros Hwf. unfold ListenAndServeWebTransport.
  destruct tls as [tls|]; [|by left; do 2 eexists].
  destruct (resolve_fault address) as [e|]; [by left; do 2 eexists|]. simpl.
  destruct (net_Listen_run "udp" address h) as [[e Hl]|(h' & a & Hl & Hs & Hn)].
  - left. do 2 eexists. unfold mbind, M_bind, try. by rewrite Hl.
  - right. do 2 eexists. unfold mbind, M_bind, try. rewrite Hl. simpl.
    split; [done|]. simpl. by rewrite Hn, Hs.
Qed.

(** Starting a listener on a network and an address opens exactly one
    socket, which serves the protocol asked for, or fails and opens none. *)
Theorem listening_opens_one_socket protocol s network address h :
  host_wf h →
  match ListenAndServe protocol s network address h with
  | (h', Val l) => sockets h !! closer l = None ∧
      sockets h' = <[closer l := Clients network address protocol s]> (sockets h) ∧ host_wf h'
  | (h', Fail e) => sockets h' = sockets h ∧ host_wf h'
  | _ => False
  end.
Proof.
  intros Hwf.
  destruct (ListenAndServe_run protocol s network address h Hwf)
    as [(e & h' & -> & Hs & Hn)|(l & h' & -> & Hc & Hs & Hn)].
  - split; [done|]. intros k r. rewrite Hs, Hn. apply Hwf.
  - rewrite Hc. split_and!; [by apply wf_fresh|by rewrite <-Hc|].
    intros k r. rewrite Hs, Hn, Hc. intros [[<- _]|[_ Hk]]%lookup_insert_Some; [lia|].
    specialize (Hwf _ _ Hk). lia.
Qed.

(** A path can be taken from a server that is running: when its socket does not
    answer the dial, because its queue is full or the process may not connect
    to it, its file is removed and bound again. *)
Theorem busy_socket_is_replaced protocol s p h e :
  host_wf h → answers p h → unix_name_of p = PathName → dial_fault h p = Some e →
  lstat_fault h p = None → remove_fault h p = None →
  (∀ h', listen_fault h' NetworkUnix p = None) →
  ∃ h' l, ListenAndServe protocol s NetworkUnix p h = (h', Val l) ∧
    files h' !! p = Some (SocketFile true) ∧ sockets h' !! closer l = Some (Clients NetworkUnix p protocol s).
Proof.
  intros Hwf Ha Hp Hd Hl Hr Hn. unfold ListenAndServe. rewrite bool_decide_eq_true_2 by done.
  unfold answers in Ha. rewrite Hp in Ha.
  erewrite (bind_Val (ensureUnixSocketAvailable p)).
  2: { unfold ensureUnixSocketAvailable, dial_unix, lstat, os_Remove, try, mbind, M_bind, get.
       rewrite Hp, bool_decide_eq_true_2, Hd by done. simpl. rewrite Hl, Ha. simpl.
       rewrite Hr. simpl. done. }
  do 2 eexists. split.
  - unfold net_Listen, try, mbind, M_bind. rewrite Hn, Hp. simpl.
    rewrite lookup_delete_eq. simpl. done.
  - simpl. rewrite lookup_insert_eq. split; [done|]. rewrite lookup_alter_eq, lookup_insert_eq. done.
Qed.

(** *** Closing *)

Lemma close_socket_run k r h :
  sockets h !! k = Some r →
  (close_socket k h).2 = Val tt ∧ sockets (close_socket k h).1 = delete k (sockets h) ∧
  next_socket (close_socket k h).1 = next_socket h.
Proof.
  intros Hk. unfold close_socket. rewrite Hk.
  destruct r as [n a|n a q s|a ps q s|c a q ps s]; simpl;
    unfold unbind; try case_bool_decide; try (by split_and!); by destruct (unix_name_of a).
Qed.

(** A listener serves the connections it accepts until accepting fails, and
    then closes its socket: nothing is accepted after it. *)
Theorem accept_loop_closes k conns e rest r h :
  sockets h !! k = Some r →
  let w := startConnectionLoop k (map Ok conns ++ Err e :: rest) h in
  w.2 = Val tt ∧ handled w.1 = (handled h ++ map (pair k) conns)%list ∧ sockets w.1 = delete k (sockets h).
Proof.
  revert h. induction conns as [|c conns IH]; intros h Hk.
  - simpl. rewrite app_nil_r. unfold close_socket, ignore, try, mbind, M_bind. rewrite Hk.
    destruct r as [n a|n a q s|a ps q s|cn a q ps s]; simpl;
      unfold unbind; try case_bool_decide; try (by split_and!); by destruct (unix_name_of a).
  - cbn [map app startConnectionLoop]. cbv zeta. erewrite bind_Val by done.
    destruct (IH (mkHost A (files h) (abstract h) (sockets h) (next_socket h)
      (handled h ++ [(k, c)])%list)) as (H1 & H2 & H3); [done..|].
    split_and!; [done| |done]. rewrite H2. simpl. by rewrite <-(assoc_L app).
Qed.

(** Closing a WebTransport listener leaves its UDP socket open. *)
Theorem webtransport_socket_stays_open s address tls path h h' l :
  host_wf h → ListenAndServeWebTransport s address tls path h = (h', Val l) →
  sockets (Listener_Close l h').1 = <[next_socket h := Unserved "udp" address]> (sockets h).
Proof.
  intros Hwf Hl.
  destruct (ListenAndServeWebTransport_run s address tls path h Hwf)
    as [(e & h1 & Hr & _)|(l1 & h1 & Hr & Hcl & Hs & _)]; rewrite Hr in Hl; simplify_eq.
  unfold Listener_Close.
  destruct (close_socket_run (closer l) (WebTransportServer (next_socket h) address path
    (default [] (with_proto NextProtoH3 <$> tls)) s) h') as (_ & -> & _);
    [by rewrite Hcl, Hs, lookup_insert_eq|].
  rewrite Hcl, Hs. rewrite delete_insert_id; [done|].
  rewrite lookup_insert_ne by lia. apply eq_None_not_Some. intros [r Hk]. specialize (Hwf _ _ Hk). lia.
Qed.

End ListenersSpec.
