(* ===== verification/Certificates.v ===== *)
(** * Self-signed certificates (quic.go, webtransport.go)

    The certificate that a listener makes for itself.  Keys, signatures and hashes
    are the work of Go's crypto packages; what they answer depends on chance and
    is an argument, like the two readings of the clock. *)

From S2P Require Import Prelude GoStd Listeners.

Local Open Scope Z_scope.

Definition Minute : Z := 60 * Second.
Definition Hour : Z := 60 * Minute.

Inductive KeyUsage := KeyUsageDigitalSignature | KeyUsageKeyEncipherment | KeyUsageCertSign.
Inductive ExtKeyUsage := ExtKeyUsageServerAuth.

(** The fields of [x509.Certificate] that are set; times are in nanoseconds. *)
Record Certificate := mkCertificate {
  SerialNumber : Z; CommonName : string; NotBefore : Z; NotAfter : Z;
  Usage : list KeyUsage; ExtUsage : list ExtKeyUsage; IsCA : bool;
  IPAddresses : list (list Z); DNSNames : list string;
}.

Definition IPv4 (a b c d : Z) : list Z := [0; 0; 0; 0; 0; 0; 0; 0; 0; 0; 255; 255; a; b; c; d].
Definition IPv6loopback : list Z := [0; 0; 0; 0; 0; 0; 0; 0; 0; 0; 0; 0; 0; 0; 0; 1].

Class X509 := {
  PrivateKey : Type;
  PublicKey : Type;
  Public : PrivateKey → PublicKey;
  (** [CreateCertificate(rand.Reader, template, parent, pub, priv)] *)
  CreateCertificate : Certificate → Certificate → PublicKey → PrivateKey → result string;
  Sum256 : string → string;
}.

Section Certificates.
Context `{X509}.

Record tls_Config := mkTLS {
  Certificates : list (list string * PrivateKey); NextProtos : list string }.

Local Open Scope string_scope.

Definition quic_template (now now' : Z) : Certificate :=
  mkCertificate 1 "xconn-quic" now (now' + 365 * 24 * Hour)
    [KeyUsageKeyEncipherment; KeyUsageDigitalSignature; KeyUsageCertSign] [ExtKeyUsageServerAuth] true
    [IPv4 127 0 0 1; IPv6loopback] ["localhost"].

(** [key]: what [rsa.GenerateKey] answers. *)
Definition GenerateSelfSignedTLSConfig (key : result PrivateKey) (now now' : Z) : result tls_Config :=
  match key with
  | Err e => Err ("failed to generate key: " +:+ e)
  | Ok key =>
      let template := quic_template now now' in
      match CreateCertificate template template (Public key) key with
      | Err e => Err ("failed to create certificate: " +:+ e)
      | Ok certDER => Ok (mkTLS [([certDER], key)] [NextProtoWAMP])
      end
  end.

Definition webtransport_template (now now' : Z) : Certificate :=
  mkCertificate 1 "xconn-webtransport" (now - Minute) (now' + (14 * 24 * Hour - Hour))
    [KeyUsageDigitalSignature] [ExtKeyUsageServerAuth] false
    [IPv4 127 0 0 1; IPv6loopback] ["localhost"].

(** [key]: what [ecdsa.GenerateKey] answers.  The hash comes with the configuration. *)
Definition GenerateWebTransportTLSConfig (key : result PrivateKey) (now now' : Z)
    : result (tls_Config * string) :=
  match key with
  | Err e => Err ("failed to generate key: " +:+ e)
  | Ok key =>
      let template := webtransport_template now now' in
      match CreateCertificate template template (Public key) key with
      | Err e => Err ("failed to create certificate: " +:+ e)
      | Ok certDER => Ok (mkTLS [([certDER], key)] [], Sum256 certDER)
      end
  end.

Local Close Scope string_scope.

(** A certificate with the key that it is served with: signed by it, for itself. *)
Definition self_signed (template : Certificate) (key : PrivateKey) (der : string) : Prop :=
  CreateCertificate template template (Public key) key = Ok der.

(** The configuration serves one certificate, with its own key, for this machine; it
    is valid from the moment it was made, for a year and not before. *)
Theorem quic_certificate key now now' cfg :
  GenerateSelfSignedTLSConfig key now now' = Ok cfg → now ≤ now' →
  ∃ k der, key = Ok k ∧ self_signed (quic_template now now') k der ∧
    Certificates cfg = [([der], k)] ∧ NextProtos cfg = [NextProtoWAMP] ∧
    ∀ t, now ≤ t ≤ now + 365 * 24 * Hour →
      NotBefore (quic_template now now') ≤ t ≤ NotAfter (quic_template now now').
Proof.
  unfold GenerateSelfSignedTLSConfig. destruct key as [k|e]; [|done]. cbv zeta.
  destruct (CreateCertificate _ _ _ _) as [der|e] eqn:Hc; [|done]. intros [= <-] Hle.
  exists k, der. split_and!; try done. intros t Ht. unfold quic_template. simpl. lia.
Qed.

(** A browser takes the hash of a certificate for its trust only when the certificate
    lives for two weeks at most: this one does, unless an hour passes between the
    two readings of the clock, and it is valid when it is made.  The hash that is
    returned is that of the certificate that is served. *)
Theorem webtransport_certificate key now now' cfg hash :
  GenerateWebTransportTLSConfig key now now' = Ok (cfg, hash) → now ≤ now' ≤ now + 59 * Minute →
  ∃ k der, key = Ok k ∧ self_signed (webtransport_template now now') k der ∧
    Certificates cfg = [([der], k)] ∧ hash = Sum256 der ∧
    (let c := webtransport_template now now' in
     NotBefore c < now ∧ now' < NotAfter c ∧ NotAfter c - NotBefore c ≤ 14 * 24 * Hour).
Proof.
  unfold GenerateWebTransportTLSConfig. destruct key as [k|e]; [|done]. cbv zeta.
  destruct (CreateCertificate _ _ _ _) as [der|e] eqn:Hc; [|done]. intros [= <- <-] Hle.
  exists k, der. split_and!; try done;
    unfold webtransport_template, Hour, Minute, Second in *; cbn -[Z.mul Z.add Z.sub]; lia.
Qed.

(** The life of the certificate, which is an hour less than two weeks from the second
    reading on. *)
Theorem webtransport_lifetime now :
  let c := webtransport_template now now in NotAfter c - NotBefore c = 14 * 24 * Hour - 59 * Minute.
Proof. unfold webtransport_template, Hour, Minute, Second. simpl. lia. Qed.

End Certificates.

(** A signature that is the text of the name and the key. *)
#[global] Instance sample_x509 : X509 := {|
  PrivateKey := nat; PublicKey := nat; Public k := k;
  CreateCertificate t _ _ k := Ok (CommonName t +:+ pretty k)%string;
  Sum256 s := s |}.

Definition sample_key : PrivateKey := 3%nat.

Example quic_certificate_witness : NotBefore (quic_template 5 6) ≤ 7 ≤ NotAfter (quic_template 5 6).
Proof.
  destruct (quic_certificate (Ok sample_key) 5 6 (mkTLS [(["xconn-quic3"%string], sample_key)] [NextProtoWAMP])
    eq_refl ltac:(lia)) as (k & der & _ & _ & _ & _ & Hv).
  apply Hv. unfold Hour, Minute, Second. lia.
Defined.

Example webtransport_certificate_witness :
  NotBefore (webtransport_template 5 6) < 5.
Proof.
  destruct (webtransport_certificate (Ok sample_key) 5 6
    (mkTLS [(["xconn-webtransport3"%string], sample_key)] [])
    "xconn-webtransport3" eq_refl ltac:(unfold Minute, Second; lia)) as (k & der & _ & _ & _ & _ & Hb & _).
  exact Hb.
Defined.
