(* ===== verification/Streams.v ===== *)
(** * WAMP sessions on the streams of a multiplexed connection (server.go,
    webtransport.go, quic.go)

    A stream that begins with the magic byte is served like a connection of a
    raw-socket listener; the connection's authentication and the announcement of
    the session come on top.  And what the reads of a stream make of the errors
    of QUIC and WebTransport.  Multiplex has the goroutines of the listeners. *)

From S2P Require Import Prelude GoStd Wamp Permissions Peers Acceptor Realm Router Server.

Local Open Scope string_scope.

(** ** Reading from a stream *)

(** An error of quic-go or webtransport-go, with the errors it wraps: the chain
    that [errors.As] searches. *)
Inductive net_error :=
| ApplicationError (code : Z)
| StreamError (code : Z)
| SessionError (code : Z)
| OtherError (text : string).

Definition http3_NoError : Z := 256.
(** [rawStreamRejected] *)
Definition rawStreamRejected : Z := 1.

Fixpoint find_code (f : net_error → option Z) (chain : list net_error) : option Z :=
  match chain with
  | [] => None
  | e :: chain => match f e with Some c => Some c | None => find_code f chain end
  end.
Definition as_application := find_code (λ e, match e with ApplicationError c => Some c | _ => None end).
Definition as_stream := find_code (λ e, match e with StreamError c => Some c | _ => None end).
Definition as_session := find_code (λ e, match e with SessionError c => Some c | _ => None end).

(** What [Read] returns: the bytes, and perhaps an error. *)
Inductive read_error := ReadEOF | ReadError (chain : list net_error).

Definition quic_Read (r : string * option (list net_error)) : string * option read_error :=
  (r.1,
   match r.2 with
   | None => None
   | Some chain => Some (if bool_decide (as_application chain = Some 0%Z) then ReadEOF else ReadError chain)
   end).

Definition webtransport_Read (r : string * option (list net_error)) : string * option read_error :=
  (r.1,
   match r.2 with
   | None => None
   | Some chain => Some (
       if bool_decide (as_stream chain = Some 0%Z) then ReadEOF
       else if bool_decide (as_session chain = Some 0%Z) then ReadEOF
       else if bool_decide (as_application chain = Some 0%Z ∨ as_application chain = Some http3_NoError)
       then ReadEOF else ReadError chain)
   end).

(** [QUICConn.Close] and a session's end close with code 0, which the other side
    reads as the end of the stream; a stream that was rejected is never that.
    No bytes are lost, and without an error there is none. *)
Theorem clean_close_is_the_end data chain :
  quic_Read (data, None) = (data, None) ∧ webtransport_Read (data, None) = (data, None) ∧
  quic_Read (data, Some [ApplicationError 0]) = (data, Some ReadEOF) ∧
  webtransport_Read (data, Some [SessionError 0]) = (data, Some ReadEOF) ∧
  ((quic_Read (data, Some chain)).2 = Some ReadEOF ↔ as_application chain = Some 0%Z) ∧
  ((webtransport_Read (data, Some chain)).2 = Some ReadEOF ↔
     as_stream chain = Some 0%Z ∨ as_session chain = Some 0%Z ∨
     as_application chain = Some 0%Z ∨ as_application chain = Some 256%Z) ∧
  (quic_Read (data, Some [StreamError rawStreamRejected])).2 ≠ Some ReadEOF ∧
  (webtransport_Read (data, Some [StreamError rawStreamRejected])).2 ≠ Some ReadEOF.
Proof.
  split_and!; try done; unfold quic_Read, webtransport_Read; simpl.
  - case_bool_decide; naive_solver.
  - repeat case_bool_decide; naive_solver.
Qed.

(** ** A stream that carries a session *)

Section Streams.
Context `{WampHandshake} `{!WampRouting} `{WampConstants} `{MapRange} `{FmtV} `{LogLevels}.

(** The router; the session that authenticated the stream's connection (connAuth);
    the sessions that are to be delivered to [AcceptSession]. *)
Record streams := mkStreams {
  s_router : RouterW; conn_auth : option BaseSession; announced : list BaseSession }.

Definition on_rt {A} : M RouterW A → M streams A :=
  zoom s_router (λ r w, mkStreams r (conn_auth w) (announced w)).

(** [connAuth.authenticated]: the first session counts. *)
Definition authenticated (base : BaseSession) : M streams unit :=
  modify (λ w, mkStreams (s_router w)
    (match conn_auth w with Some b => Some b | None => Some base end) (announced w)).

(** The goroutine that delivers the session is started. *)
Definition announce (base : BaseSession) : M streams unit :=
  modify (λ w, mkStreams (s_router w) (conn_auth w) (announced w ++ [base])%list).

(** [QUICListener.handleWAMPStream] *)
Definition handleWAMPStream (specs : registries) (s : Server) (c : connection) : M streams ending :=
  match handshaken c with
  | Err _ => mret NotUpgraded
  | Ok serializerID =>
      match RawSocketAcceptor_Accept specs serializerID (authenticator s) (incoming c)
              (NewRawSocketPeer (server_queue_size (outQueueSize s))) with
      | (p, Val (d, ser, rs)) =>
          base ← on_rt (new_base d p ser);
          attached ← try (on_rt (AttachClient base));
          match attached with
          | Err e => mret (NotAttached base e)
          | Ok _ =>
              authenticated base;;
              announce base;;
              on_rt (serve base rs);;
              mret (Detached base)
          end
      | (p, Fail e) => mret (Refused p e)
      | (_, Crash why) => crash why
      | (_, Blocks) => λ w, (w, Blocks)
      end
  end.

(** [handleWebTransportWAMPStream] makes the same calls in the same order. *)
Definition handleWebTransportWAMPStream := handleWAMPStream.

(** [dispatchQUICStream] up to what it does with a raw stream: [None]. *)
Definition dispatch (specs : registries) (s : Server) (c : connection) : M streams (option ending) :=
  match first_byte c with
  | Ok b => if bool_decide (b = MAGIC) then e ← handleWAMPStream specs s c; mret (Some e)
            else mret None
  | Err _ => mret None
  end.

(** [dispatchWebTransportStream] *)
Definition dispatchWebTransportStream (specs : registries) (s : Server) (c : connection)
    : M streams (option ending) :=
  match first_byte c with
  | Ok b => if bool_decide (b = MAGIC) then e ← handleWebTransportWAMPStream specs s c; mret (Some e)
            else mret None
  | Err _ => mret None
  end.

Implicit Types (w : streams).

(** The sessions that a run of [handleWAMPStream] adds. *)
Definition adds (w w' : streams) (l : list BaseSession) : Prop :=
  announced w' = (announced w ++ l)%list ∧
  conn_auth w' = match conn_auth w with Some b => Some b | None => head l end.

Lemma on_rt_run {A} (m : M RouterW A) w :
  on_rt m w = (mkStreams (m (s_router w)).1 (conn_auth w) (announced w), (m (s_router w)).2).
Proof. unfold on_rt. by rewrite zoom_run. Qed.

Lemma handle_stream_run specs s c w :
  let run := handleWAMPStream specs s c w in
  let client := HandleClient specs s ListenerRawSocket c (s_router w) in
  s_router run.1 = client.1 ∧ run.2 = client.2 ∧
  ∃ l, adds w run.1 l ∧
    match run.2 with
    | Val (Detached base) => l = [base]
    | Val _ => l = []
    | _ => (length l ≤ 1)%nat
    end.
Proof.
  cbv zeta. unfold HandleClient, handle_rawsocket, handleWAMPStream, handle_accepted.
  assert (adds w w []) as Hrefl.
  { unfold adds. rewrite app_nil_r. by destruct (conn_auth w). }
  destruct (handshaken c) as [id|e]; [|by split_and!; [..|exists []]].
  destruct (RawSocketAcceptor_Accept _ _ _ _ _) as [p [[[d ser] rs]|e|why|]];
    [|by split_and!; [..|exists []]|by split_and!; [..|exists []; split; [|simpl; lia]]
     |by split_and!; [..|exists []; split; [|simpl; lia]]].
  assert (∃ r1 base, new_base d p ser (s_router w) = (r1, Val base)) as (r1 & base & Hnew)
    by by do 2 eexists.
  rewrite !bind_effect, !on_rt_run, Hnew. cbn [fst snd s_router]. rewrite !bind_effect. unfold try.
  rewrite on_rt_run. cbn [fst snd s_router conn_auth announced].
  destruct (AttachClient base r1) as [r2 [[]|e|why|]] eqn:Ha; cbn [fst snd].
  - erewrite !bind_Val by done. rewrite !bind_effect, on_rt_run.
    cbn [s_router conn_auth announced fst snd].
    destruct (serve base rs r2) as [r3 [[]|e|why|]]; cbn [fst snd s_router mret M_ret];
      (split_and!; [done|done|exists [base]; split; [by split; destruct (conn_auth w)|simpl; try done; lia]]).
  - by split_and!; [..|exists []; split].
  - split_and!; [done|done|exists []; split; [done|simpl; lia]].
  - split_and!; [done|done|exists []; split; [done|simpl; lia]].
Qed.

(** C22. A stream that begins with the magic byte is served exactly as a
    connection of a raw-socket listener: the router ends in the same state with
    the same outcome.  Besides, a session that is attached, and no other, is
    announced, once, and authenticates its connection if none has before.  A
    stream of WebTransport is treated like one of QUIC. *)
Theorem streams_are_served_as_raw_sockets specs s c w :
  first_byte c = Ok MAGIC →
  let run := dispatch specs s c w in
  let client := HandleClient specs s ListenerRawSocket c (s_router w) in
  dispatchWebTransportStream specs s c w = run ∧
  s_router run.1 = client.1 ∧
  run.2 = match client.2 with
          | Val e => Val (Some e) | Fail e => Fail e | Crash why => Crash why | Blocks => Blocks
          end ∧
  ∃ l, adds w run.1 l ∧
    match client.2 with
    | Val (Detached base) => l = [base]
    | Val _ => l = []
    | _ => (length l ≤ 1)%nat
    end.
Proof.
  intros Hb. cbv zeta. split; [done|]. unfold dispatch. rewrite Hb. rewrite bool_decide_eq_true_2 by done.
  destruct (handle_stream_run specs s c w) as (Hr & Hv & l & Hl & Hm).
  rewrite bind_effect. destruct (handleWAMPStream specs s c w) as [w1 v]. cbn [fst snd] in *.
  rewrite Hv in *. destruct (HandleClient specs s ListenerRawSocket c (s_router w)) as [r1 v1].
  cbn [fst snd] in *. destruct v1; cbn; (split_and!; [done|done|by exists l]).
Qed.

End Streams.
