(* ===== verification/Multiplex.v ===== *)
(** * Multiplexed listeners (server.go, webtransport.go, streamauth.go)

    A QUIC or WebTransport connection carries many streams: a stream that
    starts with the RawSocket magic byte is a WAMP session, any other one is
    delivered to the application, once a session of its connection has been
    authenticated.  The listener, one goroutine for each connection, one for
    each stream and one for each session to announce are a transition system:
    a step is a channel operation, a call on a [WaitGroup] or an action of the
    network, in any order.  A step that Go would answer by a panic, a send on
    a closed channel or a negative counter, sets [panicked].

    The two listeners differ in one thing: only the QUIC listener closes its
    channels, and counts the goroutines that announce sessions for that. *)

From S2P Require Import Prelude GoStd.

Inductive transport := QUIC | WebTransport.

(** Where the accept loop of the listener is. *)
Inductive loop_state :=
| LAccept       (* accepting connections *)
| LWait         (* [l.Wait()] *)
| LClosing      (* [conns] is closed, [streams] not yet *)
| LClosed.

Inductive conn_phase := CAccepting | CDraining | CDone.
Record connection := mkConn {
  phase : conn_phase;
  streamWg : nat;
  (** [connAuth.session], once [connAuth.done] is closed *)
  auth : option nat;
}.

(** Where the goroutine of a stream is; sessions are numbers. *)
Inductive stream_phase :=
| Peeking
| Handshaking
| Attached (base : nat)
| Serving (base : nat)
| AuthWait
| Offering (base : nat)
| Ended.
Record stream := mkStream { s_conn : nat; s_phase : stream_phase }.

Definition live_conn (c : connection) : bool := match phase c with CDone => false | _ => true end.
Definition live_stream (s : stream) : bool := match s_phase s with Ended => false | _ => true end.

Record listener := mkListener {
  loop : loop_state;
  done : bool;
  wg : nat;                          (* [l.WaitGroup] *)
  conns : list nat;                  (* announced sessions in the channel *)
  conns_closed : bool;
  streams : list (nat * nat);        (* raw streams in the channel: connection, session *)
  streams_closed : bool;
  connections : gmap nat connection;
  stream_of : gmap nat stream;
  announcing : gmap nat nat;         (* the sessions still to announce, by stream *)
  panicked : bool;
}.

Definition chan_cap : nat := 8%nat.

Definition new_listener : listener :=
  mkListener LAccept false 0 [] false [] false ∅ ∅ ∅ false.

Definition set_loop (x : loop_state) (l : listener) : listener :=
  mkListener x (done l) (wg l) (conns l) (conns_closed l) (streams l) (streams_closed l)
    (connections l) (stream_of l) (announcing l) (panicked l).
Definition set_done (l : listener) : listener :=
  mkListener (loop l) true (wg l) (conns l) (conns_closed l) (streams l) (streams_closed l)
    (connections l) (stream_of l) (announcing l) (panicked l).
Definition panics (l : listener) : listener :=
  mkListener (loop l) (done l) (wg l) (conns l) (conns_closed l) (streams l) (streams_closed l)
    (connections l) (stream_of l) (announcing l) true.
Definition add (l : listener) : listener :=
  mkListener (loop l) (done l) (S (wg l)) (conns l) (conns_closed l) (streams l)
    (streams_closed l) (connections l) (stream_of l) (announcing l) (panicked l).
(** [l.Done()] *)
Definition finish (l : listener) : listener :=
  match wg l with
  | O => panics l
  | S n =>
      mkListener (loop l) (done l) n (conns l) (conns_closed l) (streams l) (streams_closed l)
        (connections l) (stream_of l) (announcing l) (panicked l)
  end.
(** [close(l.conns)] and [close(l.streams)] *)
Definition close_conns (l : listener) : listener :=
  if conns_closed l then panics l
  else mkListener (loop l) (done l) (wg l) (conns l) true (streams l) (streams_closed l)
         (connections l) (stream_of l) (announcing l) (panicked l).
Definition close_streams (l : listener) : listener :=
  if streams_closed l then panics l
  else mkListener (loop l) (done l) (wg l) (conns l) (conns_closed l) (streams l) true
         (connections l) (stream_of l) (announcing l) (panicked l).
Definition set_conns (q : list nat) (l : listener) : listener :=
  mkListener (loop l) (done l) (wg l) q (conns_closed l) (streams l) (streams_closed l)
    (connections l) (stream_of l) (announcing l) (panicked l).
Definition set_streams (q : list (nat * nat)) (l : listener) : listener :=
  mkListener (loop l) (done l) (wg l) (conns l) (conns_closed l) q (streams_closed l)
    (connections l) (stream_of l) (announcing l) (panicked l).
Definition set_conn (k : nat) (c : connection) (l : listener) : listener :=
  mkListener (loop l) (done l) (wg l) (conns l) (conns_closed l) (streams l) (streams_closed l)
    (<[k := c]> (connections l)) (stream_of l) (announcing l) (panicked l).
Definition set_stream (i : nat) (s : stream) (l : listener) : listener :=
  mkListener (loop l) (done l) (wg l) (conns l) (conns_closed l) (streams l) (streams_closed l)
    (connections l) (<[i := s]> (stream_of l)) (announcing l) (panicked l).
Definition set_announcing (a : gmap nat nat) (l : listener) : listener :=
  mkListener (loop l) (done l) (wg l) (conns l) (conns_closed l) (streams l) (streams_closed l)
    (connections l) (stream_of l) a (panicked l).

(** [connAuth.authenticated]: the first session wins. *)
Definition authenticated (base : nat) (c : connection) : connection :=
  mkConn (phase c) (streamWg c) (Some (default base (auth c))).

(** [streamWg.Done()], when the goroutine of stream [i] returns. *)
Definition end_stream (i : nat) (l : listener) : listener :=
  match stream_of l !! i with
  | None => l
  | Some s =>
      let l' := set_stream i (mkStream (s_conn s) Ended) l in
      match connections l !! s_conn s with
      | Some (mkConn p (S n) a) => set_conn (s_conn s) (mkConn p n a) l'
      | _ => panics l'
      end
  end.

Definition goto (i : nat) (p : stream_phase) (l : listener) : listener :=
  match stream_of l !! i with
  | Some s => set_stream i (mkStream (s_conn s) p) l
  | None => l
  end.

Section Steps.
Context (T : transport).

(** [QUICListener.startConnectionLoop].  The network accepts a connection [k]
    or fails; the deferred function runs after that.  The server of a
    WebTransport listener calls a handler for each session, and never stops
    doing so; when [Serve] fails it closes [done]. *)
Inductive loop_step : listener → listener → Prop :=
| loop_accepts k l :
    loop l = LAccept → connections l !! k = None →
    loop_step l (add (set_conn k (mkConn CAccepting 0 None) l))
| loop_fails l :
    loop l = LAccept →
    loop_step l (set_done (match T with QUIC => set_loop LWait l | WebTransport => l end))
| loop_waited l :
    loop l = LWait → wg l = 0%nat → loop_step l (set_loop LClosing (close_conns l))
| loop_closes l :
    loop l = LClosing → loop_step l (set_loop LClosed (close_streams l)).

(** [Close] of the listener: once or often. *)
Inductive close_step : listener → listener → Prop :=
| close_done l : close_step l (set_done l).

(** [handleQUICConnection] and [handleWebTransportSession] *)
Inductive conn_step : listener → listener → Prop :=
| conn_accepts k i n a l :
    connections l !! k = Some (mkConn CAccepting n a) → stream_of l !! i = None →
    conn_step l (set_stream i (mkStream k Peeking) (set_conn k (mkConn CAccepting (S n) a) l))
| conn_fails k n a l :
    connections l !! k = Some (mkConn CAccepting n a) →
    conn_step l (set_conn k (mkConn CDraining n a) l)
| conn_waited k a l :
    connections l !! k = Some (mkConn CDraining 0 a) →
    conn_step l (finish (set_conn k (mkConn CDone 0 a) l)).

(** [dispatchQUICStream], [connAuth.wait] and [handleWAMPStream]; the
    handshake, the router and the reads are the network's. *)
Inductive stream_step : listener → listener → Prop :=
| stream_magic i k l :
    stream_of l !! i = Some (mkStream k Peeking) → stream_step l (goto i Handshaking l)
| stream_other i k l :
    stream_of l !! i = Some (mkStream k Peeking) → stream_step l (goto i AuthWait l)
| stream_refused i k l :
    stream_of l !! i = Some (mkStream k Handshaking) → stream_step l (end_stream i l)
| stream_attached i k c base l :
    stream_of l !! i = Some (mkStream k Handshaking) → connections l !! k = Some c →
    stream_step l (goto i (Attached base) (set_conn k (authenticated base c) l))
| stream_announce i k base l :
    stream_of l !! i = Some (mkStream k (Attached base)) →
    stream_step l (set_announcing (<[i := base]> (announcing l))
      (goto i (Serving base) (match T with QUIC => add l | WebTransport => l end)))
| stream_served i k base l :
    stream_of l !! i = Some (mkStream k (Serving base)) → stream_step l (end_stream i l)
| stream_authed i k c base l :
    stream_of l !! i = Some (mkStream k AuthWait) → connections l !! k = Some c →
    auth c = Some base → stream_step l (goto i (Offering base) l)
| stream_rejected i k l :
    stream_of l !! i = Some (mkStream k AuthWait) → stream_step l (end_stream i l)
| stream_offered i k base l :
    stream_of l !! i = Some (mkStream k (Offering base)) → streams_closed l = false →
    (length (streams l) < chan_cap)%nat →
    stream_step l (end_stream i (set_streams (streams l ++ [(k, base)]) l))
| stream_offered_closed i k base l :
    stream_of l !! i = Some (mkStream k (Offering base)) → streams_closed l = true →
    stream_step l (panics l)
| stream_dropped i k base l :
    stream_of l !! i = Some (mkStream k (Offering base)) → done l = true →
    stream_step l (end_stream i l).

(** The goroutine that announces a session. *)
Definition announced (i : nat) (l : listener) : listener :=
  let l := set_announcing (delete i (announcing l)) l in
  match T with QUIC => finish l | WebTransport => l end.

Inductive announce_step : listener → listener → Prop :=
| announce_sent i base l :
    announcing l !! i = Some base → conns_closed l = false → (length (conns l) < chan_cap)%nat →
    announce_step l (announced i (set_conns (conns l ++ [base]) l))
| announce_closed i base l :
    announcing l !! i = Some base → conns_closed l = true → announce_step l (panics l)
| announce_dropped i base l :
    announcing l !! i = Some base → done l = true → announce_step l (announced i l).

(** The application receives from [AcceptSession] and [AcceptStream]. *)
Inductive receive_step : listener → listener → Prop :=
| receive_session base q l : conns l = base :: q → receive_step l (set_conns q l)
| receive_stream x q l : streams l = x :: q → receive_step l (set_streams q l).

Inductive step : listener → listener → Prop :=
| step_loop l l' : loop_step l l' → step l l'
| step_close l l' : close_step l l' → step l l'
| step_conn l l' : conn_step l l' → step l l'
| step_stream l l' : stream_step l l' → step l l'
| step_announce l l' : announce_step l l' → step l l'
| step_receive l l' : receive_step l l' → step l l'.

(** The steps while the application receives nothing, from either channel. *)
Inductive idle_app_step : listener → listener → Prop :=
| idle_loop l l' : loop_step l l' → idle_app_step l l'
| idle_close l l' : close_step l l' → idle_app_step l l'
| idle_conn l l' : conn_step l l' → idle_app_step l l'
| idle_stream l l' : stream_step l l' → idle_app_step l l'
| idle_announce l l' : announce_step l l' → idle_app_step l l'.

End Steps.

(** [RunStandalone] of xconn/standalone.go receives from the stream channels of
    its listeners; the channel of a transport that is not served is nil.  These
    are the errors it can return now because it has found one closed. *)
Definition found_closed (l : option listener) : bool :=
  match l with
  | Some l => streams_closed l && bool_decide (streams l = [])
  | None => false
  end.

Definition standalone_stops (quic wt : option listener) : list string :=
  (if found_closed quic then ["QUIC listener stopped"%string] else []) ++
  (if found_closed wt then ["WebTransport listener stopped"%string] else []).

(** ** What always holds *)

Definition of_conn (k : nat) (s : stream) : bool := bool_decide (s_conn s = k) && live_stream s.

(** The sessions still to announce, where they are counted. *)
Definition counted (T : transport) (l : listener) : nat :=
  match T with QUIC => count (λ _, true) (announcing l) | WebTransport => 0 end.

Definition closing (x : loop_state) : bool :=
  match x with LClosing | LClosed => true | _ => false end.

(** [connAuth] of connection [k] is done, with session [base]. *)
Definition has_auth (m : gmap nat connection) (k base : nat) : Prop :=
  ∃ c, m !! k = Some c ∧ auth c = Some base.

Record inv (T : transport) (l : listener) : Prop := {
  (* the counters count the goroutines *)
  inv_wg : wg l = (count live_conn (connections l) + counted T l)%nat;
  inv_streams k c : connections l !! k = Some c → streamWg c = count (of_conn k) (stream_of l);
  inv_conn i s : stream_of l !! i = Some s → is_Some (connections l !! s_conn s);
  inv_done k c : connections l !! k = Some c → phase c = CDone → streamWg c = 0%nat;
  (* a session is announced by a goroutine that its stream has started *)
  inv_announcing i base : announcing l !! i = Some base →
    ∃ s, stream_of l !! i = Some s ∧ (s_phase s = Serving base ∨ s_phase s = Ended);
  (* the channels are closed in the end, when nobody is left to send *)
  inv_closed : conns_closed l = closing (loop l) ∧
    streams_closed l = match loop l with LClosed => true | _ => false end;
  inv_quiet : closing (loop l) = true → wg l = 0%nat;
  (* raw streams have the session of their connection *)
  inv_offering i k base : stream_of l !! i = Some (mkStream k (Offering base)) →
    has_auth (connections l) k base;
  inv_offered k base : (k, base) ∈ streams l → has_auth (connections l) k base;
  inv_panicked : panicked l = false;
}.

Section Invariant.
Context {T : transport}.
Implicit Types (l : listener) (s : stream) (c : connection).

Lemma of_conn_pos k s l i :
  stream_of l !! i = Some s → live_stream s = true → k = s_conn s →
  (0 < count (of_conn k) (stream_of l))%nat.
Proof.
  intros Hi Hs ->. apply (count_pos _ _ i s Hi). unfold of_conn. by rewrite bool_decide_true, Hs.
Qed.

(** A connection with a stream at work is counted, so nothing is closed. *)
Lemma live_stream_open l i s :
  inv T l → stream_of l !! i = Some s → live_stream s = true →
  ∃ p n a, connections l !! s_conn s = Some (mkConn p (S n) a) ∧ p ≠ CDone ∧
    closing (loop l) = false ∧ conns_closed l = false ∧ streams_closed l = false.
Proof.
  intros I Hi Hs. destruct (inv_conn _ _ I i s Hi) as [[p n a] Hc].
  pose proof (inv_streams _ _ I _ _ Hc) as Hn. pose proof (of_conn_pos _ s l i Hi Hs eq_refl) as Hpos.
  simpl in Hn. destruct n as [|n]; [lia|].
  assert (p ≠ CDone) as Hp by (intros ->; by pose proof (inv_done _ _ I _ _ Hc eq_refl)).
  assert (0 < count live_conn (connections l))%nat as Hlive.
  { apply (count_pos _ _ _ _ Hc). unfold live_conn. simpl. by destruct p. }
  assert (closing (loop l) = false) as Hcl.
  { destruct (closing (loop l)) eqn:Hcl; [|done].
    pose proof (inv_quiet _ _ I Hcl) as Hq. rewrite (inv_wg _ _ I) in Hq. lia. }
  destruct (inv_closed _ _ I) as [H1 H2]. exists p, n, a. split_and!; try done.
  - congruence.
  - rewrite H2. by destruct (loop l).
Qed.

Lemma count_same_conn k i s s' l :
  stream_of l !! i = Some s → s_conn s' = s_conn s → live_stream s' = live_stream s →
  count (of_conn k) (<[i := s']> (stream_of l)) = count (of_conn k) (stream_of l).
Proof.
  intros Hi Hc Hl. pose proof (count_update (of_conn k) _ i s s' Hi) as H.
  unfold of_conn in H at 2 4. rewrite Hc, Hl in H. lia.
Qed.

Lemma has_auth_update (m : gmap nat connection) k c c' k' base :
  m !! k = Some c → (∀ b, auth c = Some b → auth c' = Some b) →
  has_auth m k' base → has_auth (<[k := c']> m) k' base.
Proof.
  intros Hk Ha (c2 & Hc2 & Hb). destruct (decide (k = k')) as [<-|Hne].
  - exists c'. rewrite lookup_insert_eq. split; [done|]. apply Ha. by simplify_eq.
  - exists c2. by rewrite lookup_insert_ne.
Qed.

Lemma has_auth_new (m : gmap nat connection) k c k' base :
  m !! k = None → has_auth m k' base → has_auth (<[k := c]> m) k' base.
Proof. intros Hk (c2 & Hc2 & Hb). exists c2. rewrite lookup_insert_ne; [done|]. congruence. Qed.

(** A goroutine of a stream that goes on. *)
Lemma goto_inv i s p l :
  inv T l → stream_of l !! i = Some s → live_stream s = true → p ≠ Ended →
  announcing l !! i = None →
  (∀ base, p = Offering base → has_auth (connections l) (s_conn s) base) →
  inv T (goto i p l).
Proof.
  intros I Hi Hs Hp Ha Hoff. unfold goto. rewrite Hi.
  assert (live_stream (mkStream (s_conn s) p) = live_stream s) as Hlive.
  { rewrite Hs. by destruct p. }
  destruct I as [Iw Is Ic Id Ian Icl Iq Iof Iofd Ip]. split; try done.
  - intros k c Hk. simpl. rewrite (count_same_conn k i s) by done. by apply Is.
  - intros j s' Hj. simpl in *.
    apply lookup_insert_Some in Hj as [[<- <-]|[_ Hj]]; [by apply (Ic i s)|by apply (Ic j)].
  - intros j base Hj. simpl in Hj. destruct (Ian j base Hj) as (s' & Hs' & Hph).
    exists s'. split; [|done]. simpl. rewrite lookup_insert_ne; [done|]. congruence.
  - intros j k base Hj. simpl in *.
    apply lookup_insert_Some in Hj as [[<- [= <- ->]]|[_ Hj]]; [by apply Hoff|by apply (Iof j)].
Qed.

Lemma end_stream_inv i s l :
  inv T l → stream_of l !! i = Some s → live_stream s = true → inv T (end_stream i l).
Proof.
  intros I Hi Hs. destruct (live_stream_open l i s I Hi Hs) as (p & n & a & Hc & Hp & _).
  unfold end_stream. rewrite Hi, Hc. set (s' := mkStream (s_conn s) Ended).
  destruct I as [Iw Is Ic Id Ian Icl Iq Iof Iofd Ip].
  assert (∀ k, (count (of_conn k) (<[i := s']> (stream_of l)) +
      Nat.b2n (bool_decide (s_conn s = k)) = count (of_conn k) (stream_of l))%nat) as Hcount.
  { intros k. pose proof (count_update (of_conn k) _ i s s' Hi) as H.
    unfold of_conn in H at 2 4. rewrite Hs in H. simpl in H.
    rewrite andb_false_r, andb_true_r in H. simpl in H. lia. }
  split; try done.
  - simpl. rewrite Iw. f_equal.
    pose proof (count_update live_conn _ (s_conn s) _ (mkConn p n a) Hc) as H.
    unfold live_conn in H at 2 4. simpl in H. unfold counted. simpl. lia.
  - intros k c Hk. simpl in *. specialize (Hcount k). apply lookup_insert_Some in Hk as [[<- <-]|[Hne Hk]].
    + specialize (Is _ _ Hc). rewrite bool_decide_true in Hcount by done. simpl in *. lia.
    + specialize (Is _ _ Hk). rewrite bool_decide_false in Hcount by done. simpl in *. lia.
  - intros j s2 Hj. simpl in *. rewrite lookup_insert_is_Some'. right.
    apply lookup_insert_Some in Hj as [[<- <-]|[_ Hj]]; [by apply (Ic i s)|by apply (Ic j)].
  - intros k c Hk. simpl in *.
    apply lookup_insert_Some in Hk as [[<- <-]|[_ Hk]]; [done|by apply (Id k)].
  - intros j base Hj. simpl in *. destruct (Ian j base Hj) as (s2 & Hs2 & Hph).
    destruct (decide (i = j)) as [<-|Hne].
    + exists s'. rewrite lookup_insert_eq. split; [done|by right].
    + exists s2. by rewrite lookup_insert_ne.
  - intros j k base Hj. simpl in *. eapply has_auth_update; [done..|].
    apply lookup_insert_Some in Hj as [[_ [=]]|[_ Hj]]. by apply (Iof j).
  - intros k base Hin. simpl. eapply has_auth_update; [done..|]. by apply Iofd.
Qed.

Lemma loop_step_inv l l' : loop_step T l l' → inv T l → inv T l'.
Proof.
  intros Hs I. pose proof I as [Iw Is Ic Id Ian [Icl1 Icl2] Iq Iof Iofd Ip].
  destruct Hs as [k l Hl Hk|l Hl|l Hl Hw|l Hl].
  - assert (∀ k' c, connections l !! k' = Some c → k ≠ k') as Hne by (intros; congruence).
    split; simpl; try done.
    + rewrite count_new by done. unfold live_conn at 1. simpl. unfold counted in *. simpl. lia.
    + intros k' c [[<- <-]|[_ Hk']]%lookup_insert_Some; [|by apply Is]. simpl.
      symmetry. apply count_none. intros i s Hi. unfold of_conn. rewrite bool_decide_false; [done|].
      intros Heq. destruct (Ic i s Hi) as [c Hc]. by apply (Hne _ _ Hc).
    + intros i s Hi. rewrite lookup_insert_is_Some'. right. by apply (Ic i).
    + intros k' c [[<- <-]|[_ Hk']]%lookup_insert_Some; [done|by apply (Id k')].
    + by rewrite Hl.
    + intros i k' base Hi. by eapply has_auth_new, Iof.
    + intros k' base Hi. by eapply has_auth_new, Iofd.
  - rewrite Hl in *. by destruct T; split; simpl; rewrite ?Hl.
  - rewrite Hl in *. simpl in *. unfold close_conns. rewrite Icl1. by split.
  - rewrite Hl in *. simpl in *. unfold close_streams. rewrite Icl2. by split.
Qed.

(** A connection whose streams and session stay. *)
Lemma set_conn_inv k c c' l :
  inv T l → connections l !! k = Some c → phase c ≠ CDone → live_conn c' = true →
  streamWg c' = streamWg c → (∀ base, auth c = Some base → auth c' = Some base) →
  inv T (set_conn k c' l).
Proof.
  intros [Iw Is Ic Id Ian Icl Iq Iof Iofd Ip] Hk Hph Hl Hn Ha.
  split; simpl; try done; eauto using has_auth_update.
  - pose proof (count_update live_conn _ k c c' Hk) as H. rewrite Hl in H.
    assert (live_conn c = true) as Hc by (unfold live_conn; by destruct (phase c)).
    rewrite Hc in H. unfold counted in *. simpl. lia.
  - intros k' c2 [[<- <-]|[_ Hk']]%lookup_insert_Some; [|by apply Is]. rewrite Hn. by apply Is.
  - intros i s Hi. rewrite lookup_insert_is_Some'. right. by apply (Ic i).
  - intros k' c2 [[<- <-]|[_ Hk']]%lookup_insert_Some; [|by apply (Id k')].
    intros Hd. unfold live_conn in Hl. by rewrite Hd in Hl.
Qed.

Lemma conn_step_inv l l' : conn_step l l' → inv T l → inv T l'.
Proof.
  intros Hs I. destruct Hs as [k i n a l Hk Hi|k n a l Hk|k a l Hk].
  - destruct I as [Iw Is Ic Id Ian Icl Iq Iof Iofd Ip].
    assert (∀ k', count (of_conn k') (<[i := mkStream k Peeking]> (stream_of l)) =
      (Nat.b2n (bool_decide (k = k')) + count (of_conn k') (stream_of l))%nat) as Hcount.
    { intros k'. rewrite count_new by done. unfold of_conn at 1. simpl. by rewrite andb_true_r. }
    split; simpl; try done; eauto using has_auth_update.
    + pose proof (count_update live_conn _ k _ (mkConn CAccepting (S n) a) Hk) as H.
      unfold live_conn in H at 2 4. simpl in H. unfold counted in *. simpl. lia.
    + intros k' c Hk'. rewrite Hcount. apply lookup_insert_Some in Hk' as [[<- <-]|[Hne Hk']].
      * rewrite bool_decide_true by done. simpl. by rewrite <-(Is _ _ Hk).
      * rewrite bool_decide_false by done. by apply Is.
    + intros j s [[<- <-]|[_ Hj]]%lookup_insert_Some; rewrite lookup_insert_is_Some';
        [by left|right; by apply (Ic j)].
    + intros k' c [[<- <-]|[_ Hk']]%lookup_insert_Some; [done|by apply (Id k')].
    + intros j base Hj. destruct (Ian j base Hj) as (s & Hs & Hph). exists s.
      rewrite lookup_insert_ne by congruence. done.
    + intros j k' base [[_ [=]]|[_ Hj]]%lookup_insert_Some. by eapply has_auth_update, (Iof j).
  - eapply set_conn_inv; [done..|]. by simpl.
  - destruct I as [Iw Is Ic Id Ian Icl Iq Iof Iofd Ip].
    pose proof (count_update live_conn _ k _ (mkConn CDone 0 a) Hk) as H.
    unfold live_conn in H at 2 4. simpl in H.
    unfold finish. simpl. destruct (wg l) as [|n] eqn:Hn; [lia|].
    split; simpl; try done; eauto using has_auth_update.
    + unfold counted in *. simpl. lia.
    + intros k' c [[<- <-]|[_ Hk']]%lookup_insert_Some; [|by apply Is]. simpl. by rewrite <-(Is _ _ Hk).
    + intros i s Hi. rewrite lookup_insert_is_Some'. right. by apply (Ic i).
    + intros k' c [[<- <-]|[_ Hk']]%lookup_insert_Some; [done|by apply (Id k')].
    + intros Hq. by specialize (Iq Hq).
Qed.

(** A stream that is not being served yet has nothing to announce. *)
Lemma not_announcing l i s :
  inv T l → stream_of l !! i = Some s → live_stream s = true →
  (∀ base, s_phase s ≠ Serving base) → announcing l !! i = None.
Proof.
  intros I Hi Hl Hs. destruct (announcing l !! i) as [base|] eqn:Ha; [|done].
  destruct (inv_announcing _ _ I i base Ha) as (s' & Hs' & [Hp|Hp]); simplify_eq.
  - by destruct (Hs base).
  - unfold live_stream in Hl. by rewrite Hp in Hl.
Qed.

Lemma goto_served_inv i k base l :
  inv T l → stream_of l !! i = Some (mkStream k (Attached base)) →
  inv T (set_announcing (<[i := base]> (announcing l))
    (goto i (Serving base) (match T with QUIC => add l | WebTransport => l end))).
Proof.
  intros I Hi. pose proof (not_announcing l i _ I Hi eq_refl ltac:(done)) as Ha.
  assert (inv T (goto i (Serving base) l)) as I1.
  { by apply (goto_inv i (mkStream k (Attached base))). }
  destruct (live_stream_open l i _ I Hi eq_refl) as (p & n & a & _ & _ & Hcl & _).
  unfold goto in *. rewrite Hi in I1. destruct I1 as [Iw Is Ic Id Ian Icl Iq Iof Iofd Ip].
  assert (∀ j b, <[i := base]> (announcing l) !! j = Some b →
    ∃ s, <[i := mkStream k (Serving base)]> (stream_of l) !! j = Some s ∧
      (s_phase s = Serving b ∨ s_phase s = Ended)) as Hann.
  { intros j b [[<- <-]|[_ Hj]]%lookup_insert_Some; [|by apply Ian].
    eexists. rewrite lookup_insert_eq. split; [done|by left]. }
  simpl in *. destruct T; simpl; rewrite Hi; split; simpl in *; try done.
  - rewrite Iw, count_new by done. simpl. lia.
  - intros Hq. congruence.
Qed.

Lemma stream_step_inv l l' : stream_step T l l' → inv T l → inv T l'.
Proof.
  intros Hs I.
  destruct Hs as [i k l Hi|i k l Hi|i k l Hi|i k c base l Hi Hk|i k base l Hi|i k base l Hi
    |i k c base l Hi Hk Ha|i k l Hi|i k base l Hi Ho Hlen|i k base l Hi Ho|i k base l Hi Hd].
  all: try (by eapply end_stream_inv).
  - eapply goto_inv; try done. by eapply not_announcing.
  - eapply goto_inv; try done. by eapply not_announcing.
  - destruct (live_stream_open l i _ I Hi eq_refl) as (p & n & a & Hc & Hp & _). simplify_eq/=.
    assert (inv T (set_conn k (authenticated base (mkConn p (S n) a)) l)) as I1.
    { eapply set_conn_inv; [done..|by destruct p|done|]. simpl. by intros b ->. }
    eapply goto_inv; try done. by eapply not_announcing.
  - by eapply goto_served_inv.
  - eapply goto_inv; try done; [by eapply not_announcing|]. intros b [= <-]. by exists c.
  - eapply (end_stream_inv i); try done. destruct (inv_offering _ _ I _ _ _ Hi) as (c & Hc & Ha).
    destruct I as [Iw Is Ic Id Ian Icl Iq Iof Iofd Ip]. split; try done.
    intros k' b [?|[= -> ->]%list_elem_of_singleton]%elem_of_app; [by apply Iofd|by exists c].
  - destruct (live_stream_open l i _ I Hi eq_refl) as (p & n & a & _ & _ & _ & _ & Hopen).
    congruence.
Qed.

(** The counter counts the goroutine that announces. *)
Lemma announcing_open l i base :
  inv QUIC l → announcing l !! i = Some base →
  ∃ n, wg l = S n ∧ closing (loop l) = false ∧ conns_closed l = false.
Proof.
  intros I Hi. pose proof (count_pos (λ _, true) _ i base Hi eq_refl) as Hpos.
  pose proof (inv_wg _ _ I) as Hw. unfold counted in Hw.
  destruct (wg l) as [|n] eqn:Hn; [lia|]. exists n.
  assert (closing (loop l) = false) as Hcl.
  { destruct (closing (loop l)) eqn:Hcl; [|done]. by pose proof (inv_quiet _ _ I Hcl); congruence. }
  split_and!; [done..|]. destruct (inv_closed _ _ I) as [H _]. congruence.
Qed.

Lemma announced_inv l i base :
  inv T l → announcing l !! i = Some base → inv T (announced T i l).
Proof.
  intros I Hi. assert (∀ j b, delete i (announcing l) !! j = Some b →
    ∃ s, stream_of l !! j = Some s ∧ (s_phase s = Serving b ∨ s_phase s = Ended)) as Hann.
  { intros j b [_ Hj]%lookup_delete_Some. by apply (inv_announcing _ _ I). }
  pose proof (count_delete (λ _, true) _ i base Hi) as Hc. simpl in Hc.
  unfold announced. destruct T.
  - destruct (announcing_open l i base I Hi) as (n & Hn & Hcl & _). unfold finish. simpl.
    rewrite Hn. destruct I as [Iw Is Ic Id Ian Icl Iq Iof Iofd Ip]. unfold counted in *.
    split; simpl; try done; [lia|]. intros ?. congruence.
  - by destruct I.
Qed.

End Invariant.

(** The channels of a WebTransport listener are never closed. *)
Definition never_closed (l : listener) : Prop := loop l = LAccept.

Lemma announce_step_inv T l l' :
  (T = WebTransport → never_closed l) → announce_step T l l' → inv T l → inv T l'.
Proof.
  intros Hwt Hs I. destruct Hs as [i base l Hi Ho Hlen|i base l Hi Ho|i base l Hi Hd].
  - assert (inv T (set_conns (conns l ++ [base]) l)) as I1 by (by destruct I).
    by eapply announced_inv.
  - destruct T.
    + destruct (announcing_open l i base I Hi) as (n & _ & _ & Hopen). congruence.
    + destruct (inv_closed _ _ I) as [H _]. rewrite (Hwt eq_refl), Ho in H. done.
  - by eapply announced_inv.
Qed.

Lemma end_stream_loop i l : loop (end_stream i l) = loop l.
Proof. unfold end_stream. by repeat case_match. Qed.
Lemma goto_loop i p l : loop (goto i p l) = loop l.
Proof. unfold goto. by repeat case_match. Qed.
Lemma finish_loop l : loop (finish l) = loop l.
Proof. unfold finish. by repeat case_match. Qed.

Lemma never_closed_step l l' : step WebTransport l l' → never_closed l → never_closed l'.
Proof.
  unfold never_closed. intros Hs Hl. destruct Hs as [l l' H|l l' H|l l' H|l l' H|l l' H|l l' H];
    destruct H; simpl; rewrite ?finish_loop, ?end_stream_loop, ?goto_loop; simpl; congruence.
Qed.

Lemma step_inv T l l' :
  (T = WebTransport → never_closed l) → step T l l' → inv T l → inv T l'.
Proof.
  intros Hwt Hs I. destruct Hs as [l l' H|l l' H|l l' H|l l' H|l l' H|l l' H].
  - by eapply loop_step_inv.
  - destruct H, I. by split.
  - by eapply conn_step_inv.
  - by eapply stream_step_inv.
  - by eapply announce_step_inv.
  - destruct H as [b q l Hq|x q l Hq]; destruct I as [Iw Is Ic Id Ian Icl Iq Iof Iofd Ip];
      split; try done. intros k b Hin. apply Iofd. rewrite Hq. by right.
Qed.

Lemma listener_reachable T l :
  rtc (step T) new_listener l → inv T l ∧ (T = WebTransport → never_closed l).
Proof.
  assert (inv T new_listener ∧ (T = WebTransport → never_closed new_listener)) as I.
  { split; [|done]. split; simpl; intros; rewrite ?lookup_empty in *; try done; [by destruct T|].
    by destruct (not_elem_of_nil (k, base)). }
  revert I. generalize new_listener. intros l0 I Hr.
  induction Hr as [l|l l1 l2 Hs _ IH]; [done|]. destruct I as [I Hwt]. apply IH. split.
  - by eapply step_inv.
  - intros ->. by eapply never_closed_step, Hwt.
Qed.

(** ** What a listener promises *)

(** A goroutine of the listener is at work. *)
Definition working (l : listener) : Prop :=
  (∃ k c, connections l !! k = Some c ∧ live_conn c = true) ∨
  (∃ i s, stream_of l !! i = Some s ∧ live_stream s = true) ∨
  ∃ i base, announcing l !! i = Some base.

Lemma closing_idle l : inv QUIC l → closing (loop l) = true → ¬ working l.
Proof.
  intros I Hcl [(k & c & Hk & Hc)|[(i & s & Hi & Hs)|(i & base & Hi)]].
  - pose proof (count_pos _ _ _ _ Hk Hc). pose proof (inv_wg _ _ I).
    pose proof (inv_quiet _ _ I Hcl). lia.
  - destruct (live_stream_open l i s I Hi Hs) as (? & ? & ? & ? & ? & ? & _). congruence.
  - destruct (announcing_open l i base I Hi) as (? & ? & ? & _). congruence.
Qed.

(** C16. Whatever the order of connections, streams, sessions, announcements and
    [Close], nothing the listener does panics: it sends on no closed channel,
    closes none twice and lets no [WaitGroup] go below zero.  The QUIC listener
    closes its channels only when no goroutine of it is left. *)
Theorem listener_never_panics T l :
  rtc (step T) new_listener l →
  panicked l = false ∧
  (T = QUIC → conns_closed l = true ∨ streams_closed l = true → ¬ working l).
Proof.
  intros [I Hwt]%listener_reachable. split; [by apply (inv_panicked _ _ I)|]. intros -> Hclosed.
  apply closing_idle; [done|]. destruct (inv_closed _ _ I) as [H1 H2].
  destruct (loop l); simpl in *; destruct Hclosed; congruence.
Qed.

Lemma set_conn_auth k c c' l k' base :
  connections l !! k = Some c → (∀ b, auth c = Some b → auth c' = Some b) →
  has_auth (connections l) k' base → has_auth (connections (set_conn k c' l)) k' base.
Proof. apply has_auth_update. Qed.

Lemma finish_connections l : connections (finish l) = connections l.
Proof. unfold finish. by case_match. Qed.
Lemma goto_connections i p l : connections (goto i p l) = connections l.
Proof. unfold goto. by case_match. Qed.

Lemma end_stream_auth i l k base :
  has_auth (connections l) k base → has_auth (connections (end_stream i l)) k base.
Proof.
  intros H. unfold end_stream. destruct (stream_of l !! i) as [s|]; [|done].
  destruct (connections l !! s_conn s) as [[p [|n] a]|] eqn:Hc; try done.
  eapply set_conn_auth; [done| |done]. done.
Qed.

(** The session of a connection is the first one that was authenticated. *)
Lemma step_auth T l l' k base :
  step T l l' → has_auth (connections l) k base → has_auth (connections l') k base.
Proof.
  intros Hs H. destruct Hs as [l l' Hs|l l' Hs|l l' Hs|l l' Hs|l l' Hs|l l' Hs].
  - destruct Hs; try (by destruct T); try (unfold close_conns, close_streams; by case_match).
    by apply has_auth_new.
  - by destruct Hs.
  - destruct Hs; rewrite ?finish_connections; by eapply set_conn_auth.
  - destruct Hs; rewrite ?goto_connections; try done; try (by apply end_stream_auth).
    + eapply set_conn_auth; [done| |done]. simpl. by intros b ->.
    + simpl. rewrite goto_connections. by destruct T.
  - destruct Hs; try done; unfold announced; destruct T; by rewrite ?finish_connections.
  - by destruct Hs.
Qed.

(** C34. The application gets a raw stream only with a session that its own
    connection has authenticated: the first one, which no later session of
    that connection replaces. *)
Theorem raw_streams_are_authenticated T l l' k base :
  rtc (step T) new_listener l → (k, base) ∈ streams l → rtc (step T) l l' →
  has_auth (connections l') k base ∧ ∀ base', (k, base') ∈ streams l' → base' = base.
Proof.
  intros Hr Hin Hr'. destruct (listener_reachable T l Hr) as [I _].
  destruct (listener_reachable T l') as [I' _]; [by etrans|].
  assert (has_auth (connections l') k base) as Ha.
  { pose proof (inv_offered _ _ I k base Hin) as Ha. clear -Ha Hr'.
    induction Hr'; eauto using step_auth. }
  split; [done|]. intros base' Hin'. destruct (inv_offered _ _ I' k base' Hin') as (c & Hc & Hb).
  destruct Ha as (c' & Hc' & Hb'). congruence.
Qed.

(** ** Shutting down *)

Lemma idle_step T l l' : idle_app_step T l l' → step T l l'.
Proof. intros []; by constructor. Qed.

Lemma idle_steps T l l' : rtc (idle_app_step T) l l' → rtc (step T) l l'.
Proof. induction 1; eauto using rtc, idle_step. Qed.

(** A sequence of steps of a closing listener: its loop has ended. *)
Definition shuts (l l' : listener) : Prop :=
  rtc (idle_app_step QUIC) l l' ∧ loop l' = loop l ∧ done l' = done l.

#[local] Instance shuts_pre : PreOrder shuts.
Proof.
  split; [done|]. intros l1 l2 l3 (?&?&?) (?&?&?). split_and!; [by etrans|congruence..].
Qed.

Lemma shuts_inv l l' : inv QUIC l → shuts l l' → inv QUIC l'.
Proof.
  intros I [Hr _]. revert I. induction Hr as [|l l1 l2 Hs _ IH]; [done|]. intros I. apply IH.
  by eapply (step_inv QUIC); [|by apply idle_step|].
Qed.

Lemma step_shuts l l' : stream_step QUIC l l' → loop l' = loop l → done l' = done l → shuts l l'.
Proof. intros. split_and!; [by apply rtc_once, idle_stream|done..]. Qed.

Lemma end_stream_done i l : done (end_stream i l) = done l.
Proof. unfold end_stream. by repeat case_match. Qed.
Lemma goto_done i p l : done (goto i p l) = done l.
Proof. unfold goto. by repeat case_match. Qed.
Lemma finish_done l : done (finish l) = done l.
Proof. unfold finish. by repeat case_match. Qed.

Lemma end_stream_stream i s l :
  inv QUIC l → stream_of l !! i = Some s → live_stream s = true →
  stream_of (end_stream i l) = <[i := mkStream (s_conn s) Ended]> (stream_of l) ∧
  count live_conn (connections (end_stream i l)) = count live_conn (connections l).
Proof.
  intros I Hi Hs. destruct (live_stream_open l i s I Hi Hs) as (p & n & a & Hc & Hp & _).
  unfold end_stream. rewrite Hi, Hc. split; [done|]. simpl.
  pose proof (count_update live_conn _ _ _ (mkConn p n a) Hc) as H.
  unfold live_conn in H at 2 4. simpl in H. lia.
Qed.

Ltac ends_now := eapply step_shuts;
  [|by rewrite ?end_stream_loop|by rewrite ?end_stream_done].

(** A stream whose session is being served, or that waits, ends. *)
Lemma stream_ends i s l :
  inv QUIC l → done l = true → stream_of l !! i = Some s → live_stream s = true →
  ∃ l', shuts l l' ∧
    stream_of l' = <[i := mkStream (s_conn s) Ended]> (stream_of l).
Proof.
  intros I Hd Hi Hs. destruct s as [k p].
  assert (∀ l1 p1, shuts l l1 → stream_of l1 = <[i := mkStream k p1]> (stream_of l) →
    live_stream (mkStream k p1) = true → stream_step QUIC l1 (end_stream i l1) →
    ∃ l', shuts l l' ∧ stream_of l' = <[i := mkStream k Ended]> (stream_of l)) as Hend.
  { intros l1 p1 Hsh Hst Hlive Hstep. exists (end_stream i l1). split.
    - etrans; [done|]. apply step_shuts; [done|apply end_stream_loop|apply end_stream_done].
    - destruct (end_stream_stream i (mkStream k p1) l1) as [-> _];
        [by eapply shuts_inv|by rewrite Hst, lookup_insert_eq|done|].
      by rewrite Hst, insert_insert_eq. }
  assert (stream_of l = <[i := mkStream k p]> (stream_of l)) as Hself by (by rewrite insert_id).
  destruct p as [| |base|base| |base|]; [| | | | | |done].
  - apply (Hend (goto i Handshaking l) Handshaking); [|unfold goto; by rewrite Hi|done|].
    + eapply step_shuts; [by eapply stream_magic|apply goto_loop|apply goto_done].
    + eapply (stream_refused _ _ k). unfold goto. rewrite Hi. apply lookup_insert_eq.
  - apply (Hend l Handshaking); [done..|]. by eapply stream_refused.
  - set (l1 := set_announcing (<[i := base]> (announcing l)) (goto i (Serving base) (add l))).
    assert (stream_of l1 = <[i := mkStream k (Serving base)]> (stream_of l)) as Hst.
    { unfold l1, goto. simpl. by rewrite Hi. }
    apply (Hend l1 (Serving base)); [|done..|].
    + eapply step_shuts; [by eapply (stream_announce QUIC)|by simpl; rewrite goto_loop|].
      simpl. by rewrite goto_done.
    + eapply (stream_served _ _ k base). rewrite Hst. apply lookup_insert_eq.
  - apply (Hend l (Serving base)); [done..|]. by eapply stream_served.
  - apply (Hend l AuthWait); [done..|]. by eapply stream_rejected.
  - apply (Hend l (Offering base)); [done..|]. by eapply stream_dropped.
Qed.

Lemma streams_end n l :
  inv QUIC l → done l = true → count live_stream (stream_of l) = n →
  ∃ l', shuts l l' ∧ count live_stream (stream_of l') = 0%nat.
Proof.
  revert l. induction n as [|n IH]; intros l I Hd Hn; [by exists l|].
  destruct (count_find _ _ _ Hn) as (i & s & Hi & Hs).
  destruct (stream_ends i s l I Hd Hi Hs) as (l1 & Hsh & Hst).
  destruct (IH l1) as (l2 & Hsh2 & Hz).
  - by eapply shuts_inv.
  - destruct Hsh as (_ & _ & ->). done.
  - pose proof (count_update live_stream _ i s (mkStream (s_conn s) Ended) Hi) as H.
    rewrite <-Hst, Hs, Hn in H. simpl in H. lia.
  - exists l2. split; [by etrans|done].
Qed.

(** Announcements are dropped once [done] is closed. *)
Lemma announcements_end n l :
  inv QUIC l → done l = true → count (λ _, true) (announcing l) = n →
  ∃ l', shuts l l' ∧ stream_of l' = stream_of l ∧ connections l' = connections l ∧
    count (λ _, true) (announcing l') = 0%nat.
Proof.
  revert l. induction n as [|n IH]; intros l I Hd Hn; [by exists l|].
  destruct (count_find _ _ _ Hn) as (i & base & Hi & _).
  set (l1 := announced QUIC i l).
  assert (shuts l l1) as Hsh.
  { split_and!; [by eapply rtc_once, idle_announce, announce_dropped|..];
      unfold l1, announced; by rewrite ?finish_loop, ?finish_done. }
  assert (stream_of l1 = stream_of l ∧ connections l1 = connections l ∧
    announcing l1 = delete i (announcing l)) as (Hst & Hc & Ha).
  { unfold l1, announced, finish. by repeat case_match. }
  destruct (IH l1) as (l2 & Hsh2 & Hst2 & Hc2 & Hz).
  - by eapply shuts_inv.
  - by destruct Hsh as (_ & _ & ->).
  - pose proof (count_delete (λ _, true) _ i base Hi) as H. rewrite <-Ha, Hn in H. simpl in H. lia.
  - exists l2. split_and!; [by etrans|congruence..|done].
Qed.

(** With no stream at work, every connection ends. *)
Lemma connections_end n l :
  inv QUIC l → count live_stream (stream_of l) = 0%nat → count live_conn (connections l) = n →
  ∃ l', shuts l l' ∧ count live_conn (connections l') = 0%nat ∧ announcing l' = announcing l.
Proof.
  revert l. induction n as [|n IH]; intros l I Hst Hn; [by exists l|].
  destruct (count_find _ _ _ Hn) as (k & [p m a] & Hk & Hc).
  assert (m = 0%nat) as ->.
  { change m with (streamWg (mkConn p m a)). rewrite (inv_streams _ _ I _ _ Hk). apply count_none. intros i s Hi. unfold of_conn.
    by rewrite (count_empty _ _ Hst i s Hi), andb_false_r. }
  assert (∃ l1, shuts l l1 ∧ stream_of l1 = stream_of l ∧ announcing l1 = announcing l ∧
    connections l1 = <[k := mkConn CDraining 0 a]> (connections l)) as (l1 & Hsh & Hs1 & Ha1 & Hc1).
  { destruct p; [| |done].
    - exists (set_conn k (mkConn CDraining 0 a) l). split_and!; [|done..].
      split_and!; [by apply rtc_once, idle_conn, conn_fails|done..].
    - exists l. split_and!; [done..|]. by rewrite insert_id. }
  set (l2 := finish (set_conn k (mkConn CDone 0 a) l1)).
  assert (shuts l l2) as Hsh2.
  { etrans; [done|]. split_and!; [|unfold l2; by rewrite finish_loop|unfold l2; by rewrite finish_done].
    apply rtc_once, idle_conn, conn_waited. rewrite Hc1. apply lookup_insert_eq. }
  assert (stream_of l2 = stream_of l ∧ announcing l2 = announcing l ∧
    connections l2 = <[k := mkConn CDone 0 a]> (connections l)) as (Hs2 & Ha2 & Hc2).
  { unfold l2, finish. split_and!; case_match; simpl; try done; by rewrite Hc1, insert_insert_eq. }
  destruct (IH l2) as (l3 & Hsh3 & Hz & Ha3).
  - by eapply shuts_inv.
  - by rewrite Hs2.
  - pose proof (count_update live_conn _ k _ (mkConn CDone 0 a) Hk) as H.
    rewrite <-Hc2, Hc, Hn in H. unfold live_conn in H at 2. simpl in H. lia.
  - exists l3. split_and!; [by etrans|done|congruence].
Qed.

Lemma waiting_shuts l :
  inv QUIC l → done l = true → loop l = LWait → ∃ l', rtc (idle_app_step QUIC) l l' ∧ loop l' = LClosed.
Proof.
  intros I Hd Hl.
  destruct (streams_end _ l I Hd eq_refl) as (l1 & Hsh1 & Hs1).
  pose proof (shuts_inv _ _ I Hsh1) as I1.
  destruct (announcements_end (count (λ _, true) (announcing l1)) l1 I1)
    as (l2 & Hsh2 & Hs2 & Hc2 & Ha2); [by destruct Hsh1 as (_ & _ & ->)|done|].
  pose proof (shuts_inv _ _ I1 Hsh2) as I2.
  destruct (connections_end (count live_conn (connections l2)) l2 I2)
    as (l3 & Hsh3 & Hc3 & Ha3); [by rewrite Hs2|done|].
  pose proof (shuts_inv _ _ I2 Hsh3) as I3.
  assert (shuts l l3) as (Hr & Hloop & _) by (etrans; [done|]; by etrans).
  rewrite Hl in Hloop. exists (set_loop LClosed (close_streams (set_loop LClosing (close_conns l3)))).
  split; [|done]. etrans; [done|].
  eapply rtc_l; [apply idle_loop, loop_waited; [done|]|].
  { rewrite (inv_wg _ _ I3). unfold counted. by rewrite Hc3, Ha3, Ha2. }
  by apply rtc_once, idle_loop, loop_closes.
Qed.

Lemma can_close l :
  inv QUIC l → ∃ l', rtc (idle_app_step QUIC) l l' ∧ loop l' = LClosed.
Proof.
  intros I. destruct (loop l) eqn:Hl; [| | |by exists l].
  - destruct (waiting_shuts (set_done (set_loop LWait l))) as (l' & Hr & Hc); [|done..|].
    + by apply (loop_step_inv l), I; apply (loop_fails QUIC).
    + exists l'. split; [|done]. eapply rtc_l; [by apply idle_loop, (loop_fails QUIC)|done].
  - assert (idle_app_step QUIC l (set_done l)) as Hs by apply idle_close, close_done.
    destruct (waiting_shuts (set_done l)) as (l' & Hr & Hc); [|done..|].
    { by eapply (step_inv QUIC); [|by apply idle_step, Hs|]. }
    exists l'. split; [by eapply rtc_l|done].
  - exists (set_loop LClosed (close_streams l)). split; [|done].
    by apply rtc_once, idle_loop, loop_closes.
Qed.

(** C35. A QUIC listener can always be shut down, also when the application receives
    nothing any more: from whatever it is doing, once its accept loop fails and its
    clients go, every goroutine of it can end without a receive, also those that have
    an event or a stream for a channel that is full, and both channels are closed. *)
Theorem quic_listener_can_shut_down l :
  rtc (step QUIC) new_listener l →
  ∃ l', rtc (idle_app_step QUIC) l l' ∧ ¬ working l' ∧
    conns_closed l' = true ∧ streams_closed l' = true ∧ panicked l' = false.
Proof.
  intros Hr. destruct (listener_reachable QUIC l Hr) as [I _].
  destruct (can_close l I) as (l' & Hr' & Hloop).
  assert (rtc (step QUIC) new_listener l') as Hr2 by (etrans; [done|by apply idle_steps]).
  destruct (listener_reachable QUIC l' Hr2) as [I' _]. destruct (inv_closed _ _ I') as [H1 H2].
  rewrite Hloop in *. exists l'. split_and!; try done; [|apply (inv_panicked _ _ I')].
  apply closing_idle; [done|]. by rewrite Hloop.
Qed.

Lemma streams_drain l :
  ∃ l', rtc (step QUIC) l l' ∧ streams l' = [] ∧ streams_closed l' = streams_closed l.
Proof.
  remember (streams l) as q eqn:Hq. revert l Hq. induction q as [|x q IH]; intros l Hq.
  - by exists l.
  - destruct (IH (set_streams q l) eq_refl) as (l' & Hr & Hs & Hc). exists l'. split_and!; try done.
    eapply rtc_l; [by eapply step_receive, receive_stream|done].
Qed.

(** The end of a WebTransport listener goes unnoticed.  Its channels are
    never closed, whether its server has failed or the listener was closed, so
    [RunStandalone] cannot find them closed, as it can for QUIC, and the
    goroutines that drain them never end. *)
Theorem webtransport_end_goes_unnoticed quic wt :
  (∀ l, rtc (step WebTransport) new_listener l →
    conns_closed l = false ∧ streams_closed l = false ∧
    "WebTransport listener stopped"%string ∉ standalone_stops quic (Some l)) ∧
  ∀ l, rtc (step QUIC) new_listener l →
    ∃ l', rtc (step QUIC) l l' ∧ "QUIC listener stopped"%string ∈ standalone_stops (Some l') wt.
Proof.
  split.
  - intros l Hr. destruct (listener_reachable WebTransport l Hr) as [I Hwt].
    destruct (inv_closed _ _ I) as [H1 H2]. rewrite (Hwt eq_refl) in *. simpl in *.
    split_and!; [done..|]. unfold standalone_stops. simpl. rewrite H2. simpl.
    destruct (found_closed quic); simpl; [|by apply not_elem_of_nil].
    by intros ?%list_elem_of_singleton.
  - intros l Hr. destruct (listener_reachable QUIC l Hr) as [I _].
    destruct (can_close l I) as (l1 & Hr1 & Hloop). destruct (streams_drain l1) as (l2 & Hr2 & Hq & Hc).
    apply idle_steps in Hr1. exists l2. split; [by etrans|].
    destruct (listener_reachable QUIC l1) as [I1 _]; [by etrans|]. destruct (inv_closed _ _ I1) as [_ H2].
    unfold standalone_stops, found_closed. rewrite Hq, Hc, H2, Hloop. simpl. by left.
Qed.

(** ** Examples *)

Ltac run s := eapply rtc_l; [s|].

(** A client that authenticates session 7 on its first stream and opens another. *)
Definition busy : listener :=
  mkListener LAccept false 2 [] false [(0, 7)%nat] false
    {[0%nat := mkConn CAccepting 1 (Some 7%nat)]}
    (<[0%nat := mkStream 0 (Serving 7)]> {[1%nat := mkStream 0 Ended]}) {[0%nat := 7%nat]} false.

Lemma busy_reachable : rtc (step QUIC) new_listener busy.
Proof.
  run ltac:(by apply step_loop, (loop_accepts QUIC 0)).
  run ltac:(by eapply step_conn, (conn_accepts 0 0)).
  run ltac:(by eapply step_stream, (stream_magic QUIC 0)).
  run ltac:(by eapply step_stream, (stream_attached QUIC 0 0 _ 7)).
  run ltac:(by eapply step_stream, (stream_announce QUIC 0)).
  run ltac:(by eapply step_conn, (conn_accepts 0 1)).
  run ltac:(by eapply step_stream, (stream_other QUIC 1)).
  run ltac:(by eapply step_stream, (stream_authed QUIC 1 0 _ 7)).
  run ltac:(eapply step_stream, (stream_offered QUIC 1 0 7); [done..|vm_compute; lia]).
  match goal with |- rtc _ ?x _ => replace x with busy; [done|] end.
  vm_compute. reflexivity.
Qed.

Example listener_never_panics_witness : panicked busy = false.
Proof. exact (proj1 (listener_never_panics QUIC busy busy_reachable)). Defined.

Example raw_streams_are_authenticated_witness : has_auth (connections busy) 0 7.
Proof.
  apply (raw_streams_are_authenticated QUIC busy busy 0 7 busy_reachable); [left|apply rtc_refl].
Defined.

(** One more raw stream of that client, up to the point where its goroutine offers it. *)
Ltac compute_state := match goal with |- rtc ?R ?x ?y => let v := eval vm_compute in x in change (rtc R v y) end.
Ltac another i :=
  run ltac:(by eapply step_conn, (conn_accepts 0 i));
  run ltac:(by eapply step_stream, (stream_other QUIC i));
  run ltac:(by eapply step_stream, (stream_authed QUIC i 0 _ 7));
  compute_state.
Ltac offered i := another i; run ltac:(eapply step_stream, (stream_offered QUIC i 0 7); [done..|vm_compute; lia]); compute_state.

(** Nobody receives: the channel of the streams is full, and a goroutine waits at it. *)
Lemma stuffed :
  ∃ l, rtc (step QUIC) new_listener l ∧ length (streams l) = chan_cap ∧
    stream_of l !! 9%nat = Some (mkStream 0 (Offering 7)).
Proof.
  eexists. split; [etrans; [exact busy_reachable|]|].
  - offered 2%nat. offered 3%nat. offered 4%nat. offered 5%nat. offered 6%nat. offered 7%nat.
    offered 8%nat. another 9%nat. apply rtc_refl.
  - by vm_compute.
Qed.

Example quic_listener_can_shut_down_witness :
  ∃ l l', length (streams l) = chan_cap ∧ rtc (idle_app_step QUIC) l l' ∧ conns_closed l' = true.
Proof.
  destruct stuffed as (l & Hl & Hn & _).
  destruct (quic_listener_can_shut_down l Hl) as (l' & Hr & _ & Hc & _). by exists l, l'.
Defined.

Example webtransport_end_goes_unnoticed_witness :
  conns_closed (set_done new_listener) = false.
Proof.
  refine (proj1 (proj1 (webtransport_end_goes_unnoticed None None) (set_done new_listener) _)).
  apply rtc_once, step_close, close_done.
Defined.
