(* ===== verification/Meta.v ===== *)
(** * The meta API (meta.go)

    The procedures by which the clients of a realm count, list, inspect and
    kill its sessions.  Each handler runs on the world of the router. *)

From stdpp Require Import functions.
From S2P Require Import Prelude GoStd Wamp Values Accessors Permissions Peers Realm Router.

Local Open Scope string_scope.

Fixpoint contains (slice : list any) (val : string) : bool :=
  match slice with
  | [] => false
  | AString s :: slice => if bool_decide (s = val) then true else contains slice val
  | _ :: slice => contains slice val
  end.

Section Meta.
Context `{WampMessages} `{!WampSerializers} `{!WampRouting} `{WampConstants}
  `{MapRange} `{FmtV} `{FloatConv}.

Implicit Types (m : meta) (invocation : Invocation.Invocation).

Definition goodbye_for invocation : Message :=
  let reason := Invocation.KwargStringOr invocation "reason" "wamp.close.killed" in
  let goodByeDetails : dict :=
    match Invocation.KwargString invocation "message" with
    | Ok msg => {["message" := AString msg]}
    | Err _ => ∅
    end in
  NewGoodBye reason goodByeDetails.

Definition killSession invocation (client : BaseSession) : M RouterW unit :=
  sent ← try (on_client_session client (WriteMessage (goodbye_for invocation)));
  match sent with
  | Err _ => fail "wamp.error.internal_error"
  | Ok _ => ignore (on_client_session client CloseSession)
  end.

(** [m.router.realms.Load(m.realm)] *)
Definition find_realm (name : string) : M RouterW (option Realm) :=
  get (λ w, match realms (rt w) !! name with Some p => heap w !! p | None => None end).

Definition invalid_argument (e : error) : InvocationResult :=
  NewInvocationError "wamp.error.invalid_argument" [AString e].

Definition handleSessionKill m invocation : M RouterW InvocationResult :=
  match Invocation.ArgUInt64 invocation 0 with
  | Err e => mret (invalid_argument e)
  | Ok sessionID =>
      if bool_decide (sessionID = ID (meta_session m) ∨ sessionID = Invocation.Caller invocation)
      then mret (NewInvocationError "wamp.error.no_such_session" [AString "invalid session id"])
      else
        rlm ← find_realm (meta_realm m);
        match rlm with
        | None => mret (NewInvocationError "wamp.error.not_found" [AString "invalid realm"])
        | Some rlm =>
            match clients rlm !! sessionID with
            | None => mret (NewInvocationError "wamp.error.not_found" [])
            | Some client =>
                killed ← try (killSession invocation client);
                match killed with
                | Err e => mret (NewInvocationError e [])
                | Ok _ => mret (NewInvocationResult [])
                end
            end
        end
  end.

(** The loop of the [KillBy...] handlers over the clients of a realm: every
    client that matches, other than the meta session and the caller, is told
    and closed; the ids of all of them are returned. *)
Definition kill_matching m invocation (matches : BaseSession → bool) (rlm : Realm)
    : M RouterW InvocationResult :=
  let chosen (c : BaseSession) :=
    matches c && bool_decide (ID c ≠ ID (meta_session m)) &&
    bool_decide (ID c ≠ Invocation.Caller invocation) in
  let visited := filter (λ c, chosen c = true) (map snd (range_entries (clients rlm))) in
  for_M (λ client, ignore (killSession invocation client)) visited;;
  mret (NewInvocationResult [AUint64s (map ID visited)]).

Definition handleSessionKillByAuthID m invocation : M RouterW InvocationResult :=
  match Invocation.ArgString invocation 0 with
  | Err e => mret (invalid_argument e)
  | Ok authID =>
      rlm ← find_realm (meta_realm m);
      match rlm with
      | None => mret (NewInvocationError "wamp.error.not_found" [AString "invalid realm"])
      | Some rlm => kill_matching m invocation (λ c, bool_decide (AuthID c = authID)) rlm
      end
  end.

Definition handleSessionKillByAuthRole m invocation : M RouterW InvocationResult :=
  match Invocation.ArgString invocation 0 with
  | Err e => mret (invalid_argument e)
  | Ok authrole =>
      rlm ← find_realm (meta_realm m);
      match rlm with
      | None => mret (NewInvocationError "wamp.error.not_found" [AString "invalid realm"])
      | Some rlm => kill_matching m invocation (λ c, bool_decide (AuthRole c = authrole)) rlm
      end
  end.

Definition handleSessionKillAll m invocation : M RouterW InvocationResult :=
  rlm ← find_realm (meta_realm m);
  match rlm with
  | None => mret (NewInvocationError "wamp.error.not_found" [AString "invalid realm"])
  | Some rlm => kill_matching m invocation (λ _, true) rlm
  end.

(** The sessions [fn] is applied to, in the order of the visit. *)
Definition forEachSession m invocation : M RouterW (result (list BaseSession)) :=
  let roles :=
    if bool_decide (0 < length (Invocation.Args invocation))%nat
    then rmap List.Raw (Invocation.ArgList invocation 0)
    else Ok [] in
  match roles with
  | Err _ => mret (Err "wamp.error.invalid_argument")
  | Ok roles =>
      rlm ← find_realm (meta_realm m);
      match rlm with
      | None => mret (Err "wamp.error.not_found")
      | Some rlm =>
          mret (Ok (filter
            (λ s, (bool_decide (length roles = 0)%nat || contains roles (AuthRole s)) = true)
            (map snd (range_entries (clients rlm)))))
      end
  end.

Definition handleSessionCount m invocation : M RouterW InvocationResult :=
  visited ← forEachSession m invocation;
  match visited with
  | Err e => mret (NewInvocationError e [])
  | Ok l => mret (NewInvocationResult [AUint64 (Z.of_nat (length l))])
  end.

Definition handleSessionList m invocation : M RouterW InvocationResult :=
  visited ← forEachSession m invocation;
  match visited with
  | Err e => mret (NewInvocationError e [])
  | Ok l => mret (NewInvocationResult [AUint64s (map ID l)])
  end.

Definition handleSessionGet m invocation : M RouterW InvocationResult :=
  if negb (bool_decide (Invocation.ArgsLen invocation = 1)%Z)
  then mret (NewInvocationError "wamp.error.invalid_argument" [])
  else
    match Invocation.ArgUInt64 invocation 0 with
    | Err e => mret (invalid_argument e)
    | Ok sessionID =>
        rlm ← find_realm (meta_realm m);
        match rlm with
        | None => mret (NewInvocationError "wamp.error.not_found" [AString "invalid realm"])
        | Some rlm =>
            match clients rlm !! sessionID with
            | None =>
                mret (NewInvocationError "wamp.error.no_such_session"
                        [AString "invalid session id"])
            | Some client =>
                let details : dict := <["session" := AUint64 (ID client)]>
                  (<["authid" := AString (AuthID client)]>
                  (<["authrole" := AString (AuthRole client)]>
                  (<["authmethod" := AString (AuthMethod client)]>
                  (<["authextra" := AMap (AuthExtra client)]>
                  (<["authprovider" := AString ""]> ∅))))) in
                mret (NewInvocationResult [AMap details])
            end
        end
    end.

End Meta.

(** ** What the procedures promise *)

Section MetaSpec.
Context `{WampMessagesOk} `{!WampSerializers} `{!WampRouting} `{!WampRoutingOk}
  `{WampConstants} `{MapRange} `{FmtV} `{FloatConv}.

Implicit Types (m : meta) (invocation : Invocation.Invocation) (w : RouterW).

(** The client's queue has room for the GOODBYE of a kill, and its writer is not stuck. *)
Definition accepts_goodbye w invocation (c : BaseSession) : Prop :=
  ∃ p, Serialize (session_serializer (sess w (ref c))) (goodbye_for invocation) = Ok p ∧
    accepts (sess w (ref c)) p = true ∧ closes (sess w (ref c)) = true.

#[local] Opaque base_session_ops.

Lemma killSession_run invocation c w :
  accepts_goodbye w invocation c →
  let w' := (killSession invocation c w).1 in
  (killSession invocation c w).2 = Val tt ∧ rt w' = rt w ∧ heap w' = heap w ∧
  session_closed (sess w' (ref c)) = true ∧
  outbox (sess w' (ref c)) =
    (outbox (sess w (ref c)) ++ queued (sess w (ref c)) (goodbye_for invocation))%list ∧
  ∀ q, q ≠ ref c → sess w' q = sess w q.
Proof.
  intros (p & Hs & Ha & Hcl).
  pose proof (WriteMessage_queued (St := base_session)) as Hqueued.
  destruct (Hqueued _ _ p Hs Ha) as [Hv Ho].
  set (s1 := (WriteMessage (goodbye_for invocation) (sess w (ref c))).1) in *.
  destruct (CloseSession_ok s1) as (_ & Hc & Hout).
  assert (closes s1 = true) as Hcl1 by (rewrite <-Hcl; apply WriteMessage_keeps).
  assert (killSession invocation c w =
    (mkRouterW (rt w) (heap w) (<[ref c := (CloseSession s1).1]> (<[ref c := s1]> (sess w)))
       (next_session w) (spawned w) (log_level w), Val tt)) as ->.
  { unfold killSession.
    erewrite bind_Val by (apply try_Val; unfold on_client_session; rewrite zoom_run, Hv; done). cbv iota.
    pose proof (close_session_run c) as Hrun. unfold close_session in Hrun. rewrite Hrun.
    cbn [fst snd rt heap sess next_session spawned log_level]. rewrite !fn_lookup_insert.
    fold s1. by rewrite Hcl1. }
  cbn [fst snd rt heap sess]. rewrite fn_lookup_insert. split_and!; [done..| | |].
  - exact Hc.
  - rewrite Hout, Ho. unfold queued. by rewrite Hs, Ha.
  - intros q Hq. by rewrite !fn_lookup_insert_ne.
Qed.

Lemma kill_all_run invocation (l : list BaseSession) w :
  NoDup (map ref l) → (∀ c, c ∈ l → accepts_goodbye w invocation c) →
  let run := for_M (λ client, ignore (killSession invocation client)) l in
  let w' := (run w).1 in
  (run w).2 = Val tt ∧ rt w' = rt w ∧ heap w' = heap w ∧
  (∀ c, c ∈ l → session_closed (sess w' (ref c)) = true ∧
    outbox (sess w' (ref c)) =
      (outbox (sess w (ref c)) ++ queued (sess w (ref c)) (goodbye_for invocation))%list) ∧
  (∀ q, q ∉ map ref l → sess w' q = sess w q).
Proof.
  revert w. induction l as [|c l IH]; intros w; cbn [for_M].
  { intros _ _. split_and!; done || set_solver. }
  intros [Hfresh Hnd]%NoDup_cons Hacc.
  destruct (killSession_run invocation c w) as (Hv & Hr & Hh & Hcl & Ho & Hrest);
    [by apply Hacc; left|].
  assert (ignore (killSession invocation c) w = ((killSession invocation c w).1, Val tt)) as Hi.
  { unfold ignore, try, mbind, M_bind. destruct (killSession invocation c w) as [w1 v].
    simpl in *. by subst v. }
  destruct (killSession invocation c w) as [w1 v]. simpl in *. subst v.
  rewrite (bind_Val _ _ _ _ _ Hi).
  assert (∀ d, d ∈ l → ref d ≠ ref c) as Hne.
  { intros d Hd Heq. apply Hfresh. rewrite <-Heq. by apply list_elem_of_fmap_2. }
  destruct (IH w1 Hnd) as (Hv' & Hr' & Hh' & Hin & Hout).
  { intros d Hd. unfold accepts_goodbye. rewrite (Hrest (ref d)) by auto.
    apply Hacc. by right. }
  split_and!; [done|congruence|congruence| |].
  - intros d [->|Hd]%elem_of_cons.
    + rewrite Hout by done. done.
    + rewrite <-(Hrest (ref d)) by auto. by apply Hin.
  - intros q Hq. rewrite Hout by set_solver. apply Hrest. set_solver.
Qed.

#[local] Transparent base_session_ops.

(** The clients of a well-formed realm, in the order of a visit. *)
Lemma visited_spec r (f : BaseSession → bool) :
  realm_wf r →
  let visited := filter (λ c, f c = true) (map snd (range_entries (clients r))) in
  NoDup (map ref visited) ∧
  ∀ c, c ∈ visited ↔ clients r !! ID c = Some c ∧ f c = true.
Proof.
  intros (Hid & _ & Hd) visited.
  assert (∀ c, c ∈ map snd (range_entries (clients r)) ↔ clients r !! ID c = Some c) as Hin.
  { intros c. rewrite list_elem_of_fmap. split.
    - intros ([i d] & -> & He). rewrite range_entries_perm in He.
      apply elem_of_map_to_list in He. simpl. by rewrite (Hid i d He).
    - intros Hc. exists (ID c, c). split; [done|]. rewrite range_entries_perm.
      by apply elem_of_map_to_list. }
  assert (∀ c, c ∈ visited ↔ clients r !! ID c = Some c ∧ f c = true) as Hvis.
  { intros c. unfold visited. rewrite list_elem_of_filter, Hin. tauto. }
  split; [|done]. apply NoDup_fmap_2_strong.
  - intros c d [Hc _]%Hvis [Hd' _]%Hvis Heq.
    assert (ID c = ID d) as Hids by by eapply Hd. congruence.
  - apply NoDup_filter, NoDup_fmap_2_strong.
    + intros [i c] [j d] Hi Hj Heq. simpl in Heq. subst d.
      rewrite range_entries_perm in Hi, Hj. apply elem_of_map_to_list in Hi, Hj.
      f_equal. rewrite <-(Hid i c Hi). by apply Hid.
    + rewrite range_entries_perm. apply NoDup_map_to_list.
Qed.

(** The kill procedures that match many sessions, with what they match. *)
Inductive kill_request m invocation : M RouterW InvocationResult → (BaseSession → bool) → Prop :=
| kill_by_authid a :
    Invocation.ArgString invocation 0 = Ok a →
    kill_request m invocation (handleSessionKillByAuthID m invocation)
      (λ c, bool_decide (AuthID c = a))
| kill_by_authrole a :
    Invocation.ArgString invocation 0 = Ok a →
    kill_request m invocation (handleSessionKillByAuthRole m invocation)
      (λ c, bool_decide (AuthRole c = a))
| kill_all : kill_request m invocation (handleSessionKillAll m invocation) (λ _, true).

(** C30. The procedures that kill sessions by authid, by role or altogether, when the
    queue of each client that is meant has room for the GOODBYE and no writer of theirs
    is stuck: they queue a GOODBYE for exactly the clients of the realm that match,
    except the meta session and the caller, close those, and return their ids.  All
    other clients are untouched.  (Without room the procedure waits, see
    [kill_waits_for_a_slow_client]; that what is queued is also sent is up to the
    writer, see PeerClose.) *)
Theorem matching_sessions_are_killed m invocation h matches w p r :
  kill_request m invocation h matches →
  router_wf w → realms (rt w) !! meta_realm m = Some p → heap w !! p = Some r →
  let hit c := matches c && bool_decide (ID c ≠ ID (meta_session m)) &&
    bool_decide (ID c ≠ Invocation.Caller invocation) in
  (∀ i c, clients r !! i = Some c → hit c = true → accepts_goodbye w invocation c) →
  let w' := (h w).1 in
  heap w' = heap w ∧
  (∃ ids, (h w).2 = Val (NewInvocationResult [AUint64s ids]) ∧
    ∀ i, i ∈ ids ↔ ∃ c, clients r !! i = Some c ∧ hit c = true) ∧
  ∀ i c, clients r !! i = Some c →
    if hit c then
      session_closed (sess w' (ref c)) = true ∧
      outbox (sess w' (ref c)) =
        (outbox (sess w (ref c)) ++ queued (sess w (ref c)) (goodbye_for invocation))%list
    else sess w' (ref c) = sess w (ref c).
Proof.
  intros Hk Hwf Hp Hr hit Hacc.
  assert (h w = kill_matching m invocation matches r w) as ->.
  { destruct Hk as [a Ha|a Ha|];
      unfold handleSessionKillByAuthID, handleSessionKillByAuthRole, handleSessionKillAll;
      rewrite ?Ha; erewrite bind_Val by (unfold find_realm, get; by rewrite Hp, Hr); done. }
  destruct (proj2 Hwf p r Hr) as [Hrwf _].
  destruct (visited_spec r hit Hrwf) as [Hnd Hvis].
  unfold kill_matching. fold hit.
  set (visited := filter _ _) in *.
  destruct (kill_all_run invocation visited w Hnd) as (Hv & _ & Hh & Hin & Hout).
  { intros c Hc. apply Hvis in Hc as [Hc Hhit]. by eapply Hacc. }
  rewrite bind_effect, Hv. simpl. split_and!; [done| |].
  - eexists. split; [done|]. intros i. rewrite list_elem_of_fmap. split.
    + intros (c & -> & [Hc Hhit]%Hvis). eauto.
    + intros (c & Hc & Hhit). assert (ID c = i) as Hi by by apply Hrwf.
      exists c. split; [done|]. apply Hvis. by rewrite Hi.
  - intros i c Hc. assert (ID c = i) as Hi by by apply Hrwf. rewrite <-Hi in Hc.
    destruct (hit c) eqn:Hhit; [by apply Hin, Hvis|]. apply Hout.
    intros (d & Heq & [Hd Hdhit]%Hvis)%list_elem_of_fmap.
    assert (ID c = ID d) as Hids by by eapply Hrwf. congruence.
Qed.

(** Killing one session writes to its queue without a bound on the wait: while
    the queue of the client is full, the procedure does not return. *)
Theorem kill_waits_for_a_slow_client m invocation w p r id c payload :
  Invocation.ArgUInt64 invocation 0 = Ok id →
  id ≠ ID (meta_session m) → id ≠ Invocation.Caller invocation →
  realms (rt w) !! meta_realm m = Some p → heap w !! p = Some r → clients r !! id = Some c →
  Serialize (serializer (sess w (ref c))) (goodbye_for invocation) = Ok payload →
  let peer := client (sess w (ref c)) in
  fits peer payload = true → closed peer = false → chan_full peer = true →
  (handleSessionKill m invocation w).2 = Blocks.
Proof.
  intros Hid Hm Hcaller Hp Hr Hc Hs peer Hfit Hopen Hfull. unfold handleSessionKill.
  rewrite Hid, bool_decide_false by tauto.
  erewrite bind_Val by (unfold find_realm, get; by rewrite Hp, Hr). cbv iota. rewrite Hc.
  assert ((WriteMessage (goodbye_for invocation) (sess w (ref c))).2 = Blocks) as Hb.
  { simpl. rewrite base_WriteMessage_run, Hs. unfold on_client. rewrite zoom_run, Write_run.
    destruct (publish_log_keeps true (goodbye_for invocation) (sess w (ref c))) as [-> _].
    fold peer. by rewrite Hfit, Hopen, Hfull. }
  unfold killSession, on_client_session, try, mbind, M_bind. rewrite zoom_run, Hb. done.
Qed.

(** Counting and listing agree with the realm: without a role filter the count
    is the number of clients, and the list has the ids of the clients, each once. *)
Theorem session_count_and_list m invocation w p r :
  Invocation.Args invocation = [] →
  realms (rt w) !! meta_realm m = Some p → heap w !! p = Some r → realm_wf r →
  handleSessionCount m invocation w =
    (w, Val (NewInvocationResult [AUint64 (Z.of_nat (size (clients r)))])) ∧
  ∃ ids, handleSessionList m invocation w = (w, Val (NewInvocationResult [AUint64s ids])) ∧
    ids ≡ₚ map fst (map_to_list (clients r)).
Proof.
  intros Ha Hp Hr (Hid & _).
  assert (forEachSession m invocation w =
    (w, Val (Ok (map snd (range_entries (clients r)))))) as Hf.
  { unfold forEachSession. rewrite Ha. simpl.
    erewrite bind_Val by (unfold find_realm, get; by rewrite Hp, Hr). unfold mret, M_ret.
    do 3 f_equal. induction (map snd (range_entries (clients r))) as [|c l IH]; [done|].
    rewrite filter_cons, decide_True, IH; done. }
  unfold handleSessionCount, handleSessionList. split.
  - erewrite bind_Val by done. unfold mret, M_ret. do 6 f_equal.
    rewrite length_map, range_entries_perm. apply length_map_to_list.
  - eexists. split; [by erewrite bind_Val by done|].
    rewrite range_entries_perm. rewrite map_map.
    erewrite map_ext_in; [reflexivity|]. intros [i c] He. simpl. apply Hid.
    apply elem_of_map_to_list. by apply list_elem_of_In.
Qed.

End MetaSpec.
