(* ===== verification/Session.v ===== *)
(** * Client sessions (session.go, and Registration and Subscription of types.go)

    A session sends requests and waits for their answers, while a goroutine
    reads the router's messages and hands each answer to the channel of the
    request it answers.  An API call is split where it waits: [..._send] runs
    up to the [select], [..._wait] is what the chosen case does, deferred
    statements included.  [process] steps of the reader run in between.

    Function values are names; the calls made to them are the entries of
    [effects].  The generated request ids are arguments.  The six tables of
    pending requests are one table per [request_kind]. *)

From stdpp Require Import functions.
From S2P Require Import Prelude GoStd Wamp Values Accessors Peers Realm.

Local Open Scope string_scope.

Definition ErrNoResult : string := "io.xconn.no_result".

Inductive request_kind := KRegister | KUnregister | KCall | KSubscribe | KUnsubscribe | KPublish.
#[global] Instance request_kind_eq_dec : EqDecision request_kind.
Proof. solve_decision. Defined.

(** What a response channel carries. *)
Inductive reply :=
| RRegistered (m : registered_msg)
| RUnregistered (id : Z)
| RResult (m : result_msg)
| RSubscribed (m : subscribed_msg)
| RUnsubscribed (id : Z)
| RPublished (id : Z)
| RError (e : Error.Error).

(** Calls of user code, in order. *)
Inductive effect :=
| Invoke (handler : nat) (request : Z) (progress : bool) (inv : Invocation.Invocation)
| Deliver (handler : nat) (ev : Event.Event)
| Progressed (handler : nat) (res : ProgressResult.ProgressResult)
| CancelContext (request : Z)
| OnLeave (listener : nat).

(** The case a [select] takes: the response, the timer, the closed leave
    channel, or the caller's context. *)
Inductive wait_event := OnResponse | OnTimeout | OnLeft | OnCancelled.

Section Session.
Context `{WampMessages} `{!WampSerializers} `{WampConstants} `{FloatConv} `{FmtV} `{MapRange}.

Record Session := mkSession {
  peer : Peer;
  ser : Serializer;
  reading : bool;
  (** response channels, of capacity one *)
  chans : gmap nat (option reply);
  requests : request_kind → gmap Z nat;
  registrations : gmap Z nat;
  progressHandlers : gmap Z nat;
  progressFunc : gmap Z Z;
  invocationCancels : gset Z;
  (** the handler of each subscription object, by subscription id *)
  subscriptions : gmap Z (gmap nat nat);
  goodbyeChan : bool;
  goodBye : option goodbye_msg;
  connected : bool;
  left : bool;
  onLeave : option nat;
  effects : list effect;
}.

Definition NewSession (p : Peer) (s : Serializer) : Session :=
  mkSession p s true ∅ (λ _, ∅) ∅ ∅ ∅ ∅ ∅ false None true false None [].

Definition with_peer (p : Peer) (s : Session) : Session :=
  mkSession p (ser s) (reading s) (chans s) (requests s) (registrations s)
    (progressHandlers s) (progressFunc s) (invocationCancels s) (subscriptions s)
    (goodbyeChan s) (goodBye s) (connected s) (left s) (onLeave s) (effects s).
Definition with_reading (b : bool) (s : Session) : Session :=
  mkSession (peer s) (ser s) b (chans s) (requests s) (registrations s)
    (progressHandlers s) (progressFunc s) (invocationCancels s) (subscriptions s)
    (goodbyeChan s) (goodBye s) (connected s) (left s) (onLeave s) (effects s).
Definition with_chans (c : gmap nat (option reply)) (s : Session) : Session :=
  mkSession (peer s) (ser s) (reading s) c (requests s) (registrations s)
    (progressHandlers s) (progressFunc s) (invocationCancels s) (subscriptions s)
    (goodbyeChan s) (goodBye s) (connected s) (left s) (onLeave s) (effects s).
Definition with_requests (r : request_kind → gmap Z nat) (s : Session) : Session :=
  mkSession (peer s) (ser s) (reading s) (chans s) r (registrations s)
    (progressHandlers s) (progressFunc s) (invocationCancels s) (subscriptions s)
    (goodbyeChan s) (goodBye s) (connected s) (left s) (onLeave s) (effects s).
Definition with_registrations (r : gmap Z nat) (s : Session) : Session :=
  mkSession (peer s) (ser s) (reading s) (chans s) (requests s) r
    (progressHandlers s) (progressFunc s) (invocationCancels s) (subscriptions s)
    (goodbyeChan s) (goodBye s) (connected s) (left s) (onLeave s) (effects s).
Definition with_progress (h : gmap Z nat) (f : gmap Z Z) (s : Session) : Session :=
  mkSession (peer s) (ser s) (reading s) (chans s) (requests s) (registrations s)
    h f (invocationCancels s) (subscriptions s)
    (goodbyeChan s) (goodBye s) (connected s) (left s) (onLeave s) (effects s).
Definition with_cancels (c : gset Z) (s : Session) : Session :=
  mkSession (peer s) (ser s) (reading s) (chans s) (requests s) (registrations s)
    (progressHandlers s) (progressFunc s) c (subscriptions s)
    (goodbyeChan s) (goodBye s) (connected s) (left s) (onLeave s) (effects s).
Definition with_subscriptions (x : gmap Z (gmap nat nat)) (s : Session) : Session :=
  mkSession (peer s) (ser s) (reading s) (chans s) (requests s) (registrations s)
    (progressHandlers s) (progressFunc s) (invocationCancels s) x
    (goodbyeChan s) (goodBye s) (connected s) (left s) (onLeave s) (effects s).
Definition with_goodbye (c : bool) (g : option goodbye_msg) (s : Session) : Session :=
  mkSession (peer s) (ser s) (reading s) (chans s) (requests s) (registrations s)
    (progressHandlers s) (progressFunc s) (invocationCancels s) (subscriptions s)
    c g (connected s) (left s) (onLeave s) (effects s).
Definition with_life (c l : bool) (o : option nat) (s : Session) : Session :=
  mkSession (peer s) (ser s) (reading s) (chans s) (requests s) (registrations s)
    (progressHandlers s) (progressFunc s) (invocationCancels s) (subscriptions s)
    (goodbyeChan s) (goodBye s) c l o (effects s).
Definition add_effect (e : effect) (s : Session) : Session :=
  mkSession (peer s) (ser s) (reading s) (chans s) (requests s) (registrations s)
    (progressHandlers s) (progressFunc s) (invocationCancels s) (subscriptions s)
    (goodbyeChan s) (goodBye s) (connected s) (left s) (onLeave s) (effects s ++ [e]).

Definition store_request (k : request_kind) (id : Z) (c : nat) (s : Session) : Session :=
  with_requests (<[k := <[id := c]> (requests s k)]> (requests s)) s.
Definition drop_request (k : request_kind) (id : Z) (s : Session) : Session :=
  with_requests (<[k := delete id (requests s k)]> (requests s)) s.

(** [s.base.Write] and [s.base.Close]. *)
Definition base_write (payload : string) : M Session unit :=
  zoom peer with_peer (Write payload).
Definition base_close : M Session unit := zoom peer with_peer Peers.Close.

Definition serialize (m : Message) : M Session string :=
  s ← get ser; of_result (Serialize s m).

Definition markDisconnected : M Session unit := modify (λ s, with_life false true (onLeave s) s).

(** [channel <- r] *)
Definition chan_send (c : nat) (r : reply) : M Session unit := λ s,
  match chans s !! c with
  | Some (Some _) => (s, Blocks)
  | _ => (with_chans (<[c := Some r]> (chans s)) s, Val tt)
  end.

(** A response for a request that must be pending. *)
Definition answer (k : request_kind) (id : Z) (r : reply) (unknown : error) : M Session unit :=
  request ← get (λ s, requests s k !! id);
  match request with
  | None => fail unknown
  | Some c => chan_send c r
  end.

(** The same, taking the request out of its table: [LoadAndDelete]. *)
Definition answer_and_drop (k : request_kind) (id : Z) (r : reply) (unknown : M Session unit)
    : M Session unit :=
  request ← get (λ s, requests s k !! id);
  match request with
  | None => unknown
  | Some c => modify (drop_request k id);; chan_send c r
  end.

(** ** Incoming messages *)

Definition handle_result (result : result_msg) : M Session unit :=
  request ← get (λ s, requests s KCall !! result_id result);
  match request with
  | None => mret tt
  | Some c =>
      if bool_at OptionProgress (result_details result) then
        handler ← get (λ s, progressHandlers s !! result_id result);
        match handler with
        | Some h =>
            modify (add_effect (Progressed h (ProgressResult.mk
              (List.NewList (result_args result)) (Dict.NewDict (result_kwargs result))
              (Dict.NewDict (result_details result)))))
        | None => mret tt
        end
      else
        chan_send c (RResult result);;
        modify (λ s, with_progress (delete (result_id result) (progressHandlers s))
          (progressFunc s) s)
  end.

Definition handle_invocation (invocation : invocation_msg) : M Session unit :=
  endpoint ← get (λ s, registrations s !! invocation_registration invocation);
  match endpoint with
  | None => crash "interface conversion: interface is nil, not xconn.InvocationHandler"
  | Some endpoint =>
      let id := invocation_id invocation in
      let inv := Invocation.NewInvocation (invocation_args invocation)
        (invocation_kwargs invocation) (invocation_details invocation) in
      let progress := bool_at OptionProgress (invocation_details invocation) in
      let receiveProgress := bool_at OptionReceiveProgress (invocation_details invocation) in
      (if receiveProgress && progress
       then modify (λ s, with_progress (progressHandlers s) (<[id := id]> (progressFunc s)) s)
       else mret tt);;
      stored ← get (λ s, progressFunc s !! id);
      let send :=
        if receiveProgress then Some id
        else if progress then stored else Invocation.SendProgress inv in
      (if negb progress && negb receiveProgress
       then modify (λ s, with_progress (progressHandlers s) (delete id (progressFunc s)) s)
       else mret tt);;
      modify (λ s, with_cancels ({[id]} ∪ invocationCancels s) s);;
      modify (add_effect (Invoke endpoint id progress
        (Invocation.mk (Invocation.args inv) (Invocation.kwargs inv) (Invocation.details inv)
           send)))
  end.

Definition handle_interrupt (id : Z) : M Session unit :=
  exists_ ← get (λ s, bool_decide (id ∈ invocationCancels s));
  if (exists_ : bool) then
    modify (λ s, with_cancels (invocationCancels s ∖ {[id]}) s);;
    modify (add_effect (CancelContext id))
  else mret tt.

Definition handle_event (event : event_msg) : M Session unit :=
  subs ← get (λ s, subscriptions s !! event_subscription event);
  match subs with
  | None => fail "received EVENT for unknown subscription"
  | Some subs =>
      let evt := Event.NewEvent (event_args event) (event_kwargs event) (event_details event) in
      for_M (λ sub, modify (add_effect (Deliver sub.2 evt))) (range_entries subs)
  end.

Definition handle_error (msg : Message) (e : error_msg) : M Session unit :=
  let err := RError (Error.of_msg e) in
  let t := error_type e in
  let id := error_id e in
  if bool_decide (t = MessageTypeCall) then answer_and_drop KCall id err (mret tt)
  else if bool_decide (t = MessageTypeRegister) then
    answer_and_drop KRegister id err (fail "received ERROR for invalid register request")
  else if bool_decide (t = MessageTypeUnregister) then
    request ← get (λ s, requests s KUnregister !! id);
    match request with
    | None => fail "received ERROR for invalid unregister request"
    | Some _ => modify (drop_request KUnregister id)
    end
  else if bool_decide (t = MessageTypeSubscribe) then
    answer_and_drop KSubscribe id err (fail "received ERROR for invalid subscribe request")
  else if bool_decide (t = MessageTypeUnsubscribe) then
    request ← get (λ s, requests s KUnsubscribe !! id);
    match request with
    | None => fail "received ERROR for invalid unsubscribe request"
    | Some _ => modify (drop_request KUnsubscribe id)
    end
  else if bool_decide (t = MessageTypePublish) then
    answer_and_drop KPublish id err (fail "received ERROR for invalid publish request")
  else fail ("unknown error message type " +:+ Message_T msg).

(** [s.goodbyeChan <- struct{}{}] *)
Definition goodbye_send : M Session unit := λ s,
  if goodbyeChan s then (s, Blocks) else (with_goodbye true (goodBye s) s, Val tt).

Definition handle_goodbye (g : goodbye_msg) : M Session unit :=
  modify (λ s, with_goodbye (goodbyeChan s) (Some g) s);;
  goodbye_send;;
  listener ← get onLeave;
  match listener with Some l => modify (add_effect (OnLeave l)) | None => mret tt end;;
  markDisconnected.

(** The switch on the type of the message, whose dynamic type it tells. *)
Definition processIncomingMessage (msg : Message) : M Session unit :=
  match view msg with
  | VRegistered m =>
      answer KRegister (registered_id m) (RRegistered m) "received REGISTERED for unknown request"
  | VUnregistered id =>
      answer KUnregister id (RUnregistered id) "received UNREGISTERED for unknown request"
  | VResult m => handle_result m
  | VInvocation m => handle_invocation m
  | VInterrupt id => handle_interrupt id
  | VSubscribed m =>
      answer KSubscribe (subscribed_id m) (RSubscribed m) "received SUBSCRIBED for unknown request"
  | VUnsubscribed id =>
      answer KUnsubscribe id (RUnsubscribed id) "received UNSUBSCRIBED for unknown request"
  | VPublished id =>
      answer KPublish id (RPublished id) "received PUBLISHED for unknown request"
  | VEvent m => handle_event m
  | VError m => handle_error msg m
  | VGoodbye m => handle_goodbye m
  | _ =>
      if bool_decide (Message_Type msg = MessageTypeAbort) then markDisconnected
      else fail ("SESSION: received unexpected message " +:+ Message_T msg)
  end.

Definition stop_reading : M Session unit := modify (with_reading false).

(** One round of [waitForRouterMessages], given what [Read] returned. *)
Definition read_round (read : result string) : M Session unit :=
  match read with
  | Err _ => markDisconnected;; base_close;; stop_reading
  | Ok payload =>
      s ← get ser;
      match Deserialize s payload with
      | Err _ => base_close;; stop_reading
      | Ok msg =>
          r ← try (processIncomingMessage msg);
          match r with Err _ => stop_reading | Ok _ => mret tt end
      end
  end.

(** The reader does nothing once it has returned. *)
Definition reader_step (read : result string) : M Session unit :=
  on ← get reading; if (on : bool) then read_round read else mret tt.

(** ** Requests *)

(** Write a message that needs no answer. *)
Definition send_message (m : Message) : M Session unit :=
  payload ← serialize m; base_write payload.

(** Make a channel, store the request, and write it; the deferred delete runs
    when the write fails. *)
Definition request (k : request_kind) (id : Z) (m : Message) : M Session nat :=
  toSend ← serialize m;
  s ← get (λ s, s);
  let c := fresh (dom (chans s)) in
  modify (λ s, store_request k id c (with_chans (<[c := None]> (chans s)) s));;
  written ← try (base_write toSend);
  match written with
  | Err e => modify (drop_request k id);; fail e
  | Ok _ => mret c
  end.

(** [response := <-channel] *)
Definition chan_receive (c : nat) : M Session reply := λ s,
  match chans s !! c with
  | Some (Some r) => (with_chans (<[c := None]> (chans s)) s, Val r)
  | _ => (s, Blocks)
  end.

(** The [select] of a request on its channel and a timer, and the deferred
    delete; an ERROR is returned as the error it carries. *)
Definition await (k : request_kind) (id : Z) (c : nat) (ev : wait_event) (timeout : error)
    (accept : reply → M Session unit) : M Session unit :=
  match ev with
  | OnResponse =>
      response ← chan_receive c;
      match response with
      | RError e => modify (drop_request k id);; fail (Error.Error_ e)
      | r => accept r;; modify (drop_request k id)
      end
  | OnTimeout => modify (drop_request k id);; fail timeout
  | _ => λ s, (s, Blocks)
  end.

Definition require_connected (e : error) : M Session unit :=
  c ← get connected; if (c : bool) then mret tt else fail e.

(** *** Registering *)

Definition register_send (id : Z) (options : dict) (procedure : string) : M Session nat :=
  require_connected "cannot register procedure: session not established";;
  request KRegister id (NewRegister id options procedure).

Definition register_wait (id : Z) (c : nat) (handler : nat) (ev : wait_event) : M Session unit :=
  await KRegister id c ev "register request timed out" (λ r,
    match r with
    | RRegistered m =>
        modify (λ s, with_registrations
          (<[registered_registration m := handler]> (registrations s)) s)
    | _ => crash "interface conversion"
    end).

(** [rid] is the registration's id. *)
Definition unregister_send (id rid : Z) : M Session nat :=
  require_connected "cannot unregister procedure: session not established";;
  request KUnregister id (NewUnregister id rid).

Definition unregister_wait (id rid : Z) (c : nat) (ev : wait_event) : M Session unit :=
  await KUnregister id c ev "unregister request timed" (λ _,
    modify (λ s, with_registrations (delete rid (registrations s)) s)).

(** *** Subscribing *)

Definition subscribe_send (id : Z) (options : dict) (topic : string) : M Session nat :=
  require_connected "cannot subscribe to topic: session not established";;
  request KSubscribe id (NewSubscribe id options topic).

(** [sub] is the new subscription object. *)
Definition subscribe_wait (id : Z) (c : nat) (sub handler : nat) (ev : wait_event)
    : M Session unit :=
  await KSubscribe id c ev "subscribe request timed" (λ r,
    match r with
    | RSubscribed m =>
        modify (λ s,
          let subs := default ∅ (subscriptions s !! subscribed_subscription m) in
          with_subscriptions (<[subscribed_subscription m := <[sub := handler]> subs]>
            (subscriptions s)) s)
    | _ => crash "interface conversion"
    end).

(** [None]: other subscriptions share the id, and nothing is sent.  The last one
    stays in the table, as an empty map, while the router is asked. *)
Definition unsubscribe_send (id sid : Z) (sub : nat) : M Session (option nat) :=
  require_connected "cannot unsubscribe topic: session not established";;
  subs ← get (λ s, subscriptions s !! sid);
  match subs with
  | Some subs =>
      let rest := delete sub subs in
      modify (λ s, with_subscriptions (<[sid := rest]> (subscriptions s)) s);;
      if bool_decide (size rest = 0)%nat
      then c ← request KUnsubscribe id (NewUnsubscribe id sid); mret (Some c)
      else mret None
  | None => c ← request KUnsubscribe id (NewUnsubscribe id sid); mret (Some c)
  end.

Definition unsubscribe_wait (id sid : Z) (c : nat) (ev : wait_event) : M Session unit :=
  await KUnsubscribe id c ev "unsubscribe request timed" (λ _,
    modify (λ s, with_subscriptions (delete sid (subscriptions s)) s)).

(** *** Publishing *)

(** [None]: no acknowledgement was asked for. *)
Definition publish_send (id : Z) (topic : string) (args : list any) (kwArgs options : dict)
    : M Session (option nat) :=
  require_connected "cannot publish to topic: session not established";;
  let publish := NewPublish id options topic args kwArgs in
  if bool_at "acknowledge" options
  then c ← request KPublish id publish; mret (Some c)
  else send_message publish;; mret None.

Definition publish_wait (id : Z) (c : nat) (ev : wait_event) : M Session unit :=
  await KPublish id c ev "publish request timed" (λ _, mret tt).

(** *** Calling *)

Definition call_send (id : Z) (call : Message) : M Session nat :=
  require_connected "cannot call procedure: session not established";;
  request KCall id call.

(** The message of [callRaw], and the caller's option map afterwards. *)
Definition callRaw (id : Z) (procedure : string) (args : list any) (kwArgs options : dict)
    : result Message * dict :=
  if AsBool (default ANil (options !! "x_payload_raw")) then
    let options := delete "x_payload_raw" options in
    let msg :=
      if bool_decide (1 < length args)%nat
      then Err "must provide at most one argument when x_payload_raw is set"
      else if negb (bool_decide (size kwArgs = 0)%nat)
      then Err "must not provide kwargs when x_payload_raw is set"
      else
        match args with
        | [] => Ok (NewCallBinary id options procedure "" 0)
        | ABytes payload :: _ => Ok (NewCallBinary id options procedure payload 0)
        | _ => Err "argument must be a byte array when x_payload_raw is set"
        end in
    (msg, options)
  else (Ok (NewCall id options procedure args kwArgs), options).

(** [handler] is the receiver given, or a name for the empty function. *)
Definition callProgress (id : Z) (procedure : string) (args : list any) (kwArgs options : dict)
    (handler : nat) : M Session nat :=
  modify (λ s, with_progress (<[id := handler]> (progressHandlers s)) (progressFunc s) s);;
  call_send id
    (NewCall id (<[OptionReceiveProgress := ABool true]> options) procedure args kwArgs).

(** What the caller's [ProgressSender] returns, one value per call. *)
Record Progress := {
  prog_Args : list any; prog_Kwargs : dict; prog_Options : dict; prog_Err : option error }.

Definition cancel_message (id : Z) : Message :=
  NewCancel id {[OptionMode := AString CancelModeKillNoWait]}.

(** The goroutine of [callProgressive]: further values are sent while the last
    one was marked as not final; an error of the sender cancels the call. *)
Fixpoint progress_loop (id : Z) (procedure : string) (callInProgress : bool)
    (progs : list Progress) : M Session unit :=
  if callInProgress then
    match progs with
    | [] => mret tt
    | prog :: progs =>
        match prog_Err prog with
        | Some _ => ignore (send_message (cancel_message id))
        | None =>
            sent ← try (send_message
              (NewCall id (prog_Options prog) procedure (prog_Args prog) (prog_Kwargs prog)));
            match sent with
            | Err _ => mret tt
            | Ok _ => progress_loop id procedure (bool_at OptionProgress (prog_Options prog)) progs
            end
        end
    end
  else mret tt.

(** Up to the start of the goroutine: whether it has more to send. *)
Definition callProgressive_send (id : Z) (procedure : string) (first : Progress)
    : M Session (nat * bool) :=
  match prog_Err first with
  | Some e => fail e
  | None =>
      c ← request KCall id
        (NewCall id (prog_Options first) procedure (prog_Args first) (prog_Kwargs first));
      mret (c, bool_at OptionProgress (prog_Options first))
  end.

Definition callProgressiveProgress_send (id : Z) (procedure : string) (first : Progress)
    (handler : nat) : M Session (nat * bool) :=
  match prog_Err first with
  | Some e => fail e
  | None =>
      modify (λ s, with_progress (<[id := handler]> (progressHandlers s)) (progressFunc s) s);;
      c ← request KCall id
        (NewCall id (<[OptionReceiveProgress := ABool true]> (prog_Options first)) procedure
           (prog_Args first) (prog_Kwargs first));
      mret (c, bool_at OptionProgress (prog_Options first))
  end.

Definition call_response (r : result_msg) : CallResponse.CallResponse :=
  CallResponse.mk (List.NewList (result_args r)) (Dict.NewDict (result_kwargs r))
    (Dict.NewDict (result_details r)) None.

(** The response to a call, received on its channel. *)
Definition call_answer (id : Z) (c : nat) : M Session CallResponse.CallResponse :=
  response ← chan_receive c;
  modify (drop_request KCall id);;
  match response with
  | RError e => fail (Error.Error_ e)
  | RResult r => mret (call_response r)
  | _ => crash "interface conversion"
  end.

Definition connection_closed : error := "connection closed unexpectedly".

(** [waitForCallResult]: the first [select] takes [ev], and after a
    cancellation the second takes [ev2], with the text of [ctx.Err()]. *)
Definition waitForCallResult (id : Z) (c : nat) (ev ev2 : wait_event) (ctxErr : error)
    : M Session CallResponse.CallResponse :=
  match ev with
  | OnResponse => call_answer id c
  | OnLeft => modify (drop_request KCall id);; fail connection_closed
  | OnTimeout => λ s, (s, Blocks)
  | OnCancelled =>
      payload ← try (serialize (cancel_message id));
      match payload with
      | Err e => modify (drop_request KCall id);; fail ("failed to serialize cancel: " +:+ e)
      | Ok payload =>
          sent ← try (base_write payload);
          match sent with
          | Err e => modify (drop_request KCall id);; fail ("failed to send cancel: " +:+ e)
          | Ok _ =>
              match ev2 with
              | OnResponse => call_answer id c
              | OnLeft => modify (drop_request KCall id);; fail connection_closed
              | _ => modify (drop_request KCall id);; fail ctxErr
              end
          end
      end
  end.

(** ** Serving invocations *)

(** [inv.SendProgress(args, kwargs)], the closure made for request [id]. *)
Definition send_progress (id : Z) (args : list any) (kwArgs : dict) : M Session unit :=
  sent ← try (send_message (NewYield id {["progress" := ABool true]} args kwArgs));
  match sent with
  | Err e => fail ("failed to send yield: " +:+ e)
  | Ok _ => mret tt
  end.

(** The rest of the goroutine of an invocation, once the handler returned. *)
Definition finish_invocation (id : Z) (progress : bool) (res : InvocationResult)
    : M Session unit :=
  (if bool_decide (res_Err res = ErrNoResult) then mret tt
   else
     let msgToSend :=
       if negb (bool_decide (res_Err res = ""))
       then NewError MessageTypeInvocation id ∅ (res_Err res) (res_Args res) (res_Kwargs res)
       else NewYield id ∅ (res_Args res) (res_Kwargs res) in
     ignore (send_message msgToSend));;
  if progress then mret tt
  else
    modify (λ s, with_cancels (invocationCancels s ∖ {[id]}) s);;
    modify (add_effect (CancelContext id)).

(** ** Leaving *)

Definition Leave_send : M Session unit :=
  require_connected "cannot leave: session not established";;
  send_message (NewGoodBye CloseCloseRealm ∅).

Definition Leave_wait (ev : wait_event) : M Session unit := λ s,
  match ev with
  | OnResponse =>
      if goodbyeChan s then (with_goodbye false (goodBye s) s, Val tt) else (s, Blocks)
  | OnTimeout => (s, Fail "leave timeout")
  | _ => (s, Blocks)
  end.

Definition SetOnLeaveListener (listener : nat) : M Session unit :=
  modify (λ s, with_life (connected s) (left s) (Some listener) s).

End Session.

(** ** What a session promises *)

Section SessionSpec.
Context `{WampMessagesOk} `{!WampSerializers} `{WampConstants} `{FloatConv} `{FmtV}
  `{MapRange}.

Implicit Types (s : Session) (k : request_kind) (msg : Message).

(** Every pending request has a channel, and no two share one. *)
Definition session_wf s : Prop :=
  (∀ k id c, requests s k !! id = Some c → is_Some (chans s !! c)) ∧
  (∀ k id k' id' c, requests s k !! id = Some c → requests s k' !! id' = Some c →
    k = k' ∧ id = id').

Definition session_keeps s s' : Prop := session_wf s → session_wf s'.
#[local] Instance session_keeps_pre : PreOrder session_keeps.
Proof. split; [by intros s Hs|intros x y z Hxy Hyz Hx; by apply Hyz, Hxy]. Qed.

Lemma elsewhere_keeps f :
  (∀ s, chans (f s) = chans s ∧ requests (f s) = requests s) →
  keeps session_keeps (modify f).
Proof. intros Hf s Hs. destruct (Hf s) as [Hc Hr]. unfold session_wf. simpl. by rewrite Hc, Hr. Qed.

Lemma zoom_peer_keeps {A} (m : M Peer A) : keeps session_keeps (zoom peer with_peer m).
Proof. apply keeps_zoom. by intros p s Hs. Qed.

Lemma store_chan_wf s c r : session_wf s → session_wf (with_chans (<[c := r]> (chans s)) s).
Proof.
  intros [He Hi]. split; [|done]. simpl. intros k id d Hd. rewrite lookup_insert_is_Some.
  destruct (decide (c = d)); eauto.
Qed.

Lemma chan_send_keeps c r : keeps session_keeps (chan_send c r).
Proof.
  intros s Hs. unfold chan_send.
  destruct (chans s !! c) as [[x|]|]; [done|by apply store_chan_wf..].
Qed.

Lemma chan_receive_keeps c : keeps session_keeps (chan_receive c).
Proof.
  intros s Hs. unfold chan_receive.
  destruct (chans s !! c) as [[x|]|]; [by apply store_chan_wf|done..].
Qed.

Lemma drop_request_lookup k id s k' id' c :
  requests (drop_request k id s) k' !! id' = Some c →
  requests s k' !! id' = Some c ∧ (k', id') ≠ (k, id).
Proof.
  unfold drop_request. simpl. destruct (decide (k = k')) as [<-|Hne].
  - rewrite fn_lookup_insert. intros [Hid Hc]%lookup_delete_Some. split; [done|congruence].
  - rewrite fn_lookup_insert_ne by done. intros Hc. split; [done|congruence].
Qed.

Lemma drop_request_keeps k id : keeps session_keeps (modify (drop_request k id)).
Proof.
  intros s [He Hi]. split; simpl.
  - intros k' id' c [Hc _]%drop_request_lookup. by eapply He.
  - intros k1 i1 k2 i2 c [H1' _]%drop_request_lookup [H2' _]%drop_request_lookup. by eapply Hi.
Qed.

Lemma store_request_lookup k id c s k' id' d :
  requests (store_request k id c s) k' !! id' = Some d →
  ((k', id') = (k, id) ∧ d = c) ∨ requests s k' !! id' = Some d.
Proof.
  unfold store_request. simpl. destruct (decide (k = k')) as [<-|Hne].
  - rewrite fn_lookup_insert. intros [[<- <-]|[_ Hc]]%lookup_insert_Some; auto.
  - rewrite fn_lookup_insert_ne by done. auto.
Qed.

Lemma new_request_wf k id s c :
  chans s !! c = None → session_wf s →
  session_wf (store_request k id c (with_chans (<[c := None]> (chans s)) s)).
Proof.
  intros Hc [He Hi]. split.
  - intros k' id' d [[_ ->]|Hd]%store_request_lookup; simpl; [by simplify_map_eq|].
    apply lookup_insert_is_Some'. right. by eapply He.
  - assert (∀ k' id' d, requests s k' !! id' = Some d → d ≠ c) as Hne.
    { intros k' id' d Hd ->. destruct (He _ _ _ Hd) as [x Hx]. congruence. }
    intros k1 i1 k2 i2 d [[[= -> ->] ->]|H1']%store_request_lookup
      [[[= -> ->] Heq]|H2']%store_request_lookup; try done; try (by eapply Hi).
    + by apply Hne in H2'.
    + subst. by apply Hne in H1'.
Qed.

Lemma serialize_run m s :
  serialize m s =
  (s, match Serialize (ser s) m with Ok p => Val p | Err e => Fail e end).
Proof. unfold serialize. erewrite bind_Val by done. by destruct (Serialize (ser s) m). Qed.

(** [request] on every outcome of the write. *)
Lemma request_run k id m s :
  request k id m s =
  match Serialize (ser s) m with
  | Err e => (s, Fail e)
  | Ok payload =>
      let c := fresh (dom (chans s)) in
      let s1 := store_request k id c (with_chans (<[c := None]> (chans s)) s) in
      let s2 := with_peer (Write payload (peer s)).1 s1 in
      match (Write payload (peer s)).2 with
      | Val _ => (s2, Val c)
      | Fail e => (drop_request k id s2, Fail e)
      | Crash why => (s2, Crash why)
      | Blocks => (s2, Blocks)
      end
  end.
Proof.
  unfold request. rewrite bind_effect, serialize_run.
  destruct (Serialize (ser s) m) as [payload|e]; [|done]. cbn [fst snd].
  erewrite bind_Val by done. cbv zeta. erewrite bind_Val by done.
  rewrite bind_effect. unfold try, base_write. rewrite zoom_run.
  cbn [peer store_request with_requests with_chans].
  by destruct (Write payload (peer s)) as [p [[]|e|w|]].
Qed.

Lemma request_keeps k id m : keeps session_keeps (request k id m).
Proof.
  intros s Hs. rewrite request_run. destruct (Serialize (ser s) m) as [payload|e]; [|done].
  cbv zeta. set (s1 := store_request _ _ _ _).
  assert (session_wf s1) as Hs1.
  { apply new_request_wf; [|done]. apply not_elem_of_dom, is_fresh. }
  destruct (Write payload (peer s)).2; try done. by apply drop_request_keeps.
Qed.

Lemma answer_keeps k id r e : keeps session_keeps (answer k id r e).
Proof. unfold answer. go_effect. apply chan_send_keeps. Qed.

Lemma answer_and_drop_keeps k id r u :
  keeps session_keeps u → keeps session_keeps (answer_and_drop k id r u).
Proof.
  intros. unfold answer_and_drop. go_effect; auto using drop_request_keeps, chan_send_keeps.
Qed.

Ltac session_effect :=
  go_effect;
  first [ by apply elsewhere_keeps | apply drop_request_keeps | apply chan_send_keeps
        | apply chan_receive_keeps | apply request_keeps | apply zoom_peer_keeps
        | apply answer_keeps | idtac ].

Lemma handle_error_keeps msg e : keeps session_keeps (handle_error msg e).
Proof.
  unfold handle_error. cbv zeta. repeat case_bool_decide;
    try (apply answer_and_drop_keeps; go_effect); session_effect.
Qed.

Lemma handle_goodbye_keeps g : keeps session_keeps (handle_goodbye g).
Proof.
  unfold handle_goodbye, markDisconnected. session_effect.
  intros s Hs. unfold goodbye_send. by destruct (goodbyeChan s).
Qed.

Lemma processIncomingMessage_keeps msg : keeps session_keeps (processIncomingMessage msg).
Proof.
  unfold processIncomingMessage, handle_result, handle_invocation, handle_interrupt,
    handle_event, markDisconnected.
  destruct (view msg) eqn:Hv; try apply handle_error_keeps; try apply handle_goodbye_keeps;
    try apply answer_keeps; session_effect.
Qed.

Lemma reader_step_keeps read : keeps session_keeps (reader_step read).
Proof.
  unfold reader_step, read_round, markDisconnected, base_close, stop_reading.
  session_effect; try apply processIncomingMessage_keeps; by apply elsewhere_keeps.
Qed.

Lemma await_keeps k id c ev t acc :
  (∀ r, keeps session_keeps (acc r)) → keeps session_keeps (await k id c ev t acc).
Proof.
  intros Hacc. unfold await. destruct ev; [|session_effect|by intros s Hs..].
  apply keeps_bind; [apply _|apply chan_receive_keeps|]. intros [];
    (apply keeps_bind; [apply _|apply Hacc || apply drop_request_keeps|intros ?]);
    first [apply drop_request_keeps | apply keeps_fail, _].
Qed.

(** The operations of a session: the API calls up to and after their wait, the
    reader, and the end of an invocation. *)
Inductive session_op : ∀ {A}, M Session A → Prop :=
| so_read read : session_op (reader_step read)
| so_register id o p : session_op (register_send id o p)
| so_registered id c h ev : session_op (register_wait id c h ev)
| so_unregister id r : session_op (unregister_send id r)
| so_unregistered id r c ev : session_op (unregister_wait id r c ev)
| so_subscribe id o t : session_op (subscribe_send id o t)
| so_subscribed id c sub h ev : session_op (subscribe_wait id c sub h ev)
| so_unsubscribe id sid sub : session_op (unsubscribe_send id sid sub)
| so_unsubscribed id sid c ev : session_op (unsubscribe_wait id sid c ev)
| so_publish id t a kw o : session_op (publish_send id t a kw o)
| so_published id c ev : session_op (publish_wait id c ev)
| so_call id m : session_op (call_send id m)
| so_call_progress id p a kw o h : session_op (callProgress id p a kw o h)
| so_called id c ev ev2 e : session_op (waitForCallResult id c ev ev2 e)
| so_finish id pr res : session_op (finish_invocation id pr res)
| so_progress id a kw : session_op (send_progress id a kw)
| so_leave : session_op Leave_send.

Lemma session_op_keeps {A} (m : M Session A) : session_op m → keeps session_keeps m.
Proof.
  destruct 1; unfold register_send, unregister_send, subscribe_send, unsubscribe_send,
    publish_send, callProgress, call_send, waitForCallResult, call_answer, finish_invocation,
    send_progress, Leave_send, require_connected, send_message, serialize, base_write;
    try apply reader_step_keeps;
    try (apply await_keeps; intros []; session_effect);
    session_effect.
Qed.

(** Whatever a session does and receives, each of its pending requests has a
    response channel of its own. *)
Theorem session_reachable_wf p z s :
  rtc (λ a b, ∃ A (m : M Session A), session_op m ∧ b = (m a).1) (NewSession p z) s →
  session_wf s.
Proof.
  intros Hs. assert (session_wf (NewSession p z)) as Hwf.
  { split; simpl; intros ?; intros; simplify_map_eq. }
  revert Hwf. induction Hs as [|s1 s2 s3 (A & m & Hm & ->) _ IH]; [done|].
  intros Hwf. by apply IH, (session_op_keeps m Hm s1).
Qed.

(** *** Answers *)

Definition kind_of_type (t : Z) : option request_kind :=
  if bool_decide (t = MessageTypeCall) then Some KCall
  else if bool_decide (t = MessageTypeRegister) then Some KRegister
  else if bool_decide (t = MessageTypeUnregister) then Some KUnregister
  else if bool_decide (t = MessageTypeSubscribe) then Some KSubscribe
  else if bool_decide (t = MessageTypeUnsubscribe) then Some KUnsubscribe
  else if bool_decide (t = MessageTypePublish) then Some KPublish
  else None.

(** The request a message answers. *)
Definition answered msg : option (request_kind * Z) :=
  match view msg with
  | VRegistered m => Some (KRegister, registered_id m)
  | VUnregistered id => Some (KUnregister, id)
  | VResult m => Some (KCall, result_id m)
  | VSubscribed m => Some (KSubscribe, subscribed_id m)
  | VUnsubscribed id => Some (KUnsubscribe, id)
  | VPublished id => Some (KPublish, id)
  | VError e => (λ k, (k, error_id e)) <$> kind_of_type (error_type e)
  | _ => None
  end.

(** The pending request and its channel are as before. *)
Definition undisturbed k id c s s' : Prop :=
  session_wf s ∧ requests s k !! id = Some c →
  (session_wf s' ∧ requests s' k !! id = Some c) ∧ chans s' !! c = chans s !! c.
#[local] Instance undisturbed_pre k id c : PreOrder (undisturbed k id c).
Proof.
  split; [by intros s|]. intros x y z Hxy Hyz Hx.
  destruct (Hxy Hx) as [Hy <-]. by apply Hyz.
Qed.

Lemma elsewhere_undisturbed k id c f :
  (∀ s, chans (f s) = chans s ∧ requests (f s) = requests s) →
  keeps (undisturbed k id c) (modify f).
Proof.
  intros Hf s [Hwf Hr]. destruct (Hf s) as [Hc Hq]. unfold session_wf. simpl. rewrite Hc, Hq.
  done.
Qed.

Lemma chan_send_undisturbed k id c d r s :
  d ≠ c → undisturbed k id c s (chan_send d r s).1.
Proof.
  intros Hne [Hwf Hr]. pose proof (chan_send_keeps d r s Hwf) as Hwf'.
  unfold chan_send in *. destruct (chans s !! d) as [[x|]|]; simpl in *; try done;
    (split; [done|by rewrite lookup_insert_ne]).
Qed.

Lemma drop_request_undisturbed k id c k' id' :
  (k', id') ≠ (k, id) → keeps (undisturbed k id c) (modify (drop_request k' id')).
Proof.
  intros Hne s [Hwf Hr]. split; [|done].
  split; [by apply (drop_request_keeps k' id')|]. simpl.
  destruct (decide (k' = k)) as [->|].
  - rewrite fn_lookup_insert, lookup_delete_ne; [done|congruence].
  - by rewrite fn_lookup_insert_ne.
Qed.

Lemma pending_channels_differ k id c k' id' d s :
  session_wf s → requests s k !! id = Some c → requests s k' !! id' = Some d →
  (k', id') ≠ (k, id) → d ≠ c.
Proof. intros [_ Hi] Hc Hd Hne ->. destruct (Hi _ _ _ _ _ Hd Hc). congruence. Qed.

Lemma answer_undisturbed k id c k' id' r e :
  (k', id') ≠ (k, id) → keeps (undisturbed k id c) (answer k' id' r e).
Proof.
  intros Hne s [Hwf Hr]. unfold answer. erewrite bind_Val by done.
  destruct (requests s k' !! id') as [d|] eqn:Hd; [|done].
  apply chan_send_undisturbed; [|done]. by eapply pending_channels_differ.
Qed.

Lemma answer_and_drop_undisturbed k id c k' id' r u :
  (k', id') ≠ (k, id) → keeps (undisturbed k id c) u →
  keeps (undisturbed k id c) (answer_and_drop k' id' r u).
Proof.
  intros Hne Hu s [Hwf Hr]. unfold answer_and_drop. erewrite bind_Val by done.
  destruct (requests s k' !! id') as [d|] eqn:Hd; [|by apply Hu].
  assert (d ≠ c) as Hdc by by eapply pending_channels_differ.
  erewrite bind_Val by done.
  destruct (drop_request_undisturbed k id c k' id' Hne s (conj Hwf Hr)) as [Hy Hc].
  destruct (chan_send_undisturbed k id c d r _ Hdc Hy) as [? Heq].
  split; [done|]. etrans; [exact Heq|exact Hc].
Qed.

Lemma handle_error_undisturbed k id c msg e :
  (λ k', (k', error_id e)) <$> kind_of_type (error_type e) ≠ Some (k, id) →
  keeps (undisturbed k id c) (handle_error msg e).
Proof.
  unfold handle_error, kind_of_type. cbv zeta. repeat case_bool_decide; simpl; intros Hne;
    try (apply answer_and_drop_undisturbed; [congruence|]); go_effect;
    apply drop_request_undisturbed; congruence.
Qed.

Lemma handle_result_undisturbed k id c m :
  (KCall, result_id m) ≠ (k, id) → keeps (undisturbed k id c) (handle_result m).
Proof.
  intros Hne s [Hwf Hr]. unfold handle_result. erewrite bind_Val by done.
  destruct (requests s KCall !! result_id m) as [d|] eqn:Hd; [|done].
  assert (d ≠ c) as Hdc by by eapply pending_channels_differ.
  destruct (bool_at _ _).
  - erewrite bind_Val by done. by destruct (progressHandlers s !! result_id m).
  - pose proof (chan_send_undisturbed k id c d (RResult m) s Hdc (conj Hwf Hr)) as Hs.
    rewrite bind_effect. by destruct (chan_send d (RResult m) s) as [s' [[]|?|?|]].
Qed.

(** C10. Answers do not get mixed up: a message that answers another request, or
    none, leaves a pending request pending and its response channel as it was. *)
Theorem answers_reach_only_their_request k id c msg s :
  session_wf s → requests s k !! id = Some c → answered msg ≠ Some (k, id) →
  let s' := (processIncomingMessage msg s).1 in
  requests s' k !! id = Some c ∧ chans s' !! c = chans s !! c.
Proof.
  intros Hwf Hr Ha. assert (keeps (undisturbed k id c) (processIncomingMessage msg)) as Hk.
  { unfold answered in Ha. unfold processIncomingMessage, handle_invocation, handle_interrupt,
      handle_event, handle_goodbye, markDisconnected.
    destruct (view msg) eqn:Hv;
      try (apply answer_undisturbed; congruence);
      try (apply handle_result_undisturbed; congruence);
      try (apply handle_error_undisturbed; done);
      go_effect; try (by apply elsewhere_undisturbed).
    intros s0 [? ?]. unfold goodbye_send. by destruct (goodbyeChan s0). }
  destruct (Hk s (conj Hwf Hr)) as [[_ ?] ?]. done.
Qed.

(** C29. Registering works end to end: from a connected session, sending REGISTER,
    receiving the router's REGISTERED and waking up stores the handler under the
    id of the registration, and leaves no pending request behind. *)
Theorem register_roundtrip id o p h ack m s s1 c :
  requests s KRegister !! id = None → register_send id o p s = (s1, Val c) →
  view ack = VRegistered m → registered_id m = id →
  let s2 := (processIncomingMessage ack s1).1 in
  let s3 := (register_wait id c h OnResponse s2).1 in
  (processIncomingMessage ack s1).2 = Val tt ∧
  (register_wait id c h OnResponse s2).2 = Val tt ∧
  registrations s3 = <[registered_registration m := h]> (registrations s) ∧
  (∀ k i, requests s3 k !! i = requests s k !! i) ∧ connected s3 = true.
Proof.
  intros Hfree Hsend Hv Hid. unfold register_send, require_connected in Hsend.
  rewrite bind_effect in Hsend. erewrite bind_Val in Hsend by done.
  destruct (connected s) eqn:Hc; [|done]. cbn [fst snd mret M_ret] in Hsend.
  rewrite request_run in Hsend.
  destruct (Serialize (ser s) (NewRegister id o p)) as [payload|e]; [|done]. cbv zeta in Hsend.
  set (d := fresh (dom (chans s))) in *.
  clearbody d. destruct (Write payload (peer s)).2 as [[]|?|?|]; try done.
  injection Hsend as <- <-. cbn zeta.
  set (s1 := with_peer _ _) in *.
  assert (processIncomingMessage ack s1 =
    (with_chans (<[d := Some (RRegistered m)]> (chans s1)) s1, Val tt)) as ->.
  { unfold processIncomingMessage. rewrite Hv, Hid. unfold answer. erewrite bind_Val by done.
    unfold s1, store_request. cbn [requests with_peer with_requests].
    rewrite fn_lookup_insert, lookup_insert_eq. unfold chan_send.
    cbn [chans with_peer with_requests with_chans]. by rewrite lookup_insert_eq. }
  cbn [fst snd]. unfold register_wait, await.
  erewrite bind_Val by (unfold chan_receive; cbn [chans with_chans]; by rewrite lookup_insert_eq).
  cbv iota. erewrite bind_Val by done. split_and!; [done..| |done].
  intros k i. unfold modify. cbn [fst requests drop_request with_requests with_registrations
    with_chans s1 with_peer store_request].
  destruct (decide (k = KRegister)) as [->|Hk].
  - rewrite !fn_lookup_insert, delete_insert_id by done. done.
  - by rewrite !fn_lookup_insert_ne by done.
Qed.

(** *** Answers that are lost *)

Definition unreferenced (c : nat) s : Prop := ∀ k id, requests s k !! id ≠ Some c.

Definition ignores (c : nat) s s' : Prop :=
  unreferenced c s → unreferenced c s' ∧ chans s' !! c = chans s !! c.
#[local] Instance ignores_pre c : PreOrder (ignores c).
Proof.
  split; [by intros s|]. intros x y z Hxy Hyz Hx.
  destruct (Hxy Hx) as [Hy <-]. by apply Hyz.
Qed.

Lemma elsewhere_ignores c f :
  (∀ s, chans (f s) = chans s ∧ requests (f s) = requests s) → keeps (ignores c) (modify f).
Proof. intros Hf s Hs. destruct (Hf s) as [Hc Hr]. unfold unreferenced. simpl. by rewrite Hc, Hr. Qed.

Lemma zoom_peer_ignores {A} c (m : M Peer A) : keeps (ignores c) (zoom peer with_peer m).
Proof. apply keeps_zoom. by intros p s Hs. Qed.

Lemma drop_request_ignores c k id : keeps (ignores c) (modify (drop_request k id)).
Proof. intros s Hs. split; [|done]. intros k' id' [Hd _]%drop_request_lookup. by eapply Hs. Qed.

Lemma chan_send_ignores c d r s : d ≠ c → ignores c s (chan_send d r s).1.
Proof.
  intros Hne Hs. unfold chan_send. destruct (chans s !! d) as [[x|]|]; simpl; try done;
    (split; [done|by rewrite lookup_insert_ne]).
Qed.

Lemma answer_ignores c k id r e : keeps (ignores c) (answer k id r e).
Proof.
  intros s Hs. unfold answer. erewrite bind_Val by done.
  destruct (requests s k !! id) as [d|] eqn:Hd; [|done].
  apply chan_send_ignores; [|done]. intros ->. by eapply Hs.
Qed.

Lemma answer_and_drop_ignores c k id r u :
  keeps (ignores c) u → keeps (ignores c) (answer_and_drop k id r u).
Proof.
  intros Hu s Hs. unfold answer_and_drop. erewrite bind_Val by done.
  destruct (requests s k !! id) as [d|] eqn:Hd; [|by apply Hu].
  assert (d ≠ c) as Hdc by (intros ->; by eapply Hs). erewrite bind_Val by done.
  destruct (drop_request_ignores c k id s Hs) as [Hs' Hc].
  destruct (chan_send_ignores c d r _ Hdc Hs') as [? Heq].
  split; [done|]. etrans; [exact Heq|exact Hc].
Qed.

Lemma handle_result_ignores c m : keeps (ignores c) (handle_result m).
Proof.
  intros s Hs. unfold handle_result. erewrite bind_Val by done.
  destruct (requests s KCall !! result_id m) as [d|] eqn:Hd; [|done].
  assert (d ≠ c) as Hdc by (intros ->; by eapply Hs). destruct (bool_at _ _).
  - erewrite bind_Val by done. by destruct (progressHandlers s !! result_id m).
  - pose proof (chan_send_ignores c d (RResult m) s Hdc Hs) as Hs'.
    rewrite bind_effect. by destruct (chan_send d (RResult m) s) as [s' [[]|?|?|]].
Qed.

Lemma processIncomingMessage_ignores c msg : keeps (ignores c) (processIncomingMessage msg).
Proof.
  unfold processIncomingMessage, handle_invocation, handle_interrupt,
    handle_event, handle_goodbye, handle_error, markDisconnected. cbv zeta.
  destruct (view msg) eqn:Hv; try apply answer_ignores; try apply handle_result_ignores;
    repeat case_bool_decide; try apply answer_and_drop_ignores;
    go_effect; try (by apply elsewhere_ignores); try apply drop_request_ignores.
  intros s0 ?. unfold goodbye_send. by destruct (goodbyeChan s0).
Qed.

Lemma reader_step_ignores c read : keeps (ignores c) (reader_step read).
Proof.
  unfold reader_step, read_round, markDisconnected, base_close, stop_reading.
  go_effect; try apply processIncomingMessage_ignores; try (by apply elsewhere_ignores);
    apply zoom_peer_ignores.
Qed.

(** When the router refuses to unregister or to unsubscribe, the refusal is
    dropped: whatever is received afterwards, the caller's channel stays empty,
    so the call can only end by its timer, with a timeout error. *)
Theorem refused_unregister_times_out k e id c msg reads timeout accept s :
  session_wf s → requests s k !! id = Some c → chans s !! c = Some None →
  view msg = VError e → error_id e = id →
  (error_type e = MessageTypeUnregister ∧ k = KUnregister ∨
   error_type e = MessageTypeUnsubscribe ∧ k = KUnsubscribe) →
  let s1 := (processIncomingMessage msg s).1 in
  let s2 := (for_M reader_step reads s1).1 in
  (processIncomingMessage msg s).2 = Val tt ∧
  (await k id c OnResponse timeout accept s2).2 = Blocks ∧
  (await k id c OnTimeout timeout accept s2).2 = Fail timeout.
Proof.
  intros Hwf Hr Hc Hv Hid Hk.
  assert (processIncomingMessage msg s = (drop_request k id s, Val tt)) as ->.
  { unfold processIncomingMessage. rewrite Hv. unfold handle_error. cbv zeta. rewrite Hid.
    destruct Hk as [[-> ->]|[-> ->]]; types_decide; erewrite bind_Val by done;
      by rewrite Hr. }
  cbn [fst snd]. assert (unreferenced c (drop_request k id s)) as Hun.
  { intros k' id' [Hd Hne]%drop_request_lookup.
    destruct (proj2 Hwf _ _ _ _ _ Hr Hd) as [-> ->]. done. }
  assert (keeps (ignores c) (for_M reader_step reads)) as Hkeep.
  { apply keeps_for_M; [apply _|]. apply reader_step_ignores. }
  destruct (Hkeep _ Hun) as [_ Hch]. set (s2 := (for_M _ _ _).1) in *.
  split_and!; [done| |done]. unfold await, chan_receive. rewrite bind_effect, Hch.
  simpl. by rewrite Hc.
Qed.

(** *** Readers that stop *)

(** A message that is rejected has no effect. *)
Lemma rejected_message_no_effect msg e s :
  (processIncomingMessage msg s).2 = Fail e → (processIncomingMessage msg s).1 = s.
Proof.
  assert (∀ k i r u, (answer k i r u s).2 = Fail e → (answer k i r u s).1 = s) as Ha.
  { intros k i r u. unfold answer. erewrite bind_Val by done.
    destruct (requests s k !! i) as [d|]; [|done]. unfold chan_send.
    by destruct (chans s !! d) as [[]|]. }
  assert (∀ k i r u, (answer_and_drop k i r (fail u) s).2 = Fail e →
    (answer_and_drop k i r (fail u) s).1 = s) as Hd.
  { intros k i r u. unfold answer_and_drop. erewrite bind_Val by done.
    destruct (requests s k !! i) as [d|]; [|done]. erewrite bind_Val by done.
    unfold chan_send. by destruct (chans (drop_request k i s) !! d) as [[]|]. }
  assert (∀ k i r, (answer_and_drop k i r (mret tt) s).2 ≠ Fail e) as Hd'.
  { intros k i r. unfold answer_and_drop. erewrite bind_Val by done.
    destruct (requests s k !! i) as [d|]; [|done]. erewrite bind_Val by done.
    unfold chan_send. by destruct (chans (drop_request k i s) !! d) as [[]|]. }
  unfold processIncomingMessage. destruct (view msg) as [ | | | | | | | | | |m|m|m|m|m|g|]
    eqn:Hv; try apply Ha; try (by case_bool_decide).
  - unfold handle_result. erewrite bind_Val by done.
    destruct (requests s KCall !! result_id m) as [d|]; [|done]. destruct (bool_at _ _).
    + erewrite bind_Val by done. by destruct (progressHandlers s !! _).
    + rewrite bind_effect. unfold chan_send. by destruct (chans s !! d) as [[]|].
  - unfold handle_invocation. erewrite bind_Val by done.
    destruct (registrations s !! _); [|done]. cbv zeta. rewrite !bind_effect.
    by destruct (bool_at _ _), (bool_at _ _).
  - unfold handle_interrupt. erewrite bind_Val by done. by case_bool_decide.
  - unfold handle_event. erewrite bind_Val by done.
    destruct (subscriptions s !! _) as [subs|]; [|done]. cbv zeta. generalize s.
    induction (range_entries subs) as [|x l IH]; intros s0; simpl; [done|].
    erewrite bind_Val by done. intros Hf.
    exfalso. revert Hf. clear. generalize (add_effect (Deliver x.2 (Event.NewEvent
      (event_args m) (event_kwargs m) (event_details m))) s0).
    induction l as [|y l IH]; intros s1; simpl; [done|]. erewrite bind_Val by done. apply IH.
  - unfold handle_error. cbv zeta. repeat case_bool_decide; try apply Hd;
      try (intros Hf; by destruct (Hd' _ _ _ Hf)); try done;
      erewrite bind_Val by done; by destruct (requests s _ !! _).
  - unfold handle_goodbye. erewrite bind_Val by done. rewrite bind_effect.
    unfold goodbye_send. destruct (goodbyeChan _); [done|]. simpl. rewrite bind_effect. simpl.
    by destruct (onLeave s).
Qed.

(** A payload that does not parse, or a message the session does not expect
    (an EVENT that was on its way when its subscription ended is one), stops the
    reader for good, while the session still counts as connected: no later
    answer is ever read, and nobody is told. *)
Theorem unexpected_message_deafens_the_session payload s :
  reading s = true → close_returns (peer s) = true →
  (is_ok (Deserialize (ser s) payload) = false ∨
   ∃ msg e, Deserialize (ser s) payload = Ok msg ∧
     (processIncomingMessage msg s).2 = Fail e) →
  let s' := (reader_step (Ok payload) s).1 in
  connected s' = connected s ∧ left s' = left s ∧ onLeave s' = onLeave s ∧
  effects s' = effects s ∧ requests s' = requests s ∧
  ∀ read, reader_step read s' = (s', Val tt).
Proof.
  intros Hon Hcl Hbad.
  assert (reader_step (Ok payload) s = read_round (Ok payload) s) as ->.
  { unfold reader_step. erewrite bind_Val by done. by rewrite Hon. }
  assert (∀ s1 read, reading s1 = false → reader_step read s1 = (s1, Val tt)) as Hoff.
  { intros s1 read Hs. unfold reader_step. erewrite bind_Val by done. by rewrite Hs. }
  unfold read_round. erewrite bind_Val by done.
  destruct Hbad as [Hbad|(msg & e & -> & Hf)].
  - destruct (Deserialize (ser s) payload); [done|]. unfold base_close, stop_reading.
    rewrite bind_effect, zoom_run, peer_close_run, Hcl. cbn. split_and!; [done..|]. intros. by apply Hoff.
  - pose proof (rejected_message_no_effect msg e s Hf) as Hs.
    rewrite bind_effect. unfold try.
    destruct (processIncomingMessage msg s) as [s1 v]. simpl in Hf, Hs. subst v s1. cbn.
    split_and!; [done..|]. intros. by apply Hoff.
Qed.

(** An INVOCATION for a registration that is not known (as when it was
    unregistered in the meantime) does not fail, it panics. *)
Theorem unknown_registration_panics msg m s :
  view msg = VInvocation m → registrations s !! invocation_registration m = None →
  (processIncomingMessage msg s).2 =
    Crash "interface conversion: interface is nil, not xconn.InvocationHandler".
Proof.
  intros Hv Hr. unfold processIncomingMessage. rewrite Hv. unfold handle_invocation.
  erewrite bind_Val by done. by rewrite Hr.
Qed.

(** The flag of a raw call is consumed: the first call removes it from the
    caller's own option map, so the same request sent again is not raw. *)
Theorem raw_call_is_raw_once id id' procedure payload options :
  AsBool (default ANil (options !! "x_payload_raw")) = true → AsBool ANil = false →
  let '(first, options') := callRaw id procedure [ABytes payload] ∅ options in
  first = Ok (NewCallBinary id (delete "x_payload_raw" options) procedure payload 0) ∧
  callRaw id' procedure [ABytes payload] ∅ options' =
    (Ok (NewCall id' (delete "x_payload_raw" options) procedure [ABytes payload] ∅),
     delete "x_payload_raw" options).
Proof.
  intros Hraw Hnil. unfold callRaw at 1. rewrite Hraw.
  split; [done|]. unfold callRaw. rewrite lookup_delete_eq. simpl. by rewrite Hnil.
Qed.

End SessionSpec.
