(* ===== verification/MuxSessions.v ===== *)
(** * Sessions that share a QUIC or WebTransport connection (quic.go, webtransport.go)

    Dialing opens the connection and the streams; here the session on a stream is that
    of Session, over the raw-socket peer of the stream.  [Close] of a session is split
    where [Leave] waits, as the calls of Session are. *)

From S2P Require Import Prelude GoStd Wamp Values Peers Acceptor Dialing Realm Session.

Local Open Scope string_scope.

Section MuxSessions.
Context `{WampHandshake} `{RawSocketHandshake} `{!ClientAuths} `{WampConstants} `{FloatConv} `{FmtV}
  `{MapRange} (frames : list (result string) → list (result string)).

(** The streams, the session on each that has one, and the streams whose write side
    this end has closed. *)
Record mux := mkMux { links_ : links; sessions : gmap nat Session; ended : gset nat }.

Definition on_links {A} : M links A → M mux A :=
  zoom links_ (λ l w, mkMux l (sessions w) (ended w)).

(** A method of the session on stream [i]. *)
Definition of_session {A} (i : nat) (m : M Session A) : M mux A := λ w,
  match sessions w !! i with
  | Some s => let '(s, v) := m s in (mkMux (links_ w) (<[i := s]> (sessions w)) (ended w), v)
  | None => (w, Crash "invalid memory address or nil pointer dereference")
  end.

(** [OpenSession]: [open_session] on the connection of the session, then [NewSession]. *)
Definition mux_OpenSession (name : string) (sess : mux_session) (opened : result unit) (s : stream)
    (realm : string) (config : option DialerConfig) : M mux mux_session :=
  new ← on_links (OpenSession frames name sess opened s realm config);
  modify (λ w, mkMux (links_ w)
    (<[ms_stream new := NewSession (ms_peer new) (ms_serializer new)]> (sessions w)) (ended w));;
  mret new.

(** [Close] of the stream of a session, which ends its write side only. *)
Definition stream_Close (i : nat) : M mux unit :=
  modify (λ w, mkMux (links_ w) (sessions w) ({[i]} ∪ ended w)).

(** [base.Close()]: once, when the writer is done, the raw-socket peer closes its stream. *)
Definition mux_base_Close (i : nat) : M mux unit :=
  was ← of_session i (get (λ s, closed (peer s)));
  of_session i base_close;;
  if (was : bool) then mret tt else stream_Close i.

(** [Close] of a session, up to the wait of [Leave], where it returns only when the
    GOODBYE could not be written; and from there. *)
Definition mux_Close_send (i : nat) : M mux unit :=
  err ← try (of_session i Leave_send);
  match err with
  | Err e => ignore (mux_base_Close i);; fail e
  | Ok _ => mret tt
  end.
Definition mux_Close_wait (i : nat) (ev : wait_event) : M mux unit :=
  err ← try (of_session i (Leave_wait ev));
  ignore (mux_base_Close i);; of_result err.

(** ** What they do *)

Implicit Types (w : mux) (s : Session).

(** What one session does leaves the others alone, and the connection. *)
Definition elsewhere (i : nat) w w' : Prop :=
  links_ w' = links_ w ∧
  ∀ j, j ≠ i → sessions w' !! j = sessions w !! j ∧ (j ∈ ended w' ↔ j ∈ ended w).

Lemma mux_elsewhere_trans i w w1 w2 : elsewhere i w w1 → elsewhere i w1 w2 → elsewhere i w w2.
Proof.
  intros [Hl He] [Hl2 He2]. split; [congruence|]. intros j Hj.
  destruct (He j Hj) as [<- <-], (He2 j Hj) as [<- <-]. done.
Qed.

(** The session on stream [i] is closed, and if it was open before the stream is told. *)
Definition session_gone (i : nat) s w' : Prop :=
  (∃ s', sessions w' !! i = Some s' ∧ closed (peer s') = true) ∧
  (closed (peer s) = false → i ∈ ended w').

Lemma of_session_run {A} i (m : M Session A) w s :
  sessions w !! i = Some s →
  of_session i m w = (mkMux (links_ w) (<[i := (m s).1]> (sessions w)) (ended w), (m s).2).
Proof. intros Hs. unfold of_session. rewrite Hs. by destruct (m s). Qed.

Lemma base_close_run s :
  base_close s = (with_peer (mark_closed (peer s)) s, if close_returns (peer s) then Val tt else Blocks).
Proof. unfold base_close. by rewrite zoom_run, peer_close_run. Qed.

Lemma mux_base_Close_run i w s :
  sessions w !! i = Some s →
  let w' := mkMux (links_ w) (<[i := with_peer (mark_closed (peer s)) s]> (sessions w))
    (if closed (peer s) then ended w else if close_returns (peer s) then {[i]} ∪ ended w else ended w) in
  mux_base_Close i w = (w', if close_returns (peer s) then Val tt else Blocks).
Proof.
  intros Hs. cbv zeta. unfold mux_base_Close.
  erewrite bind_Val by exact (of_session_run i _ w s Hs). cbn [fst].
  rewrite insert_id by exact Hs. destruct w as [l ss es]. cbn [links_ sessions ended] in *.
  rewrite bind_effect, (of_session_run i _ (mkMux l ss es) s Hs), base_close_run. cbn [fst snd links_ sessions ended].
  destruct (closed (peer s)) eqn:Hc; destruct (close_returns (peer s)) eqn:Hr; try done.
Qed.

(** [err] and then [base.Close()], whose error is dropped. *)
Lemma then_close_run i w s (r : result unit) :
  sessions w !! i = Some s →
  let v := (ignore (mux_base_Close i);; (of_result r : M mux unit)) w in
  elsewhere i w v.1 ∧
  ((close_returns (peer s) = true ∧ v.2 = match r with Ok x => Val x | Err e => Fail e end ∧
    session_gone i s v.1) ∨
   (close_returns (peer s) = false ∧ v.2 = Blocks)).
Proof.
  intros Hs. cbv zeta. unfold ignore, try, mbind, M_bind. rewrite (mux_base_Close_run i w s Hs).
  assert (∀ e : bool, elsewhere i w (mkMux (links_ w) (<[i := with_peer (mark_closed (peer s)) s]> (sessions w))
    (if closed (peer s) then ended w else if e then {[i]} ∪ ended w else ended w))) as He.
  { intros e. split; [done|]. intros j Hj. cbn. rewrite lookup_insert_ne by done. split; [done|].
    destruct (closed (peer s)), e; set_solver. }
  specialize (He (close_returns (peer s))). destruct (close_returns (peer s)) eqn:Hr; cbn.
  - split; [by destruct r|]. left. split_and!; [done|by destruct r|].
    assert (session_gone i s (mkMux (links_ w) (<[i := with_peer (mark_closed (peer s)) s]> (sessions w))
      (if closed (peer s) then ended w else {[i]} ∪ ended w))) as Hg; [|by destruct r].
    split; [eexists; split; [apply lookup_insert_eq|done]|]. intros ->. cbn. set_solver.
  - split; [exact He|]. by right.
Qed.

(** Numbers of streams are given out once. *)
Definition mux_wf w : Prop :=
  links_wf (links_ w) ∧ ∀ i, is_Some (sessions w !! i) → (i < next_link (links_ w))%nat.

Lemma Leave_send_run s :
  Leave_send s =
  if connected s then
    match Serialize (ser s) (NewGoodBye CloseCloseRealm ∅) with
    | Ok d => (with_peer (Write d (peer s)).1 s, (Write d (peer s)).2)
    | Err e => (s, Fail e)
    end
  else (s, Fail "cannot leave: session not established").
Proof.
  unfold Leave_send, require_connected, send_message, serialize, base_write.
  destruct (connected s) eqn:Hc.
  - erewrite bind_Val by (erewrite bind_Val by done; by rewrite Hc).
    destruct (Serialize _ _) as [d|e] eqn:Hd.
    + erewrite bind_Val by (erewrite bind_Val by done; by rewrite Hd). by rewrite zoom_run.
    + by erewrite bind_Fail by (erewrite bind_Val by done; by rewrite Hd).
  - by erewrite bind_Fail by (erewrite bind_Val by done; by rewrite Hc).
Qed.

#[local] Ltac leave_fails Hsame Hfail e :=
  let Ht := fresh "Ht" in
  cbn [fst snd]; rewrite ?Hsame; destruct (Hfail e) as [? Ht];
  destruct ((ignore _;; fail e) _) as [? ?]; cbn [fst snd] in *; intros [= <- <-]; split; [done|];
  destruct Ht as [[-> ?]|[-> ?]]; [done|by right].

Lemma mux_OpenSession_run name sess opened st realm config w :
  mux_wf w →
  match mux_OpenSession name sess opened st realm config w with
  | (w', Val new) =>
      ms_conn new = ms_conn sess ∧ sessions w !! ms_stream new = None ∧
      open_streams (links_ w) !! ms_stream new = None ∧
      open_streams (links_ w') = <[ms_stream new := ms_conn sess]> (open_streams (links_ w)) ∧
      open_conns (links_ w') = open_conns (links_ w) ∧ ended w' = ended w ∧
      sessions w' = <[ms_stream new := NewSession (ms_peer new) (ms_serializer new)]> (sessions w)
  | (w', _) => sessions w' = sessions w ∧ ended w' = ended w ∧ open_conns (links_ w') = open_conns (links_ w)
  end.
Proof.
  intros [Hwf Hlt].
  unfold mux_OpenSession, on_links, OpenSession. rewrite bind_effect, zoom_run.
  pose proof (open_session_run frames name (ms_conn sess) opened st realm config (links_ w)) as Ho.
  destruct (open_session _ _ _ _ _ _ _ _) as [l' [new|e|why|]]; cbn [fst snd];
    try (destruct Ho as [->| ->]; by split_and!).
  destruct Ho as (Hc & Hn & ->). unfold modify, mbind, M_bind, mret, M_ret. cbn. rewrite Hc, Hn. split_and!; try done.
  + apply eq_None_not_Some. intros Hi%Hlt. lia.
  + apply eq_None_not_Some. intros [c Hi]. destruct Hwf as [Hst _]. destruct (Hst _ _ Hi). lia.
Qed.

Lemma mux_Close_send_run i s w :
  sessions w !! i = Some s →
  elsewhere i w (mux_Close_send i w).1 ∧
  match mux_Close_send i w with
  | (w', Val _) => connected s = true ∧ closed (peer s) = false ∧ ended w' = ended w ∧
    ∃ d, Serialize (ser s) (NewGoodBye CloseCloseRealm ∅) = Ok d ∧
      sessions w' !! i = Some (with_peer (push d (peer s)) s)
  | (w', Fail _) => session_gone i s w'
  | (_, Blocks) => chan_full (peer s) = true ∨ close_returns (peer s) = false
  | (_, Crash _) => False
  end.
Proof.
  intros Hs.
  assert (with_peer (peer s) s = s) as Hsame by by destruct s.
  set (w1 := mkMux (links_ w) (<[i:=s]> (sessions w)) (ended w)).
  assert (∀ e, let v := (ignore (mux_base_Close i);; (fail e : M mux unit)) w1 in
    elsewhere i w v.1 ∧ (v.2 = Fail e ∧ session_gone i s v.1 ∨
      v.2 = Blocks ∧ close_returns (peer s) = false)) as Hfail.
  { intros e. destruct (then_close_run i w1 s (Err e)) as [Hels Ht]; [apply lookup_insert_eq|].
    cbv zeta. split; [|destruct Ht as [(_ & ? & ?)|[? ?]]; auto].
    eapply mux_elsewhere_trans; [|exact Hels]. split; [done|]. intros j Hj. cbn. by rewrite lookup_insert_ne. }
  destruct (mux_Close_send i w) as [w' v] eqn:E. cbn [fst]. revert E.
  unfold mux_Close_send. unfold try at 1, mbind at 1, M_bind at 1.
  rewrite (of_session_run i _ w s Hs), Leave_send_run.
  destruct (connected s); [|leave_fails Hsame Hfail "cannot leave: session not established"].
  destruct (Serialize (ser s) _) as [d|e] eqn:Hd; [|leave_fails Hsame Hfail e].
  rewrite Write_run. destruct (fits (peer s) d); [|leave_fails Hsame Hfail (too_large (blen d))].
  destruct (closed (peer s)) eqn:Hc; [leave_fails Hsame Hfail ErrClosedPipe|].
  destruct (chan_full (peer s)) eqn:Hf; intros [= <- <-].
  all: (split; [split; [done|]; intros j Hj; cbn; by rewrite lookup_insert_ne|]).
  + by left.
  + split_and!; [done..|]. exists d. split; [done|]. apply lookup_insert_eq.
Qed.

Lemma mux_Close_wait_run i s ev w :
  sessions w !! i = Some s →
  elsewhere i w (mux_Close_wait i ev w).1 ∧
  match mux_Close_wait i ev w with
  | (w', Val _) => ev = OnResponse ∧ goodbyeChan s = true ∧ session_gone i s w'
  | (w', Fail e) => ev = OnTimeout ∧ e = "leave timeout" ∧ session_gone i s w'
  | (_, Blocks) => (ev ≠ OnTimeout ∧ (ev = OnResponse → goodbyeChan s = false)) ∨
      close_returns (peer s) = false
  | (_, Crash _) => False
  end.
Proof.
  intros Hs.
  assert (∃ s1 v, Leave_wait ev s = (s1, v) ∧ peer s1 = peer s ∧
    (v = Val tt ∧ ev = OnResponse ∧ goodbyeChan s = true ∨
     v = Fail "leave timeout" ∧ ev = OnTimeout ∨
     v = Blocks ∧ ev ≠ OnTimeout ∧ (ev = OnResponse → goodbyeChan s = false))) as (s1 & v & Hv & Hp & Hcase).
  { destruct ev; cbn; try (by eexists _, _; split_and!; [done..|right; right]).
    - destruct (goodbyeChan s); eexists _, _; (split_and!; [done..|]); [by left|by right; right].
    - eexists _, _. split_and!; [done..|]. by right; left. }
  destruct (mux_Close_wait i ev w) as [w' v'] eqn:E. cbn [fst]. revert E.
  unfold mux_Close_wait. unfold try at 1, mbind at 1, M_bind at 1.
  rewrite (of_session_run i _ w s Hs), Hv. cbn [fst snd].
  set (w1 := mkMux _ _ _).
  assert (elsewhere i w w1) as Hw1
    by (split; [done|]; intros j Hj; cbn; by rewrite lookup_insert_ne).
  assert (sessions w1 !! i = Some s1) as Hs1 by apply lookup_insert_eq.
  assert (∀ r : result unit, let v := (ignore (mux_base_Close i);; (of_result r : M mux unit)) w1 in
    elsewhere i w v.1 ∧
    (v.2 = match r with Ok x => Val x | Err e => Fail e end ∧ session_gone i s v.1 ∨
     v.2 = Blocks ∧ close_returns (peer s) = false)) as Hr.
  { intros r. destruct (then_close_run i w1 s1 r Hs1) as [Hels Ht]. unfold session_gone in *.
    rewrite Hp in *. split; [by eapply mux_elsewhere_trans|]. destruct Ht as [(_ & ? & ?)|[? ?]]; auto. }
  destruct Hcase as [(-> & -> & Hg)|[(-> & ->)|(-> & Hne & Hno)]]; cbn [fst snd].
  + destruct (Hr (Ok tt)) as [Hels Ht]. destruct ((ignore _;; _) w1) as [w2 v2]. cbn [fst snd] in *.
    intros [= <- <-]. split; [done|]. destruct Ht as [[-> ?]|[-> ?]]; [done|by right].
  + destruct (Hr (Err "leave timeout")) as [Hels Ht]. destruct ((ignore _;; _) w1) as [w2 v2].
    cbn [fst snd] in *. intros [= <- <-]. split; [done|]. destruct Ht as [[-> ?]|[-> ?]]; [done|by right].
  + intros [= <- <-]. split; [done|]. by left.
Qed.

(** C23. Sessions share a connection and nothing else.  [OpenSession] puts a session on
    a stream of its own.  [Close] says goodbye on the stream of its session, or returns
    the error; when it returns, whatever became of the GOODBYE, its peer is closed and,
    if it was open, the write side of its stream ended.  It waits where the queue of its
    peer is full, for the answer, and for the writer of its peer.  No other session or
    stream is touched, nor the connection. *)
Theorem sessions_share_a_connection name sess opened st realm config w :
  mux_wf w →
  (match mux_OpenSession name sess opened st realm config w with
   | (w', Val new) =>
       ms_conn new = ms_conn sess ∧ sessions w !! ms_stream new = None ∧
       open_streams (links_ w) !! ms_stream new = None ∧
       open_streams (links_ w') = <[ms_stream new := ms_conn sess]> (open_streams (links_ w)) ∧
       open_conns (links_ w') = open_conns (links_ w) ∧ ended w' = ended w ∧
       sessions w' = <[ms_stream new := NewSession (ms_peer new) (ms_serializer new)]> (sessions w)
   | (w', _) => sessions w' = sessions w ∧ ended w' = ended w ∧ open_conns (links_ w') = open_conns (links_ w)
   end) ∧
  ∀ i s, sessions w !! i = Some s →
    (elsewhere i w (mux_Close_send i w).1 ∧
     match mux_Close_send i w with
     | (w', Val _) => connected s = true ∧ closed (peer s) = false ∧ ended w' = ended w ∧
         ∃ d, Serialize (ser s) (NewGoodBye CloseCloseRealm ∅) = Ok d ∧
           sessions w' !! i = Some (with_peer (push d (peer s)) s)
     | (w', Fail _) => session_gone i s w'
     | (_, Blocks) => chan_full (peer s) = true ∨ close_returns (peer s) = false
     | (_, Crash _) => False
     end) ∧
    ∀ ev, elsewhere i w (mux_Close_wait i ev w).1 ∧
     match mux_Close_wait i ev w with
     | (w', Val _) => ev = OnResponse ∧ goodbyeChan s = true ∧ session_gone i s w'
     | (w', Fail e) => ev = OnTimeout ∧ e = "leave timeout" ∧ session_gone i s w'
     | (_, Blocks) => (ev ≠ OnTimeout ∧ (ev = OnResponse → goodbyeChan s = false)) ∨
         close_returns (peer s) = false
     | (_, Crash _) => False
     end.
Proof.
  intros Hwf. split; [by apply mux_OpenSession_run|]. intros i s Hs.
  split; [by apply mux_Close_send_run|]. intros ev. by apply mux_Close_wait_run.
Qed.

End MuxSessions.
