(* ===== verification/EndToEnd.v ===== *)
(** * Sessions that meet at a router (session.go, server.go, realm.go, peer.go)

    A client's session and the base session of a router are the two ends of a
    connection.  The state here is a router with the sessions of its clients,
    each under the pointer of its base session; [uplink] and [downlink] move one
    payload over a connection, in either direction, to the goroutine that reads
    it.  The theorems follow calls and publications through all of them. *)

From stdpp Require Import functions.
From S2P Require Import Prelude GoStd Wamp Values Accessors Permissions Peers Acceptor Realm Router Server Session.

Local Open Scope string_scope.

Section EndToEnd.
Context `{WampMessages} `{!WampSerializers} `{!WampHandshake} `{!WampRouting} `{WampConstants} `{FloatConv} `{FmtV}
  `{MapRange} `{LogLevels}.

Record System := mkSystem { router : RouterW; sessions : nat → Session }.

Definition on_router_side {A} : M RouterW A → M System A :=
  zoom router (λ w y, mkSystem w (sessions y)).

(** A call of the user of a session, or of one of its goroutines. *)
Definition on_client_side {A} (base : BaseSession) : M Session A → M System A :=
  zoom (λ y, sessions y (ref base)) (λ s y, mkSystem (router y) (<[ref base := s]> (sessions y))).

(** The writer goroutine takes the oldest payload. *)
Definition dequeue (p : Peer) : Peer :=
  mkPeer (transportType p) (tail (writeChan p)) (chan_cap p) (closed p) (stalled p).

Definition dequeue_at (base : BaseSession) (w : RouterW) : RouterW :=
  let b := sess w (ref base) in
  mkRouterW (rt w) (heap w)
    (<[ref base := mkBase (dequeue (client b)) (serializer b) (publishLogs b) (topic b) (tracker b)
         (logged b)]> (sess w))
    (next_session w) (spawned w) (log_level w).

(** A round of the loop of [HandleClient]. *)
Definition serve_round (base : BaseSession) (r : result string) : M RouterW unit :=
  msg ← try (read_message base r);
  match msg with
  | Err _ => ignore (DetachClient base)
  | Ok msg => ignore (ReceiveMessage base msg)
  end.

(** The oldest payload of the client is read by the router; a read of an empty
    connection goes on waiting. *)
Definition uplink (base : BaseSession) : M System unit :=
  queue ← get (λ y, writeChan (peer (sessions y (ref base))));
  match queue with
  | [] => mret tt
  | payload :: _ =>
      on_client_side base (modify (λ s, with_peer (dequeue (peer s)) s));;
      on_router_side (serve_round base (Ok payload))
  end.

(** The oldest payload of the router is read by the client. *)
Definition downlink (base : BaseSession) : M System unit :=
  queue ← get (λ y, writeChan (client (sess (router y) (ref base))));
  match queue with
  | [] => mret tt
  | payload :: _ =>
      on_router_side (modify (dequeue_at base));; on_client_side base (reader_step (Ok payload))
  end.

(** A call from its request to its response: the invocation is served by a handler
    that returns [res]. *)
Definition remote_call (caller callee : BaseSession) (id : Z) (call : Message) (invocation : Z)
    (res : InvocationResult) : M System CallResponse.CallResponse :=
  c ← on_client_side caller (call_send id call);
  uplink caller;; downlink callee;;
  on_client_side callee (finish_invocation invocation false res);;
  uplink callee;; downlink caller;;
  on_client_side caller (waitForCallResult id c OnResponse OnResponse "").

(** A publication, and the reads of some of its recipients. *)
Definition remote_publish (publisher : BaseSession) (id : Z) (topic : string) (args : list any)
    (kwargs options : dict) (readers : list BaseSession) : M System unit :=
  ignore (on_client_side publisher (publish_send id topic args kwargs options));;
  uplink publisher;; for_M downlink readers.

End EndToEnd.

(** ** What the steps do *)

Section EndToEndSpec.
Context `{WampMessagesOk} `{!WampSerializers} `{!WampHandshake} `{!WampRouting} `{!WampRoutingOk} `{WampConstants}
  `{FloatConv} `{FmtV} `{MapRange} `{LogLevels}.

Implicit Types (y : System) (w : RouterW) (a b c : BaseSession) (s : Session).

Definition idle (p : Peer) : Prop :=
  writeChan p = [] ∧ closed p = false ∧ (0 < chan_cap p)%nat.

(** What becomes of a message: it is serialized, taken by the transport, and parsed. *)
Definition travels (p : Peer) (from to : Serializer) (sent got : Message) : Prop :=
  ∃ payload, Serialize from sent = Ok payload ∧ fits p payload = true ∧ Deserialize to payload = Ok got.

Lemma fits_push p d d' : fits (push d p) d' = fits p d'.
Proof. done. Qed.

Lemma dequeue_push p d : writeChan p = [] → dequeue (push d p) = p.
Proof. by destruct p; simpl; intros ->. Qed.

Lemma Write_idle p d : idle p → fits p d = true → Write d p = (push d p, Val tt).
Proof.
  intros (Hq & Hc & Hcap) Hf. rewrite Write_run, Hf, Hc. unfold chan_full.
  rewrite bool_decide_false; [done|]. rewrite Hq. simpl. lia.
Qed.

(** The state of a connection: the client's session, and the peer and the serializer
    of the base session. *)
Definition at_ends y b s (p : Peer) (z : Serializer) : Prop :=
  sessions y (ref b) = s ∧ client (sess (router y) (ref b)) = p ∧
  serializer (sess (router y) (ref b)) = z.

Definition realm_of y (name : string) (q : nat) (r : Realm) : Prop :=
  realms (rt (router y)) !! name = Some q ∧ heap (router y) !! q = Some r.

(** The steps change the connections they are about, and no others. *)
Definition elsewhere (bs : list BaseSession) y y' : Prop :=
  ∀ i, i ∉ map ref bs → sessions y' i = sessions y i ∧ sess (router y') i = sess (router y) i.

Lemma on_client_side_run {A} b (m : M Session A) y s s' p z v :
  at_ends y b s p z → m s = (s', v) →
  ∃ y', on_client_side b m y = (y', v) ∧ at_ends y' b s' p z ∧ router y' = router y ∧
    elsewhere [b] y y'.
Proof.
  intros (Hs & Hp & Hz) Hm. unfold on_client_side. rewrite zoom_run, Hs, Hm. eexists.
  split_and!; [done| |done|].
  - by split_and!; [apply fn_lookup_insert|..].
  - intros i Hi. split; [|done]. apply fn_lookup_insert_ne. set_solver.
Qed.

Lemma TryWrite_idle m (x : base_session) d :
  idle (client x) → Serialize (serializer x) m = Ok d → fits (client x) d = true →
  ∃ x', TryWriteMessage m x = (x', Val true) ∧ client x' = push d (client x) ∧
    serializer x' = serializer x.
Proof.
  intros (Hq & Hc & Hcap) Hs Hf. simpl. rewrite base_TryWriteMessage_run, Hs.
  unfold on_client. rewrite zoom_run, TryWrite_run.
  destruct (publish_log_keeps true m x) as [-> Hser]. rewrite Hf, Hc. unfold chan_full.
  rewrite bool_decide_false by (rewrite Hq; simpl; lia). eexists. split_and!; [done|done|]. exact Hser.
Qed.

(** The messages for the dealer that a realm does not refuse. *)
Definition for_dealer (r : Realm) b (msg : Message) : Prop :=
  match view msg with
  | VCall call => permitted r b msg (call_procedure call) = true
  | VError _ => True
  | _ => Message_Type msg = MessageTypeYield
  end.

Lemma for_dealer_run b msg (w : RealmW (St := base_session)) :
  for_dealer (rlm w) b msg → Realm.ReceiveMessage b msg w = handleDealerBoundMessage b msg w.
Proof.
  unfold for_dealer. destruct (view msg) as [call| | | | | | | | | | | | | |e| |] eqn:Hv; intros Hf;
    try (unfold Realm.ReceiveMessage; rewrite Hf; types_decide; done).
  - rewrite (ReceiveMessage_checked _ _ (call_procedure call) (call_id call) true)
      by (unfold permission_needed; by rewrite Hv).
    unfold route. by rewrite Hf, Hv.
  - unfold Realm.ReceiveMessage. rewrite (view_type_of msg _ _ Hv eq_refl). by types_decide.
Qed.

(** A message that the dealer forwards ends in the queue of its recipient. *)
Lemma router_forwards b msg w q r dl i m c x :
  realms (rt w) !! Realm_ b = Some q → heap w !! q = Some r → for_dealer r b msg →
  Dealer_ReceiveMessage (ID b) msg (dealer r) =
    (dl, Val (Some {| mt_recipient := i; mt_message := m |})) →
  clients r !! i = Some c → TryWriteMessage m (sess w (ref c)) = (x, Val true) →
  Router.ReceiveMessage b msg w =
    (mkRouterW (count_message (rt w)) (<[q := set_dealer dl r]> (heap w))
       (<[ref c := x]> (sess w)) (next_session w) (spawned w) (log_level w), Val tt).
Proof.
  intros Hq Hr Hf Hd Hc Hw. unfold Router.ReceiveMessage. rewrite with_realm_run, Hq, bind_effect.
  rewrite (at_ptr_run _ _ _ _ Hr), for_dealer_run by done.
  assert (handleDealerBoundMessage b msg (mkW r (sess w)) =
    (mkW (set_dealer dl r) (<[ref c := x]> (sess w)), Val tt)) as ->; [|done].
  unfold handleDealerBoundMessage. erewrite bind_Val by (unfold on_dealer; rewrite zoom_run; simpl; by rewrite Hd).
  cbv iota. erewrite bind_Val by done. cbn [rlm clients set_dealer mt_recipient]. rewrite Hc.
  erewrite bind_Val by (rewrite on_session_run; simpl; simpl in Hw; by rewrite Hw). done.
Qed.

Lemma count_message_realms (r : Router) : realms (count_message r) = realms r.
Proof. unfold count_message. by destruct (trackingMsg r). Qed.

Lemma read_round_run b payload msg w :
  Deserialize (serializer (sess w (ref b))) payload = Ok msg →
  read_message b (Ok payload) w =
    (mkRouterW (rt w) (heap w) (<[ref b := publish_log false msg (sess w (ref b))]> (sess w))
       (next_session w) (spawned w) (log_level w), Val msg).
Proof.
  intros Hd. rewrite read_message_run. unfold base_ReadMessage.
  erewrite bind_Val by done. erewrite bind_Val by done. rewrite Hd. by erewrite bind_Val by done.
Qed.

(** The router's side of an uplink, whatever the message. *)
Lemma uplink_run b y s p z payload rest msg :
  at_ends y b s p z → writeChan (peer s) = payload :: rest → Deserialize z payload = Ok msg →
  ∃ y1, uplink b y = on_router_side (ignore (Router.ReceiveMessage b msg)) y1 ∧
    at_ends y1 b (with_peer (dequeue (peer s)) s) p z ∧
    rt (router y1) = rt (router y) ∧ heap (router y1) = heap (router y) ∧ elsewhere [b] y y1.
Proof.
  intros (Hs & Hp & Hz) Hq Hd. unfold uplink. erewrite bind_Val by done. rewrite Hs, Hq.
  unfold on_client_side. erewrite bind_Val by (rewrite zoom_run, Hs; reflexivity).
  set (y0 := mkSystem _ _).
  eexists (mkSystem (mkRouterW _ _ _ _ _ _) (sessions y0)). split.
  - unfold on_router_side. rewrite !zoom_run. unfold serve_round.
    rewrite (bind_Val _ _ _ _ _ (try_Val _ _ _ _ (read_round_run b payload msg (router y0) ltac:(by rewrite <-Hd, <-Hz)))).
    reflexivity.
  - unfold at_ends, y0, elsewhere. cbn [router sessions sess rt heap]. rewrite !fn_lookup_insert.
    destruct (publish_log_keeps false msg (sess (router y) (ref b))) as [-> ->].
    split_and!; [done..|]. intros i Hi. by rewrite !fn_lookup_insert_ne by set_solver.
Qed.

Lemma uplink_forwards a c y s p z payload rest msg q r dl i m sc pc zc d :
  at_ends y a s p z → at_ends y c sc pc zc → ref a ≠ ref c →
  writeChan (peer s) = payload :: rest → Deserialize z payload = Ok msg →
  realm_of y (Realm_ a) q r → for_dealer r a msg →
  Dealer_ReceiveMessage (ID a) msg (dealer r) =
    (dl, Val (Some {| mt_recipient := i; mt_message := m |})) →
  clients r !! i = Some c → idle pc → Serialize zc m = Ok d → fits pc d = true →
  ∃ y', uplink a y = (y', Val tt) ∧ at_ends y' a (with_peer (dequeue (peer s)) s) p z ∧
    at_ends y' c sc (push d pc) zc ∧ realm_of y' (Realm_ a) q (set_dealer dl r) ∧
    elsewhere [a; c] y y'.
Proof.
  intros Ha (Hsc & Hpc & Hzc) Hne Hq Hd [Hrt Hh] Hf Hdl Hc Hidle Hser Hfit.
  destruct (uplink_run a y s p z payload rest msg Ha Hq Hd) as (y1 & -> & (Hs1 & Hp1 & Hz1) & Hrt1 & Hh1 & He).
  destruct (He (ref c)) as [Hes Heb]; [set_solver|].
  destruct (TryWrite_idle m (sess (router y1) (ref c)) d) as (x & Hx & Hxp & Hxz);
    [by rewrite Heb, Hpc|by rewrite Heb, Hzc|by rewrite Heb, Hpc|].
  rewrite <-Hrt1 in Hrt. rewrite <-Hh1 in Hh.
  pose proof (router_forwards a msg (router y1) q r dl i m c x Hrt Hh Hf Hdl Hc Hx) as Hrun.
  unfold on_router_side. rewrite zoom_run, ignore_run_at by (left; eexists; by rewrite Hrun).
  rewrite Hrun. cbn [fst snd]. eexists. split; [done|].
  unfold at_ends, realm_of, elsewhere. cbn [router sessions sess rt heap].
  rewrite count_message_realms, fn_lookup_insert, lookup_insert_eq, fn_lookup_insert_ne by done.
  rewrite Hxp, Hxz, Hes, Heb, Hpc, Hzc. split_and!; [done..|].
  intros j Hj. rewrite fn_lookup_insert_ne by set_solver. apply He. set_solver.
Qed.

Lemma downlink_run b y s p z payload rest s' v :
  at_ends y b s p z → writeChan p = payload :: rest → reader_step (Ok payload) s = (s', v) →
  ∃ y', downlink b y = (y', v) ∧ at_ends y' b s' (dequeue p) z ∧
    rt (router y') = rt (router y) ∧ heap (router y') = heap (router y) ∧ elsewhere [b] y y'.
Proof.
  intros (Hs & Hp & Hz) Hq Hr. unfold downlink. erewrite bind_Val by done. rewrite Hp, Hq.
  unfold on_router_side. erewrite bind_Val by (rewrite zoom_run; reflexivity).
  unfold on_client_side. rewrite zoom_run. cbn [sessions]. rewrite Hs, Hr. eexists. split; [done|].
  unfold at_ends, dequeue_at, elsewhere. cbn [router sessions sess rt heap modify fst snd].
  rewrite !fn_lookup_insert. cbn [client serializer]. rewrite Hp. split_and!; [done..|].
  intros i Hi. by rewrite !fn_lookup_insert_ne by set_solver.
Qed.

(** ** What the ends of a call do *)

Definition pending (id : Z) s : nat * Session :=
  let c := fresh (dom (chans s)) in
  (c, store_request KCall id c (with_chans (<[c := None]> (chans s)) s)).

Lemma call_send_idle id m s d :
  connected s = true → idle (peer s) → Serialize (ser s) m = Ok d → fits (peer s) d = true →
  call_send id m s = (with_peer (push d (peer s)) (pending id s).2, Val (pending id s).1).
Proof.
  intros Hc Hi Hs Hf. unfold call_send, require_connected.
  erewrite bind_Val by (erewrite bind_Val by done; by rewrite Hc).
  rewrite request_run, Hs. cbv zeta. by rewrite (Write_idle _ _ Hi Hf).
Qed.

(** A message that the session's reader handles without an error. *)
Lemma reader_step_run payload msg s s' :
  reading s = true → Deserialize (ser s) payload = Ok msg →
  processIncomingMessage msg s = (s', Val tt) → reader_step (Ok payload) s = (s', Val tt).
Proof.
  intros Hr Hd Hp. unfold reader_step. erewrite bind_Val by done. rewrite Hr. unfold read_round.
  erewrite bind_Val by done. rewrite Hd. by rewrite (bind_Val _ _ _ _ _ (try_Val _ _ _ _ Hp)).
Qed.

(** What nothing but the reader, a disconnection and the user changes. *)
Definition same_connection s s' : Prop :=
  peer s' = peer s ∧ ser s' = ser s ∧ reading s' = reading s ∧ connected s' = connected s.

Definition plain (iv : invocation_msg) : Prop :=
  bool_at OptionProgress (invocation_details iv) = false ∧
  bool_at OptionReceiveProgress (invocation_details iv) = false.

Lemma invocation_run msg iv h s :
  view msg = VInvocation iv → plain iv →
  registrations s !! invocation_registration iv = Some h →
  ∃ s', processIncomingMessage msg s = (s', Val tt) ∧ same_connection s s' ∧
    effects s' = (effects s ++ [Invoke h (invocation_id iv) false
      (Invocation.NewInvocation (invocation_args iv) (invocation_kwargs iv) (invocation_details iv))])%list.
Proof.
  intros Hv [Hp Hrp] Hh. unfold processIncomingMessage. rewrite Hv. unfold handle_invocation.
  erewrite bind_Val by done. rewrite Hh. cbv zeta. rewrite Hp, Hrp. cbn [andb negb].
  erewrite bind_Val by done. erewrite bind_Val by done. erewrite bind_Val by done.
  erewrite bind_Val by done. eexists. split; [reflexivity|]. by split.
Qed.

(** What the goroutine of an invocation sends for a result. *)
Definition invocation_answer (id : Z) (res : InvocationResult) : Message :=
  if bool_decide (res_Err res = "") then NewYield id ∅ (res_Args res) (res_Kwargs res)
  else NewError MessageTypeInvocation id ∅ (res_Err res) (res_Args res) (res_Kwargs res).

Lemma finish_invocation_run id res s d :
  res_Err res ≠ ErrNoResult → idle (peer s) → Serialize (ser s) (invocation_answer id res) = Ok d →
  fits (peer s) d = true →
  ∃ s', finish_invocation id false res s = (with_peer (push d (peer s')) s', Val tt) ∧
    same_connection s s' ∧ effects s' = (effects s ++ [CancelContext id])%list.
Proof.
  intros He Hi Hs Hf. unfold finish_invocation. rewrite bool_decide_false by done. cbv zeta.
  assert (send_message (invocation_answer id res) s = (with_peer (push d (peer s)) s, Val tt)) as Hsend.
  { unfold send_message. erewrite bind_Val by (rewrite serialize_run, Hs; reflexivity).
    unfold base_write. by rewrite zoom_run, (Write_idle _ _ Hi Hf). }
  erewrite bind_Val.
  2: { unfold ignore. erewrite bind_Val; [reflexivity|]. apply try_Val. rewrite <-Hsend.
       unfold invocation_answer. by destruct (bool_decide (res_Err res = "")). }
  erewrite bind_Val by done.
  exists (add_effect (CancelContext id) (with_cancels (invocationCancels s ∖ {[id]}) s)). by split.
Qed.

(** The answer to a call, and what the call returns. *)
Definition call_outcome (ans : Message) : exec CallResponse.CallResponse :=
  match view ans with
  | VResult m => Val (call_response m)
  | VError e => Fail (Error.Error_ (Error.of_msg e))
  | _ => Blocks
  end.

Definition answers_call (id : Z) (ans : Message) : Prop :=
  match view ans with
  | VResult m => result_id m = id ∧ bool_at OptionProgress (result_details m) = false
  | VError e => error_type e = MessageTypeCall ∧ error_id e = id
  | _ => False
  end.

Lemma chan_send_run (n : nat) r s :
  chans s !! n = Some None → chan_send n r s = (with_chans (<[n := Some r]> (chans s)) s, Val tt).
Proof. intros Hn. unfold chan_send. by rewrite Hn. Qed.

Lemma call_answer_run id (n : nat) r s :
  chans s !! n = Some (Some r) →
  call_answer id n s =
    (drop_request KCall id (with_chans (<[n := None]> (chans s)) s),
     match r with
     | RResult m => Val (call_response m)
     | RError e => Fail (Error.Error_ e)
     | _ => Crash "interface conversion"
     end).
Proof.
  intros Hn. unfold call_answer. unfold chan_receive. erewrite bind_Val; [|rewrite Hn; reflexivity].
  erewrite bind_Val by done. by destruct r.
Qed.

Lemma call_answered id ans s (c : nat) :
  answers_call id ans → requests s KCall !! id = Some c → chans s !! c = Some None →
  ∃ s' s'', processIncomingMessage ans s = (s', Val tt) ∧ same_connection s s' ∧ effects s' = effects s ∧
    waitForCallResult id c OnResponse OnResponse "" s' = (s'', call_outcome ans) ∧
    same_connection s s'' ∧ effects s'' = effects s ∧
    ∀ k i, requests s'' k !! i = requests (drop_request KCall id s) k !! i.
Proof.
  unfold answers_call, call_outcome, processIncomingMessage, waitForCallResult.
  destruct (view ans) as [ | | | | | | | | | |m| | | |e| |]; try done.
  - intros [<- Hp] Hc Hch. unfold handle_result. erewrite bind_Val by done. rewrite Hc, Hp.
    rewrite (bind_Val _ _ _ _ _ (chan_send_run _ (RResult m) _ Hch)). do 2 eexists.
    split; [reflexivity|]. split; [done|]. split; [done|].
    split; [apply (call_answer_run _ _ (RResult m)), lookup_insert_eq|]. by split_and!.
  - intros [Ht <-] Hc Hch. unfold handle_error. cbv zeta. rewrite Ht. rewrite bool_decide_true by done.
    unfold answer_and_drop. erewrite bind_Val by done. rewrite Hc. erewrite bind_Val by done.
    rewrite chan_send_run by done. do 2 eexists.
    split; [reflexivity|]. split; [done|]. split; [done|].
    split; [apply (call_answer_run _ _ (RError (Error.of_msg e))), lookup_insert_eq|].
    split; [done|]. split; [done|]. intros k i. cbn. destruct (decide (k = KCall)) as [->|Hk].
    + by rewrite !fn_lookup_insert, delete_delete_eq.
    + by rewrite !fn_lookup_insert_ne by done.
Qed.

(** ** Calls *)

(** A connection on which nothing is under way. *)
Definition quiet s (p : Peer) : Prop :=
  idle (peer s) ∧ idle p ∧ reading s = true ∧ connected s = true.

Lemma elsewhere_at_ends bs y y' b s p z :
  elsewhere bs y y' → ref b ∉ map ref bs → at_ends y b s p z → at_ends y' b s p z.
Proof. intros He Hb. destruct (He _ Hb) as [Hs Hx]. unfold at_ends. by rewrite Hs, Hx. Qed.

Lemma elsewhere_trans bs bs' y y' y'' :
  elsewhere bs y y' → elsewhere bs' y' y'' → elsewhere (bs ++ bs') y y''.
Proof.
  intros He He' i Hi. rewrite map_app in Hi. destruct (He i ltac:(set_solver)) as [<- <-].
  apply He'. set_solver.
Qed.

Lemma elsewhere_subset bs bs' y y' :
  elsewhere bs y y' → map ref bs ⊆ map ref bs' → elsewhere bs' y y'.
Proof. intros He Hs i Hi. apply He. set_solver. Qed.

(** A message crosses the router: one client has written it, the dealer forwards
    what becomes of it, and the other client's reader handles that. *)
Lemma crossing a c y s p z q r msg msg' dl m m' sc sc' pc zc :
  at_ends y a (with_peer (push msg (peer s)) s) p z → at_ends y c sc pc zc → ref a ≠ ref c →
  idle (peer s) → idle pc → reading sc = true → realm_of y (Realm_ a) q r →
  Deserialize z msg = Ok msg' → for_dealer r a msg' →
  Dealer_ReceiveMessage (ID a) msg' (dealer r) =
    (dl, Val (Some {| mt_recipient := ID c; mt_message := m |})) →
  clients r !! ID c = Some c → travels pc zc (ser sc) m m' →
  processIncomingMessage m' sc = (sc', Val tt) →
  ∃ y', (∀ A (k : M System A), (uplink a;; downlink c;; k) y = k y') ∧ at_ends y' a s p z ∧ at_ends y' c sc' pc zc ∧
    realm_of y' (Realm_ a) q (set_dealer dl r) ∧ elsewhere [a; c] y y'.
Proof.
  intros Ha Hc Hne Hi Hic Hread Hr Hd Hf Hdl Hcl (payload & Hs & Hfit & Hd') Hproc.
  destruct (uplink_forwards a c y _ p z msg [] msg' q r dl (ID c) m sc pc zc payload Ha Hc Hne)
    as (y1 & E1 & Ha1 & Hc1 & [Hrt1 Hh1] & He1); try done.
  { simpl. by destruct Hi as [-> _]. }
  destruct (downlink_run c y1 sc _ zc payload [] sc' (Val tt) Hc1) as (y2 & E2 & Hc2 & Hrt2 & Hh2 & He2).
  { simpl. by destruct Hic as [-> _]. }
  { by eapply reader_step_run. }
  rewrite dequeue_push in Hc2 by apply Hic. exists y2. split.
  { intros A k. by rewrite (bind_Val _ _ _ _ _ E1), (bind_Val _ _ _ _ _ E2). }
  split.
  { eapply elsewhere_at_ends; [exact He2|set_solver|].
    assert (with_peer (dequeue (peer (with_peer (push msg (peer s)) s)))
      (with_peer (push msg (peer s)) s) = s) as <-; [|exact Ha1].
    cbn. rewrite dequeue_push by apply Hi. by destruct s. }
  split; [exact Hc2|]. split; [split; congruence|].
  eapply elsewhere_subset; [exact (elsewhere_trans _ _ _ _ _ He1 He2)|set_solver].
Qed.

Lemma same_connection_quiet s s' p : same_connection s s' → quiet s p → quiet s' p.
Proof. unfold quiet. by intros (-> & _ & -> & ->). Qed.

(** C4. A call is answered: the caller's CALL reaches the callee's session as an
    invocation of the procedure registered there, with the arguments that the
    dealer passes on, and what the handler returns, a result or an error, becomes
    what the call returns.  Afterwards the request is not pending any more, both
    connections are as before, and no other connection has changed. *)
Theorem calls_are_answered y a b sa pa za sb pb zb q r id call call' d1 inv inv' iv h res yield
    yield' d2 ans ans' :
  at_ends y a sa pa za → at_ends y b sb pb zb → ref a ≠ ref b → Realm_ b = Realm_ a →
  quiet sa pa → quiet sb pb → realm_of y (Realm_ a) q r →
  clients r !! ID a = Some a → clients r !! ID b = Some b →
  travels (peer sa) (ser sa) za call call' → for_dealer r a call' →
  Dealer_ReceiveMessage (ID a) call' (dealer r) =
    (d1, Val (Some {| mt_recipient := ID b; mt_message := inv |})) →
  travels pb zb (ser sb) inv inv' → view inv' = VInvocation iv → plain iv →
  registrations sb !! invocation_registration iv = Some h →
  res_Err res ≠ ErrNoResult → invocation_answer (invocation_id iv) res = yield →
  travels (peer sb) (ser sb) zb yield yield' → for_dealer r b yield' →
  Dealer_ReceiveMessage (ID b) yield' d1 =
    (d2, Val (Some {| mt_recipient := ID a; mt_message := ans |})) →
  travels pa za (ser sa) ans ans' → answers_call id ans' →
  ∃ y' sa' sb', remote_call a b id call (invocation_id iv) res y = (y', call_outcome ans') ∧
    at_ends y' a sa' pa za ∧ at_ends y' b sb' pb zb ∧ quiet sa' pa ∧ quiet sb' pb ∧
    effects sb' = (effects sb ++
      [Invoke h (invocation_id iv) false
         (Invocation.NewInvocation (invocation_args iv) (invocation_kwargs iv) (invocation_details iv));
       CancelContext (invocation_id iv)])%list ∧
    effects sa' = effects sa ∧
    (∀ k i, requests sa' k !! i = requests (drop_request KCall id sa) k !! i) ∧
    elsewhere [a; b] y y'.
Proof.
  intros Ha Hb Hne Hrealm Hqa Hqb Hr Hcla Hclb
    (p1 & Hs1 & Hf1 & Hd1) Hdeal1 Hdl1 Hinv Hv Hpl Hh Hres <- (p2 & Hs2 & Hf2 & Hd2) Hdeal2 Hdl2 Hans Hanswer.
  pose proof Hqa as (Hia & Hipa & Hra & Hca). pose proof Hqb as (Hib & Hipb & Hrb & Hcb).
  unfold remote_call.
  destruct (on_client_side_run a _ y sa _ pa za _ Ha (call_send_idle id call sa p1 Hca Hia Hs1 Hf1))
    as (y1 & E1 & Ha1 & Hr1 & Ho1). rewrite (bind_Val _ _ _ _ _ E1).
  destruct (invocation_run inv' iv h sb Hv Hpl Hh) as (sb1 & Hproc & Hsame & Heff).
  pose proof Hsame as (Hpb1 & Hzb1 & Hrb1 & Hcb1).
  edestruct (crossing a b y1 (pending id sa).2 pa za q r p1 call' d1 inv inv' sb sb1 pb zb)
    as (y2 & E2 & Ha2 & Hb2 & Hr2 & Ho2); try done.
  { eapply elsewhere_at_ends; [exact Ho1|set_solver|done]. }
  { unfold realm_of. by rewrite Hr1. }
  rewrite E2. destruct (finish_invocation_run (invocation_id iv) res sb1 p2) as (sb2 & Hfin & Hsame2 & Heff2);
    [done|by rewrite Hpb1|by rewrite Hzb1|by rewrite Hpb1|].
  pose proof Hsame2 as (Hpb2 & Hzb2 & Hrb2 & Hcb2).
  destruct (on_client_side_run b _ y2 sb1 _ pb zb _ Hb2 Hfin) as (y3 & E3 & Hb3 & Hr3 & Ho3).
  rewrite (bind_Val _ _ _ _ _ E3).
  destruct (call_answered id ans' (pending id sa).2 (pending id sa).1 Hanswer) as
    (sa1 & sa2 & Hproc' & Hsame3 & Hea3 & Hwait & Hsame4 & Hea4 & Hreq).
  { cbn. by rewrite fn_lookup_insert, lookup_insert_eq. }
  { cbn. by rewrite lookup_insert_eq. }
  edestruct (crossing b a y3 sb2 pb zb q (set_dealer d1 r) p2 yield' d2 ans ans' (pending id sa).2 sa1 pa za)
    as (y4 & E4 & Hb4 & Ha4 & Hr4 & Ho4); try done.
  { by eapply elsewhere_at_ends; [exact Ho3|set_solver|]. }
  { by rewrite Hpb2, Hpb1. }
  { unfold realm_of. by rewrite Hr3, Hrealm. }
  rewrite E4. destruct (on_client_side_run a _ y4 sa1 _ pa za _ Ha4 Hwait) as (y5 & E5 & Ha5 & Hr5 & Ho5).
  exists y5, sa2, sb2. split; [exact E5|]. split; [exact Ha5|].
  split; [by eapply elsewhere_at_ends; [exact Ho5|set_solver|]|].
  split; [by eapply (same_connection_quiet (pending id sa).2)|].
  split; [by eapply (same_connection_quiet sb1); [|eapply (same_connection_quiet sb)]|].
  split; [by rewrite Heff2, Heff, <-app_assoc|]. split; [by rewrite Hea4|]. split.
  - intros k i. rewrite Hreq. cbn. destruct (decide (k = KCall)) as [->|Hk].
    + by rewrite !fn_lookup_insert, delete_insert_eq.
    + by rewrite !fn_lookup_insert_ne by done.
  - eapply elsewhere_subset;
      [exact (elsewhere_trans _ _ _ _ _ Ho1 (elsewhere_trans _ _ _ _ _ Ho2
         (elsewhere_trans _ _ _ _ _ Ho3 (elsewhere_trans _ _ _ _ _ Ho4 Ho5))))|set_solver].
Qed.

(** ** Publications *)

Lemma publish_send_idle id topic args kwargs options s d :
  connected s = true → idle (peer s) →
  Serialize (ser s) (NewPublish id options topic args kwargs) = Ok d → fits (peer s) d = true →
  ∃ s' v, publish_send id topic args kwargs options s = (with_peer (push d (peer s')) s', Val v) ∧
    peer s' = peer s ∧ effects s' = effects s.
Proof.
  intros Hc Hi Hs Hf. unfold publish_send, require_connected.
  erewrite bind_Val by (erewrite bind_Val by done; by rewrite Hc). cbv zeta.
  destruct (bool_at "acknowledge" options).
  - erewrite bind_Val by (rewrite request_run, Hs; cbv zeta; by rewrite (Write_idle _ _ Hi Hf)).
    set (n := fresh _). exists (store_request KPublish id n (with_chans (<[n := None]> (chans s)) s)).
    eexists. split; [reflexivity|done].
  - unfold send_message. erewrite bind_Val; [by exists s, None|].
    erewrite bind_Val by (rewrite serialize_run, Hs; reflexivity).
    unfold base_write. by rewrite zoom_run, (Write_idle _ _ Hi Hf).
Qed.

Definition deliveries_of (ev : event_msg) (subs : gmap nat nat) : list effect :=
  map (λ sub, Deliver sub.2
    (Event.NewEvent (event_args ev) (event_kwargs ev) (event_details ev))) (range_entries subs).

Lemma event_run msg ev subs s :
  view msg = VEvent ev → subscriptions s !! event_subscription ev = Some subs →
  ∃ s', processIncomingMessage msg s = (s', Val tt) ∧
    effects s' = (effects s ++ deliveries_of ev subs)%list.
Proof.
  intros Hv Hsub. unfold processIncomingMessage. rewrite Hv. unfold handle_event.
  erewrite bind_Val by done. rewrite Hsub. cbv zeta. unfold deliveries_of.
  generalize (range_entries subs) as l. clear Hsub. intros l. revert s.
  induction l as [|e l IH]; intros s; [exists s; by rewrite app_nil_r|]. cbn [for_M map].
  erewrite bind_Val by done. destruct (IH (add_effect (Deliver e.2
    (Event.NewEvent (event_args ev) (event_kwargs ev) (event_details ev))) s)) as (s' & -> & He).
  exists s'. split; [done|]. rewrite He. simpl. by rewrite <-app_assoc.
Qed.

(** A client that gets the event of a publication, and the handlers it has for it. *)
Definition subscriber y (r : Realm) (pub : publication) c (ev : event_msg) (subs : gmap nat nat) : Prop :=
  let s := sessions y (ref c) in
  let x := sess (router y) (ref c) in
  clients r !! ID c = Some c ∧ ID c ∈ p_recipients pub ∧ idle (client x) ∧ reading s = true ∧
  subscriptions s !! event_subscription ev = Some subs ∧
  ∃ msg, travels (client x) (serializer x) (ser s) (p_event pub) msg ∧ view msg = VEvent ev.

(** Its queue holds the event. *)
Definition event_waits y c (ev : event_msg) (subs : gmap nat nat) : Prop :=
  let s := sessions y (ref c) in
  reading s = true ∧ subscriptions s !! event_subscription ev = Some subs ∧
  ∃ payload msg, writeChan (client (sess (router y) (ref c))) = [payload] ∧
    Deserialize (ser s) payload = Ok msg ∧ view msg = VEvent ev.

Lemma downlink_event y c ev subs :
  event_waits y c ev subs →
  ∃ y', downlink c y = (y', Val tt) ∧ elsewhere [c] y y' ∧
    effects (sessions y' (ref c)) = (effects (sessions y (ref c)) ++ deliveries_of ev subs)%list.
Proof.
  intros (Hr & Hs & payload & msg & Hq & Hd & Hv).
  destruct (event_run msg ev subs _ Hv Hs) as (s' & Hrun & He).
  destruct (downlink_run c y (sessions y (ref c)) _ (serializer (sess (router y) (ref c))) payload []
    s' (Val tt) ltac:(by split_and!) Hq) as (y' & E & (Hs' & _) & _ & _ & Ho).
  { by eapply reader_step_run. }
  exists y'. split_and!; [done..|]. by rewrite Hs', He.
Qed.

Lemma event_waits_elsewhere bs y y' c ev subs :
  elsewhere bs y y' → ref c ∉ map ref bs → event_waits y c ev subs → event_waits y' c ev subs.
Proof. intros He Hc. destruct (He _ Hc) as [Hs Hx]. unfold event_waits. by rewrite Hs, Hx. Qed.

(** The reads of the recipients, in any order. *)
Lemma downlink_events cs y :
  NoDup (map ref cs) → (∀ c, c ∈ cs → ∃ ev subs, event_waits y c ev subs) →
  ∃ y', for_M downlink cs y = (y', Val tt) ∧ elsewhere cs y y' ∧
    ∀ c ev subs, c ∈ cs → event_waits y c ev subs →
      effects (sessions y' (ref c)) = (effects (sessions y (ref c)) ++ deliveries_of ev subs)%list.
Proof.
  revert y. induction cs as [|c cs IH]; intros y Hnd Hw.
  { exists y. split_and!; [done| |by intros c ev subs ?%not_elem_of_nil]. by intros i. }
  cbn [map] in Hnd. apply NoDup_cons in Hnd as [Hc Hnd].
  destruct (Hw c ltac:(by left)) as (ev & subs & Hcw).
  destruct (downlink_event y c ev subs Hcw) as (y1 & E & Ho & Heff).
  assert (∀ c' ev subs, c' ∈ cs → event_waits y c' ev subs → event_waits y1 c' ev subs) as Hkeep.
  { intros c' ev' subs' Hin. apply (event_waits_elsewhere _ _ _ _ _ _ Ho). cbn.
    intros Heq%list_elem_of_singleton. apply Hc. rewrite <-Heq. by apply list_elem_of_fmap_2. }
  destruct (IH y1 Hnd) as (y2 & E2 & Ho2 & Hall).
  { intros c' Hin. destruct (Hw c' ltac:(by right)) as (ev' & subs' & ?). eauto. }
  exists y2. cbn [for_M]. rewrite (bind_Val _ _ _ _ _ E). split_and!; [done| |].
  - eapply elsewhere_subset; [exact (elsewhere_trans _ _ _ _ _ Ho Ho2)|set_solver].
  - intros c' ev' subs' [->|Hin]%elem_of_cons Hw'.
    + rewrite (proj1 (Ho2 (ref c) Hc)).
      destruct (downlink_event y c ev' subs' Hw') as (y3 & E3 & _ & <-).
      rewrite E in E3. by injection E3 as <-.
    + rewrite (Hall c' ev' subs' Hin (Hkeep _ _ _ Hin Hw')). f_equal. f_equal. apply Ho.
      cbn. intros Heq%list_elem_of_singleton. apply Hc. rewrite <-Heq. by apply list_elem_of_fmap_2.
Qed.

Lemma router_publishes a msg m w q r br pub :
  realms (rt w) !! Realm_ a = Some q → heap w !! q = Some r →
  view msg = VPublish m → permitted r a msg (publish_topic m) = true →
  Broker_ReceivePublish (ID a) msg (broker r) = (br, Val pub) →
  ∃ w', Router.ReceiveMessage a msg w = (w', Val tt) ∧
    sess w' = net (handlePublish a msg (mkW r (sess w))).1.
Proof.
  intros Hq Hr Hv Hp Hb.
  destruct (handlePublish_run a msg (mkW r (sess w)) br pub Hb) as (Hval & _ & _).
  unfold Router.ReceiveMessage. rewrite with_realm_run, Hq, bind_effect, (at_ptr_run _ _ _ _ Hr).
  rewrite (ReceiveMessage_checked _ _ (publish_topic m) (publish_id m)
    (ToBool (default ANil (publish_options m !! "acknowledge")))) by (unfold permission_needed; by rewrite Hv).
  cbn [rlm]. rewrite Hp. unfold route. rewrite Hv. rewrite Hval. cbn [fst snd]. eexists.
  split; [reflexivity|done].
Qed.

Lemma subscriber_waits y y' r pub c ev subs :
  subscriber y r pub c ev subs → sessions y' (ref c) = sessions y (ref c) →
  outbox (sess (router y') (ref c)) =
    (outbox (sess (router y) (ref c)) ++ queued (sess (router y) (ref c)) (p_event pub))%list →
  event_waits y' c ev subs.
Proof.
  intros (_ & _ & (Hq & Hc & Hcap) & Hread & Hsub & msg & (payload & Hs & Hf & Hd) & Hv) Hsame Hout.
  unfold event_waits. rewrite Hsame. split; [done|]. split; [done|]. exists payload, msg.
  split; [|done]. simpl in Hout. rewrite Hout, Hq. unfold queued. cbn [session_serializer base_session_ops accepts].
  rewrite Hs, Hf, Hc. unfold chan_full. rewrite bool_decide_false by (rewrite Hq; simpl; lia). done.
Qed.

(** C5. A publication is delivered: after the broker has chosen the recipients, the
    readers of any of them, in any order, hand the event once to each handler that
    the client has for its subscription; the publisher's handlers and every client
    that has not read are left alone. *)
Theorem publications_are_delivered y a sa pa za q r id topic args kwargs options msg m br pub readers :
  at_ends y a sa pa za → connected sa = true → idle (peer sa) → realm_of y (Realm_ a) q r →
  travels (peer sa) (ser sa) za (NewPublish id options topic args kwargs) msg →
  view msg = VPublish m → permitted r a msg (publish_topic m) = true →
  Broker_ReceivePublish (ID a) msg (broker r) = (br, Val pub) →
  distinct_refs r → NoDup (p_recipients pub) →
  match p_ack pub with Some k => mt_recipient k ∉ p_recipients pub | None => True end →
  NoDup (map ref (a :: readers)) →
  (∀ c, c ∈ readers → ∃ ev subs, subscriber y r pub c ev subs) →
  ∃ y', remote_publish a id topic args kwargs options readers y = (y', Val tt) ∧
    effects (sessions y' (ref a)) = effects sa ∧
    (∀ c ev subs, c ∈ readers → subscriber y r pub c ev subs →
      effects (sessions y' (ref c)) = (effects (sessions y (ref c)) ++ deliveries_of ev subs)%list) ∧
    ∀ i, i ∉ map ref (a :: readers) → sessions y' i = sessions y i.
Proof.
  intros Ha Hc Hi Hr (d & Hs & Hf & Hd) Hv Hp Hb Hdist Hnd Hack Hndr Hsub. unfold remote_publish.
  destruct (publish_send_idle id topic args kwargs options sa d Hc Hi Hs Hf) as (s1 & v & E & Hp1 & He1).
  destruct (on_client_side_run a _ y sa _ pa za _ Ha E) as (y1 & E1 & Ha1 & Hr1 & Ho1).
  erewrite bind_Val.
  2: { unfold ignore. erewrite bind_Val; [reflexivity|]. by apply try_Val. }
  destruct (uplink_run a y1 _ pa za d [] msg Ha1) as (y2 & E2 & Ha2 & Hrt2 & Hh2 & Ho2); [|done|].
  { cbn. rewrite Hp1. by destruct Hi as [-> _]. }
  destruct Hr as [Hrt Hh]. rewrite <-Hr1, <-Hrt2 in Hrt. rewrite <-Hr1, <-Hh2 in Hh.
  destruct (router_publishes a msg m (router y2) q r br pub Hrt Hh Hv Hp Hb) as (w3 & E3 & Hsess).
  destruct (event_reaches_each_subscriber a msg (mkW r (sess (router y2))) br pub Hb Hdist Hnd Hack)
    as (_ & _ & Hreach). rewrite <-Hsess in Hreach. cbn [rlm net] in Hreach.
  set (y3 := mkSystem w3 (sessions y2)).
  assert (uplink a y1 = (y3, Val tt)) as E4.
  { rewrite E2. unfold on_router_side. rewrite zoom_run, ignore_run_at by (left; eexists; by rewrite E3).
    by rewrite E3. }
  rewrite (bind_Val _ _ _ _ _ E4).
  apply NoDup_cons in Hndr as [Hna Hndr].
  assert (∀ i, i ≠ ref a → sessions y3 i = sessions y i ∧ sess (router y2) i = sess (router y) i) as Hsame.
  { intros i Hi'. destruct (Ho1 i) as [<- <-]; [set_solver|]. apply Ho2. set_solver. }
  assert (∀ c ev subs, c ∈ readers → subscriber y r pub c ev subs → event_waits y3 c ev subs) as Hwait.
  { intros c ev subs Hin Hcs. destruct (Hsame (ref c)) as [Hss Hxx].
    { intros Heq. apply Hna. rewrite <-Heq. by apply list_elem_of_fmap_2. }
    eapply subscriber_waits; [done..|]. rewrite <-Hxx. destruct Hcs as (Hcl & Hrec & _).
    by apply (Hreach _ _ Hcl). }
  destruct (downlink_events readers y3 Hndr) as (y4 & E5 & Ho4 & Hall).
  { intros c Hin. destruct (Hsub c Hin) as (ev & subs & ?). eauto. }
  exists y4. split; [exact E5|]. split; [|split].
  - rewrite (proj1 (Ho4 _ Hna)). destruct Ha2 as (Hs2 & _). cbn [sessions y3]. rewrite Hs2. exact He1.
  - intros c ev subs Hin Hcs. rewrite (Hall c ev subs Hin (Hwait c ev subs Hin Hcs)).
    f_equal. f_equal. apply Hsame. intros Heq. apply Hna. rewrite <-Heq. by apply list_elem_of_fmap_2.
  - intros i Hi'. cbn [map] in Hi'. apply not_elem_of_cons in Hi' as [Hia Hir].
    rewrite (proj1 (Ho4 i Hir)). by apply Hsame.
Qed.

End EndToEndSpec.
