(* ===== verification/Progressive.v ===== *)
(** * Progressive calls (session.go, types.go)

    A call whose arguments come in several messages: the caller's sender makes a
    [Progress] for each, until one that is final. *)

From stdpp Require Import functions.
From S2P Require Import Prelude GoStd Wamp Values Accessors Peers Session.

Local Open Scope string_scope.

Section Progressive.
Context `{WampMessages} `{!WampSerializers} `{WampConstants} `{FmtV}.

Definition NewProgress (args : list any) : Progress :=
  {| prog_Args := args; prog_Kwargs := ∅; prog_Options := {[OptionProgress := ABool true]};
     prog_Err := None |}.
Definition NewFinalProgress (args : list any) : Progress :=
  {| prog_Args := args; prog_Kwargs := ∅; prog_Options := ∅; prog_Err := None |}.

(** [callProgressive] and its goroutine, before the wait for the result. *)
Definition progressive_call (id : Z) (procedure : string) (first : Progress) (progs : list Progress)
    : M Session nat :=
  r ← callProgressive_send id procedure first;
  progress_loop id procedure r.2 progs;;
  mret r.1.

Implicit Types (s : Session) (p : Peer) (ds : list string).

(** The queue of the peer has room for these payloads. *)
Definition takes p ds : Prop :=
  closed p = false ∧ (length (writeChan p) + length ds ≤ chan_cap p)%nat ∧
  Forall (λ d, oversized d = false) ds.

Lemma Write_takes d ds p : takes p (d :: ds) → Write d p = (push d p, Val tt) ∧ takes (push d p) ds.
Proof.
  intros (Hc & Hl & [Hd Hds]%Forall_cons). cbn in Hl. split.
  - assert (send d p = (push d p, Val tt)) as Hs.
    { unfold send, chan_full. rewrite bool_decide_eq_false_2 by lia. done. }
    unfold Write, RawSocketPeer_Write, localPeer_Write, WebSocketPeer_Write. rewrite Hd.
    destruct (transportType p); (erewrite bind_Val by done); by rewrite Hc.
  - split_and!; [done| |done]. cbn. rewrite length_app. cbn. lia.
Qed.

Lemma send_message_takes m d ds s :
  Serialize (ser s) m = Ok d → takes (peer s) (d :: ds) →
  send_message m s = (with_peer (push d (peer s)) s, Val tt) ∧ takes (push d (peer s)) ds.
Proof.
  intros Hd Ht. destruct (Write_takes d ds _ Ht) as [Hw Ht']. split; [|done].
  unfold send_message. rewrite bind_effect, serialize_run, Hd. cbn [fst snd].
  unfold base_write. by rewrite zoom_run, Hw.
Qed.

Definition in_progress (g : Progress) : Prop :=
  prog_Err g = None ∧ bool_at OptionProgress (prog_Options g) = true.
Definition call_of (id : Z) (procedure : string) (g : Progress) : Message :=
  NewCall id (prog_Options g) procedure (prog_Args g) (prog_Kwargs g).

(** The payloads of calls. *)
Definition payloads_of id procedure s : list Progress → list string → Prop :=
  Forall2 (λ g d, Serialize (ser s) (call_of id procedure g) = Ok d).

Lemma push_writeChan d p : writeChan (push d p) = (writeChan p ++ [d])%list.
Proof. done. Qed.

(** What the goroutine sends of values that are in progress, and then [last]. *)
Lemma progress_loop_run id procedure progs last rest ds dl s :
  Forall in_progress progs → payloads_of id procedure s progs ds →
  takes (peer s) (ds ++ [dl]) →
  match prog_Err last with
  | Some _ => Serialize (ser s) (cancel_message id) = Ok dl
  | None => Serialize (ser s) (call_of id procedure last) = Ok dl ∧
      bool_at OptionProgress (prog_Options last) = false
  end →
  ∃ s', progress_loop id procedure true (progs ++ last :: rest) s = (s', Val tt) ∧
    writeChan (peer s') = (writeChan (peer s) ++ ds ++ [dl])%list ∧ requests s' = requests s.
Proof.
  intros Hp Hd Ht Hl. revert ds s Hd Ht Hl. induction Hp as [|g progs [He Hprog] _ IH];
    intros ds s Hd Ht Hl.
  - apply Forall2_nil_inv_l in Hd as ->. cbn [app progress_loop].
    destruct (prog_Err last) as [e|].
    + destruct (send_message_takes _ _ [] s Hl Ht) as [Hs _]. unfold ignore.
      eexists. rewrite (bind_Val _ _ _ _ _ (try_Val _ _ _ _ Hs)). by split_and!.
    + destruct Hl as [Hl Hfin]. destruct (send_message_takes _ _ [] s Hl Ht) as [Hs _].
      rewrite (bind_Val _ _ _ _ _ (try_Val _ _ _ _ Hs)), Hfin. eexists. split; [by destruct rest|done].
  - apply Forall2_cons_inv_l in Hd as (d & ds' & Hdg & Hd & ->). cbn [app progress_loop] in *.
    rewrite He. destruct (send_message_takes _ _ _ s Hdg Ht) as [Hs Ht'].
    rewrite (bind_Val _ _ _ _ _ (try_Val _ _ _ _ Hs)), Hprog.
    destruct (IH ds' (with_peer (push d (peer s)) s)) as (s' & Hr & Hw & Hq); [done..|].
    exists s'. rewrite Hr. split; [done|]. split; [|done]. rewrite Hw. cbn [peer with_peer].
    by rewrite push_writeChan, <-!(assoc_L app).
Qed.

Lemma progressive_call_run id procedure first progs last rest ds dl s :
  Forall in_progress (first :: progs) →
  payloads_of id procedure s (first :: progs) ds → takes (peer s) (ds ++ [dl]) →
  match prog_Err last with
  | Some _ => Serialize (ser s) (cancel_message id) = Ok dl
  | None => Serialize (ser s) (call_of id procedure last) = Ok dl ∧
      bool_at OptionProgress (prog_Options last) = false
  end →
  ∃ s' c, progressive_call id procedure first (progs ++ last :: rest) s = (s', Val c) ∧
    writeChan (peer s') = (writeChan (peer s) ++ ds ++ [dl])%list ∧
    requests s' KCall !! id = Some c.
Proof.
  intros [[He Hprog] Hp]%Forall_cons (d & ds' & Hdg & Hd & ->)%Forall2_cons_inv_l Ht Hl.
  destruct (Write_takes d (ds' ++ [dl]) _ Ht) as [Hw Ht'].
  unfold progressive_call, callProgressive_send. rewrite He, Hprog.
  set (c := fresh (dom (chans s))).
  set (s1 := with_peer (push d (peer s)) (store_request KCall id c (with_chans (<[c := None]> (chans s)) s))).
  assert (request KCall id (call_of id procedure first) s = (s1, Val c)) as Hreq.
  { rewrite request_run, Hdg. by rewrite Hw. }
  rewrite bind_effect. erewrite (bind_Val _ _ _ _ _ Hreq). cbn [fst snd mret M_ret].
  destruct (progress_loop_run id procedure progs last rest ds' dl s1) as (s' & Hr & Hq & Hreqs); [done..|].
  rewrite (bind_Val _ _ _ _ _ Hr). eexists _, c. split; [done|]. split.
  - rewrite Hq. cbn [peer s1 with_peer]. by rewrite push_writeChan, <-!(assoc_L app).
  - rewrite Hreqs. unfold s1. cbn. unfold store_request. cbn. rewrite !fn_lookup_insert. apply lookup_insert_eq.
Qed.

(** C24. A progressive call sends its values in order, one CALL message each with
    the same request id, up to the first that is final: what the sender would
    make after it is never asked for.  A sender that fails has the call
    cancelled after the values before.  The request waits for one result. *)
Theorem progressive_calls_send_their_values id procedure first progs last rest ds dl s :
  Forall in_progress (first :: progs) →
  payloads_of id procedure s (first :: progs) ds → takes (peer s) (ds ++ [dl]) →
  match prog_Err last with
  | Some _ => Serialize (ser s) (cancel_message id) = Ok dl
  | None => Serialize (ser s) (call_of id procedure last) = Ok dl ∧
      bool_at OptionProgress (prog_Options last) = false
  end →
  ∃ s' c, progressive_call id procedure first (progs ++ last :: rest) s = (s', Val c) ∧
    writeChan (peer s') = (writeChan (peer s) ++ ds ++ [dl])%list ∧
    requests s' KCall !! id = Some c.
Proof. apply progressive_call_run. Qed.

(** The two constructors make a value in progress and a final one. *)
Lemma NewProgress_in_progress args : in_progress (NewProgress args).
Proof. split; [done|]. unfold bool_at. cbn. by rewrite lookup_singleton_eq. Qed.
Lemma NewFinalProgress_final args :
  prog_Err (NewFinalProgress args) = None ∧
  bool_at OptionProgress (prog_Options (NewFinalProgress args)) = false.
Proof. split; [done|]. unfold bool_at. cbn. by rewrite lookup_empty. Qed.

End Progressive.
