(* ===== verification/Requests.v ===== *)
(** * Requests (types.go, and the constructors of session.go)

    A request is an object that its methods change and return, so one request
    can be sent more than once, and the maps of options and keyword arguments
    are shared with whoever else has them.  The heap keeps both by pointer; a
    nil map is the pointer [None].  Slices of arguments are values: a slice
    that is passed to [Args] has no room behind it that [Arg] could share. *)

From S2P Require Import Prelude GoStd Wamp Values Accessors Peers Session.

Local Open Scope string_scope.

Record RegisterRequest := mkRegister {
  r_procedure : string; r_handler : nat; r_options : option nat }.
Record CallRequest := mkCall {
  c_procedure : string; c_args : list any; c_kwargs : option nat; c_options : option nat;
  c_progressReceiver : option nat; c_progressSender : option nat }.
Record SubscribeRequest := mkSubscribe {
  s_topic : string; s_handler : nat; s_options : option nat }.
Record PublishRequest := mkPublish {
  p_topic : string; p_args : list any; p_kwargs : option nat; p_options : option nat }.

Record heap := mkHeap {
  maps : gmap nat dict;
  registers : gmap nat RegisterRequest;
  calls : gmap nat CallRequest;
  subscribes : gmap nat SubscribeRequest;
  publishes : gmap nat PublishRequest;
}.

Definition set_maps (m : gmap nat dict) (h : heap) : heap :=
  mkHeap m (registers h) (calls h) (subscribes h) (publishes h).

(** What is at a pointer: a nil map reads as empty. *)
Definition contents (h : heap) (p : option nat) : dict :=
  match p with Some l => default ∅ (maps h !! l) | None => ∅ end.

(** Where the objects of a type of request are, and its map of options. *)
Class Request (R : Type) := {
  objects : heap → gmap nat R;
  set_objects : gmap nat R → heap → heap;
  options : R → option nat;
  with_options : option nat → R → R;
}.

Class RequestOk (R : Type) `{Request R} : Prop := {
  objects_set m h : objects (set_objects m h) = m;
  maps_set m h : maps (set_objects m h) = maps h;
  objects_maps m h : objects (set_maps m h) = objects h;
  options_with p r : options (with_options p r) = p;
}.

#[global] Instance register_request : Request RegisterRequest := {|
  objects := registers;
  set_objects m h := mkHeap (maps h) m (calls h) (subscribes h) (publishes h);
  options := r_options;
  with_options p r := mkRegister (r_procedure r) (r_handler r) p;
|}.
#[global] Instance call_request : Request CallRequest := {|
  objects := calls;
  set_objects m h := mkHeap (maps h) (registers h) m (subscribes h) (publishes h);
  options := c_options;
  with_options p r := mkCall (c_procedure r) (c_args r) (c_kwargs r) p (c_progressReceiver r)
    (c_progressSender r);
|}.
#[global] Instance subscribe_request : Request SubscribeRequest := {|
  objects := subscribes;
  set_objects m h := mkHeap (maps h) (registers h) (calls h) m (publishes h);
  options := s_options;
  with_options p r := mkSubscribe (s_topic r) (s_handler r) p;
|}.
#[global] Instance publish_request : Request PublishRequest := {|
  objects := publishes;
  set_objects m h := mkHeap (maps h) (registers h) (calls h) (subscribes h) m;
  options := p_options;
  with_options p r := mkPublish (p_topic r) (p_args r) (p_kwargs r) p;
|}.

#[global] Instance register_request_ok : RequestOk RegisterRequest.
Proof. by split. Qed.
#[global] Instance call_request_ok : RequestOk CallRequest.
Proof. by split. Qed.
#[global] Instance subscribe_request_ok : RequestOk SubscribeRequest.
Proof. by split. Qed.
#[global] Instance publish_request_ok : RequestOk PublishRequest.
Proof. by split. Qed.

(** ** The methods of a request *)

Section Methods.
Context `{Request R}.

(** [&R{...}] *)
Definition new_request (r : R) : M heap nat := λ h,
  let c := fresh (dom (objects h)) in (set_objects (<[c := r]> (objects h)) h, Val c).

(** A change of the fields of the request [c]. *)
Definition update_request (c : nat) (f : R → R) : M heap unit := λ h,
  match objects h !! c with
  | Some r => (set_objects (<[c := f r]> (objects h)) h, Val tt)
  | None => (h, Crash "invalid memory address or nil pointer dereference")
  end.

(** [if r.m == nil { r.m = make(map[string]any) }; r.m[key] = value] *)
Definition set_entry (field : R → option nat) (assign : option nat → R → R) (c : nat)
    (key : string) (value : any) : M heap unit := λ h,
  match objects h !! c with
  | None => (h, Crash "invalid memory address or nil pointer dereference")
  | Some r =>
      match field r with
      | Some l =>
          (set_maps (<[l := <[key := value]> (contents h (Some l))]> (maps h)) h, Val tt)
      | None =>
          let l := fresh (dom (maps h)) in
          (set_objects (<[c := assign (Some l) r]> (objects h))
             (set_maps (<[l := {[key := value]}]> (maps h)) h), Val tt)
      end
  end.

Definition Option_ (c : nat) (key : string) (value : any) : M heap unit :=
  set_entry options with_options c key value.
Definition Options (c : nat) (m : option nat) : M heap unit := update_request c (with_options m).

End Methods.

Section Requests.
Context `{WampMessages} `{!WampSerializers} `{WampConstants} `{FloatConv} `{FmtV} `{MapRange}.
(** [wampproto.OptionMatch] *)
Context (OptionMatch : string).

(** *** Registering *)

Definition Session_Register (procedure : string) (handler : nat) : M heap nat :=
  new_request (mkRegister procedure handler None).
Definition RegisterRequest_Option (c : nat) := Option_ (R := RegisterRequest) c.
Definition RegisterRequest_Options (c : nat) := Options (R := RegisterRequest) c.
Definition RegisterRequest_Match (c : nat) (value : string) : M heap unit :=
  Option_ (R := RegisterRequest) c OptionMatch (AString value).
Definition RegisterRequest_Invoke (c : nat) (value : string) : M heap unit :=
  Option_ (R := RegisterRequest) c "invoke" (AString value).
Definition ToRegister (requestID : Z) (r : RegisterRequest) (h : heap) : Message :=
  NewRegister requestID (contents h (r_options r)) (r_procedure r).

(** *** Calling *)

Definition Session_Call (procedure : string) : M heap nat :=
  new_request (mkCall procedure [] None None None None).
Definition CallRequest_Option (c : nat) := Option_ (R := CallRequest) c.
Definition CallRequest_Options (c : nat) := Options (R := CallRequest) c.
Definition CallRequest_Arg (c : nat) (arg : any) : M heap unit :=
  update_request c (λ r, mkCall (c_procedure r) (c_args r ++ [arg]) (c_kwargs r) (c_options r)
    (c_progressReceiver r) (c_progressSender r)).
Definition CallRequest_Args (c : nat) (args : list any) : M heap unit :=
  update_request c (λ r, mkCall (c_procedure r) args (c_kwargs r) (c_options r)
    (c_progressReceiver r) (c_progressSender r)).
Definition with_c_kwargs (p : option nat) (r : CallRequest) : CallRequest :=
  mkCall (c_procedure r) (c_args r) p (c_options r) (c_progressReceiver r) (c_progressSender r).
Definition CallRequest_Kwarg (c : nat) (key : string) (value : any) : M heap unit :=
  set_entry c_kwargs with_c_kwargs c key value.
Definition CallRequest_Kwargs (c : nat) (kwargs : option nat) : M heap unit :=
  update_request c (with_c_kwargs kwargs).
Definition CallRequest_ProgressReceiver (c : nat) (handler : option nat) : M heap unit :=
  update_request c (λ r, mkCall (c_procedure r) (c_args r) (c_kwargs r) (c_options r)
    handler (c_progressSender r)).
Definition CallRequest_ProgressSender (c : nat) (handler : option nat) : M heap unit :=
  update_request c (λ r, mkCall (c_procedure r) (c_args r) (c_kwargs r) (c_options r)
    (c_progressReceiver r) handler).

(** *** Subscribing *)

Definition Session_Subscribe (topic : string) (handler : nat) : M heap nat :=
  new_request (mkSubscribe topic handler None).
Definition SubscribeRequest_Option (c : nat) := Option_ (R := SubscribeRequest) c.
Definition SubscribeRequest_Options (c : nat) := Options (R := SubscribeRequest) c.
Definition SubscribeRequest_Match (c : nat) (value : string) : M heap unit :=
  Option_ (R := SubscribeRequest) c OptionMatch (AString value).
Definition ToSubscribe (requestID : Z) (r : SubscribeRequest) (h : heap) : Message :=
  NewSubscribe requestID (contents h (s_options r)) (s_topic r).

(** *** Publishing *)

Definition Session_Publish (topic : string) : M heap nat :=
  new_request (mkPublish topic [] None None).
Definition PublishRequest_Option (c : nat) := Option_ (R := PublishRequest) c.
Definition PublishRequest_Options (c : nat) := Options (R := PublishRequest) c.
Definition PublishRequest_Acknowledge (c : nat) (value : bool) : M heap unit :=
  Option_ (R := PublishRequest) c "acknowledge" (ABool value).
Definition PublishRequest_ExcludeMe (c : nat) (value : bool) : M heap unit :=
  Option_ (R := PublishRequest) c "exclude_me" (ABool value).
Definition PublishRequest_Arg (c : nat) (arg : any) : M heap unit :=
  update_request c (λ r, mkPublish (p_topic r) (p_args r ++ [arg]) (p_kwargs r) (p_options r)).
Definition PublishRequest_Args (c : nat) (args : list any) : M heap unit :=
  update_request c (λ r, mkPublish (p_topic r) args (p_kwargs r) (p_options r)).
Definition with_p_kwargs (p : option nat) (r : PublishRequest) : PublishRequest :=
  mkPublish (p_topic r) (p_args r) p (p_options r).
Definition PublishRequest_Kwarg (c : nat) (key : string) (value : any) : M heap unit :=
  set_entry p_kwargs with_p_kwargs c key value.
Definition PublishRequest_Kwargs (c : nat) (kwargs : option nat) : M heap unit :=
  update_request c (with_p_kwargs kwargs).
Definition ToPublish (requestID : Z) (r : PublishRequest) (h : heap) : Message :=
  NewPublish requestID (contents h (p_options r)) (p_topic r) (p_args r)
    (contents h (p_kwargs r)).

(** *** Sending

    Up to the [select] of the call.  [first] is the first value of the
    request's progress sender. *)

Record client := mkClient { requests_ : heap; session_ : Session }.

Definition on_session {A} : M Session A → M client A :=
  zoom session_ (λ s w, mkClient (requests_ w) s).

Definition RegisterRequest_Do (id : Z) (r : RegisterRequest) : M client nat :=
  m ← get (λ w, contents (requests_ w) (r_options r));
  on_session (register_send id m (r_procedure r)).

Definition SubscribeRequest_Do (id : Z) (r : SubscribeRequest) : M client nat :=
  m ← get (λ w, contents (requests_ w) (s_options r));
  on_session (subscribe_send id m (s_topic r)).

Definition PublishRequest_Do (id : Z) (r : PublishRequest) : M client (option nat) :=
  w ← get (λ w, requests_ w);
  on_session (publish_send id (p_topic r) (p_args r) (contents w (p_kwargs r))
    (contents w (p_options r))).

(** A map that a call has changed. *)
Definition write_map (p : option nat) (m : dict) : M client unit :=
  modify (λ w, match p with
               | Some l => mkClient (set_maps (<[l := m]> (maps (requests_ w))) (requests_ w))
                             (session_ w)
               | None => w
               end).

(** [callWithRequest]: the channel of the call, and whether a goroutine goes on
    sending. *)
Definition callWithRequest (id : Z) (r : CallRequest) (first : Progress) : M client (nat * bool) :=
  h ← get (λ w, requests_ w);
  let kwargs := contents h (c_kwargs r) in
  let options := contents h (c_options r) in
  match c_progressSender r, c_progressReceiver r with
  | None, None =>
      let '(call, options') := callRaw id (c_procedure r) (c_args r) kwargs options in
      write_map (c_options r) options';;
      call ← of_result call;
      c ← on_session (call_send id call); mret (c, false)
  | Some _, None => on_session (callProgressive_send id (c_procedure r) first)
  | None, Some handler =>
      c ← on_session (callProgress id (c_procedure r) (c_args r) kwargs options handler);
      mret (c, false)
  | Some _, Some handler =>
      on_session (callProgressiveProgress_send id (c_procedure r) first handler)
  end.

(** [RegisterResponse.Unregister] and [SubscribeResponse.Unsubscribe]: the
    registration is nil when the request failed. *)
Definition RegisterResponse_Unregister (id : Z) (registration : option Z) : M Session nat :=
  match registration with
  | None => fail "empty registration"
  | Some rid => unregister_send id rid
  end.
Definition SubscribeResponse_Unsubscribe (id : Z) (subscription : option (Z * nat))
    : M Session (option nat) :=
  match subscription with
  | None => fail "empty subscription"
  | Some (sid, sub) => unsubscribe_send id sid sub
  end.

End Requests.

(** ** What a request is *)

Section MethodsSpec.
Context `{RequestOk R}.
Implicit Types (h : heap) (r : R).

Lemma update_request_run c f h r :
  objects h !! c = Some r →
  update_request c f h = (set_objects (<[c := f r]> (objects h)) h, Val tt).
Proof. unfold update_request. by intros ->. Qed.

End MethodsSpec.

(** The building of publish requests, on one request. *)
Inductive publish_step :=
| BOption (key : string) (value : any)
| BAcknowledge (value : bool)
| BExcludeMe (value : bool)
| BArg (arg : any)
| BArgs (args : list any)
| BKwarg (key : string) (value : any).

Definition run_step (c : nat) (s : publish_step) : M heap unit :=
  match s with
  | BOption k v => PublishRequest_Option c k v
  | BAcknowledge b => PublishRequest_Acknowledge c b
  | BExcludeMe b => PublishRequest_ExcludeMe c b
  | BArg a => PublishRequest_Arg c a
  | BArgs l => PublishRequest_Args c l
  | BKwarg k v => PublishRequest_Kwarg c k v
  end.

(** The specification: a request is a value. *)
Record plain := mkPlain {
  plain_topic : string; plain_args : list any; plain_kwargs : dict; plain_options : dict }.

Definition with_option (k : string) (v : any) (p : plain) : plain :=
  mkPlain (plain_topic p) (plain_args p) (plain_kwargs p) (<[k := v]> (plain_options p)).

Definition apply_step (s : publish_step) (p : plain) : plain :=
  match s with
  | BOption k v => with_option k v p
  | BAcknowledge b => with_option "acknowledge" (ABool b) p
  | BExcludeMe b => with_option "exclude_me" (ABool b) p
  | BArg a => mkPlain (plain_topic p) (plain_args p ++ [a]) (plain_kwargs p) (plain_options p)
  | BArgs l => mkPlain (plain_topic p) l (plain_kwargs p) (plain_options p)
  | BKwarg k v =>
      mkPlain (plain_topic p) (plain_args p) (<[k := v]> (plain_kwargs p)) (plain_options p)
  end.

Section RequestsSpec.
Implicit Types (h : heap).

Definition value_of h (r : PublishRequest) : plain :=
  mkPlain (p_topic r) (p_args r) (contents h (p_kwargs r)) (contents h (p_options r)).
Definition value_at h (c : nat) : option plain := value_of h <$> publishes h !! c.

(** The two maps of a request. *)
Definition map_of (f : bool) (r : PublishRequest) : option nat :=
  if f then p_options r else p_kwargs r.
Definition with_map (f : bool) : option nat → PublishRequest → PublishRequest :=
  if f then with_options else with_p_kwargs.

(** No map belongs to two fields of publish requests, and every one exists. *)
Definition private h : Prop :=
  (∀ c r f l, publishes h !! c = Some r → map_of f r = Some l → is_Some (maps h !! l)) ∧
  ∀ c r f c' r' f' l, publishes h !! c = Some r → publishes h !! c' = Some r' →
    map_of f r = Some l → map_of f' r' = Some l → c = c' ∧ f = f'.

Lemma contents_insert h l m p :
  contents (set_maps (<[l := m]> (maps h)) h) p =
  if bool_decide (p = Some l) then m else contents h p.
Proof.
  destruct p as [l'|]; simpl; [|done]. case_bool_decide as Heq; simplify_eq.
  - by rewrite lookup_insert_eq.
  - by rewrite lookup_insert_ne by congruence.
Qed.

Lemma map_of_with_map f f' p r :
  map_of f' (with_map f p r) = if bool_decide (f = f') then p else map_of f' r.
Proof. by destruct f, f'. Qed.

Definition with_entry (f : bool) (k : string) (v : any) (p : plain) : plain :=
  if f then with_option k v p
  else mkPlain (plain_topic p) (plain_args p) (<[k := v]> (plain_kwargs p)) (plain_options p).

(** A map that exists already is changed for its owner only. *)
Lemma set_existing_value f c k v h r l :
  private h → publishes h !! c = Some r → map_of f r = Some l →
  let h' := set_maps (<[l := <[k := v]> (contents h (Some l))]> (maps h)) h in
  private h' ∧ value_at h' c = Some (with_entry f k v (value_of h r)) ∧
  ∀ c', c ≠ c' → value_at h' c' = value_at h c'.
Proof.
  intros [Ha Hp] Hr Hl h'.
  assert (∀ c' r' f', publishes h !! c' = Some r' → (c, f) ≠ (c', f') →
    contents h' (map_of f' r') = contents h (map_of f' r')) as Hother.
  { intros c' r' f' Hr' Hne. unfold h'. rewrite contents_insert, bool_decide_false; [done|].
    intros Hl'. destruct (Hp _ _ _ _ _ _ _ Hr Hr' Hl Hl') as [-> ->]. done. }
  split_and!.
  - split; [|done]. intros c' r' f' l' Hr' Hl'. simpl. rewrite lookup_insert_is_Some'.
    right. by eapply Ha.
  - unfold value_at. simpl. rewrite Hr. simpl. f_equal. unfold value_of.
    assert (contents h' (map_of f r) = <[k := v]> (contents h (map_of f r))) as Hc.
    { unfold h'. rewrite contents_insert, bool_decide_true by done. by rewrite Hl. }
    destruct f; simpl in *; unfold with_entry, with_option; simpl; rewrite Hc; f_equal.
    + by apply (Hother c r false).
    + by apply (Hother c r true).
  - intros c' Hne. unfold value_at. simpl. destruct (publishes h !! c') as [r'|] eqn:Hr'; [|done].
    simpl. f_equal. unfold value_of. f_equal.
    + apply (Hother c' r' false); [done|congruence].
    + apply (Hother c' r' true); [done|congruence].
Qed.

(** A new map is private. *)
Lemma set_new_value f c k v h r :
  private h → publishes h !! c = Some r → map_of f r = None →
  let l := fresh (dom (maps h)) in
  let h' := set_objects (<[c := with_map f (Some l) r]> (publishes h))
              (set_maps (<[l := {[k := v]}]> (maps h)) h) in
  private h' ∧ value_at h' c = Some (with_entry f k v (value_of h r)) ∧
  ∀ c', c ≠ c' → value_at h' c' = value_at h c'.
Proof.
  intros [Ha Hp] Hr Hl l h'.
  assert (∀ c' r' f', publishes h !! c' = Some r' → map_of f' r' ≠ Some l) as Hfresh.
  { intros c' r' f' Hr' Hl'. destruct (Ha _ _ _ _ Hr' Hl') as [m Hm].
    apply (is_fresh (dom (maps h))), elem_of_dom. by exists m. }
  assert (∀ c' r' f' l', publishes h' !! c' = Some r' → map_of f' r' = Some l' →
    (c' = c ∧ f' = f ∧ l' = l) ∨
    ∃ r0, publishes h !! c' = Some r0 ∧ map_of f' r0 = Some l' ∧ (c', f') ≠ (c, f)) as Hinv.
  { intros c' r' f' l' Hr' Hl'. simpl in Hr'. destruct (decide (c = c')) as [<-|Hne].
    - rewrite lookup_insert_eq in Hr'. injection Hr' as <-. rewrite map_of_with_map in Hl'.
      case_bool_decide as Hf; simplify_eq; [by left|]. right. exists r. split_and!; congruence.
    - rewrite lookup_insert_ne in Hr' by done. right. exists r'. split_and!; congruence. }
  assert (∀ c' r' f', publishes h !! c' = Some r' →
    contents h' (map_of f' r') = contents h (map_of f' r')) as Hsame.
  { intros c' r' f' Hr'. specialize (Hfresh _ _ f' Hr'). simpl.
    destruct (map_of f' r') as [l'|]; [|done]. simpl. by rewrite lookup_insert_ne by congruence. }
  split_and!.
  - split.
    + intros c' r' f' l' Hr' Hl'. simpl. rewrite lookup_insert_is_Some'.
      destruct (Hinv _ _ _ _ Hr' Hl') as [(_ & _ & ->)|(r0 & Hr0 & Hl0 & _)]; [by left|right].
      by eapply Ha.
    + intros c1 r1 f1 c2 r2 f2 l' H1 H2 Hl1 Hl2.
      destruct (Hinv _ _ _ _ H1 Hl1) as [(-> & -> & ->)|(r3 & Hr3 & Hl3 & _)];
        destruct (Hinv _ _ _ _ H2 Hl2) as [(-> & -> & Hll)|(r4 & Hr4 & Hl4 & _)]; [done|..].
      * by destruct (Hfresh _ _ _ Hr4 Hl4).
      * subst. by destruct (Hfresh _ _ _ Hr3 Hl3).
      * by eapply Hp.
  - unfold value_at. simpl. rewrite lookup_insert_eq. simpl. f_equal.
    pose proof (Hsame c r) as Hc. unfold value_of.
    destruct f; simpl in *; unfold with_entry, with_option; simpl; rewrite Hl; f_equal;
      try (by apply (Hc false)); try (by apply (Hc true)); by rewrite lookup_insert_eq.
  - intros c' Hne. unfold value_at. simpl. rewrite lookup_insert_ne by done.
    destruct (publishes h !! c') as [r'|] eqn:Hr'; [|done]. simpl. f_equal. unfold value_of.
    f_equal; [apply (Hsame c' r' false)|apply (Hsame c' r' true)]; done.
Qed.

Lemma set_entry_value f c k v h r :
  private h → publishes h !! c = Some r →
  ∃ h', set_entry (map_of f) (with_map f) c k v h = (h', Val tt) ∧ private h' ∧
    value_at h' c = Some (with_entry f k v (value_of h r)) ∧
    ∀ c', c ≠ c' → value_at h' c' = value_at h c'.
Proof.
  intros Hpr Hr. unfold set_entry. simpl. rewrite Hr. destruct (map_of f r) as [l|] eqn:Hl.
  - eexists. split; [done|]. by apply set_existing_value.
  - eexists. split; [done|]. by apply set_new_value.
Qed.

Lemma update_request_value c (f : list any → list any) h r :
  private h → publishes h !! c = Some r →
  let update r := mkPublish (p_topic r) (f (p_args r)) (p_kwargs r) (p_options r) in
  ∃ h', update_request c update h = (h', Val tt) ∧ private h' ∧
    value_at h' c = Some (mkPlain (p_topic r) (f (p_args r)) (contents h (p_kwargs r))
      (contents h (p_options r))) ∧
    ∀ c', c ≠ c' → value_at h' c' = value_at h c'.
Proof.
  intros [Ha Hp] Hr update. eexists. split; [by apply update_request_run|].
  assert (∀ c' r', <[c := update r]> (publishes h) !! c' = Some r' →
    ∃ r0, publishes h !! c' = Some r0 ∧ ∀ b, map_of b r' = map_of b r0) as Hinv.
  { intros c' r' [[<- <-]|[_ Hr']]%lookup_insert_Some; [exists r; by split; [|intros []]|by exists r']. }
  split_and!.
  - split; simpl.
    + intros c' r' b l (r0 & Hr0 & ->)%Hinv. by eapply Ha.
    + intros c1 r1 b1 c2 r2 b2 l (r3 & Hr3 & ->)%Hinv (r4 & Hr4 & ->)%Hinv. by eapply Hp.
  - unfold value_at. simpl. by rewrite lookup_insert_eq.
  - intros c' Hne. unfold value_at. simpl. by rewrite lookup_insert_ne.
Qed.

Lemma run_step_value c s h r :
  private h → publishes h !! c = Some r →
  ∃ h', run_step c s h = (h', Val tt) ∧ private h' ∧
    value_at h' c = Some (apply_step s (value_of h r)) ∧
    ∀ c', c ≠ c' → value_at h' c' = value_at h c'.
Proof.
  intros Hpr Hr. destruct s as [k v|b|b|a|l|k v]; simpl.
  - by apply (set_entry_value true).
  - by apply (set_entry_value true).
  - by apply (set_entry_value true).
  - by apply (update_request_value c (λ l, l ++ [a])%list).
  - by apply (update_request_value c (λ _, l)).
  - by apply (set_entry_value false).
Qed.

(** The steps of one request, among those of all. *)
Definition steps_of (c : nat) (steps : list (nat * publish_step)) : list publish_step :=
  snd <$> filter (λ s, s.1 = c) steps.

(** Building publish requests, any number of them at the same time and in
    any order, is building values: as long as no request is given a map of
    the caller's with [Options] or [Kwargs], the methods never fail, and what a
    request becomes depends on the calls on it alone. *)
Theorem publish_requests_are_values steps h :
  private h → (∀ s, s ∈ steps → is_Some (publishes h !! s.1)) →
  ∃ h', for_M (λ s, run_step s.1 s.2) steps h = (h', Val tt) ∧
    ∀ c, value_at h' c = (λ p, foldl (flip apply_step) p (steps_of c steps)) <$> value_at h c.
Proof.
  revert h. induction steps as [|[c s] steps IH]; intros h Hpr Hin.
  - exists h. split; [done|]. intros c. unfold steps_of. simpl. by destruct (value_at h c).
  - destruct (Hin (c, s)) as [r Hr]; [left|]. simpl in Hr.
    destruct (run_step_value c s h r Hpr Hr) as (h1 & Hrun & Hpr1 & Hc & Hother).
    destruct (IH h1 Hpr1) as (h2 & Hrun2 & Hv2).
    { intros s' Hs'. destruct (Hin s') as [r' Hr']; [by right|].
      assert (is_Some (value_at h1 s'.1)) as [p Hp].
      { destruct (decide (c = s'.1)) as [<-|Hne]; [by rewrite Hc|].
        rewrite Hother by done. unfold value_at. by rewrite Hr'. }
      unfold value_at in Hp. apply fmap_Some in Hp as (r1 & ? & _). by exists r1. }
    exists h2. split.
    { cbn [for_M]. by rewrite (bind_Val _ _ _ _ _ Hrun). }
    intros c'. rewrite Hv2. unfold steps_of. rewrite filter_cons. simpl. case_decide as Hd.
    + subst c'. rewrite Hc. unfold value_at. by rewrite Hr.
    + by rewrite Hother by done.
Qed.

End RequestsSpec.

(** ** Sending a request twice *)

Section SendingSpec.
Context `{WampMessages} `{!WampSerializers} `{WampConstants} `{FloatConv} `{FmtV} `{MapRange}.

(** A map of options belongs to every request it was given to.  Sending one
    raw call takes the flag out of it: any other request with that map, the
    same request sent again included, is then not raw, whether or not the
    call could be sent. *)
Theorem raw_call_strips_shared_options id r first w l r' id' args kwargs :
  c_progressSender r = None → c_progressReceiver r = None → c_options r = Some l →
  AsBool (default ANil (contents (requests_ w) (Some l) !! "x_payload_raw")) = true →
  AsBool ANil = false → c_options r' = Some l →
  let h' := requests_ (callWithRequest id r first w).1 in
  contents h' (c_options r') = delete "x_payload_raw" (contents (requests_ w) (Some l)) ∧
  callRaw id' (c_procedure r') args kwargs (contents h' (c_options r')) =
    (Ok (NewCall id' (contents h' (c_options r')) (c_procedure r') args kwargs),
     contents h' (c_options r')).
Proof.
  intros Hs Hr Hl Hraw Hnil Hl' h'.
  assert (contents h' (Some l) = delete "x_payload_raw" (contents (requests_ w) (Some l))) as Hc.
  { unfold h', callWithRequest. erewrite bind_Val by done. rewrite Hs, Hr, Hl. unfold callRaw.
    rewrite Hraw. erewrite bind_Val by done. unfold of_result.
    match goal with |- context [match ?c with Ok _ => _ | Err _ => _ end] => destruct c as [m|e] end;
      [|simpl; by rewrite lookup_insert_eq].
    erewrite bind_Val by done. rewrite bind_effect. unfold on_session. rewrite zoom_run.
    destruct (call_send id m _) as [s []]; simpl; by rewrite lookup_insert_eq. }
  rewrite Hl', Hc. split; [done|]. unfold callRaw. rewrite lookup_delete_eq. simpl. by rewrite Hnil.
Qed.

End SendingSpec.
