(* ===== verification/Management.v ===== *)
(** * The management API (management.go)

    The procedures of the management realm.  Their state is the management
    object next to the world of the router; [mem_loops] are the goroutines of
    [startMemoryLogging] that have not been told to stop, named by the channel
    that was made for them, with the interval of their ticker.  Stats has the
    statistics, and what these goroutines make of being told. *)

From S2P Require Import Prelude GoStd Wamp Values Accessors Permissions Peers Realm Router Meta.

Local Open Scope string_scope.

(** The logging package and the runtime. *)
Class Host := {
  ParseLevel : string → result Z;
  level_String : Z → string;
}.

Section Management.
Context `{WampMessages} `{!WampSerializers} `{!WampRouting} `{WampConstants}
  `{MapRange} `{FmtV} `{FloatConv} `{Host}.

Implicit Types (invocation inv : Invocation.Invocation).

(** [serializerNameBySerializer], keyed by the identity of the serializer. *)
Context (serializerNameBySerializer : Serializer → option string).

Record management := mkMgmt {
  mg_session : BaseSession;
  memRunning : bool;
  interval : Z;
  stopMemStats : nat;
}.

Record MgmtW := mkMgmtW {
  mgmt : management;
  routerw : RouterW;
  mem_loops : gmap nat Z;
  next_chan : nat;
  gomaxprocs : Z;
}.

Definition newManagementAPI (session : BaseSession) : management :=
  mkMgmt session false Second 0.

Definition on_mgmt (f : management → management) : M MgmtW unit :=
  modify (λ w, mkMgmtW (f (mgmt w)) (routerw w) (mem_loops w) (next_chan w) (gomaxprocs w)).
Definition on_routerw {A} : M RouterW A → M MgmtW A :=
  zoom routerw (λ r w, mkMgmtW (mgmt w) r (mem_loops w) (next_chan w) (gomaxprocs w)).

Definition set_interval (i : Z) (m : management) : management :=
  mkMgmt (mg_session m) (memRunning m) i (stopMemStats m).

(** ** Statistics *)

Definition startMemoryLogging (i : Z) : M MgmtW unit :=
  running ← get (λ w, memRunning (mgmt w));
  if (running : bool) then fail "memory logging is already running"
  else
    modify (λ w, mkMgmtW (mkMgmt (mg_session (mgmt w)) true i (next_chan w)) (routerw w)
      (mem_loops w) (S (next_chan w)) (gomaxprocs w));;
    on_routerw (setMessageRateTracking true false);;
    modify (λ w, mkMgmtW (mgmt w) (routerw w) (<[stopMemStats (mgmt w) := i]> (mem_loops w))
      (next_chan w) (gomaxprocs w)).

(** The first thing the spawned goroutine does. *)
Definition memory_loop_start (c : nat) : M MgmtW unit := λ w,
  match mem_loops w !! c with
  | Some i =>
      if bool_decide (i ≤ 0)%Z then (w, Crash "non-positive interval for NewTicker")
      else (w, Val tt)
  | None => (w, Val tt)
  end.

(** [waiting]: see [setMessageRateTracking]. *)
Definition stopMemoryLogging (waiting : bool) : M MgmtW unit :=
  running ← get (λ w, memRunning (mgmt w));
  if (running : bool) then
    modify (λ w, mkMgmtW (mkMgmt (mg_session (mgmt w)) false (interval (mgmt w))
        (stopMemStats (mgmt w))) (routerw w)
      (delete (stopMemStats (mgmt w)) (mem_loops w)) (next_chan w) (gomaxprocs w));;
    on_routerw (setMessageRateTracking false waiting)
  else mret tt.

Definition stop_if_running (waiting : bool) : M MgmtW unit :=
  running ← get (λ w, memRunning (mgmt w));
  if (running : bool) then stopMemoryLogging waiting else mret tt.

(** The interval to use, in milliseconds. *)
Definition requested_ms (given current : Z) : Z :=
  if bool_decide (given = 0)%Z
  then if bool_decide (0 < current)%Z then Z.quot current Millisecond else 1000
  else given.

Definition handleSetStatsStatus invocation (waiting : bool) : M MgmtW InvocationResult :=
  let enable := Invocation.KwargBoolOr invocation "enable" false in
  let disable := Invocation.KwargBoolOr invocation "disable" false in
  if enable && disable
  then mret (invalid_argument "only one of 'enable' or 'disable' can be true")
  else
    let given := Invocation.KwargInt64 invocation "interval" in
    let intervalProvided := is_ok given in
    current ← get (λ w, interval (mgmt w));
    let intervalMS := requested_ms (result_or 0%Z given) current in
    let i := wrap_int64 (intervalMS * Millisecond) in
    (if intervalProvided then on_mgmt (set_interval i) else mret tt);;
    if enable then
      stop_if_running waiting;;
      started ← try (startMemoryLogging i);
      match started with
      | Err e => mret (NewInvocationError "wamp.error.internal_error" [AString e])
      | Ok _ => mret (NewInvocationResult [])
      end
    else if disable then stop_if_running waiting;; mret (NewInvocationResult [])
    else if intervalProvided then
      running ← get (λ w, memRunning (mgmt w));
      (if (running : bool)
       then stopMemoryLogging waiting;; ignore (startMemoryLogging i)
       else mret tt);;
      mret (NewInvocationResult [])
    else
      mret (invalid_argument "no valid kwargs provided (enable, disable, or interval)").

Definition handleStatsStatus : M MgmtW InvocationResult :=
  m ← get mgmt;
  let status : dict := <["running" := ABool (memRunning m)]>
    {["interval" := ADuration (Z.quot (interval m) Millisecond)]} in
  mret (NewInvocationResult [AMap status]).

(** ** Log level and runtime *)

Definition handleSetLogLevel inv : M MgmtW InvocationResult :=
  match Invocation.ArgString inv 0 with
  | Err e => mret (invalid_argument e)
  | Ok logLevel =>
      match ParseLevel (ToLower logLevel) with
      | Err e => mret (invalid_argument e)
      | Ok level =>
          on_routerw (modify (λ w, mkRouterW (rt w) (heap w) (sess w) (next_session w)
            (spawned w) level));;
          mret (NewInvocationResult [])
      end
  end.

Definition handleGetLogLevel : M MgmtW InvocationResult :=
  l ← get (λ w, log_level (routerw w)); mret (NewInvocationResult [AString (level_String l)]).

(** [runtime.GOMAXPROCS n] changes nothing for [n < 1]. *)
Definition handleMaxProcsSet invocation : M MgmtW InvocationResult :=
  match Invocation.ArgInt64 invocation 0 with
  | Err e => mret (invalid_argument e)
  | Ok n =>
      modify (λ w, mkMgmtW (mgmt w) (routerw w) (mem_loops w) (next_chan w)
        (if bool_decide (1 ≤ n)%Z then n else gomaxprocs w));;
      mret (NewInvocationResult [])
  end.

Definition handleMaxProcsGet : M MgmtW InvocationResult :=
  n ← get gomaxprocs; mret (NewInvocationResult [AInt n]).

(** ** Realms and sessions *)

Definition handleListRealms : M MgmtW InvocationResult :=
  names ← get (λ w, map fst (range_entries (realms (rt (routerw w)))));
  mret (NewInvocationResult [AStrings names]).

Definition paginateList {T} (items : list T) (offset limit : Z) : outcome (list T * Z) :=
  let total := Z.of_nat (length items) in
  if bool_decide (limit ≤ 0)%Z then Returns (items, total)
  else
    let offset := if bool_decide (total < offset)%Z then total else offset in
    let end_ := wrap_int64 (offset + limit) in
    let end_ := if bool_decide (total < end_)%Z then total else end_ in
    match slice items offset end_ with
    | Returns page => Returns (page, total)
    | Panics why => Panics why
    end.

Definition sessionToMap (w : RouterW) (s : BaseSession) : dict :=
  let name := default "unknown" (serializerNameBySerializer (serializer (sess w (ref s)))) in
  <["authid" := AString (AuthID s)]> (<["authrole" := AString (AuthRole s)]>
    (<["sessionID" := AUint64 (ID s)]> {["serializer" := AString name]})).

Definition not_found (what : string) : InvocationResult :=
  NewInvocationError "wamp.error.not_found" [AString what].

Definition handleListSession inv : M MgmtW InvocationResult :=
  match Invocation.ArgString inv 0 with
  | Err e => mret (invalid_argument e)
  | Ok realm =>
      rlm ← on_routerw (find_realm realm);
      match rlm with
      | None => mret (not_found "no such realm")
      | Some rlm =>
          w ← get routerw;
          let sessions := map (sessionToMap w) (map snd (range_entries (clients rlm))) in
          let limit := Invocation.KwargInt64Or inv "limit" 50 in
          let offset := Invocation.KwargInt64Or inv "offset" 0 in
          match paginateList sessions offset limit with
          | Panics why => crash why
          | Returns (paged, total) =>
              mret {| res_Args := [AMaps paged];
                      res_Kwargs := <["total" := AInt64 total]>
                        (<["offset" := AInt64 offset]> {["limit" := AInt64 limit]});
                      res_Details := ∅; res_Err := "" |}
          end
      end
  end.

Definition handleSessionKill invocation : M MgmtW InvocationResult :=
  match Invocation.ArgString invocation 0 with
  | Err e => mret (invalid_argument e)
  | Ok realm =>
      match Invocation.ArgUInt64 invocation 1 with
      | Err e => mret (invalid_argument e)
      | Ok sessionID =>
          own ← get (λ w, ID (mg_session (mgmt w)));
          if bool_decide (sessionID = own ∨ sessionID = Invocation.Caller invocation)
          then mret (invalid_argument "invalid session id")
          else
            rlm ← on_routerw (find_realm realm);
            match rlm with
            | None => mret (not_found "invalid realm")
            | Some rlm =>
                match clients rlm !! sessionID with
                | None => mret (not_found "session not found")
                | Some client =>
                    killed ← try (on_routerw (killSession invocation client));
                    match killed with
                    | Err e => mret (NewInvocationError e [])
                    | Ok _ => mret (NewInvocationResult [])
                    end
                end
            end
      end
  end.

Definition log_topic_of (id : Z) : string :=
  "io.xconn.mgmt.session.log." +:+ pretty id +:+ ".on_update".

Definition handleSessionLoggingSet invocation : M MgmtW InvocationResult :=
  match Invocation.KwargBool invocation "enable", Invocation.ArgString invocation 0,
    Invocation.ArgUInt64 invocation 1 with
  | Err e, _, _ | _, Err e, _ | _, _, Err e => mret (invalid_argument e)
  | Ok enable, Ok realm, Ok sessionID =>
      rlm ← on_routerw (find_realm realm);
      match rlm with
      | None => mret (not_found "invalid realm")
      | Some rlm =>
          match clients rlm !! sessionID with
          | None => mret (not_found "session not found")
          | Some client =>
              own ← get (λ w, ID (mg_session (mgmt w)));
              if bool_decide (sessionID = own)
              then mret (invalid_argument "cannot subscribe to logs of the management session")
              else if bool_decide (sessionID = Invocation.Caller invocation)
              then mret (invalid_argument "caller cannot subscribe to its own logs")
              else if (enable : bool) then
                let topic := log_topic_of (ID client) in
                on_routerw (on_client_session client (EnableLogPublishing topic));;
                mret (NewInvocationResult [AMap {["topic" := AString topic]}])
              else
                on_routerw (on_client_session client DisableLogPublishing);;
                mret (NewInvocationResult [])
          end
      end
  end.

End Management.

(** ** What the procedures promise *)

Section ManagementSpec.
Context `{WampMessages} `{!WampSerializers} `{!WampRouting} `{WampConstants}
  `{MapRange} `{FmtV} `{FloatConv} `{Host}.

Implicit Types (invocation inv : Invocation.Invocation) (w : MgmtW).

Lemma slice_full {A} (l : list A) lo hi :
  (0 ≤ lo ≤ hi)%Z → (hi ≤ Z.of_nat (length l))%Z →
  slice l lo hi = Returns (take (Z.to_nat (hi - lo)) (drop (Z.to_nat lo) l)).
Proof. intros. unfold slice. by rewrite bool_decide_true. Qed.

Lemma slice_panics {A} (l : list A) lo hi :
  (lo < 0 ∨ hi < lo)%Z → slice l lo hi = Panics "slice bounds out of range".
Proof. intros. unfold slice. rewrite bool_decide_false; [done|lia]. Qed.

(** C31. Pagination, on every input: without a positive limit the whole list; else
    the page of [limit] items after [offset], clipped at the end of the list.
    A negative offset, and an offset and limit whose sum overflows [int64],
    panic. *)
Theorem paginateList_spec {T} (items : list T) offset limit :
  in_int64 offset → in_int64 limit → in_int64 (Z.of_nat (length items)) →
  let total := Z.of_nat (length items) in
  paginateList items offset limit =
  if bool_decide (limit ≤ 0)%Z then Returns (items, total)
  else if bool_decide (offset < 0 ∨ MaxInt64 < Z.min offset total + limit)%Z
  then Panics "slice bounds out of range"
  else Returns (take (Z.to_nat limit) (drop (Z.to_nat offset) items), total).
Proof.
  intros Ho Hl Ht total. unfold paginateList. fold total.
  case_bool_decide as Hl0; [done|].
  set (o := if bool_decide (total < offset)%Z then total else offset).
  assert (o = Z.min offset total) as Eo.
  { unfold o. case_bool_decide; lia. }
  clearbody o. unfold in_int64 in *.
  destruct (decide (offset < 0 ∨ MaxInt64 < Z.min offset total + limit)%Z) as [Hbad|Hbad];
    [rewrite (bool_decide_true (_ ∨ _)) by done|rewrite (bool_decide_false (_ ∨ _)) by done].
  - assert (wrap_int64 (o + limit) < o ∨ o < 0)%Z as Hneg.
    { destruct (decide (offset < 0)%Z); [right; lia|left].
      unfold wrap_int64, MaxInt64, MinInt64 in *.
      assert (o + limit + 2 ^ 63 = 1 * 2 ^ 64 + (o + limit - 2 ^ 63))%Z as -> by lia.
      rewrite Z.add_comm, Z.mod_add by lia. rewrite Z.mod_small by (subst total; lia). lia. }
    rewrite slice_panics; [done|]. case_bool_decide; lia.
  - rewrite wrap_int64_id by (unfold in_int64, MaxInt64, MinInt64 in *; lia).
    rewrite slice_full by (case_bool_decide; lia). do 2 f_equal.
    destruct (decide (total < offset)%Z).
    + rewrite !drop_ge by lia. by rewrite !take_nil.
    + assert (o = offset) as -> by lia. case_bool_decide; [|f_equal; lia].
      rewrite !take_ge by (rewrite length_drop; lia). done.
Qed.

(** A management client that asks for sessions at a negative offset takes the
    router down: the handler panics in its goroutine. *)
Theorem negative_offset_panics names inv realm w p r :
  Invocation.ArgString inv 0 = Ok realm →
  realms (rt (routerw w)) !! realm = Some p → heap (routerw w) !! p = Some r →
  (Invocation.KwargInt64Or inv "offset" 0 < 0)%Z →
  (0 < Invocation.KwargInt64Or inv "limit" 50)%Z →
  (handleListSession names inv w).2 = Crash "slice bounds out of range".
Proof.
  intros Ha Hp Hr Ho Hl. unfold handleListSession. rewrite Ha.
  erewrite bind_Val by (unfold on_routerw, find_realm, get, zoom; simpl; by rewrite Hp, Hr).
  cbv iota. erewrite bind_Val by done. cbv zeta. unfold paginateList.
  rewrite bool_decide_false by lia.
  rewrite slice_panics; [done|]. left. case_bool_decide; lia.
Qed.

(** *** Memory logging *)

(** Exactly the loop that the current stop channel ends is running, if memory
    logging is on, and none otherwise. *)
Definition mgmt_wf w : Prop :=
  dom (mem_loops w) = if memRunning (mgmt w) then {[stopMemStats (mgmt w)]} else ∅.

Definition keeps_loops w w' : Prop := mgmt_wf w → mgmt_wf w'.
#[local] Instance keeps_loops_pre : PreOrder keeps_loops.
Proof. split; [by intros w Hw|intros x y z Hxy Hyz Hx; by apply Hyz, Hxy]. Qed.

Lemma on_routerw_keeps {A} (m : M RouterW A) : keeps keeps_loops (on_routerw m).
Proof. apply keeps_zoom. by intros v w Hw. Qed.

Lemma startMemoryLogging_run i w :
  startMemoryLogging i w =
  if memRunning (mgmt w) then (w, Fail "memory logging is already running")
  else
    (mkMgmtW (mkMgmt (mg_session (mgmt w)) true i (next_chan w))
       (setMessageRateTracking true false (routerw w)).1
       (<[next_chan w := i]> (mem_loops w)) (S (next_chan w)) (gomaxprocs w), Val tt).
Proof.
  unfold startMemoryLogging. erewrite bind_Val by done.
  by destruct (memRunning (mgmt w)).
Qed.

Lemma stopMemoryLogging_run waiting w :
  stopMemoryLogging waiting w =
  if memRunning (mgmt w) then
    (mkMgmtW (mkMgmt (mg_session (mgmt w)) false (interval (mgmt w)) (stopMemStats (mgmt w)))
       (setMessageRateTracking false waiting (routerw w)).1
       (delete (stopMemStats (mgmt w)) (mem_loops w)) (next_chan w) (gomaxprocs w), Val tt)
  else (w, Val tt).
Proof.
  unfold stopMemoryLogging. erewrite bind_Val by done.
  by destruct (memRunning (mgmt w)).
Qed.

Lemma stop_if_running_run waiting w : stop_if_running waiting w = stopMemoryLogging waiting w.
Proof.
  unfold stop_if_running. erewrite bind_Val by done.
  rewrite stopMemoryLogging_run. by destruct (memRunning (mgmt w)) eqn:Hr;
    rewrite ?stopMemoryLogging_run, ?Hr.
Qed.

Lemma startMemoryLogging_keeps i : keeps keeps_loops (startMemoryLogging i).
Proof.
  intros w Hw. rewrite startMemoryLogging_run. unfold mgmt_wf in *.
  destruct (memRunning (mgmt w)) eqn:Hr; simpl; [by rewrite Hr|].
  rewrite dom_insert_L, Hw. set_solver.
Qed.

Lemma stopMemoryLogging_keeps waiting : keeps keeps_loops (stopMemoryLogging waiting).
Proof.
  intros w Hw. rewrite stopMemoryLogging_run. unfold mgmt_wf in *.
  destruct (memRunning (mgmt w)) eqn:Hr; simpl; [|by rewrite Hr].
  rewrite dom_delete_L, Hw. set_solver.
Qed.

Lemma stop_if_running_keeps waiting : keeps keeps_loops (stop_if_running waiting).
Proof. intros w. rewrite stop_if_running_run. apply stopMemoryLogging_keeps. Qed.

(** The procedures of the management API, with what they may run on. *)
Inductive mgmt_handler (names : Serializer → option string)
    : M MgmtW InvocationResult → Prop :=
| mh_stats_set inv waiting : mgmt_handler names (handleSetStatsStatus inv waiting)
| mh_stats_get : mgmt_handler names handleStatsStatus
| mh_set_level inv : mgmt_handler names (handleSetLogLevel inv)
| mh_get_level : mgmt_handler names handleGetLogLevel
| mh_set_procs inv : mgmt_handler names (handleMaxProcsSet inv)
| mh_get_procs : mgmt_handler names handleMaxProcsGet
| mh_realms : mgmt_handler names handleListRealms
| mh_sessions inv : mgmt_handler names (handleListSession names inv)
| mh_kill inv : mgmt_handler names (handleSessionKill inv)
| mh_log inv : mgmt_handler names (handleSessionLoggingSet inv).

Lemma mgmt_handler_keeps names h : mgmt_handler names h → keeps keeps_loops h.
Proof.
  destruct 1; unfold handleSetStatsStatus, handleStatsStatus, handleSetLogLevel,
    handleGetLogLevel, handleMaxProcsSet, handleMaxProcsGet, handleListRealms,
    handleListSession, handleSessionKill, handleSessionLoggingSet, on_mgmt; go_effect;
    first [ apply stop_if_running_keeps | apply startMemoryLogging_keeps
          | apply stopMemoryLogging_keeps | apply on_routerw_keeps
          | apply keeps_modify; by intros w Hw ].
Qed.

(** However the procedures are called, at most one memory-logging loop has been
    started and not been told to stop: the one of the channel that the next stop
    will close, and only while logging is on. *)
Theorem one_memory_loop names session w w' :
  mgmt w = newManagementAPI session → mem_loops w = ∅ →
  rtc (λ a b, ∃ h, mgmt_handler names h ∧ b = (h a).1) w w' → mgmt_wf w'.
Proof.
  intros Hm Hl Hs. assert (mgmt_wf w) as Hwf.
  { unfold mgmt_wf. rewrite Hm, Hl. apply dom_empty_L. }
  clear Hm Hl. induction Hs as [|w1 w2 w3 (h & Hh & ->) _ IH]; [done|].
  by apply IH, (mgmt_handler_keeps names h Hh w1).
Qed.

(** The interval is not checked: enabling with an interval that is negative,
    or that overflows, is answered with success, and the loop it starts panics. *)
Theorem bad_interval_panics inv waiting w ms :
  Invocation.KwargBoolOr inv "enable" false = true →
  Invocation.KwargBoolOr inv "disable" false = false →
  Invocation.KwargInt64 inv "interval" = Ok ms → ms ≠ 0%Z →
  (wrap_int64 (ms * Millisecond) ≤ 0)%Z →
  let w' := (handleSetStatsStatus inv waiting w).1 in
  (handleSetStatsStatus inv waiting w).2 = Val (NewInvocationResult []) ∧
  (memory_loop_start (stopMemStats (mgmt w')) w').2 =
    Crash "non-positive interval for NewTicker".
Proof.
  intros He Hd Hi Hms Hneg. unfold handleSetStatsStatus. rewrite He, Hd, Hi. simpl.
  erewrite bind_Val by done. unfold requested_ms. rewrite bool_decide_false by done.
  set (i := wrap_int64 _) in *. erewrite bind_Val by done.
  set (w1 := (on_mgmt (set_interval i) w).1).
  change (mkMgmtW _ _ _ _ _) with w1.
  assert (stop_if_running waiting w1 = ((stopMemoryLogging waiting w1).1, Val tt)) as Hstop.
  { rewrite stop_if_running_run, stopMemoryLogging_run. by destruct (memRunning (mgmt w1)). }
  rewrite (bind_Val _ _ _ _ _ Hstop). set (w2 := (stopMemoryLogging waiting w1).1).
  assert (memRunning (mgmt w2) = false) as Hr.
  { subst w2. rewrite stopMemoryLogging_run. by destruct (memRunning (mgmt w1)) eqn:Hr1. }
  erewrite bind_Val by (apply try_Val; rewrite startMemoryLogging_run, Hr; done).
  split; [done|]. unfold memory_loop_start. simpl. simplify_map_eq.
  by rewrite bool_decide_true.
Qed.

End ManagementSpec.
