(* ===== verification/Stats.v ===== *)
(** * Statistics of the management API (management.go)

    What [collectStats] reads, the procedures that give it out, and the
    goroutines of [startMemoryLogging] as a transition system: a goroutine looks
    up the channel that stops it each time it comes to its [select]. *)

From Stdlib Require Import SpecFloat.
From S2P Require Import Prelude GoStd Wamp Values Accessors Permissions Peers Realm Router Meta Management.

Local Open Scope string_scope.

Definition ManagementTopicStats := "io.xconn.mgmt.stats.on_update".

(** ** Readings *)

(** What gopsutil and the clock say at some moment; the memory is virtual and resident. *)
Record readings := {
  r_process : result unit;
  r_memory : result (Z * Z);
  r_memory_percent : result spec_float;
  r_cpu_percent : result spec_float;
  r_uptime : spec_float;
}.

Section Stats.
Context `{WampMessages} `{!WampSerializers} `{!WampRouting} `{WampConstants}
  `{MapRange} `{FmtV} `{FloatConv} `{Host}.

Definition collectStats (r : readings) : M MgmtW dict :=
  procMem ← of_result (wrap "failed to get process memory: " (r_memory r));
  procMemPercent ← of_result (wrap "failed to get process memory percent: " (r_memory_percent r));
  cpuPercent ← of_result (wrap "failed to get process CPU usage: " (r_cpu_percent r));
  let statsMap : dict :=
    <["cpu_usage" := AFloat64 cpuPercent]> (<["memory_usage" := AFloat32 procMemPercent]>
    (<["virt_memory" := AUint64 procMem.1]> (<["res_memory" := AUint64 procMem.2]>
    (<["uptime" := AFloat64 (r_uptime r)]> ∅)))) in
  tracking ← get (λ w, trackingMsg (rt (routerw w)));
  rate ← get (λ w, msgsPerSec (rt (routerw w)));
  mret (if (tracking : bool) then <["messages_per_second" := AUint64 rate]> statsMap else statsMap).

(** The first error is given as a Go error, the other one as its text. *)
Definition handleStatsGet (r : readings) : M MgmtW InvocationResult :=
  match r_process r with
  | Err _ => mret (NewInvocationError "wamp.error.internal_error" [AOther "*errors.errorString"])
  | Ok _ =>
      statMap ← try (collectStats r);
      match statMap with
      | Err e => mret (NewInvocationError "wamp.error.internal_error" [AString e])
      | Ok statMap => mret (NewInvocationResult [AMap statMap])
      end
  end.

Definition handleGC : M MgmtW InvocationResult := mret (NewInvocationResult []).
Definition handleGoroutineGet (n : Z) : M MgmtW InvocationResult := mret (NewInvocationResult [AInt n]).

(** What a memory-logging goroutine does at a tick; the publication is sent by
    the session of the management API. *)
Definition memory_tick (r : readings) : M MgmtW unit :=
  statsMap ← try (collectStats r);
  match statsMap with
  | Err _ => mret tt
  | Ok statsMap =>
      session ← get (λ w, mg_session (mgmt w));
      on_routerw (modify (λ w, mkRouterW (rt w) (heap w) (sess w) (next_session w)
        (spawned w ++ [{| sp_session := session; sp_topic := ManagementTopicStats;
                          sp_args := [AMap statsMap] |}])%list (log_level w)))
  end.

Implicit Types (w : MgmtW) (r : readings).

(** The keys of the statistics. *)
Definition stats_keys (tracking : bool) : gset string :=
  {["cpu_usage"; "memory_usage"; "virt_memory"; "res_memory"; "uptime"]} ∪
  if tracking then {["messages_per_second"]} else ∅.

Definition readable r : bool :=
  is_ok (r_memory r) && is_ok (r_memory_percent r) && is_ok (r_cpu_percent r).

(** What is said of the statistics [d] of the router of [w]. *)
Definition stats_of w (d : dict) : Prop :=
  dom d = stats_keys (trackingMsg (rt (routerw w))) ∧
  (trackingMsg (rt (routerw w)) = true →
   d !! "messages_per_second" = Some (AUint64 (msgsPerSec (rt (routerw w))))).

Lemma collectStats_run r w :
  if readable r then ∃ d, collectStats r w = (w, Val d) ∧ stats_of w d
  else ∃ e, collectStats r w = (w, Fail e).
Proof.
  unfold collectStats, readable. destruct (r_memory r) as [[v p]|e]; [|by eexists].
  destruct (r_memory_percent r) as [mp|e]; [|by eexists]. destruct (r_cpu_percent r) as [cp|e]; [|by eexists].
  cbn [is_ok andb]. erewrite !bind_Val by done. eexists. split; [done|].
  unfold stats_of, stats_keys. destruct (trackingMsg (rt (routerw w))).
  - split; [|intros _; apply lookup_insert_eq].
    rewrite !dom_insert_L, dom_empty_L. set_solver.
  - split; [|done]. rewrite !dom_insert_L, dom_empty_L. set_solver.
Qed.

(** Reading the statistics changes nothing and always returns: the numbers of
    the process, with the rate of messages exactly while the router counts them,
    or an internal error when one cannot be read.  The periodic publication, on
    the same readings, publishes the same statistics, and skips readings that
    fail. *)
Theorem statistics_are_read r w :
  ∃ v, handleStatsGet r w = (w, Val v) ∧ (memory_tick r w).2 = Val tt ∧
    (if is_ok (r_process r) && readable r then
       ∃ d, v = NewInvocationResult [AMap d] ∧ stats_of w d ∧
         spawned (routerw (memory_tick r w).1) =
           (spawned (routerw w) ++ [{| sp_session := mg_session (mgmt w);
              sp_topic := ManagementTopicStats; sp_args := [AMap d] |}])%list
     else res_Err v = "wamp.error.internal_error") ∧
    (readable r = false → (memory_tick r w).1 = w).
Proof.
  unfold handleStatsGet, memory_tick. pose proof (collectStats_run r w) as Hr.
  destruct (readable r).
  - destruct Hr as (d & Hd & Hs). rewrite (bind_Val _ _ _ _ _ (try_Val _ _ _ _ Hd)).
    destruct (r_process r) as [[]|e].
    + rewrite (bind_Val _ _ _ _ _ (try_Val _ _ _ _ Hd)). eexists. split; [done|].
      split; [done|]. split; [|done]. by exists d.
    + by eexists.
  - destruct Hr as (e & He). assert (try (collectStats r) w = (w, Val (Err e))) as Ht
      by (unfold try; by rewrite He).
    rewrite (bind_Val _ _ _ _ _ Ht). destruct (r_process r) as [[]|e0].
    + rewrite (bind_Val _ _ _ _ _ Ht). by eexists.
    + by eexists.
Qed.

End Stats.

(** ** The goroutines of memory logging

    [running] and [stop_chan] are the fields [memRunning] and [stopMemStats]. *)

Inductive position := Starts | AtSelect (c : nat) | Collects.

Record logging := mkLogging {
  running : bool; stop_chan : nat; closed_chans : gset nat; fresh_chan : nat;
  goroutines : gmap nat position }.

Definition set_goroutines (m : gmap nat position) (s : logging) : logging :=
  mkLogging (running s) (stop_chan s) (closed_chans s) (fresh_chan s) m.

(** [startMemoryLogging] makes a channel and a goroutine, [stopMemoryLogging]
    closes the channel that the field has. *)
Inductive logging_step : logging → logging → Prop :=
| starts_logging g s :
    running s = false → goroutines s !! g = None →
    logging_step s (mkLogging true (fresh_chan s) (closed_chans s) (S (fresh_chan s))
      (<[g := Starts]> (goroutines s)))
| stops_logging s :
    running s = true →
    logging_step s (mkLogging false (stop_chan s) ({[stop_chan s]} ∪ closed_chans s) (fresh_chan s)
      (goroutines s)).

(** A goroutine comes to its [select], where it evaluates [m.stopMemStats]; its
    ticker fires, and it collects and publishes; or the channel is closed. *)
Inductive goroutine_step : logging → logging → Prop :=
| comes_to_select g s :
    goroutines s !! g = Some Starts ∨ goroutines s !! g = Some Collects →
    goroutine_step s (set_goroutines (<[g := AtSelect (stop_chan s)]> (goroutines s)) s)
| ticks g c s :
    goroutines s !! g = Some (AtSelect c) →
    goroutine_step s (set_goroutines (<[g := Collects]> (goroutines s)) s)
| sees_stop g c s :
    goroutines s !! g = Some (AtSelect c) → c ∈ closed_chans s →
    goroutine_step s (set_goroutines (delete g (goroutines s)) s).

Definition any_step (s s' : logging) : Prop := logging_step s s' ∨ goroutine_step s s'.

Definition no_logging : logging := mkLogging false 0 ∅ 1 ∅.

Record logging_inv (s : logging) : Prop := {
  li_fresh : (stop_chan s < fresh_chan s)%nat ∧ ∀ c, c ∈ closed_chans s → (c < fresh_chan s)%nat;
  li_running : running s = true → stop_chan s ∉ closed_chans s;
  li_stopped : running s = false → goroutines s = ∅ ∨ stop_chan s ∈ closed_chans s;
  li_select g c : goroutines s !! g = Some (AtSelect c) → c ∈ closed_chans s ∨ c = stop_chan s;
}.

Lemma no_logging_inv : logging_inv no_logging.
Proof. split; simpl; try done; [split; [lia|set_solver]|by left]. Qed.

Lemma any_step_inv s s' : any_step s s' → logging_inv s → logging_inv s'.
Proof.
  intros [[g t Ht Hg|t Ht]|[g t Hg|g c t Hg|g c t Hg Hin]] [[Hf Hc] Hr Hst Hsel].
  - split; simpl; try done.
    + split; [lia|]. intros c ?%Hc. lia.
    + intros _ ?%Hc. lia.
    + intros g' c. rewrite lookup_insert_Some. intros [[_ [=]]|[_ Hg']].
      destruct (Hst Ht) as [He|Hin]; [by rewrite He, lookup_empty in Hg'|].
      left. destruct (Hsel _ _ Hg') as [?| ->]; done.
  - split; simpl; try done.
    + split; [done|]. intros c. rewrite elem_of_union, elem_of_singleton. intros [-> | ?%Hc]; done.
    + intros _. right. set_solver.
    + intros g c [?| ->]%Hsel; left; set_solver.
  - split; simpl; try done.
    + intros Ht. destruct (Hst Ht) as [He|]; [|by right]. rewrite He, !lookup_empty in Hg.
      by destruct Hg.
    + intros g' c. rewrite lookup_insert_Some. intros [[_ [= <-]]|[_ Hg']]; [by right|eauto].
  - split; simpl; try done.
    + intros Ht. destruct (Hst Ht) as [He|]; [|by right]. by rewrite He, lookup_empty in Hg.
    + intros g' c'. rewrite lookup_insert_Some. intros [[_ [=]]|[_ Hg']]; eauto.
  - split; simpl; try done.
    + intros Ht. destruct (Hst Ht) as [He|]; [|by right]. by rewrite He, lookup_empty in Hg.
    + intros g' c' [_ Hg']%lookup_delete_Some. eauto.
Qed.

Lemma logging_reachable s : rtc any_step no_logging s → logging_inv s.
Proof.
  intros Hr. pose proof no_logging_inv as I. revert I. induction Hr; eauto using any_step_inv.
Qed.

(** A goroutine can end by its own steps once its channel, and the one in the
    field, are closed. *)
Lemma goroutine_ends s g :
  logging_inv s → stop_chan s ∈ closed_chans s →
  rtc goroutine_step s (set_goroutines (delete g (goroutines s)) s).
Proof.
  intros I Hc. destruct (goroutines s !! g) as [p|] eqn:Hg.
  2: { rewrite delete_id by done. destruct s; done. }
  assert (∀ t c, goroutines t !! g = Some (AtSelect c) → c ∈ closed_chans t →
    rtc goroutine_step t (set_goroutines (delete g (goroutines t)) t)) as Hend
    by (intros; by eapply rtc_once, sees_stop).
  destruct p as [|c|].
  - eapply rtc_l; [apply (comes_to_select g); by left|].
    etrans; [eapply Hend; simpl; [apply lookup_insert_eq|done]|].
    unfold set_goroutines. simpl. by rewrite delete_insert_eq.
  - eapply Hend; [done|]. destruct (li_select s I _ _ Hg) as [| ->]; done.
  - eapply rtc_l; [apply (comes_to_select g); by right|].
    etrans; [eapply Hend; simpl; [apply lookup_insert_eq|done]|].
    unfold set_goroutines. simpl. by rewrite delete_insert_eq.
Qed.

(** Memory logging never closes a channel twice, and when it is off every
    goroutine that it has started can end, whatever it was doing. *)
Theorem stopped_logging_can_end s :
  rtc any_step no_logging s →
  (running s = true → stop_chan s ∉ closed_chans s) ∧
  (running s = false → ∃ s', rtc goroutine_step s s' ∧ goroutines s' = ∅).
Proof.
  intros Hr. pose proof (logging_reachable s Hr) as I. split; [apply (li_running s I)|].
  intros Hoff. destruct (li_stopped s I Hoff) as [He|Hc]; [by exists s|].
  remember (goroutines s) as m eqn:Hm. revert s Hm I Hc Hr Hoff.
  induction m as [|g p m Hg IH] using map_ind; intros s Hm I Hc Hr Hoff; [by exists s|].
  pose proof (goroutine_ends s g I Hc) as Hs.
  destruct (IH (set_goroutines (delete g (goroutines s)) s)) as (s' & Hs' & He); try done.
  - simpl. by rewrite <-Hm, delete_insert_id.
  - apply logging_reachable. etrans; [exact Hr|].
    eapply rtc_subrel; [|exact Hs]. by right.
  - etrans; [exact Hr|]. eapply rtc_subrel; [|exact Hs]. by right.
  - exists s'. split; [by etrans|done].
Qed.

(** When logging is restarted, to change its interval for one, while a goroutine
    collects the statistics, that goroutine comes back to a [select] on the new
    channel: it has not stopped, and from then on two goroutines publish. *)
Theorem restarted_logging_runs_twice :
  ∃ s, rtc any_step no_logging s ∧ running s = true ∧
    ∀ s', rtc goroutine_step s s' → size (goroutines s') = 2%nat.
Proof.
  set (m := <[1%nat := AtSelect 2]> (<[0%nat := AtSelect 2]> ∅) : gmap nat position).
  exists (mkLogging true 2 {[1%nat]} 3 m). split; [|split; [done|]].
  - eapply rtc_l; [left; by apply (starts_logging 0)|].
    eapply rtc_l; [right; apply (comes_to_select 0); left; apply lookup_insert_eq|].
    eapply rtc_l; [right; eapply (ticks 0), lookup_insert_eq|].
    eapply rtc_l; [left; by apply stops_logging|].
    eapply rtc_l; [left; by apply (starts_logging 1)|].
    eapply rtc_l; [right; apply (comes_to_select 0); right; done|].
    eapply rtc_l; [right; apply (comes_to_select 1); left; done|].
    match goal with |- rtc _ ?a ?b => assert (a = b) as ->; [by vm_compute|done] end.
  - intros s' Hs. assert (∀ t t', rtc goroutine_step t t' →
      stop_chan t ∉ closed_chans t → (∀ g c, goroutines t !! g = Some (AtSelect c) → c = stop_chan t) →
      size (goroutines t') = size (goroutines t)) as Hsize.
    { clear. induction 1 as [|t t1 t' Ht _ IH]; [done|]. intros Hc Hsel.
      destruct Ht as [g t Hg|g c t Hg|g c t Hg Hin].
      - rewrite IH; simpl; [|done|].
        + destruct Hg; by eapply map_size_insert_Some.
        + intros g' c. rewrite lookup_insert_Some. intros [[_ [=]]|[_ ?]]; eauto.
      - rewrite IH; simpl; [|done|].
        + by eapply map_size_insert_Some.
        + intros g' c'. rewrite lookup_insert_Some. intros [[_ [=]]|[_ ?]]; eauto.
      - by rewrite (Hsel _ _ Hg) in Hin. }
    rewrite (Hsize _ _ Hs); [done|simpl; set_solver|].
    simpl. unfold m. intros g c. rewrite !lookup_insert_Some, lookup_empty. naive_solver.
Qed.

(** A sample run. *)
Example stopped_logging_can_end_witness :
  ∃ s', rtc goroutine_step (mkLogging false 1 ({[1%nat]} ∪ ∅) 2 (<[0%nat := Starts]> ∅)) s' ∧
    goroutines s' = ∅.
Proof.
  refine (proj2 (stopped_logging_can_end (mkLogging false 1 ({[1%nat]} ∪ ∅) 2 (<[0%nat := Starts]> ∅)) _) eq_refl).
  eapply rtc_l; [left; by apply (starts_logging 0)|]. apply rtc_once. left. by apply stops_logging.
Defined.
