(* ===== verification/NxtConfig.v ===== *)
(** * The configuration of the nxt router (nxt/config.go, nxt/util.go)

    What [Validate] accepts, and the router [StartServerFromConfigFile] builds
    from a configuration before it listens; Wiring has its listeners. *)

From S2P Require Import Prelude GoStd GoPath Wamp Accessors Permissions Peers Realm Router NxtAuth.

Local Open Scope string_scope.

(** ** Data *)

Module Config.
Record Permission := {
  URI : string; MatchPolicy : string;
  AllowCall : bool; AllowPublish : bool; AllowRegister : bool; AllowSubscribe : bool }.
Record RealmRole := { role_Name : string; role_Permissions : list Permission }.
Record Realm := { Name : string; Roles : list RealmRole }.
Record RateLimit := { Rate : Z; Interval : Z; Strategy : string }.
Record Transport := {
  Type_ : string; Address : string; Listener : string; Serializers : list string;
  RateLimit_ : RateLimit }.
Record Config := {
  Loglevel : string; Management : bool;
  Realms : list Realm; Transports : list Transport; Authenticators_ : Types.Authenticators }.
End Config.
Import Config.

(** Constants of config.go and server.go. *)
Definition JsonSerializer := "json".
Definition CborSerializer := "cbor".
Definition MsgPackSerializer := "msgpack".
Definition ProtobufSerializer := "protobuf".
Definition CapnprotoSerializer := "capnproto".
Definition BurstStrategy := "burst".
Definition LeakyBucketStrategy := "leakybucket".
Definition WebSocketTransport := "websocket".
Definition UniversalTransport := "universal".
Definition RawSocketTransport := "rawsocket".
Definition NetworkUnix := "unix".
Definition NetworkTCP := "tcp".

(** ** The parts of the standard library the validation calls *)

(** [[^\s.#]] of Go's regexp *)
Definition word_char (c : ascii) : bool :=
  bool_decide (nat_of_ascii c ∉ [9; 10; 12; 13; 32; 46; 35]%nat).

(** [URIRegex.MatchString]: [^([^\s.#]+\.)*([^\s.#]+)$].  [in_word]: the current
    word has a character. *)
Fixpoint uri_from (in_word : bool) (s : string) : bool :=
  match s with
  | EmptyString => in_word
  | String c s =>
      if bool_decide (c = "."%char) then in_word && uri_from false s
      else word_char c && uri_from true s
  end.
Definition URIRegex (s : string) : bool := uri_from false s.

(** The white space of [unicode.IsSpace] outside ASCII, in UTF-8. *)
Definition space2 (a b : ascii) : bool :=
  bool_decide (nat_of_ascii a = 194 ∧ nat_of_ascii b ∈ [133; 160])%nat.
Definition space3 (a b c : ascii) : bool :=
  let x := (nat_of_ascii a, nat_of_ascii b) in
  let c := nat_of_ascii c in
  bool_decide (x = (225, 154) ∧ c = 128 ∨
    x = (226, 128) ∧ (128 ≤ c ≤ 138 ∨ c ∈ [168; 169; 175]) ∨
    x = (226, 129) ∧ c = 159 ∨ x = (227, 128) ∧ c = 128)%nat.

(** [strings.TrimSpace(s) == ""] *)
Fixpoint trims_to_nothing (s : string) : bool :=
  match s with
  | EmptyString => true
  | String a s1 =>
      if is_space a then trims_to_nothing s1
      else
        match s1 with
        | EmptyString => false
        | String b s2 =>
            if space2 a b then trims_to_nothing s2
            else
              match s2 with
              | EmptyString => false
              | String c s3 => space3 a b c && trims_to_nothing s3
              end
        end
  end.

(** [reverseHexTable] *)
Definition hex_value (c : ascii) : option Z :=
  let n := nat_of_ascii c in
  if bool_decide (48 ≤ n ≤ 57)%nat then Some (Z.of_nat n - 48)%Z
  else if bool_decide (97 ≤ n ≤ 102)%nat then Some (Z.of_nat n - 87)%Z
  else if bool_decide (65 ≤ n ≤ 70)%nat then Some (Z.of_nat n - 55)%Z
  else None.

Section Validation.
(** The [%#U] verb on the code of a byte. *)
Context (fmt_U : nat → string).

Definition InvalidByteError (c : ascii) : error :=
  "encoding/hex: invalid byte: " +:+ fmt_U (nat_of_ascii c).
Definition ErrLength : error := "encoding/hex: odd length hex string".

(** [hex.DecodeString] *)
Fixpoint DecodeString (s : string) : result (list Z) :=
  match s with
  | EmptyString => Ok []
  | String p EmptyString =>
      match hex_value p with None => Err (InvalidByteError p) | Some _ => Err ErrLength end
  | String p (String q s) =>
      match hex_value p, hex_value q with
      | None, _ => Err (InvalidByteError p)
      | _, None => Err (InvalidByteError q)
      | Some a, Some b => rmap (cons (Z.lor (Z.shiftl a 4) b)) (DecodeString s)
      end
  end.

(** ** Validation *)

Local Open Scope go_scope.
Local Open Scope string_scope.

Definition validateSerializers (serializers : list string) : result unit :=
  for_each (λ elem,
    if bool_decide (elem ∈ [JsonSerializer; CborSerializer; MsgPackSerializer;
                            ProtobufSerializer; CapnprotoSerializer])
    then Ok tt else Err ("invalid serializer: " +:+ elem)) serializers.

Definition validateNonEmptyNoSpaceString (field fieldName : string) : result unit :=
  if trims_to_nothing field then Err (fieldName +:+ " is required")
  else if contains_byte " " field then Err (fieldName +:+ " must not contain empty spaces")
  else Ok tt.

Definition validateTransport (transport : Transport) : result unit :=
  check*
    (if bool_decide (Type_ transport ∈ [WebSocketTransport; UniversalTransport;
                                        RawSocketTransport])
     then wrap "invalid unix socket path: "
            (validateNonEmptyNoSpaceString (Address transport) "address")
     else Err ("invalid transport type: " +:+ Type_ transport)) in
  check*
    (if bool_decide (Listener transport ∈ [NetworkTCP; NetworkUnix]) then Ok tt
     else Err ("invalid listener: " +:+ Listener transport)) in
  check* validateSerializers (Serializers transport) in
  let strategy := Strategy (RateLimit_ transport) in
  if bool_decide (strategy ∈ [""; BurstStrategy; LeakyBucketStrategy]) then Ok tt
  else Err ("invalid rate limit strategy '" +:+ strategy +:+ "', must be one of '"
              +:+ BurstStrategy +:+ "' or '" +:+ LeakyBucketStrategy +:+ "'").

Definition invalid_realm (realm : string) : error :=
  "invalid realm " +:+ realm +:+ ": must be a valid URI".

Definition validateCommonFields (authid realm role : string) : result unit :=
  check* validateNonEmptyNoSpaceString authid "authid" in
  if negb (URIRegex realm) then Err (invalid_realm realm)
  else validateNonEmptyNoSpaceString role "role".

Definition validateAuthorizedKeys (authorizedKeys : list string) : result unit :=
  if bool_decide (length authorizedKeys = 0%nat) then Err "no authorized keys provided"
  else
    for_each (λ pubKey,
      let* publicKeyRaw := wrap "invalid public key: " (DecodeString pubKey) in
      if bool_decide (length publicKeyRaw ≠ 32%nat)
      then Err "invalid public key: public key must have length of 32"
      else Ok tt) authorizedKeys.

Definition validateAuthenticators (a : Types.Authenticators) : result unit :=
  check* for_each (λ e,
    wrap "invalid anonymous authenticator: "
      (validateCommonFields (Types.a_AuthID e) (Types.a_Realm e) (Types.a_Role e)))
    (Types.anonymouses a) in
  check* for_each (λ e,
    check* wrap "invalid ticket authenticator: "
      (validateCommonFields (Types.t_AuthID e) (Types.t_Realm e) (Types.t_Role e)) in
    if trims_to_nothing (Types.t_Ticket e)
    then Err "invalid ticket authenticator: ticket is required" else Ok tt)
    (Types.tickets a) in
  check* for_each (λ e,
    check* wrap "invalid wampcra authenticator: "
      (validateCommonFields (Types.cra_AuthID e) (Types.cra_Realm e) (Types.cra_Role e)) in
    if trims_to_nothing (Types.cra_Secret e)
    then Err "invalid wampcra authenticator: secret is required" else Ok tt)
    (Types.wampcras a) in
  for_each (λ e,
    check* wrap "invalid cryptoSign authenticator: "
      (validateCommonFields (Types.cs_AuthID e) (Types.cs_Realm e) (Types.cs_Role e)) in
    wrap "invalid cryptoSign authenticator: " (validateAuthorizedKeys (Types.cs_AuthorizedKeys e)))
    (Types.cryptoSigns a).

Definition validatePermission `{WampConstants} (p : Permission) : result unit :=
  if bool_decide (MatchPolicy p ∈ [MatchExact; MatchPrefix; MatchWildcard]) then Ok tt
  else Err ("invalid match policy " +:+ MatchPolicy p +:+ ": must be exact, prefix or wildcard").

Definition validateRealm `{WampConstants} (realm : Realm) : result unit :=
  if negb (URIRegex (Name realm)) then Err (invalid_realm (Name realm))
  else
    for_each (λ role, for_each validatePermission (role_Permissions role)) (Roles realm).

Definition Validate `{WampConstants} (c : Config) : result unit :=
  check* for_each validateRealm (Realms c) in
  check* for_each (λ t, wrap "invalid transport: " (validateTransport t)) (Transports c) in
  validateAuthenticators (Authenticators_ c).

End Validation.

(** ** Building the router *)

Section Start.
Context `{WampMessages} `{!WampSerializers} `{!WampRouting} `{WampConstants}
  `{MapRange} `{FmtV} `{LogLevels} (fmt_U : nat → string).

(** [strings.ToLower(strings.TrimSpace(s))] on ASCII input. *)
Definition parseLogLevel (s : string) : result LogLevel :=
  let level := ToLower (TrimSpace s) in
  if bool_decide (level = "trace") then Ok LogLevelTrace
  else if bool_decide (level = "debug") then Ok LogLevelDebug
  else if bool_decide (level = "info") then Ok LogLevelInfo
  else if bool_decide (level = "warn") then Ok LogLevelWarn
  else if bool_decide (level = "error") then Ok LogLevelError
  else if bool_decide (level = "") then Ok LogLevelInfo
  else Err ("invalid log level " +:+ fmt_q s +:+
            ": must be one of: 'trace', 'debug', 'info', 'warn', 'error'").

Definition xconn_permission (p : Permission) : Permissions.Permission :=
  {| Permissions.URI := URI p; Permissions.MatchPolicy := MatchPolicy p;
     Permissions.AllowCall := AllowCall p; Permissions.AllowPublish := AllowPublish p;
     Permissions.AllowRegister := AllowRegister p;
     Permissions.AllowSubscribe := AllowSubscribe p |}.

Definition xconn_role (role : RealmRole) : Permissions.RealmRole :=
  {| Permissions.Name := role_Name role;
     Permissions.Permissions := map xconn_permission (role_Permissions role) |}.

(** [fmt.Errorf("prefix: %w", err)] for the error of a call. *)
Definition wrap_M {W A} (prefix : string) (m : M W A) : M W A :=
  r ← try m; of_result (wrap prefix r).

Definition start_realm (ids : Z * string) (realm : Config.Realm) : M RouterW unit :=
  wrap_M "unable to add realm: " (AddRealm (Name realm) (Some DefaultRealmConfig) ids);;
  for_M (λ role, AddRealmRole (Name realm) (xconn_role role)) (Roles realm).

Definition config_level (c : Config) : result LogLevel :=
  if bool_decide (Loglevel c ≠ "") then parseLogLevel (Loglevel c) else Ok 0%Z.

(** [StartServerFromConfigFile] on a decoded file, up to the listeners. *)
Definition start_router (c : Config) (ids : Z * string) : M RouterW unit :=
  of_result (wrap "invalid config: " (Validate fmt_U c));;
  level ← of_result (config_level c);
  wrap_M "unable to create router: "
    (NewRouter (Some {| Router.Management := Config.Management c; LogLevel_ := level |}) ids);;
  for_M (start_realm ids) (Realms c).

End Start.

(** ** What a valid configuration is *)

Fixpoint only_chars (f : ascii → bool) (s : string) : bool :=
  match s with EmptyString => true | String c s => f c && only_chars f s end.

Definition word (w : string) : Prop := w ≠ "" ∧ only_chars word_char w = true.

(** The words of [^([^\s.#]+\.)*([^\s.#]+)$]. *)
Inductive uri : string → Prop :=
| uri_last w : word w → uri w
| uri_more w u : word w → uri u → uri (w +:+ String "." u).

Definition plain_field (s : string) : Prop :=
  trims_to_nothing s = false ∧ contains_byte " " s = false.

(** 32 bytes in hexadecimal *)
Definition key_text (s : string) : Prop :=
  String.length s = 64%nat ∧ only_chars (λ c, bool_decide (is_Some (hex_value c))) s = true.

Record valid_entry (authid realm role : string) : Prop := {
  ve_authid : plain_field authid; ve_realm : uri realm; ve_role : plain_field role }.

Record valid_transport (t : Transport) : Prop := {
  vt_type : Type_ t ∈ ["websocket"; "universal"; "rawsocket"];
  vt_address : plain_field (Address t);
  vt_listener : Listener t ∈ ["tcp"; "unix"];
  vt_serializers s : s ∈ Serializers t → s ∈ ["json"; "cbor"; "msgpack"; "protobuf"; "capnproto"];
  vt_strategy : Strategy (RateLimit_ t) ∈ [""; "burst"; "leakybucket"] }.

Record valid_authenticators (a : Types.Authenticators) : Prop := {
  va_anonymous e : e ∈ Types.anonymouses a →
    valid_entry (Types.a_AuthID e) (Types.a_Realm e) (Types.a_Role e);
  va_tickets e : e ∈ Types.tickets a →
    valid_entry (Types.t_AuthID e) (Types.t_Realm e) (Types.t_Role e) ∧
    trims_to_nothing (Types.t_Ticket e) = false;
  va_wampcras e : e ∈ Types.wampcras a →
    valid_entry (Types.cra_AuthID e) (Types.cra_Realm e) (Types.cra_Role e) ∧
    trims_to_nothing (Types.cra_Secret e) = false;
  va_cryptosigns e : e ∈ Types.cryptoSigns a →
    valid_entry (Types.cs_AuthID e) (Types.cs_Realm e) (Types.cs_Role e) ∧
    Types.cs_AuthorizedKeys e ≠ [] ∧
    ∀ k, k ∈ Types.cs_AuthorizedKeys e → key_text k }.

Record valid (c : Config) : Prop := {
  v_names r : r ∈ Realms c → uri (Name r);
  v_policies r role p : r ∈ Realms c → role ∈ Roles r → p ∈ role_Permissions role →
    MatchPolicy p ∈ ["exact"; "prefix"; "wildcard"];
  v_transports t : t ∈ Transports c → valid_transport t;
  v_authenticators : valid_authenticators (Authenticators_ c) }.

(** *** URIs *)

#[local] Arguments String.append : simpl nomatch.

Lemma only_chars_app f s t : only_chars f (s +:+ t) = only_chars f s && only_chars f t.
Proof. induction s as [|c s IH]; simpl; [done|]. by rewrite IH, andb_assoc. Qed.

Lemma word_snoc w c : only_chars word_char w = true → word_char c = true → word (w +:+ String c "").
Proof.
  intros Hw Hc. split; [by destruct w|]. rewrite only_chars_app, Hw. simpl. by rewrite Hc.
Qed.

Lemma uri_from_sound s : ∀ b, uri_from b s = true →
  if b then ∀ w, word w → uri (w +:+ s) else uri s.
Proof.
  induction s as [|c s IH]; intros b; simpl.
  - intros ->. intros w Hw. rewrite string_app_nil_r. by constructor.
  - case_bool_decide as Hc.
    + subst c. intros [-> Hs]%andb_true_iff. intros w Hw. by apply uri_more, (IH false).
    + intros [Hc' Hs]%andb_true_iff. specialize (IH true Hs). simpl in IH. destruct b.
      * intros w [_ Hw]. specialize (IH (w +:+ String c "")). rewrite string_app_assoc in IH.
        by apply IH, word_snoc.
      * by apply (IH (String c "")), (word_snoc "").
Qed.

Lemma uri_from_chars w t b :
  only_chars word_char w = true → b = true ∨ w ≠ "" → uri_from b (w +:+ t) = uri_from true t.
Proof.
  revert b. induction w as [|c w IH]; intros b; simpl; [naive_solver|].
  intros [Hc Hw]%andb_true_iff _. rewrite bool_decide_eq_false_2 by (intros ->; done).
  rewrite Hc. apply IH; auto.
Qed.

Lemma URIRegex_spec s : URIRegex s = true ↔ uri s.
Proof.
  split; [apply (uri_from_sound s false)|]. unfold URIRegex.
  induction 1 as [w [Hne Hw]|w u [Hne Hw] _ IH].
  - rewrite <-(string_app_nil_r w). rewrite uri_from_chars; auto.
  - rewrite uri_from_chars by auto. by simpl.
Qed.

(** *** Keys *)

Lemma DecodeString_spec fmt_U n s :
  (∃ l, DecodeString fmt_U s = Ok l ∧ length l = n) ↔
  String.length s = (2 * n)%nat ∧
  only_chars (λ c, bool_decide (is_Some (hex_value c))) s = true.
Proof.
  revert s. induction n as [|n IH]; intros [|p [|q s]]; simpl.
  - naive_solver.
  - split; [|naive_solver]. destruct (hex_value p); naive_solver.
  - split; [|naive_solver]. intros (l & Hd & Hl). destruct l; [|done].
    destruct (hex_value p), (hex_value q), (DecodeString fmt_U s); naive_solver.
  - split; [naive_solver|lia].
  - split; [destruct (hex_value p); naive_solver|lia].
  - specialize (IH s). replace (n + S (n + 0))%nat with (S (2 * n)) by lia.
    destruct (hex_value p) as [a|], (hex_value q) as [b|]; simpl; try naive_solver.
    split.
    + intros (l & Hd & Hl). destruct (DecodeString fmt_U s) as [l'|e]; simplify_eq/=.
      destruct IH as [[Hs ->] _]; [by eauto|]. by rewrite Hs.
    + intros [Hs Hc]. destruct IH as [_ (l & -> & Hl)]; [split; [lia|done]|].
      eexists. split; [done|]. simpl. by rewrite Hl.
Qed.

(** *** What each check accepts *)

Lemma guard_Ok (b : bool) e : (if b then Ok tt else Err e) = Ok tt ↔ b = true.
Proof. by destruct b. Qed.

Lemma guard_then_Ok (b : bool) e (r : result unit) :
  (if b then Err e else r) = Ok tt ↔ b = false ∧ r = Ok tt.
Proof. destruct b; naive_solver. Qed.

Lemma check_Ok (r s : result unit) : rbind r (λ _, s) = Ok tt ↔ r = Ok tt ∧ s = Ok tt.
Proof. destruct r as [[]|]; naive_solver. Qed.

Lemma for_each_all {A} (f : A → result unit) l :
  for_each f l = Ok tt ↔ ∀ x, x ∈ l → f x = Ok tt.
Proof. by rewrite for_each_Ok, Forall_forall. Qed.

Lemma plain_field_spec s n : validateNonEmptyNoSpaceString s n = Ok tt ↔ plain_field s.
Proof.
  unfold validateNonEmptyNoSpaceString, plain_field. rewrite !guard_then_Ok. tauto.
Qed.

Lemma guard_field (b : bool) p (r : result unit) e :
  (if b then wrap p r else Err e) = Ok tt ↔ b = true ∧ r = Ok tt.
Proof. destruct b; rewrite ?wrap_Ok; naive_solver. Qed.

Lemma validateTransport_spec t : validateTransport t = Ok tt ↔ valid_transport t.
Proof.
  unfold validateTransport, validateSerializers. cbv zeta.
  rewrite !check_Ok, !guard_Ok, guard_field, for_each_all, !bool_decide_eq_true.
  setoid_rewrite guard_Ok. setoid_rewrite bool_decide_eq_true. rewrite plain_field_spec.
  split; [intros ([? ?] & ? & ? & ?); by split|by intros []].
Qed.

Lemma validateCommonFields_spec i r o : validateCommonFields i r o = Ok tt ↔ valid_entry i r o.
Proof.
  unfold validateCommonFields.
  rewrite check_Ok, guard_then_Ok, negb_false_iff, URIRegex_spec, !plain_field_spec.
  split; [intros (? & ? & ?); by split|by intros []].
Qed.

Lemma key_spec fmt_U k :
  (rbind (wrap "invalid public key: " (DecodeString fmt_U k)) (λ raw : list Z,
     if bool_decide (length raw ≠ 32%nat)
     then Err "invalid public key: public key must have length of 32" else Ok tt)) = Ok tt ↔
  key_text k.
Proof.
  unfold key_text. rewrite <-(DecodeString_spec fmt_U 32 k), rbind_Ok.
  setoid_rewrite wrap_Ok. setoid_rewrite guard_then_Ok. setoid_rewrite bool_decide_eq_false.
  split; intros (l & Hd & Hl); exists l; split; try done.
  - destruct Hl as [Hl _]. by apply dec_stable.
  - split; [|done]. intros Hn. by apply Hn.
Qed.

Lemma validateAuthorizedKeys_spec fmt_U ks :
  validateAuthorizedKeys fmt_U ks = Ok tt ↔ ks ≠ [] ∧ ∀ k, k ∈ ks → key_text k.
Proof.
  unfold validateAuthorizedKeys. rewrite guard_then_Ok, for_each_all, bool_decide_eq_false.
  setoid_rewrite key_spec. by rewrite length_zero_iff_nil.
Qed.

Lemma validateAuthenticators_spec fmt_U a :
  validateAuthenticators fmt_U a = Ok tt ↔ valid_authenticators a.
Proof.
  unfold validateAuthenticators. rewrite !check_Ok, !for_each_all.
  setoid_rewrite check_Ok. setoid_rewrite guard_then_Ok. setoid_rewrite wrap_Ok.
  setoid_rewrite validateCommonFields_spec. setoid_rewrite validateAuthorizedKeys_spec.
  split.
  - intros (H1 & H2 & H3 & H4). split; [done| |
      |by intros e He; destruct (H4 e He) as (? & ? & ?)].
    + by intros e He; destruct (H2 e He) as (? & ? & _).
    + by intros e He; destruct (H3 e He) as (? & ? & _).
  - intros [H1 H2 H3 H4]. split_and!; [done| | |done].
    + by intros e He; destruct (H2 e He).
    + by intros e He; destruct (H3 e He).
Qed.

Section Valid.
Context `{WampConstantsOk} (fmt_U : nat → string).

Lemma validateRealm_spec r :
  validateRealm r = Ok tt ↔
  uri (Name r) ∧ ∀ role, role ∈ Roles r → ∀ p, p ∈ role_Permissions role →
    MatchPolicy p ∈ ["exact"; "prefix"; "wildcard"].
Proof.
  unfold validateRealm, validatePermission.
  rewrite guard_then_Ok, negb_false_iff, URIRegex_spec, for_each_all.
  setoid_rewrite for_each_all. setoid_rewrite guard_Ok. setoid_rewrite bool_decide_eq_true.
  by rewrite MatchExact_spec, MatchPrefix_spec, MatchWildcard_spec.
Qed.

Lemma Validate_ok c : Validate fmt_U c = Ok tt ↔ valid c.
Proof.
  unfold Validate. rewrite !check_Ok, !for_each_all.
  setoid_rewrite wrap_Ok. setoid_rewrite validateTransport_spec.
  rewrite validateAuthenticators_spec. setoid_rewrite validateRealm_spec.
  split.
  - intros (H1 & H2 & H3). split; [apply H1| |done..].
    intros r role p Hr Hrole. by apply (proj2 (H1 r Hr) role).
  - intros [H1 H2 H3 H4]. split_and!; [|done..]. intros r Hr. split; [by apply H1|].
    intros role Hrole p Hp. by apply (H2 r role).
Qed.

(** C32. [Validate] accepts exactly the valid configurations: realm names are
    dotted words, every permission has one of the three match policies, and
    transports and authenticators have their fields in form, the authorized
    keys being 32 bytes in hexadecimal. *)
Theorem Validate_spec c : Validate fmt_U c = Ok tt ↔ valid c.
Proof. apply Validate_ok. Qed.

End Valid.

(** *** The router of a configuration *)

Section StartSpec.
Context `{WampMessagesOk} `{!WampSerializers} `{!WampRouting} `{!WampRoutingOk}
  `{WampConstantsOk} `{MapRange} `{FmtV} `{LogLevels} (fmt_U : nat → string).

Implicit Types (w : RouterW) (rl : Realm.Realm).

Lemma AddRealmRole_run name role w p rl :
  realms (rt w) !! name = Some p → heap w !! p = Some rl →
  AddRealmRole name role w =
  match AddRole role rl with
  | Ok rl' => (mkRouterW (rt w) (<[p := rl']> (heap w)) (sess w) (next_session w) (spawned w)
                 (log_level w), Val tt)
  | Err e => (mkRouterW (rt w) (<[p := rl]> (heap w)) (sess w) (next_session w) (spawned w)
                (log_level w), Fail e)
  end.
Proof.
  intros Hp Hr. unfold AddRealmRole. rewrite with_realm_run, Hp, (at_ptr_run _ _ _ _ Hr).
  unfold update_realm. simpl. by destruct (AddRole role rl).
Qed.

Lemma wrap_M_Val {A} p (m : M RouterW A) w w' a :
  m w = (w', Val a) → wrap_M p m w = (w', Val a).
Proof. intros Hm. unfold wrap_M. by rewrite (bind_Val _ _ _ _ _ (try_Val _ _ _ _ Hm)). Qed.

(** Adding the roles one by one is adding them to the realm. *)
Lemma add_roles_at name rs w p rl rl' :
  realms (rt w) !! name = Some p → heap w !! p = Some rl → add_roles rs rl = Ok rl' →
  for_M (AddRealmRole name) rs w =
  (mkRouterW (rt w) (<[p := rl']> (heap w)) (sess w) (next_session w) (spawned w) (log_level w),
   Val tt).
Proof.
  revert w rl. induction rs as [|role rs IH]; intros w rl Hp Hr; simpl.
  { intros [= <-]. rewrite insert_id by done. by destruct w. }
  destruct (AddRole role rl) as [rl1|e] eqn:Hadd; [|done]. simpl. intros Hrs.
  erewrite bind_Val by (rewrite (AddRealmRole_run _ _ _ _ _ Hp Hr), Hadd; done).
  erewrite IH; [|done|apply lookup_insert_eq|done]. simpl. by rewrite insert_insert_eq.
Qed.

(** The realm of the router that a configured realm asks for. *)
Definition realm_built (r : Config.Realm) rl : Prop :=
  let rs := trusted_role :: map xconn_role (Roles r) in
  clients rl = ∅ ∧
  (∀ role, role ∈ rs → roles rl !! Permissions.Name role = Some role) ∧
  (∀ n, n ∉ map Permissions.Name rs → roles rl !! n = None).

Definition built (rs : list Config.Realm) w : Prop :=
  (∀ name, is_Some (realms (rt w) !! name) ↔ name ∈ map Name rs) ∧
  ∀ r, r ∈ rs → ∃ p rl, realms (rt w) !! Name r = Some p ∧ heap w !! p = Some rl ∧
                       realm_built r rl.

Definition distinct_roles (r : Config.Realm) : Prop :=
  NoDup ("trusted" :: map role_Name (Roles r)).

Lemma map_role_names (roles : list RealmRole) :
  map Permissions.Name (map xconn_role roles) = map role_Name roles.
Proof. rewrite map_map. by apply map_ext. Qed.

Lemma roles_added r :
  distinct_roles r →
  ∃ rl, add_roles (map xconn_role (Roles r)) (set_roles {["trusted" := trusted_role]} NewRealm)
        = Ok rl ∧ realm_built r rl.
Proof.
  intros [Hfresh Hnd]%NoDup_cons. set (r0 := set_roles _ _).
  destruct (add_roles_spec (map xconn_role (Roles r)) r0) as [Hok Hdo].
  rewrite map_role_names in *.
  destruct (add_roles _ r0) as [rl|e].
  - exists rl. split; [done|]. destruct (Hok rl eq_refl) as (Hc & _ & Hin & Hout).
    unfold realm_built. simpl. rewrite map_role_names. split_and!; [done| |].
    + intros role [->|Hrole]%elem_of_cons; [|by apply Hin].
      rewrite Hout by done. by simplify_map_eq.
    + intros n Hn. rewrite Hout by set_solver. apply lookup_singleton_None. set_solver.
  - discriminate Hdo; [done|]. intros role Hrole. apply lookup_singleton_None.
    intros Heq. apply Hfresh. rewrite <-map_role_names, Heq. by apply list_elem_of_fmap_2.
Qed.

Lemma start_realm_builds ids r rs w :
  built rs w → Name r ∉ map Name rs → distinct_roles r →
  ∃ w', start_realm ids r w = (w', Val tt) ∧ built (rs ++ [r]) w'.
Proof.
  intros [Hnames Hbuilt] Hnew Hd.
  assert (realms (rt w) !! Name r = None) as Hfree.
  { apply eq_None_not_Some. by rewrite Hnames. }
  destruct (roles_added r Hd) as (rl & Hadd & Hrl). unfold start_realm.
  set (p := fresh (dom (heap w))).
  assert (heap w !! p = None) as Hp by apply not_elem_of_dom, is_fresh.
  erewrite bind_Val
    by (apply wrap_M_Val; rewrite AddRealm_run, Hfree by done; reflexivity).
  eexists. split.
  - rewrite <-(for_M_map (AddRealmRole (Name r)) xconn_role).
    eapply add_roles_at; [..|exact Hadd]; apply lookup_insert_eq.
  - split; simpl.
    + intros name. rewrite lookup_insert_is_Some, Hnames, map_app. set_solver.
    + intros r' [Hr'| ->%list_elem_of_singleton]%elem_of_app.
      * destruct (Hbuilt r' Hr') as (q & rl' & Hq & Hh & Hb). exists q, rl'.
        rewrite lookup_insert_ne.
        2: { intros Heq. apply Hnew. rewrite Heq. by apply list_elem_of_fmap_2. }
        assert (p ≠ q) as Hpq by (intros <-; congruence).
        split_and!; [done| |done]. by rewrite !lookup_insert_ne.
      * exists p, rl. split_and!; [apply lookup_insert_eq..|done].
Qed.

Lemma start_realms_build ids todo rs w :
  built rs w → NoDup (map Name (rs ++ todo)) → (∀ r, r ∈ todo → distinct_roles r) →
  ∃ w', for_M (start_realm ids) todo w = (w', Val tt) ∧ built (rs ++ todo) w'.
Proof.
  revert w rs. induction todo as [|r todo IH]; intros w rs Hb Hnd Hd.
  { exists w. by rewrite app_nil_r. }
  destruct (start_realm_builds ids r rs w) as (w1 & Hrun & Hb1); [done| | |].
  - rewrite map_app in Hnd. simpl in Hnd. apply NoDup_app in Hnd as (_ & Hx & _). set_solver.
  - apply Hd. set_solver.
  - destruct (IH w1 (rs ++ [r])%list) as (w2 & Hw2 & Hb2); [done| | |].
    + by rewrite <-(assoc_L app).
    + intros r' Hr'. apply Hd. set_solver.
    + rewrite <-(assoc_L app) in Hb2. exists w2. split; [|done]. simpl.
      erewrite bind_Val by exact Hrun. exact Hw2.
Qed.

Lemma NewRouter_plain level ids w :
  ∃ w', NewRouter (Some {| Router.Management := false; LogLevel_ := level |}) ids w = (w', Val tt) ∧
    realms (rt w') = ∅.
Proof.
  unfold NewRouter. erewrite bind_Val by done. cbn [Router.Management].
  erewrite bind_Val by done. eexists. by split.
Qed.

Lemma start_router_builds c ids w :
  valid c → Config.Management c = false → is_ok (config_level c) = true →
  NoDup (map Name (Realms c)) → (∀ r, r ∈ Realms c → distinct_roles r) →
  ∃ w', start_router fmt_U c ids w = (w', Val tt) ∧ built (Realms c) w'.
Proof.
  intros Hv Hm Hl Hnd Hd. unfold start_router.
  assert (Validate fmt_U c = Ok tt) as -> by (by apply Validate_ok).
  destruct (config_level c) as [level|]; [|done].
  erewrite bind_Val by done. erewrite bind_Val by done. rewrite Hm.
  destruct (NewRouter_plain level ids w) as (w0 & Hnew & Hempty).
  erewrite bind_Val by (apply wrap_M_Val, Hnew).
  assert (built [] w0) as Hb.
  { split; [|set_solver]. intros name. rewrite Hempty, lookup_empty. split; [by intros []|set_solver]. }
  by apply (start_realms_build ids (Realms c) []).
Qed.

(** A valid configuration without management, whose realms have distinct
    names and whose roles have, within a realm, distinct names other than
    [trusted], starts: the router then has exactly the configured realms, each
    with the configured roles and their permissions beside the trusted role. *)
Theorem configuration_is_built c ids w :
  valid c → Config.Management c = false → is_ok (config_level c) = true →
  NoDup (map Name (Realms c)) → (∀ r, r ∈ Realms c → distinct_roles r) →
  ∃ w', start_router fmt_U c ids w = (w', Val tt) ∧ built (Realms c) w'.
Proof. apply start_router_builds. Qed.

End StartSpec.
