(* ===== verification/Demos.v ===== *)
(** * Example programs (examples/)

    The procedures, senders and authenticators of the example programs, over the
    sessions that run them: the state of a handler is that of its session, with
    the variables that its closure shares. *)

From stdpp Require Import functions.
From Stdlib Require Import SpecFloat.
From S2P Require Import Prelude GoStd Wamp Values Accessors Peers Acceptor Auth Realm Router Server Session EndToEnd Progressive NxtConfig.

Local Open Scope string_scope.

(** ** server/authenticator *)

Module Authenticator.
Section Authenticator.
Context `{WampAuth}.

Definition realm := "realm1".
Definition authRole := "trusted".
Definition ticket := "ticket-pass".
Definition craAuthID := "cra-user".
Definition craSecret := "secret123".
Definition cryptosignPublicKey := "21e04c9f0a54b3c6c045a3a1d1966cb4bf3e79ecc555ba0267222e624b502e6a".

Definition Methods : list string := [MethodAnonymous; MethodTicket; MethodCRA; MethodCryptoSign].

Definition Authenticate (request : Request) : result Response :=
  let r := fields request in
  let m := AuthMethod r in
  if bool_decide (m = MethodAnonymous) then
    if bool_decide (Auth.Realm r = realm) then NewResponse (AuthID r) authRole 0 else Err "invalid realm"
  else if bool_decide (m = MethodTicket) then
    match request with
    | TicketRequest f t =>
        if bool_decide (t = ticket) then NewResponse (AuthID f) authRole 0 else Err "invalid ticket"
    | _ => Err "invalid request"
    end
  else if bool_decide (m = MethodCRA) then
    if bool_decide (AuthID r = craAuthID) then Ok (NewCRAResponse craAuthID authRole craSecret 0)
    else Err "invalid CRA user"
  else if bool_decide (m = MethodCryptoSign) then
    match request with
    | RequestCryptoSign f k =>
        if bool_decide (cryptosignPublicKey = k) then NewResponse (AuthID f) authRole 0
        else Err "unknown publickey"
    | _ => Err "invalid request"
    end
  else Err ("unknown authentication method: " +:+ m).

End Authenticator.

Section AuthenticatorSpec.
Context `{WampAuthOk}.

(** The credentials that the program knows.  Only an anonymous client is asked for
    its realm. *)
Definition credential (request : Request) : Prop :=
  let r := fields request in
  (AuthMethod r = MethodAnonymous ∧ Auth.Realm r = realm) ∨
  (AuthMethod r = MethodTicket ∧ ∃ f, request = TicketRequest f ticket) ∨
  (AuthMethod r = MethodCRA ∧ AuthID r = craAuthID) ∨
  (AuthMethod r = MethodCryptoSign ∧ ∃ f, request = RequestCryptoSign f cryptosignPublicKey).

(** Every client that is let in has one of them, gets the trusted role and keeps the
    authid that it asked for; a method that is not listed is refused. *)
Theorem known_credentials_only request response :
  Authenticate request = Ok response →
  credential request ∧ Response_AuthRole response = authRole ∧
  Response_AuthID response = AuthID (fields request) ∧ AuthMethod (fields request) ∈ Methods.
Proof.
  unfold Authenticate, credential, Methods. cbv zeta. rewrite !elem_of_cons.
  case_bool_decide as Ha; [case_bool_decide; [|done]; intros Hr; apply NewResponse_carries in Hr as [? ?]; tauto|].
  case_bool_decide as Ht.
  { destruct request as [f t|f k|f]; try done. case_bool_decide; [|done]. subst t.
    intros Hr. apply NewResponse_carries in Hr as [? ?]. split; [right; left; eauto|]. tauto. }
  case_bool_decide as Hc.
  { case_bool_decide as Hi; [|done]. intros [= <-].
    destruct (NewCRAResponse_carries craAuthID authRole craSecret 0) as [-> ->]. rewrite Hi. tauto. }
  case_bool_decide as Hs; [|done].
  destruct request as [f t|f k|f]; try done. case_bool_decide; [|done]. subst k.
  intros Hr. apply NewResponse_carries in Hr as [? ?]. split; [right; right; right; eauto|]. tauto.
Qed.

(** A request with a known credential is refused only when the auth package refuses
    to make the response. *)
Theorem known_credentials_suffice request :
  credential request →
  (∃ response, Authenticate request = Ok response) ∨
  (∃ e, NewResponse (AuthID (fields request)) authRole 0 = Err e ∧ Authenticate request = Err e).
Proof.
  pose proof methods_differ as Hd. rewrite !NoDup_cons, !not_elem_of_cons in Hd. destruct_and? Hd.
  unfold credential, Authenticate. cbv zeta.
  assert (∀ i, (∃ response, NewResponse i authRole 0 = Ok response) ∨
    ∃ e, NewResponse i authRole 0 = Err e ∧ NewResponse i authRole 0 = Err e) as Hn.
  { intros i. destruct (NewResponse i authRole 0); eauto. }
  intros [[-> ->]|[[-> [f ->]]|[[-> ->]|[-> [f ->]]]]];
    repeat first [rewrite bool_decide_true by done | rewrite bool_decide_false by congruence];
    try apply Hn; eauto.
Qed.

End AuthenticatorSpec.
End Authenticator.

(** ** reconnect *)

Module Reconnect.

(** Durations in nanoseconds. *)
Definition maxDelay : Z := (30 * Second)%Z.

(** One round of the loop: [connected] tells whether the session could be opened;
    what the program sleeps, if it could not, and the delay of the next round. *)
Definition round (retryDelay : Z) (connected : bool) : option Z * Z :=
  if connected then (None, (1 * Second)%Z)
  else
    let doubled := (retryDelay * 2)%Z in
    (Some retryDelay, if bool_decide (maxDelay < doubled)%Z then maxDelay else doubled).

(** The loop: what it sleeps in each round. *)
Fixpoint main (retryDelay : Z) (attempts : list bool) : list (option Z) :=
  match attempts with
  | [] => []
  | connected :: attempts =>
      let '(slept, retryDelay) := round retryDelay connected in
      slept :: main retryDelay attempts
  end.

(** The delay after so many failures in a row. *)
Definition backoff (n : nat) : Z := Z.min (2 ^ Z.of_nat n * Second)%Z maxDelay.

Lemma round_backoff n : round (backoff n) false = (Some (backoff n), backoff (S n)).
Proof.
  unfold round. f_equal. unfold backoff. rewrite Nat2Z.inj_succ, Z.pow_succ_r by lia.
  assert (0 < 2 ^ Z.of_nat n)%Z by (apply Z.pow_pos_nonneg; lia).
  unfold maxDelay, Second. case_bool_decide; lia.
Qed.

(** From the start, and after every session, the delays double from a second up to
    half a minute. *)
Theorem delays_back_off n attempts :
  main (1 * Second)%Z (repeat false n ++ true :: attempts) =
    (map (λ i, Some (backoff i)) (seq 0 n) ++ None :: main (1 * Second)%Z attempts)%list.
Proof.
  change (1 * Second)%Z with (backoff 0) at 1. generalize 0%nat as k.
  induction n as [|n IH]; intros k; [done|]. cbn [repeat app main seq map].
  rewrite round_backoff. by rewrite IH.
Qed.

(** Every delay is at least a second and at most half a minute. *)
Theorem delays_are_bounded attempts d delay :
  (1 * Second ≤ d ≤ maxDelay)%Z → Some delay ∈ main d attempts → (1 * Second ≤ delay ≤ maxDelay)%Z.
Proof.
  revert d. induction attempts as [|c attempts IH]; intros d Hd; [by intros ?%not_elem_of_nil|].
  cbn [main]. destruct (round d c) as [slept d'] eqn:Hr. intros Hin%elem_of_cons.
  unfold round, maxDelay, Second in *. destruct c; simplify_eq/=.
  - destruct Hin as [?|Hin]; [done|]. apply (IH 1000000000%Z); [lia|done].
  - destruct Hin as [[= ->]|Hin]; [lia|]. revert Hin. apply IH. case_bool_decide; lia.
Qed.

End Reconnect.

(** ** rpc *)

(** What wampproto-go's [util] package converts. *)
Class WampUtil := { AsUInt64 : any → option Z; ToString : any → string }.

Module Rpc.
Section Rpc.
Context `{WampUtil} `{WampConstants}.

(** [sum] is a [uint64]. *)
Definition sumHandler (inv : Invocation.Invocation) : InvocationResult :=
  let sum := foldl (λ sum i, match AsUInt64 i with Some arg => wrap_uint64 (sum + arg) | None => sum end)
    0%Z (Invocation.Args inv) in
  NewInvocationResult [AUint64 sum].

Definition echoHandler (inv : Invocation.Invocation) : InvocationResult :=
  {| res_Args := Invocation.Args inv; res_Kwargs := Invocation.Kwargs inv;
     res_Details := Invocation.Details inv; res_Err := "" |}.

(** The arguments that are numbers are added, and the sum wraps around. *)
Theorem sum_adds_the_numbers inv :
  res_Args (sumHandler inv) =
    [AUint64 (wrap_uint64 (foldr Z.add 0%Z (omap AsUInt64 (Invocation.Args inv))))] ∧
  res_Err (sumHandler inv) = "".
Proof.
  split; [|done]. unfold sumHandler, NewInvocationResult. cbn [res_Args]. do 2 f_equal.
  assert (∀ l a, foldl (λ sum i, match AsUInt64 i with Some arg => wrap_uint64 (sum + arg) | None => sum end)
    (wrap_uint64 a) l = wrap_uint64 (a + foldr Z.add 0%Z (omap AsUInt64 l))) as Hl.
  { induction l as [|v l IH]; intros a; cbn; [by rewrite Z.add_0_r|].
    destruct (AsUInt64 v) as [n|]; cbn; [|apply IH].
    assert (wrap_uint64 (wrap_uint64 a + n) = wrap_uint64 (a + n)) as ->.
    { unfold wrap_uint64. by rewrite Zplus_mod_idemp_l. }
    rewrite IH. f_equal. lia. }
  exact (Hl (Invocation.Args inv) 0%Z).
Qed.

(** An echo returns what it was given, and is never an error. *)
Theorem echo_returns_its_arguments args kwargs details :
  let res := echoHandler (Invocation.NewInvocation args kwargs details) in
  res_Args res = args ∧ res_Kwargs res = kwargs ∧ res_Err res = "".
Proof. split; [apply list_roundtrip|]. split; [apply dict_roundtrip|done]. Qed.

End Rpc.
End Rpc.

(** ** The progressive programs *)

Section Progressive.
Context `{WampMessages} `{!WampSerializers} `{WampConstants} `{FloatConv} `{FmtV} `{MapRange} `{WampUtil}.

(** [invocation.SendProgress(args, kwargs)]: a call of a nil function when the
    session gave the invocation none. *)
Definition SendProgress (inv : Invocation.Invocation) (args : list any) (kwargs : dict) : M Session unit :=
  match Invocation.SendProgress inv with
  | Some id => send_progress id args kwargs
  | None => crash "invalid memory address or nil pointer dereference"
  end.

(** The callers of rpc_progressive_invocation and rpc_progressive_results: what the
    [n]-th call of the sender returns, and the first calls. *)
Definition chunk (totalChunks chunkIndex : Z) : Progress :=
  if bool_decide (chunkIndex = totalChunks - 1)%Z then NewFinalProgress [AInt chunkIndex]
  else NewProgress [AInt chunkIndex].
Definition chunks (totalChunks : Z) (calls : nat) : list Progress :=
  map (λ i, chunk totalChunks (Z.of_nat i)) (seq 0 calls).

(** rpc_progressive_invocation/callee *)
Definition upload_handler (inv : Invocation.Invocation) : InvocationResult :=
  if Invocation.Progress inv then NewInvocationError ErrNoResult []
  else NewInvocationResult [AString "Upload complete"].

(** rpc_progressive_results/callee *)
Definition mirror_handler (inv : Invocation.Invocation) : M Session InvocationResult :=
  let chunkIndex := result_or (S754_zero false) (Invocation.ArgFloat64 inv 0) in
  if Invocation.Progress inv then
    sent ← try (SendProgress inv [AFloat64 chunkIndex] ∅);
    match sent with
    | Err e => mret (NewInvocationError "wamp.error.canceled" [AString e])
    | Ok _ => mret (NewInvocationError ErrNoResult [])
    end
  else
    mret (NewInvocationResult
      [AString ("Upload complete, chunk " +:+ fmt_v (AFloat64 chunkIndex) +:+ " acknowledged")]).

(** rpc_progressive_call_results/callee: the loop over the parts of a file. *)
Definition fileSize : Z := 100.
Fixpoint download_loop (fuel : nat) (inv : Invocation.Invocation) (i : Z) : M Session InvocationResult :=
  match fuel with
  | O => λ s, (s, Blocks)
  | S fuel =>
      if bool_decide (i ≤ fileSize)%Z then
        let progress := (i * 100 / fileSize)%Z in
        sent ← try (SendProgress inv [AInt progress] ∅);
        match sent with
        | Err e => mret (NewInvocationError "wamp.error.canceled" [AString e])
        | Ok _ => download_loop fuel inv (i + 10)
        end
      else mret (NewInvocationResult [AString "Download complete!"])
  end.
Definition download_handler (inv : Invocation.Invocation) : M Session InvocationResult :=
  download_loop 12 inv 0.

End Progressive.

Section ProgressiveSpec.
Context `{WampMessagesOk} `{!WampSerializers} `{WampConstants} `{FloatConv} `{FmtV} `{MapRange} `{WampUtil}.
Implicit Types (s : Session).

Lemma chunk_in_progress total i : i ≠ (total - 1)%Z → in_progress (chunk total i).
Proof. intros Hi. unfold chunk. rewrite bool_decide_false by done. apply NewProgress_in_progress. Qed.

(** An upload: whatever the sender would return after its last chunk, the call sends
    every chunk once, in order, and then waits for one result. *)
Theorem every_chunk_is_uploaded id procedure total calls ds s :
  (2 ≤ total)%nat → (total ≤ calls)%nat →
  payloads_of id procedure s (chunks (Z.of_nat total) total) ds → takes (peer s) ds →
  ∃ first rest s' c, chunks (Z.of_nat total) calls = first :: rest ∧
    progressive_call id procedure first rest s = (s', Val c) ∧
    writeChan (peer s') = (writeChan (peer s) ++ ds)%list ∧ requests s' KCall !! id = Some c.
Proof.
  intros Ht Hc Hd Htakes. destruct total as [|[|n]]; [lia..|].
  set (f := λ i, chunk (Z.of_nat (S (S n))) (Z.of_nat i)).
  assert (chunks (Z.of_nat (S (S n))) (S (S n)) = f 0%nat :: map f (seq 1 n) ++ [f (S n)])%list as Hall.
  { unfold chunks. change (seq 0 (S (S n))) with (0%nat :: seq 1 (S n)). cbn [map]. f_equal.
    by rewrite seq_S, map_app. }
  assert (chunks (Z.of_nat (S (S n))) calls =
    f 0%nat :: map f (seq 1 n) ++ f (S n) :: map f (seq (S (S n)) (calls - S (S n))))%list as ->.
  { unfold chunks. replace calls with (S (S n) + (calls - S (S n)))%nat at 1 by lia.
    rewrite seq_app, map_app. unfold chunks in Hall. rewrite Hall. cbn [app]. by rewrite <-app_assoc. }
  rewrite Hall in Hd. change (f 0%nat :: ?x) with ([f 0%nat] ++ x)%list in Hd. rewrite app_assoc in Hd.
  apply Forall2_app_inv_l in Hd as (ds1 & ds2 & Hd1 & Hd2 & ->).
  apply Forall2_cons_inv_l in Hd2 as (dl & ds3 & Hdl & Hd3 & ->). apply Forall2_nil_inv_l in Hd3 as ->.
  destruct (progressive_call_run id procedure (f 0%nat) (map f (seq 1 n)) (f (S n))
    (map f (seq (S (S n)) (calls - S (S n)))) ds1 dl s) as (s' & c & Hr & Hw & Hq).
  - apply Forall_cons_2; [apply chunk_in_progress; lia|]. apply Forall_fmap.
    refine (proj2 (list.Forall_forall _ _) _). intros i Hi%elem_of_seq. apply chunk_in_progress. lia.
  - exact Hd1.
  - exact Htakes.
  - assert (f (S n) = NewFinalProgress [AInt (Z.of_nat (S n))]) as Hf.
    { unfold f, chunk. by rewrite bool_decide_true by lia. }
    rewrite Hf in *. destruct (NewFinalProgress_final [AInt (Z.of_nat (S n))]) as [-> Hb]. by split.
  - by exists (f 0%nat), (map f (seq 1 n) ++ f (S n) :: map f (seq (S (S n)) (calls - S (S n))))%list, s', c.
Qed.

(** The callee of an upload answers the last chunk and no other. *)
Theorem only_the_last_chunk_is_answered inv :
  res_Err (upload_handler inv) = ErrNoResult ↔ Invocation.Progress inv = true.
Proof. unfold upload_handler. by destruct (Invocation.Progress inv). Qed.

Lemma send_progress_takes inv id args kwargs d ds s :
  Invocation.SendProgress inv = Some id →
  Serialize (ser s) (NewYield id {["progress" := ABool true]} args kwargs) = Ok d →
  takes (peer s) (d :: ds) →
  SendProgress inv args kwargs s = (with_peer (push d (peer s)) s, Val tt) ∧ takes (push d (peer s)) ds.
Proof.
  intros Hid Hd Ht. destruct (send_message_takes _ _ _ s Hd Ht) as [Hs Ht']. split; [|done].
  unfold SendProgress. rewrite Hid. unfold send_progress.
  by rewrite (bind_Val _ _ _ _ _ (try_Val _ _ _ _ Hs)).
Qed.

(** A download tells its progress eleven times, from none to all of it, and then
    returns, when the caller asked for progress and reads it. *)
Theorem download_tells_its_progress inv id ds s :
  Invocation.SendProgress inv = Some id →
  Forall2 (λ k d, Serialize (ser s) (NewYield id {["progress" := ABool true]} [AInt (10 * Z.of_nat k)] ∅) = Ok d)
    (seq 0 11) ds →
  takes (peer s) ds →
  ∃ s', download_handler inv s = (s', Val (NewInvocationResult [AString "Download complete!"])) ∧
    writeChan (peer s') = (writeChan (peer s) ++ ds)%list.
Proof.
  intros Hid. unfold download_handler.
  assert (∀ n k ds s, (n + k = 11)%nat →
    Forall2 (λ k d, Serialize (ser s) (NewYield id {["progress" := ABool true]} [AInt (10 * Z.of_nat k)] ∅) = Ok d)
      (seq k n) ds → takes (peer s) ds →
    ∃ s', download_loop (S n) inv (10 * Z.of_nat k) s =
        (s', Val (NewInvocationResult [AString "Download complete!"])) ∧
      writeChan (peer s') = (writeChan (peer s) ++ ds)%list) as Hloop.
  { induction n as [|n IH]; intros k ds' s' Hk Hd Ht.
    - apply Forall2_nil_inv_l in Hd as ->. exists s'. rewrite app_nil_r. split; [|done].
      cbn [download_loop]. rewrite bool_decide_false by (unfold fileSize; lia). done.
    - cbn [seq] in Hd. apply Forall2_cons_inv_l in Hd as (d & ds1 & Hd & Hds & ->).
      remember (S n) as m. cbn [download_loop]. rewrite bool_decide_true by (unfold fileSize; lia). cbv zeta.
      assert (10 * Z.of_nat k * 100 / fileSize = 10 * Z.of_nat k)%Z as -> by (unfold fileSize; by rewrite Z.div_mul).
      destruct (send_progress_takes inv id _ _ d ds1 s' Hid Hd Ht) as [Hs Ht'].
      rewrite (bind_Val _ _ _ _ _ (try_Val _ _ _ _ Hs)). subst m.
      replace (10 * Z.of_nat k + 10)%Z with (10 * Z.of_nat (S k))%Z by lia.
      destruct (IH (S k) ds1 (with_peer (push d (peer s')) s') ltac:(lia) Hds Ht') as (s2 & Hr & Hw).
      exists s2. split; [exact Hr|]. rewrite Hw. cbn [peer with_peer].
      by rewrite push_writeChan, <-app_assoc. }
  intros Hd Ht. exact (Hloop 11%nat 0%nat ds s eq_refl Hd Ht).
Qed.

(** A call without [receive_progress] panics the callee of a download: the session
    gives such an invocation no function to send progress with. *)
Theorem plain_call_panics_the_callee msg iv h s :
  view msg = VInvocation iv → plain iv → registrations s !! invocation_registration iv = Some h →
  ∃ s' inv, processIncomingMessage msg s = (s', Val tt) ∧
    effects s' = (effects s ++ [Invoke h (invocation_id iv) false inv])%list ∧
    download_handler inv s' = (s', Crash "invalid memory address or nil pointer dereference").
Proof.
  intros Hv Hp Hr. destruct (invocation_run msg iv h s Hv Hp Hr) as (s' & Hrun & _ & He).
  by exists s', (Invocation.NewInvocation (invocation_args iv) (invocation_kwargs iv) (invocation_details iv)).
Qed.

End ProgressiveSpec.

(** ** handshake *)

(** What wampproto-go's [auth] package does with the cryptosign method, and two of
    its error URIs. *)
Class CryptoSign := {
  VerifyCryptoSignSignature : string → list Z → result bool;
  SignCryptoSignChallenge : string → string → string;
  ErrCanceled : string;
  ErrInvalidArgument : string;
}.

Module Handshake.
Section Handshake.
Context `{WampMessages} `{!WampSerializers} `{WampConstants} `{FloatConv} `{FmtV} `{WampUtil} `{CryptoSign} (fmt_U : nat → string).

(** The callee's session, and the variable that the calls of its handler share. *)
Record callee := mkCallee { hexPublicKey : string; session : Session }.

Definition on_session {A} : M Session A → M callee A :=
  zoom session (λ s c, mkCallee (hexPublicKey c) s).

(** [challenge]: what [GenerateCryptoSignChallenge] answers, its error ignored. *)
Definition handler (challenge : string) (invocation : Invocation.Invocation) : M callee InvocationResult :=
  let isProgress := bool_at OptionProgress (Dict.Raw (Invocation.details invocation)) in
  match Invocation.Args invocation with
  | [] => crash "index out of range [0] with length 0"
  | arg :: _ =>
      if isProgress then
        modify (λ c, mkCallee (ToString arg) (session c));;
        sent ← try (on_session (SendProgress invocation [AString challenge] ∅));
        match sent with
        | Err e => mret (NewInvocationError ErrCanceled [AString e])
        | Ok _ => mret (NewInvocationError ErrNoResult [])
        end
      else
        key ← get hexPublicKey;
        match DecodeString fmt_U key with
        | Err _ => mret (NewInvocationError ErrInvalidArgument [AString "invalid public key format"])
        | Ok publicKeyBytes =>
            match VerifyCryptoSignSignature (ToString arg) publicKeyBytes with
            | Err e => mret (NewInvocationError "wamp.error.verification_failed" [AString e])
            | Ok false =>
                mret (NewInvocationError "wamp.error.verification_failed"
                  [AString "signature verification failed"])
            | Ok true => mret (NewInvocationResult [])
            end
        end
  end.

(** The caller's sender: [step] is its variable; the second value waits for the
    challenge.  There is no value after it: nil. *)
Definition sender (publicKeyHex privateKey challenge : string) : M nat (option Progress) := λ step,
  match step with
  | O => (1%nat, Val (Some (NewProgress [AString publicKeyHex])))
  | 1%nat =>
      (2%nat, Val (Some
        {| prog_Args := [AString (SignCryptoSignChallenge challenge privateKey)]; prog_Kwargs := ∅;
           prog_Options := {[OptionProgress := ABool false]}; prog_Err := None |}))
  | _ => (step, Val None)
  end.

End Handshake.

Section HandshakeSpec.
Context `{WampMessages} `{!WampSerializers} `{WampConstants} `{FloatConv} `{FmtV} `{WampUtil} `{CryptoSign} (fmt_U : nat → string).
Implicit Types (c : callee).

(** An invocation with one argument, in progress or the last. *)
Definition invocation_of (arg : any) (isProgress : bool) (send : option Z) : Invocation.Invocation :=
  Invocation.mk (List.NewList [arg]) (Dict.NewDict ∅)
    (Dict.NewDict {[OptionProgress := ABool isProgress]}) send.

Lemma is_progress arg isProgress send :
  bool_at OptionProgress (Dict.Raw (Invocation.details (invocation_of arg isProgress send))) = isProgress.
Proof.
  unfold invocation_of. cbn [Invocation.details]. rewrite dict_roundtrip. unfold bool_at.
  by rewrite lookup_singleton_eq.
Qed.

(** What the last part of a handshake returns. *)
Definition verdict_of (key signature : string) : InvocationResult :=
  match DecodeString fmt_U key with
  | Err _ => NewInvocationError ErrInvalidArgument [AString "invalid public key format"]
  | Ok bytes =>
      match VerifyCryptoSignSignature signature bytes with
      | Err e => NewInvocationError "wamp.error.verification_failed" [AString e]
      | Ok false => NewInvocationError "wamp.error.verification_failed" [AString "signature verification failed"]
      | Ok true => NewInvocationResult []
      end
  end.

Lemma last_part_run challenge signature send c :
  handler fmt_U challenge (invocation_of signature false send) c =
    (c, Val (verdict_of (hexPublicKey c) (ToString signature))).
Proof.
  unfold handler. rewrite is_progress. unfold invocation_of, Invocation.Args. cbn [Invocation.args].
  rewrite list_roundtrip. cbv iota. erewrite bind_Val by done. unfold verdict_of.
  destruct (DecodeString fmt_U (hexPublicKey c)) as [bytes|e]; [|done].
  by destruct (VerifyCryptoSignSignature (ToString signature) bytes) as [[]|e].
Qed.

Lemma first_part_run challenge key id d ds c :
  Serialize (ser (session c)) (NewYield id {["progress" := ABool true]} [AString challenge] ∅) = Ok d →
  takes (peer (session c)) (d :: ds) →
  handler fmt_U challenge (invocation_of key true (Some id)) c =
    (mkCallee (ToString key) (with_peer (push d (peer (session c))) (session c)),
     Val (NewInvocationError ErrNoResult [])).
Proof.
  intros Hd Ht. unfold handler. rewrite is_progress. unfold invocation_of, Invocation.Args.
  cbn [Invocation.args]. rewrite list_roundtrip. cbv iota. erewrite bind_Val by done.
  destruct (send_progress_takes (invocation_of key true (Some id)) id [AString challenge] ∅ d ds
    (session c) eq_refl Hd Ht) as [Hs _].
  erewrite bind_Val.
  2: { apply try_Val. unfold on_session. rewrite zoom_run. cbn [session].
       unfold invocation_of in Hs. rewrite Hs. reflexivity. }
  done.
Qed.

(** A handshake of one caller: it is sent the challenge, nothing else, and then told
    whether its signature verifies with the key that it gave.  The verdict is the
    same for every challenge: the signature is not compared with the one that was
    sent, so a signature that was seen once is accepted for ever. *)
Theorem any_signed_challenge_is_accepted challenge challenge' key signature id send d ds c :
  Serialize (ser (session c)) (NewYield id {["progress" := ABool true]} [AString challenge] ∅) = Ok d →
  takes (peer (session c)) (d :: ds) →
  let '(c', r) := handler fmt_U challenge (invocation_of key true (Some id)) c in
  r = Val (NewInvocationError ErrNoResult []) ∧
  writeChan (peer (session c')) = (writeChan (peer (session c)) ++ [d])%list ∧
  handler fmt_U challenge' (invocation_of signature false send) c' =
    (c', Val (verdict_of (ToString key) (ToString signature))).
Proof.
  intros Hd Ht. rewrite (first_part_run challenge key id d ds c Hd Ht). split; [done|].
  split; [done|]. apply last_part_run.
Qed.

(** The key is kept in one variable: when the handshakes of two callers overlap, the
    first one's signature is checked with the key of the second. *)
Theorem overlapping_handshakes_share_the_key challenge challenge' key key' signature id id' send d d' ds c :
  Serialize (ser (session c)) (NewYield id {["progress" := ABool true]} [AString challenge] ∅) = Ok d →
  Serialize (ser (session c)) (NewYield id' {["progress" := ABool true]} [AString challenge'] ∅) = Ok d' →
  takes (peer (session c)) (d :: d' :: ds) →
  let c1 := (handler fmt_U challenge (invocation_of key true (Some id)) c).1 in
  let c2 := (handler fmt_U challenge' (invocation_of key' true (Some id')) c1).1 in
  (handler fmt_U challenge (invocation_of signature false send) c2).2 =
    Val (verdict_of (ToString key') (ToString signature)).
Proof.
  intros Hd Hd' Ht. cbv zeta. rewrite (first_part_run challenge key id d (d' :: ds) c Hd Ht). cbn [fst].
  destruct (Write_takes d (d' :: ds) _ Ht) as [_ Ht'].
  rewrite (first_part_run challenge' key' id' d' ds) by done. cbn [fst]. by rewrite last_part_run.
Qed.

(** The sender makes the two parts, the first in progress and the second final. *)
Theorem sender_makes_two_parts publicKeyHex privateKey challenge :
  ∃ first last, sender publicKeyHex privateKey challenge 0 = (1%nat, Val (Some first)) ∧
    sender publicKeyHex privateKey challenge 1 = (2%nat, Val (Some last)) ∧
    in_progress first ∧ prog_Args first = [AString publicKeyHex] ∧
    prog_Err last = None ∧ bool_at OptionProgress (prog_Options last) = false ∧
    prog_Args last = [AString (SignCryptoSignChallenge challenge privateKey)].
Proof.
  eexists _, _. do 2 (split; [reflexivity|]). split; [apply NewProgress_in_progress|].
  split_and!; try done. cbn. unfold bool_at. by rewrite lookup_singleton_eq.
Qed.

End HandshakeSpec.
End Handshake.
