(* ===== verification/DemoClients.v ===== *)
(** * Example clients (examples/pubsub, examples/rpc, examples/rpc_progressive_*, examples/handshake)

    What each program does with its session, from its first request to its end.
    Between the sending of a request and its wait the reader goroutine of the session
    takes what has arrived; the program goes on when the wait is over. *)

From stdpp Require Import functions.
From S2P Require Import Prelude GoStd Wamp Values Accessors Peers Acceptor Realm Router Server Session EndToEnd Progressive Requests NxtConfig Demos.

Local Open Scope string_scope.

Section DemoClients.
Context `{WampMessages} `{!WampSerializers} `{WampConstants} `{FloatConv} `{FmtV} `{MapRange}.

(** How a program ends: [main] returns, having printed the value; or [log.Fatalf] writes a
    text and the process exits without the deferred calls. *)
Inductive client_end (A : Type) := Finished (a : A) | Died (text : string).
Arguments Finished {A} a.
Arguments Died {A} text.

Definition on_heap {A} : M heap A → M client A := zoom requests_ (λ h w, mkClient h (session_ w)).

(** [if err != nil { log.Fatalf(prefix, err) }] *)
Definition or_die {A B} (prefix : string) (m : M client A) (rest : A → M client (client_end B))
    : M client (client_end B) :=
  r ← try m;
  match r with Err e => mret (Died (prefix +:+ e)) | Ok x => rest x end.

(** What the reader takes.  A reader that waits stays where it is; its panic ends the
    process. *)
Definition meanwhile (reads : list (result string)) : M client unit := λ w,
  match on_session (for_M reader_step reads) w with
  | (w, Crash why) => (w, Crash why)
  | (w, _) => (w, Val tt)
  end.

(** A wait: what is read in it, and how it ends. *)
Record wait := mkWait { reads : list (result string); event : wait_event }.

(** [<-sigChan] *)
Definition until_interrupted {A} (interrupted : bool) (rest : M client A) : M client A :=
  if interrupted then rest else λ w, (w, Blocks).

(** The request at a pointer. *)
Definition request_at {R} (objects : heap → gmap nat R) (p : nat) : M client R :=
  h ← get requests_;
  match objects h !! p with
  | Some r => mret r
  | None => crash "invalid memory address or nil pointer dereference"
  end.

(** [session.Leave()] *)
Definition leave (x : wait) : M client unit :=
  on_session Leave_send;; meanwhile (reads x);; on_session (Leave_wait (event x)).

(** [session.Register(procedure, handler).Do()]: the id of the registration. *)
Definition register (id : Z) (procedure : string) (handler : nat) (x : wait) : M client Z :=
  p ← on_heap (Session_Register procedure handler);
  r ← request_at registers p;
  c ← RegisterRequest_Do id r;
  meanwhile (reads x);;
  response ← get (λ w, chans (session_ w) !! c);
  on_session (register_wait id c handler (event x));;
  mret (match response with
        | Some (Some (RRegistered m)) => registered_registration m
        | _ => 0%Z
        end).

Definition unregister (id rid : Z) (x : wait) : M client unit :=
  c ← on_session (RegisterResponse_Unregister id (Some rid));
  meanwhile (reads x);; on_session (unregister_wait id rid c (event x)).

(** [session.Subscribe(topic, handler).Do()]: the id of the subscription; [sub] is the
    object that is made for it. *)
Definition subscribe (id : Z) (topic : string) (sub handler : nat) (x : wait) : M client Z :=
  p ← on_heap (Session_Subscribe topic handler);
  r ← request_at subscribes p;
  c ← SubscribeRequest_Do id r;
  meanwhile (reads x);;
  response ← get (λ w, chans (session_ w) !! c);
  on_session (subscribe_wait id c sub handler (event x));;
  mret (match response with
        | Some (Some (RSubscribed m)) => subscribed_subscription m
        | _ => 0%Z
        end).

Definition unsubscribe (id sid : Z) (sub : nat) (x : wait) : M client unit :=
  c ← on_session (SubscribeResponse_Unsubscribe id (Some (sid, sub)));
  match c with
  | None => mret tt
  | Some c => meanwhile (reads x);; on_session (unsubscribe_wait id sid c (event x))
  end.

(** [session.Publish(topic)], the methods [steps], and [Do]: no acknowledgement is asked
    for, so nothing is waited for. *)
Definition publish (id : Z) (topic : string) (steps : list publish_step) : M client unit :=
  p ← on_heap (Session_Publish topic);
  on_heap (for_M (run_step p) steps);;
  r ← request_at publishes p;
  _ ← PublishRequest_Do id r; mret tt.

(** [session.Call(procedure)], the methods [build], and [Do], without a sender. *)
Definition call (id : Z) (procedure : string) (build : nat → M heap unit) (x : wait)
    : M client CallResponse.CallResponse :=
  p ← on_heap (Session_Call procedure);
  on_heap (build p);;
  r ← request_at calls p;
  c ← callWithRequest id r (NewFinalProgress []);
  meanwhile (reads x);;
  on_session (waitForCallResult id c.1 (event x) OnResponse "").

(** ** pubsub *)

Definition testTopic := "io.xconn.test".

(** The four publications: their methods, and whether the error that is reported is that
    of the publication, or [err], which is nil. *)
Definition publications : list (list publish_step * bool) :=
  let hello := BArgs [AString "Hello"; AString "World"] in
  let love := BKwarg "Hello World!" (AString "I love WAMP") in
  [([], false); ([hello], false); ([love], false); ([hello; love], true)].

Definition failed_publication {B} (says : bool) (e : error) : client_end B :=
  Died ("Failed to publish: " +:+ (if says then e else "%!s(<nil>)")).

Fixpoint publish_all {B} (pubs : list (Z * (list publish_step * bool))) (rest : M client (client_end B))
    : M client (client_end B) :=
  match pubs with
  | [] => rest
  | (id, (steps, says)) :: pubs =>
      r ← try (publish id testTopic steps);
      match r with
      | Err e => mret (failed_publication says e)
      | Ok _ => publish_all pubs rest
      end
  end.

(** [ids]: the ids of the publications. *)
Definition publisher_main (ids : list Z) (x : wait) : M client (client_end unit) :=
  publish_all (zip ids publications)
    (or_die "Failed to leave server: " (leave x) (λ _, mret (Finished tt))).

Definition subscriber_main (id1 id2 : Z) (sub eventHandler : nat) (x1 x2 x3 : wait)
    (events : list (result string)) (interrupted : bool) : M client (client_end unit) :=
  or_die "Failed to subscribe: " (subscribe id1 testTopic sub eventHandler x1) (λ sid,
    meanwhile events;;
    until_interrupted interrupted (
      or_die "Failed to unsubscribe: " (unsubscribe id2 sid sub x2) (λ _,
      or_die "Failed to leave server: " (leave x3) (λ _, mret (Finished tt))))).

(** ** rpc *)

Definition testProcedureEcho := "io.xconn.echo".
Definition testProcedureSum := "io.xconn.sum".

Definition rpc_callee_main (ids : Z * Z * Z * Z) (echoHandler sumHandler : nat) (x1 x2 x3 x4 x5 : wait)
    (served : list (result string)) (interrupted : bool) : M client (client_end unit) :=
  let '(id1, id2, id3, id4) := ids in
  or_die "Failed to register: " (register id1 testProcedureEcho echoHandler x1) (λ echo,
  or_die "Failed to register: " (register id2 testProcedureSum sumHandler x2) (λ sum,
    meanwhile served;;
    until_interrupted interrupted (
      or_die "Failed to unregister: " (unregister id3 echo x3) (λ _,
      or_die "Failed to unregister: " (unregister id4 sum x4) (λ _,
      or_die "Failed to leave server: " (leave x5) (λ _, mret (Finished tt))))))).

(** It prints the sum that it was answered. *)
Definition rpc_caller_main (id1 id2 : Z) (x1 x2 x3 : wait) : M client (client_end Z) :=
  or_die ("Failed to call " +:+ testProcedureEcho +:+ ": ")
    (call id1 testProcedureEcho (λ _, mret tt) x1) (λ _,
  or_die ("Failed to call " +:+ testProcedureSum +:+ ": ")
    (call id2 testProcedureSum (λ p, CallRequest_Arg p (AInt 1);; CallRequest_Arg p (AInt 2)) x2) (λ response,
  or_die "Failed to leave server: " (leave x3) (λ _,
    mret (Finished (CallResponse.ArgUInt64Or response 0 0))))).

(** ** The progressive programs *)

(** The callees register one procedure, and unregister it and leave when they are
    interrupted, whatever the answers; [prefix] is what they say when they cannot. *)
Definition callee_main (prefix procedure : string) (handler : nat) (id1 id2 : Z) (x1 x2 x3 : wait)
    (served : list (result string)) (interrupted : bool) : M client (client_end unit) :=
  or_die prefix (register id1 procedure handler x1) (λ rid,
    meanwhile served;;
    until_interrupted interrupted (
      ignore (unregister id2 rid x2);; ignore (leave x3);; mret (Finished tt))).

Definition upload_callee_main := callee_main "Failed to register procedure: " "io.xconn.progress.upload".
Definition mirror_callee_main := callee_main "Failed to register method: " "io.xconn.progress.upload".
Definition download_callee_main := callee_main "Failed to register method: " "io.xconn.progress.download".
Definition handshake_callee_main := callee_main "Failed to register procedure: " "io.xconn.progress.handshake".

(** The caller of a download prints what it was answered, and leaves. *)
Definition download_caller_main (id : Z) (receiver : nat) (x1 x2 : wait) : M client (client_end string) :=
  or_die "CallRaw failed: "
    (call id "io.xconn.progress.download" (λ p, CallRequest_ProgressReceiver p (Some receiver)) x1)
    (λ response, ignore (leave x2);; mret (Finished (CallResponse.ArgStringOr response 0 ""))).

(** [ProgressSender(...)...Do()]: [first] and [rest] are what the sender returns. *)
Definition progressive (id : Z) (procedure : string) (receiver : option nat) (first : Progress)
    (rest : list Progress) (x : wait) : M client CallResponse.CallResponse :=
  c ← on_session
    (match receiver with
     | None => callProgressive_send id procedure first
     | Some handler => callProgressiveProgress_send id procedure first handler
     end);
  on_session (progress_loop id procedure c.2 rest);;
  meanwhile (reads x);;
  on_session (waitForCallResult id c.1 (event x) OnResponse "").

(** The callers of the uploads, whose sender is called as often as it takes; the second
    prints the first of the arguments of the result, and panics when there is none. *)
Definition upload_caller_main (id : Z) (calls : nat) (x1 x2 : wait) : M client (client_end string) :=
  or_die "Failed to upload data: "
    (progressive id "io.xconn.progress.upload" None (chunk 6 0) (tail (chunks 6 calls)) x1)
    (λ response, ignore (leave x2);; mret (Finished (CallResponse.ArgStringOr response 0 ""))).

Definition mirror_caller_main (id : Z) (receiver calls : nat) (x1 x2 : wait) : M client (client_end any) :=
  or_die "Failed to upload data: "
    (progressive id "io.xconn.progress.upload" (Some receiver) (chunk 5 0) (tail (chunks 5 calls)) x1)
    (λ response, ignore (leave x2);;
      match CallResponse.Args response with
      | [] => crash "index out of range [0] with length 0"
      | a :: _ => mret (Finished a)
      end).

(** The caller of the handshake, with the two values of its sender. *)
Definition handshake_caller_main (id : Z) (receiver : nat) (first second : Progress) (x1 x2 : wait)
    : M client (client_end unit) :=
  or_die "Authentication failed: "
    (progressive id "io.xconn.progress.handshake" (Some receiver) first [second] x1)
    (λ _, ignore (leave x2);; mret (Finished tt)).

End DemoClients.
Arguments Finished {A} a.
Arguments Died {A} text.

Section DemoClientsSpec.
Context `{WampMessagesOk} `{!WampSerializers} `{WampConstants} `{FloatConv} `{FmtV} `{MapRange}.
Implicit Types (s : Session) (w : client) (ds : list string).

Lemma on_own_session_run {A} (m : M Session A) w s v :
  m (session_ w) = (s, v) → on_session m w = (mkClient (requests_ w) s, v).
Proof. unfold on_session. rewrite zoom_run. by intros ->. Qed.

Lemma on_heap_run {A} (m : M heap A) w h v :
  m (requests_ w) = (h, v) → on_heap m w = (mkClient h (session_ w), v).
Proof. unfold on_heap. rewrite zoom_run. by intros ->. Qed.

Lemma or_die_run {A B} prefix (m : M client A) (rest : A → M client (client_end B)) w w' x :
  m w = (w', Val x) → or_die prefix m rest w = rest x w'.
Proof. intros Hm. unfold or_die. by rewrite (bind_Val _ _ _ _ _ (try_Val _ _ _ _ Hm)). Qed.

(** A session that can send these payloads, and whose reader reads. *)
Definition online ds s : Prop := connected s = true ∧ reading s = true ∧ takes (peer s) ds.

Lemma read_one payload msg w s :
  reading (session_ w) = true → Deserialize (ser (session_ w)) payload = Ok msg →
  processIncomingMessage msg (session_ w) = (s, Val tt) →
  meanwhile [Ok payload] w = (mkClient (requests_ w) s, Val tt).
Proof.
  intros Hr Hd Hp. unfold meanwhile. rewrite (on_own_session_run _ w s (Val tt)); [done|].
  cbn [for_M]. by rewrite (bind_Val _ _ _ _ _ (reader_step_run _ _ _ _ Hr Hd Hp)).
Qed.

(** *** Requests and their answers *)

(** The session when the request [k] with this payload has been sent, and when it has been
    answered. *)
Definition asked (k : request_kind) (id : Z) (d : string) s : Session :=
  let c := fresh (dom (chans s)) in
  with_peer (push d (peer s)) (store_request k id c (with_chans (<[c := None]> (chans s)) s)).
Definition told (k : request_kind) (id : Z) (d : string) (r : reply) s : Session :=
  let a := asked k id d s in with_chans (<[fresh (dom (chans s)) := Some r]> (chans a)) a.
Definition heard (k : request_kind) (id : Z) (d : string) (r : reply) s : Session :=
  let t := told k id d r s in with_chans (<[fresh (dom (chans s)) := None]> (chans t)) t.

Lemma request_asks k id m d ds s :
  Serialize (ser s) m = Ok d → takes (peer s) (d :: ds) →
  request k id m s = (asked k id d s, Val (fresh (dom (chans s)))) ∧ takes (peer (asked k id d s)) ds.
Proof.
  intros Hd Ht. destruct (Write_takes d ds _ Ht) as [Hw Ht']. split; [|done].
  rewrite request_run, Hd. cbv zeta. by rewrite Hw.
Qed.

Lemma answer_tells k id d r e s : answer k id r e (asked k id d s) = (told k id d r s, Val tt).
Proof.
  unfold answer. erewrite bind_Val by done. unfold asked. cbn [requests with_peer store_request with_requests].
  rewrite fn_lookup_insert, lookup_insert_eq. apply chan_send_run.
  cbn [chans with_peer with_requests with_chans]. apply lookup_insert_eq.
Qed.

Lemma await_hears k id d r s t accept :
  match r with RError _ => False | _ => True end →
  await k id (fresh (dom (chans s))) OnResponse t accept (told k id d r s) =
  (accept r;; modify (drop_request k id)) (heard k id d r s).
Proof.
  intros Hr. unfold await. erewrite bind_Val.
  2: { unfold chan_receive, told. cbn [chans with_chans]. rewrite lookup_insert_eq. reflexivity. }
  by destruct r.
Qed.

(** What a request and its answer leave alone. *)
Definition sent_over (ds left : list string) s s' : Prop :=
  online left s' ∧ ser s' = ser s ∧ writeChan (peer s') = (writeChan (peer s) ++ ds)%list ∧
  goodbyeChan s' = goodbyeChan s ∧ onLeave s' = onLeave s ∧ effects s' = effects s.

Lemma sent_over_trans ds1 ds2 l1 l2 s1 s2 s3 :
  sent_over ds1 l1 s1 s2 → sent_over ds2 l2 s2 s3 → sent_over (ds1 ++ ds2) l2 s1 s3.
Proof.
  intros (_ & Hz & Hw & Hg & Hl & He) (Ho & Hz' & Hw' & Hg' & Hl' & He'). split; [done|].
  split_and!; [congruence| |congruence..]. rewrite Hw', Hw. by rewrite <-(assoc_L app).
Qed.

Lemma require_connected_run e s : connected s = true → require_connected e s = (s, Val tt).
Proof. intros Hc. unfold require_connected. erewrite bind_Val by done. by rewrite Hc. Qed.

(** A new request, built by [build], which gives [r]. *)
Lemma request_at_run {R} (objects : heap → gmap nat R) p r w :
  objects (requests_ w) !! p = Some r → request_at objects p w = (w, Val r).
Proof. intros Hp. unfold request_at. erewrite bind_Val by done. by rewrite Hp. Qed.

Lemma heard_sent k id d r ds s f :
  online (d :: ds) s →
  (∀ u, peer (f u) = peer u ∧ ser (f u) = ser u ∧ reading (f u) = reading u ∧ connected (f u) = connected u ∧
    goodbyeChan (f u) = goodbyeChan u ∧ onLeave (f u) = onLeave u ∧ effects (f u) = effects u) →
  sent_over [d] ds s (drop_request k id (f (heard k id d r s))).
Proof.
  intros (Hc & Hr & Ht) Hf. destruct (Hf (heard k id d r s)) as (Hp & Hz & Hr' & Hc' & Hg & Hl & He).
  destruct (Write_takes d ds _ Ht) as [_ Ht']. unfold sent_over, online.
  cbn [drop_request with_requests connected reading peer ser goodbyeChan onLeave effects].
  rewrite Hp, Hz, Hr', Hc', Hg, Hl, He. by split_and!.
Qed.

(** A request, the message that answers it, and the end of the wait, which changes the
    session by [f]. *)
Lemma asks_and_hears k id m d ds payload msg r e s hp :
  online (d :: ds) s → Serialize (ser s) m = Ok d → Deserialize (ser s) payload = Ok msg →
  (∀ u, processIncomingMessage msg u = answer k id r e u) →
  match r with RError _ => False | _ => True end →
  ∃ s1 s2 c, request k id m s = (s1, Val c) ∧
    meanwhile [Ok payload] (mkClient hp s1) = (mkClient hp s2, Val tt) ∧
    chans s2 !! c = Some (Some r) ∧
    ∀ f, (∀ u, peer (f u) = peer u ∧ ser (f u) = ser u ∧ reading (f u) = reading u ∧
        connected (f u) = connected u ∧ goodbyeChan (f u) = goodbyeChan u ∧ onLeave (f u) = onLeave u ∧
        effects (f u) = effects u) →
      sent_over [d] ds s (drop_request k id (f (heard k id d r s))) ∧
      ∀ t accept, (∀ u, accept r u = (f u, Val tt)) →
        await k id c OnResponse t accept s2 = (drop_request k id (f (heard k id d r s)), Val tt).
Proof.
  intros Ho Hd Hp Hmsg Hr. pose proof Ho as (Hc & Hrd & Ht).
  destruct (request_asks k id m d ds s Hd Ht) as [Hreq _].
  exists (asked k id d s), (told k id d r s), (fresh (dom (chans s))). split; [done|]. split.
  { apply (read_one payload msg (mkClient hp (asked k id d s))); [done|done|]. cbn [session_].
    rewrite Hmsg. apply answer_tells. }
  split; [unfold told; cbn [chans with_chans]; apply lookup_insert_eq|]. intros f Hf. split.
  { by apply heard_sent. }
  intros t accept Hacc. rewrite await_hears by done. by erewrite bind_Val by apply Hacc.
Qed.

(** A procedure is registered, and the registration given up. *)
Lemma register_run id procedure handler d ds payload msg m w :
  online (d :: ds) (session_ w) →
  Serialize (ser (session_ w)) (NewRegister id ∅ procedure) = Ok d →
  Deserialize (ser (session_ w)) payload = Ok msg → view msg = VRegistered m → registered_id m = id →
  ∃ w', register id procedure handler (mkWait [Ok payload] OnResponse) w =
      (w', Val (registered_registration m)) ∧
    sent_over [d] ds (session_ w) (session_ w') ∧
    registrations (session_ w') = <[registered_registration m := handler]> (registrations (session_ w)).
Proof.
  intros Ho Hd Hp Hv Hid. unfold register.
  erewrite bind_Val by (apply on_heap_run; reflexivity). set (p := fresh _). set (h1 := set_objects _ _).
  erewrite bind_Val by (apply request_at_run, lookup_insert_eq).
  unfold RegisterRequest_Do. rewrite bind_bind. erewrite bind_Val by done. cbn [contents r_options r_procedure].
  destruct (asks_and_hears KRegister id (NewRegister id ∅ procedure) d ds payload msg (RRegistered m)
    "received REGISTERED for unknown request" (session_ w) (h1))
    as (s1 & s2 & c & Hs & Hread & Hch & Hw); [done..| |done|].
  { intros u. unfold processIncomingMessage. by rewrite Hv, Hid. }
  erewrite bind_Val.
  2: { apply on_own_session_run. unfold register_send. cbn [session_].
       erewrite bind_Val by (apply require_connected_run, Ho). exact Hs. }
  rewrite (bind_Val _ _ _ _ _ Hread). erewrite bind_Val by done. cbn [session_]. rewrite Hch.
  destruct (Hw (λ u, with_registrations (<[registered_registration m := handler]> (registrations u)) u)) as [Hsent Hwait];
    [intros u; by split_and!|].
  erewrite bind_Val by (apply on_own_session_run, Hwait; reflexivity). eexists. split; [reflexivity|]. by split.
Qed.

Lemma unregister_run id rid d ds payload msg w :
  online (d :: ds) (session_ w) →
  Serialize (ser (session_ w)) (NewUnregister id rid) = Ok d →
  Deserialize (ser (session_ w)) payload = Ok msg → view msg = VUnregistered id →
  ∃ w', unregister id rid (mkWait [Ok payload] OnResponse) w = (w', Val tt) ∧
    sent_over [d] ds (session_ w) (session_ w') ∧
    registrations (session_ w') = delete rid (registrations (session_ w)).
Proof.
  intros Ho Hd Hp Hv. unfold unregister.
  destruct (asks_and_hears KUnregister id (NewUnregister id rid) d ds payload msg (RUnregistered id)
    "received UNREGISTERED for unknown request" (session_ w) (requests_ w))
    as (s1 & s2 & c & Hs & Hread & Hch & Hw); [done..| |done|].
  { intros u. unfold processIncomingMessage. by rewrite Hv. }
  erewrite bind_Val.
  2: { apply on_own_session_run. unfold RegisterResponse_Unregister, unregister_send.
       erewrite bind_Val by (apply require_connected_run, Ho). exact Hs. }
  rewrite (bind_Val _ _ _ _ _ Hread). destruct (Hw (λ u, with_registrations (delete rid (registrations u)) u)) as [Hsent Hwait];
    [intros u; by split_and!|].
  eexists. split; [apply on_own_session_run, Hwait; reflexivity|]. by split.
Qed.

(** The same for a subscription, when the session has no other with its id. *)
Lemma subscribe_run id topic sub handler d ds payload msg m w :
  online (d :: ds) (session_ w) →
  Serialize (ser (session_ w)) (NewSubscribe id ∅ topic) = Ok d →
  Deserialize (ser (session_ w)) payload = Ok msg → view msg = VSubscribed m → subscribed_id m = id →
  subscriptions (session_ w) !! subscribed_subscription m = None →
  ∃ w', subscribe id topic sub handler (mkWait [Ok payload] OnResponse) w =
      (w', Val (subscribed_subscription m)) ∧
    sent_over [d] ds (session_ w) (session_ w') ∧
    subscriptions (session_ w') =
      <[subscribed_subscription m := {[sub := handler]}]> (subscriptions (session_ w)).
Proof.
  intros Ho Hd Hp Hv Hid Hnew. unfold subscribe.
  erewrite bind_Val by (apply on_heap_run; reflexivity). set (p := fresh _). set (h1 := set_objects _ _).
  erewrite bind_Val by (apply request_at_run, lookup_insert_eq).
  unfold SubscribeRequest_Do. rewrite bind_bind. erewrite bind_Val by done. cbn [contents s_options s_topic].
  destruct (asks_and_hears KSubscribe id (NewSubscribe id ∅ topic) d ds payload msg (RSubscribed m)
    "received SUBSCRIBED for unknown request" (session_ w) (h1))
    as (s1 & s2 & c & Hs & Hread & Hch & Hw); [done..| |done|].
  { intros u. unfold processIncomingMessage. by rewrite Hv, Hid. }
  erewrite bind_Val.
  2: { apply on_own_session_run. unfold subscribe_send. cbn [session_].
       erewrite bind_Val by (apply require_connected_run, Ho). exact Hs. }
  rewrite (bind_Val _ _ _ _ _ Hread). erewrite bind_Val by done. cbn [session_]. rewrite Hch.
  destruct (Hw (λ u, with_subscriptions (<[subscribed_subscription m :=
    <[sub := handler]> (default ∅ (subscriptions u !! subscribed_subscription m))]> (subscriptions u)) u)) as [Hsent Hwait];
    [intros u; by split_and!|].
  erewrite bind_Val by (apply on_own_session_run, Hwait; reflexivity). eexists. split; [reflexivity|]. split; [done|].
  cbn. by rewrite Hnew.
Qed.

(** The only subscription of its id is given up. *)
Lemma unsubscribe_run id sid sub handler d ds payload msg w :
  online (d :: ds) (session_ w) → subscriptions (session_ w) !! sid = Some {[sub := handler]} →
  Serialize (ser (session_ w)) (NewUnsubscribe id sid) = Ok d →
  Deserialize (ser (session_ w)) payload = Ok msg → view msg = VUnsubscribed id →
  ∃ w', unsubscribe id sid sub (mkWait [Ok payload] OnResponse) w = (w', Val tt) ∧
    sent_over [d] ds (session_ w) (session_ w') ∧
    subscriptions (session_ w') = delete sid (subscriptions (session_ w)).
Proof.
  intros Ho Hs Hd Hp Hv. unfold unsubscribe.
  set (s0 := with_subscriptions (<[sid := ∅]> (subscriptions (session_ w))) (session_ w)).
  destruct (asks_and_hears KUnsubscribe id (NewUnsubscribe id sid) d ds payload msg (RUnsubscribed id)
    "received UNSUBSCRIBED for unknown request" s0 (requests_ w))
    as (s1 & s2 & c & Hreq & Hread & Hch & Hw); [done..| |done|].
  { intros u. unfold processIncomingMessage. by rewrite Hv. }
  assert (unsubscribe_send id sid sub (session_ w) = (s1, Val (Some c))) as Hsend.
  { unfold unsubscribe_send. erewrite bind_Val by (apply require_connected_run, Ho).
    erewrite bind_Val by done. rewrite Hs. rewrite delete_singleton_eq. cbv zeta.
    erewrite bind_Val by done. rewrite map_size_empty. rewrite bool_decide_true by done.
    by rewrite (bind_Val _ _ _ _ _ Hreq). }
  erewrite bind_Val by (apply on_own_session_run; exact Hsend). cbv iota.
  rewrite (bind_Val _ _ _ _ _ Hread).
  destruct (Hw (λ u, with_subscriptions (delete sid (subscriptions u)) u)) as [Hsent Hwait];
    [intros u; by split_and!|].
  eexists. split; [apply on_own_session_run, Hwait; reflexivity|]. split; [done|].
  cbn. by rewrite delete_insert_eq.
Qed.

(** GOODBYE is sent, and that of the router ends the session. *)
Lemma leave_run d payload msg g w :
  online [d] (session_ w) → goodbyeChan (session_ w) = false →
  Serialize (ser (session_ w)) (NewGoodBye CloseCloseRealm ∅) = Ok d →
  Deserialize (ser (session_ w)) payload = Ok msg → view msg = VGoodbye g →
  ∃ w', leave (mkWait [Ok payload] OnResponse) w = (w', Val tt) ∧
    connected (session_ w') = false ∧ left (session_ w') = true ∧
    writeChan (peer (session_ w')) = (writeChan (peer (session_ w)) ++ [d])%list ∧
    registrations (session_ w') = registrations (session_ w) ∧
    subscriptions (session_ w') = subscriptions (session_ w) ∧
    effects (session_ w') = (effects (session_ w) ++
      match onLeave (session_ w) with Some l => [OnLeave l] | None => [] end)%list.
Proof.
  intros (Hc & Hr & Ht) Hg Hd Hp Hv. unfold leave.
  destruct (send_message_takes _ _ _ _ Hd Ht) as [Hs _].
  erewrite bind_Val.
  2: { apply on_own_session_run. unfold Leave_send. erewrite bind_Val by (by apply require_connected_run).
       exact Hs. }
  set (s1 := with_peer _ _). 
  assert (∃ s2, processIncomingMessage msg s1 = (s2, Val tt) ∧ goodbyeChan s2 = true ∧
    connected s2 = false ∧ left s2 = true ∧ peer s2 = peer s1 ∧ registrations s2 = registrations s1 ∧
    subscriptions s2 = subscriptions s1 ∧
    effects s2 = (effects s1 ++ match onLeave s1 with Some l => [OnLeave l] | None => [] end)%list)
    as (s2 & Hproc & Hg2 & Hc2 & Hl2 & Hp2 & Hrs & Hss & He2).
  { unfold processIncomingMessage. rewrite Hv. unfold handle_goodbye. erewrite bind_Val by done.
    unfold goodbye_send. cbn [goodbyeChan with_goodbye]. unfold s1 at 1. cbn [goodbyeChan with_peer].
    erewrite bind_Val by (cbn; rewrite Hg; reflexivity). erewrite bind_Val by done.
    cbn [onLeave with_goodbye]. destruct (onLeave s1) as [l|] eqn:Hl.
    - eexists. split; [reflexivity|]. by split_and!.
    - eexists. split; [reflexivity|]. split_and!; try done. cbn. by rewrite app_nil_r. }
  rewrite (bind_Val _ _ _ _ _ (read_one payload msg (mkClient (requests_ w) s1) s2 Hr Hp Hproc)).
  eexists. split.
  { apply on_own_session_run. cbn [session_ event]. unfold Leave_wait. rewrite Hg2. reflexivity. }
  cbn. rewrite Hp2, He2. by split_and!.
Qed.

(** *** Publishing *)

(** The value that the methods build, and its message. *)
Definition built (topic : string) (steps : list publish_step) : plain :=
  foldl (flip apply_step) (mkPlain topic [] ∅ ∅) steps.
Definition publication_message (id : Z) (topic : string) (steps : list publish_step) : Message :=
  let p := built topic steps in NewPublish id (plain_options p) (plain_topic p) (plain_args p) (plain_kwargs p).

Lemma run_steps_value c steps h r :
  private h → publishes h !! c = Some r →
  ∃ h' r', for_M (run_step c) steps h = (h', Val tt) ∧ private h' ∧ publishes h' !! c = Some r' ∧
    value_of h' r' = foldl (flip apply_step) (value_of h r) steps.
Proof.
  revert h r. induction steps as [|st steps IH]; intros h r Hpr Hr; [by exists h, r|].
  destruct (run_step_value c st h r Hpr Hr) as (h1 & Hrun & Hpr1 & Hv & _).
  unfold value_at in Hv. apply fmap_Some in Hv as (r1 & Hr1 & Hv).
  destruct (IH h1 r1 Hpr1 Hr1) as (h2 & r2 & Hrun2 & Hpr2 & Hr2 & Hv2).
  exists h2, r2. cbn [for_M foldl]. rewrite (bind_Val _ _ _ _ _ Hrun). split; [done|]. split; [done|].
  split; [done|]. by rewrite Hv2, <-Hv.
Qed.

Lemma new_publish_private topic h :
  private h → private (set_objects (<[fresh (dom (publishes h)) := mkPublish topic [] None None]> (publishes h)) h).
Proof.
  intros [Ha Hp].
  assert (∀ c r f l, publishes (set_objects (<[fresh (dom (publishes h)) := mkPublish topic [] None None]>
    (publishes h)) h) !! c = Some r → map_of f r = Some l → publishes h !! c = Some r) as Hold.
  { intros c r f l Hr Hl. cbn in Hr. apply lookup_insert_Some in Hr as [[<- <-]|[_ Hr]]; [by destruct f|done]. }
  split.
  - intros c r f l Hr Hl. eapply Ha; [by eapply Hold|done].
  - intros c r f c' r' f' l Hr Hr' Hl Hl'. eapply Hp; [by eapply Hold|by eapply Hold|done..].
Qed.

Lemma publish_run id topic steps d ds w :
  online (d :: ds) (session_ w) → private (requests_ w) →
  bool_at "acknowledge" (plain_options (built topic steps)) = false →
  Serialize (ser (session_ w)) (publication_message id topic steps) = Ok d →
  ∃ w', publish id topic steps w = (w', Val tt) ∧ sent_over [d] ds (session_ w) (session_ w') ∧
    private (requests_ w').
Proof.
  intros (Hc & Hr & Ht) Hpr Hack Hd. unfold publish.
  erewrite bind_Val by (apply on_heap_run; reflexivity). set (p := fresh _). set (h1 := set_objects _ _).
  destruct (run_steps_value p steps h1 (mkPublish topic [] None None)) as (h2 & r & Hrun & Hpr2 & Hr2 & Hv);
    [by apply new_publish_private|apply lookup_insert_eq|].
  erewrite bind_Val by (apply on_heap_run; exact Hrun).
  erewrite bind_Val by (apply request_at_run; exact Hr2).
  change (foldl _ _ steps) with (built topic steps) in Hv. unfold publication_message in Hd.
  rewrite <-Hv in Hd, Hack. cbn [plain_options plain_topic plain_args plain_kwargs value_of] in Hd, Hack.
  destruct (send_message_takes _ _ ds _ Hd Ht) as [Hs Ht'].
  erewrite bind_Val.
  2: { unfold PublishRequest_Do. erewrite bind_Val by done. apply on_own_session_run. cbn [session_ requests_].
       unfold publish_send. erewrite bind_Val by (by apply require_connected_run). cbv zeta.
       rewrite Hack. by rewrite (bind_Val _ _ _ _ _ Hs). }
  eexists. split; [reflexivity|]. cbn [session_ requests_]. by split_and!.
Qed.

(** *** Events *)

Lemma range_singleton (c h : nat) : range_entries ({[c := h]} : gmap nat nat) = [(c, h)].
Proof.
  apply Permutation_singleton_r. rewrite range_entries_perm. by rewrite map_to_list_singleton.
Qed.

(** Each event is given to the handler once, and they come in order. *)
Lemma events_run sid sub handler payloads evs w :
  reading (session_ w) = true → subscriptions (session_ w) !! sid = Some {[sub := handler]} →
  Forall2 (λ d ev, ∃ msg, Deserialize (ser (session_ w)) d = Ok msg ∧ view msg = VEvent ev ∧
    event_subscription ev = sid) payloads evs →
  ∃ s', meanwhile (map Ok payloads) w = (mkClient (requests_ w) s', Val tt) ∧
    s' = foldl (λ u ev, add_effect (Deliver handler
      (Event.NewEvent (event_args ev) (event_kwargs ev) (event_details ev))) u) (session_ w) evs.
Proof.
  intros Hr Hsub Hf.
  assert (for_M reader_step (map Ok payloads) (session_ w) = (foldl (λ u ev, add_effect (Deliver handler
      (Event.NewEvent (event_args ev) (event_kwargs ev) (event_details ev))) u) (session_ w) evs, Val tt)) as Hrun.
  2: { eexists. split; [|reflexivity]. unfold meanwhile. by rewrite (on_own_session_run _ _ _ _ Hrun). }
  revert Hr Hsub Hf. generalize (session_ w) as s. intros s Hr Hsub Hf. remember (ser s) as z eqn:Hz.
  revert s Hr Hsub Hz. induction Hf as [|d ev payloads evs (msg & Hd & Hv & Hid) _ IH]; intros s Hr Hsub Hz; [done|].
  assert (reader_step (Ok d) s = (add_effect (Deliver handler
    (Event.NewEvent (event_args ev) (event_kwargs ev) (event_details ev))) s, Val tt)) as Hstep.
  { eapply reader_step_run; [done|by rewrite <-Hz|].
    unfold processIncomingMessage. rewrite Hv. unfold handle_event. erewrite bind_Val by done.
    rewrite Hid, Hsub, range_singleton. reflexivity. }
  cbn [map for_M foldl]. rewrite (bind_Val _ _ _ _ _ Hstep). by apply IH.
Qed.

(** *** Calls *)

(** The methods give a request with these arguments and nothing else. *)
Definition builds (procedure : string) (build : nat → M heap unit) (args : list any) : Prop :=
  ∀ h p, calls h !! p = Some (mkCall procedure [] None None None None) →
    ∃ h', build p h = (h', Val tt) ∧ calls h' !! p = Some (mkCall procedure args None None None None).

Lemma call_run id procedure build args d ds payload msg m w :
  AsBool ANil = false → builds procedure build args →
  online (d :: ds) (session_ w) →
  Serialize (ser (session_ w)) (NewCall id ∅ procedure args ∅) = Ok d →
  Deserialize (ser (session_ w)) payload = Ok msg → view msg = VResult m → result_id m = id →
  bool_at OptionProgress (result_details m) = false →
  ∃ w', call id procedure build (mkWait [Ok payload] OnResponse) w = (w', Val (call_response m)) ∧
    sent_over [d] ds (session_ w) (session_ w').
Proof.
  intros Hnil Hbuild Ho Hd Hp Hv Hid Hprog. pose proof Ho as (Hc & Hr & Ht). unfold call.
  erewrite bind_Val by (apply on_heap_run; reflexivity). set (p := fresh _). set (h1 := set_objects _ _).
  destruct (Hbuild h1 p) as (h2 & Hrun & Hr2); [apply lookup_insert_eq|].
  erewrite bind_Val by (apply on_heap_run; exact Hrun).
  erewrite bind_Val by (apply request_at_run; exact Hr2).
  destruct (request_asks KCall id _ d ds _ Hd Ht) as [Hreq _].
  erewrite bind_Val.
  2: { unfold callWithRequest. erewrite bind_Val by done. cbn [c_progressSender c_progressReceiver c_kwargs
         c_options c_procedure c_args contents]. unfold callRaw.
       rewrite lookup_empty. cbn [default]. rewrite Hnil. erewrite bind_Val by done. erewrite bind_Val by done.
       erewrite bind_Val; [reflexivity|]. apply on_own_session_run. unfold call_send.
       erewrite bind_Val by (by apply require_connected_run). exact Hreq. }
  set (c := fresh (dom (chans (session_ w)))).
  set (s2 := with_progress (delete id (progressHandlers (session_ w))) (progressFunc (session_ w))
    (told KCall id d (RResult m) (session_ w))).
  erewrite bind_Val.
  2: { apply (read_one payload msg) with (s := s2); [done|done|]. cbn [session_].
       unfold processIncomingMessage. rewrite Hv. unfold handle_result. rewrite Hid.
       erewrite bind_Val by done. unfold asked, store_request at 1. cbn [requests with_peer with_requests].
       rewrite fn_lookup_insert, lookup_insert_eq, Hprog. erewrite bind_Val by (apply chan_send_run, lookup_insert_eq).
       reflexivity. }
  eexists. split.
  { apply on_own_session_run. unfold waitForCallResult. cbn [session_ event]. rewrite (call_answer_run _ _ (RResult m)).
    { reflexivity. }
    unfold s2, told. cbn [chans with_chans with_progress]. apply lookup_insert_eq. }
  cbn [session_]. unfold sent_over, online. by destruct (Write_takes d ds _ Ht) as [_ Ht'].
Qed.

Lemma builds_nothing procedure : builds procedure (λ _, mret tt) [].
Proof. intros h p Hp. by exists h. Qed.

Lemma builds_two procedure a b : builds procedure (λ p, CallRequest_Arg p a;; CallRequest_Arg p b) [a; b].
Proof.
  intros h p Hp. unfold CallRequest_Arg. eexists. split.
  { erewrite bind_Val by (by apply update_request_run). apply update_request_run. cbn. apply lookup_insert_eq. }
  cbn. apply lookup_insert_eq.
Qed.

(** ** The programs *)

Lemma publish_all_run {B} pubs (rest : M client (client_end B)) ds left w :
  online (ds ++ left) (session_ w) → private (requests_ w) →
  Forall2 (λ p d, Serialize (ser (session_ w)) (publication_message p.1 testTopic p.2.1) = Ok d ∧
    bool_at "acknowledge" (plain_options (built testTopic p.2.1)) = false) pubs ds →
  ∃ w', publish_all pubs rest w = rest w' ∧ sent_over ds left (session_ w) (session_ w').
Proof.
  intros Ho Hpr Hf. remember (ser (session_ w)) as z eqn:Hz. revert w Ho Hpr Hz.
  induction Hf as [|[id [steps says]] d pubs ds [Hd Hack] _ IH]; intros w Ho Hpr Hz.
  - exists w. split; [done|]. split; [done|]. rewrite app_nil_r. by split_and!.
  - subst z. destruct (publish_run id testTopic steps d (ds ++ left) w) as (w1 & Hrun & Hs1 & Hpr1); [done..|].
    pose proof Hs1 as (Ho1 & Hz1 & _).
    destruct (IH w1 Ho1 Hpr1) as (w2 & Hrun2 & Hs2); [done|].
    exists w2. cbn [publish_all]. rewrite (bind_Val _ _ _ _ _ (try_Val _ _ _ _ Hrun)). split; [done|].
    exact (sent_over_trans [d] ds _ left _ _ _ Hs1 Hs2).
Qed.

(** The publisher sends its four publications, in order, and then GOODBYE; when the router
    has answered it the program ends. *)
Theorem publisher_publishes_and_leaves ids ds dg payload msg g w :
  length ids = 4%nat → online (ds ++ [dg]) (session_ w) → private (requests_ w) →
  goodbyeChan (session_ w) = false →
  Forall2 (λ p d, Serialize (ser (session_ w)) (publication_message p.1 testTopic p.2.1) = Ok d)
    (zip ids publications) ds →
  Serialize (ser (session_ w)) (NewGoodBye CloseCloseRealm ∅) = Ok dg →
  Deserialize (ser (session_ w)) payload = Ok msg → view msg = VGoodbye g →
  ∃ w', publisher_main ids (mkWait [Ok payload] OnResponse) w = (w', Val (Finished tt)) ∧
    length ds = 4%nat ∧ writeChan (peer (session_ w')) = (writeChan (peer (session_ w)) ++ ds ++ [dg])%list ∧
    left (session_ w') = true.
Proof.
  intros Hids Ho Hpr Hg Hds Hdg Hp Hv. unfold publisher_main.
  destruct (publish_all_run (zip ids publications)
    (or_die "Failed to leave server: " (leave (mkWait [Ok payload] OnResponse)) (λ _, mret (Finished tt)))
    ds [dg] w Ho Hpr) as (w1 & Hrun & (Ho1 & Hz1 & Hw1 & Hg1 & _)).
  { destruct ids as [|a [|b [|c [|e [|]]]]]; try discriminate Hids.
    repeat (apply Forall2_cons_inv_l in Hds as (? & ? & ? & Hds & ->); constructor; [by split|]).
    by apply Forall2_nil_inv_l in Hds as ->. }
  rewrite Hrun. destruct (leave_run dg payload msg g w1) as (w2 & Hl & _ & Hleft & Hw2 & _);
    [done|congruence|by rewrite Hz1|by rewrite Hz1|done|].
  rewrite (or_die_run _ _ _ _ _ _ Hl). exists w2. split; [done|]. split.
  { rewrite <-(Forall2_length _ _ _ Hds), length_zip_with, Hids. done. }
  split; [|done]. by rewrite Hw2, Hw1, <-(assoc_L app).
Qed.

(** A publication that fails is reported with an error that is nil: what went wrong is not
    said. *)
Theorem publisher_hides_the_error id ids x w :
  connected (session_ w) = false →
  (publisher_main (id :: ids) x w).2 = Val (Died "Failed to publish: %!s(<nil>)").
Proof.
  intros Hc. unfold publisher_main. cbn [zip zip_with publications publish_all].
  rewrite bind_effect.
  assert (∃ w', publish id testTopic [] w = (w', Fail "cannot publish to topic: session not established"))
    as (w' & Hpub).
  { unfold publish. erewrite bind_Val by (apply on_heap_run; reflexivity). set (p := fresh _).
    erewrite bind_Val by (apply on_heap_run; reflexivity).
    erewrite bind_Val by (apply request_at_run, lookup_insert_eq).
    eexists. apply bind_Fail. unfold PublishRequest_Do. erewrite bind_Val by done. apply on_own_session_run.
    unfold publish_send, require_connected. apply bind_Fail. cbn [session_]. erewrite bind_Val by done.
    by rewrite Hc. }
  unfold try. by rewrite Hpub.
Qed.

(** The answer of the router to a request, or its GOODBYE. *)
Definition answer_of s (payload : string) (v : msg_view) : Prop :=
  ∃ msg, Deserialize (ser s) payload = Ok msg ∧ view msg = v.

Definition deliver_all (handler : nat) (evs : list event_msg) : list effect :=
  map (λ ev, Deliver handler (Event.NewEvent (event_args ev) (event_kwargs ev) (event_details ev))) evs.

Lemma delivered_all handler evs left s :
  online left s →
  let s' := foldl (λ u ev, add_effect (Deliver handler
    (Event.NewEvent (event_args ev) (event_kwargs ev) (event_details ev))) u) s evs in
  online left s' ∧ ser s' = ser s ∧ peer s' = peer s ∧ goodbyeChan s' = goodbyeChan s ∧ onLeave s' = onLeave s ∧
  subscriptions s' = subscriptions s ∧ effects s' = (effects s ++ deliver_all handler evs)%list.
Proof.
  revert s. induction evs as [|ev evs IH]; intros s Ho; cbv zeta; cbn [foldl deliver_all map].
  { rewrite app_nil_r. by split_and!. }
  destruct (IH (add_effect (Deliver handler
    (Event.NewEvent (event_args ev) (event_kwargs ev) (event_details ev))) s) Ho) as (? & ? & ? & ? & ? & ? & He).
  split_and!; [done..|]. rewrite He. cbn. by rewrite <-(assoc_L app).
Qed.

(** The subscriber subscribes, gives each event of its topic to the handler, once and in
    order, and when it is interrupted unsubscribes and leaves; then no subscription is left
    of it. *)
Theorem subscriber_hears_its_topic id1 id2 sub handler m payloads evs p1 p2 p3 d1 d2 d3 g w :
  online [d1; d2; d3] (session_ w) → goodbyeChan (session_ w) = false → onLeave (session_ w) = None →
  subscriptions (session_ w) !! subscribed_subscription m = None → subscribed_id m = id1 →
  Serialize (ser (session_ w)) (NewSubscribe id1 ∅ testTopic) = Ok d1 →
  Serialize (ser (session_ w)) (NewUnsubscribe id2 (subscribed_subscription m)) = Ok d2 →
  Serialize (ser (session_ w)) (NewGoodBye CloseCloseRealm ∅) = Ok d3 →
  answer_of (session_ w) p1 (VSubscribed m) → answer_of (session_ w) p2 (VUnsubscribed id2) →
  answer_of (session_ w) p3 (VGoodbye g) →
  Forall2 (λ d ev, ∃ msg, Deserialize (ser (session_ w)) d = Ok msg ∧ view msg = VEvent ev ∧
    event_subscription ev = subscribed_subscription m) payloads evs →
  ∃ w', subscriber_main id1 id2 sub handler (mkWait [Ok p1] OnResponse) (mkWait [Ok p2] OnResponse)
      (mkWait [Ok p3] OnResponse) (map Ok payloads) true w = (w', Val (Finished tt)) ∧
    writeChan (peer (session_ w')) = (writeChan (peer (session_ w)) ++ [d1; d2; d3])%list ∧
    effects (session_ w') = (effects (session_ w) ++ deliver_all handler evs)%list ∧
    subscriptions (session_ w') = subscriptions (session_ w) ∧ left (session_ w') = true.
Proof.
  intros Ho Hg Hl Hfree Hid Hd1 Hd2 Hd3 (m1 & Hp1 & Hv1) (m2 & Hp2 & Hv2) (m3 & Hp3 & Hv3) Hevs.
  unfold subscriber_main.
  destruct (subscribe_run id1 testTopic sub handler d1 [d2; d3] p1 m1 m w)
    as (w1 & Hr1 & (Ho1 & Hz1 & Hw1 & Hg1 & Hl1 & He1) & Hs1); [done..|].
  rewrite (or_die_run _ _ _ _ _ _ Hr1).
  destruct (events_run (subscribed_subscription m) sub handler payloads evs w1) as (s2 & Hr2 & Hs2);
    [apply Ho1|rewrite Hs1; apply lookup_insert_eq|by rewrite Hz1|].
  destruct (delivered_all handler evs [d2; d3] (session_ w1) Ho1) as (Ho2 & Hz2 & Hp2' & Hg2 & Hl2 & Hsub2 & He2).
  rewrite <-Hs2 in *. rewrite (bind_Val _ _ _ _ _ Hr2). unfold until_interrupted.
  destruct (unsubscribe_run id2 (subscribed_subscription m) sub handler d2 [d3] p2 m2
    (mkClient (requests_ w1) s2)) as (w3 & Hr3 & (Ho3 & Hz3 & Hw3 & Hg3 & Hl3 & He3) & Hs3);
    [done|cbn [session_]; rewrite Hsub2, Hs1; apply lookup_insert_eq|cbn [session_]; by rewrite Hz2, Hz1..|done|].
  rewrite (or_die_run _ _ _ _ _ _ Hr3). cbn [session_] in *.
  destruct (leave_run d3 p3 m3 g w3) as (w4 & Hr4 & _ & Hleft & Hw4 & _ & Hs4 & He4);
    [done|congruence|by rewrite Hz3, Hz2, Hz1..|done|].
  rewrite (or_die_run _ _ _ _ _ _ Hr4). exists w4. split; [done|]. split.
  { by rewrite Hw4, Hw3, Hp2', Hw1, <-!(assoc_L app). }
  split. { rewrite He4, Hl3, Hl2, Hl1, Hl, app_nil_r. by rewrite He3, He2, He1. }
  split; [|done]. rewrite Hs4, Hs3, Hsub2, Hs1. rewrite delete_insert_eq. by apply delete_id.
Qed.

(** A callee of the progressive programs: its procedure is registered until the interrupt,
    then the registration is given up and the session left. *)
Theorem callee_serves_until_interrupted prefix procedure handler id1 id2 m p1 p2 p3 d1 d2 d3 g w interrupted :
  online [d1; d2; d3] (session_ w) → goodbyeChan (session_ w) = false →
  registrations (session_ w) !! registered_registration m = None → registered_id m = id1 →
  Serialize (ser (session_ w)) (NewRegister id1 ∅ procedure) = Ok d1 →
  Serialize (ser (session_ w)) (NewUnregister id2 (registered_registration m)) = Ok d2 →
  Serialize (ser (session_ w)) (NewGoodBye CloseCloseRealm ∅) = Ok d3 →
  answer_of (session_ w) p1 (VRegistered m) → answer_of (session_ w) p2 (VUnregistered id2) →
  answer_of (session_ w) p3 (VGoodbye g) →
  let run := callee_main prefix procedure handler id1 id2 (mkWait [Ok p1] OnResponse)
    (mkWait [Ok p2] OnResponse) (mkWait [Ok p3] OnResponse) [] interrupted w in
  let s' := session_ run.1 in
  if interrupted
  then run.2 = Val (Finished tt) ∧ registrations s' = registrations (session_ w) ∧ left s' = true ∧
    writeChan (peer s') = (writeChan (peer (session_ w)) ++ [d1; d2; d3])%list
  else run.2 = Blocks ∧ registrations s' !! registered_registration m = Some handler ∧
    writeChan (peer s') = (writeChan (peer (session_ w)) ++ [d1])%list.
Proof.
  intros Ho Hg Hfree Hid Hd1 Hd2 Hd3 (m1 & Hp1 & Hv1) (m2 & Hp2 & Hv2) (m3 & Hp3 & Hv3). cbv zeta.
  unfold callee_main.
  destruct (register_run id1 procedure handler d1 [d2; d3] p1 m1 m w)
    as (w1 & Hr1 & (Ho1 & Hz1 & Hw1 & Hg1 & Hl1 & He1) & Hs1); [done..|].
  rewrite (or_die_run _ _ _ _ _ _ Hr1).
  assert (meanwhile [] w1 = (w1, Val tt)) as Hno by (by destruct w1).
  rewrite (bind_Val _ _ _ _ _ Hno). unfold until_interrupted. destruct interrupted.
  2: { split; [done|]. cbn [fst]. split; [rewrite Hs1; apply lookup_insert_eq|done]. }
  destruct (unregister_run id2 (registered_registration m) d2 [d3] p2 m2 w1)
    as (w2 & Hr2 & (Ho2 & Hz2 & Hw2 & Hg2 & Hl2 & He2) & Hs2); [done|by rewrite Hz1..|done|].
  destruct (leave_run d3 p3 m3 g w2) as (w3 & Hr3 & _ & Hleft & Hw3 & Hs3 & _ & _);
    [done|congruence|by rewrite Hz2, Hz1..|done|].
  unfold ignore. erewrite bind_Val by (erewrite bind_Val by (apply try_Val; exact Hr2); reflexivity).
  erewrite bind_Val by (erewrite bind_Val by (apply try_Val; exact Hr3); reflexivity). cbn [mret M_ret fst snd].
  split; [done|]. split.
  { rewrite Hs3, Hs2, Hs1, delete_insert_eq. by apply delete_id. }
  split; [done|]. by rewrite Hw3, Hw2, Hw1, <-!(assoc_L app).
Qed.

(** The caller of rpc calls both procedures, one after the other, prints the unsigned integer
    that the second was answered, or zero, and leaves. *)
Theorem caller_prints_the_sum id1 id2 m1 m2 p1 p2 p3 d1 d2 d3 g w :
  AsBool ANil = false → online [d1; d2; d3] (session_ w) → goodbyeChan (session_ w) = false →
  Serialize (ser (session_ w)) (NewCall id1 ∅ testProcedureEcho [] ∅) = Ok d1 →
  Serialize (ser (session_ w)) (NewCall id2 ∅ testProcedureSum [AInt 1; AInt 2] ∅) = Ok d2 →
  Serialize (ser (session_ w)) (NewGoodBye CloseCloseRealm ∅) = Ok d3 →
  answer_of (session_ w) p1 (VResult m1) → answer_of (session_ w) p2 (VResult m2) →
  answer_of (session_ w) p3 (VGoodbye g) → result_id m1 = id1 → result_id m2 = id2 →
  bool_at OptionProgress (result_details m1) = false → bool_at OptionProgress (result_details m2) = false →
  ∃ w', rpc_caller_main id1 id2 (mkWait [Ok p1] OnResponse) (mkWait [Ok p2] OnResponse)
      (mkWait [Ok p3] OnResponse) w =
      (w', Val (Finished (CallResponse.ArgUInt64Or (call_response m2) 0 0))) ∧
    writeChan (peer (session_ w')) = (writeChan (peer (session_ w)) ++ [d1; d2; d3])%list ∧
    left (session_ w') = true.
Proof.
  intros Hnil Ho Hg Hd1 Hd2 Hd3 (a1 & Hp1 & Hv1) (a2 & Hp2 & Hv2) (a3 & Hp3 & Hv3) Hi1 Hi2 Hf1 Hf2.
  unfold rpc_caller_main.
  destruct (call_run id1 testProcedureEcho (λ _, mret tt) [] d1 [d2; d3] p1 a1 m1 w)
    as (w1 & Hr1 & (Ho1 & Hz1 & Hw1 & Hg1 & _)); [done|apply builds_nothing|done..|].
  rewrite (or_die_run _ _ _ _ _ _ Hr1).
  destruct (call_run id2 testProcedureSum
    (λ p, CallRequest_Arg p (AInt 1);; CallRequest_Arg p (AInt 2)) [AInt 1; AInt 2] d2 [d3] p2 a2 m2 w1)
    as (w2 & Hr2 & (Ho2 & Hz2 & Hw2 & Hg2 & _)); [done|apply builds_two|done|by rewrite Hz1..|done|done|done|].
  rewrite (or_die_run _ _ _ _ _ _ Hr2).
  destruct (leave_run d3 p3 a3 g w2) as (w3 & Hr3 & _ & Hleft & Hw3 & _);
    [done|congruence|by rewrite Hz2, Hz1..|done|].
  rewrite (or_die_run _ _ _ _ _ _ Hr3). exists w3. split; [done|]. split; [|done].
  by rewrite Hw3, Hw2, Hw1, <-!(assoc_L app).
Qed.

End DemoClientsSpec.
