(* ===== verification/Bridge.v ===== *)
(** * The device (xconn/bridge.go, xconn/xconn.go)

    What remote clients may do on the device realm, what applications may do
    on the app layer, and the bridge that forwards calls from one to the
    other: through one session of the app layer for each caller, so that the
    application can tell callers apart. *)

From stdpp Require Import strings.
From S2P Require Import Prelude GoStd Wamp Values Accessors Permissions Peers Realm Router.

Local Open Scope string_scope.

Definition xconnURIPrefix : string := "io.xconn.".
Definition webrtcURIPrefix : string := "io.xconn.webrtc.".
Definition errOperationFailed : string := "wamp.error.operation_failed".

(** ** The routers *)

Section Routers.
Context `{WampMessages} `{!WampSerializers} `{!WampRouting} `{WampConstants}
  `{MapRange} `{FmtV} `{LogLevels}.

Definition call_permission : Permission :=
  {| URI := xconnURIPrefix; MatchPolicy := MatchPrefix; AllowCall := true; AllowPublish := false;
     AllowRegister := false; AllowSubscribe := false |}.
(** WebRTC signaling *)
Definition signaling_permission : Permission :=
  {| URI := webrtcURIPrefix; MatchPolicy := MatchPrefix; AllowCall := false; AllowPublish := true;
     AllowRegister := false; AllowSubscribe := true |}.
Definition device_permissions : list Permission := [call_permission; signaling_permission].

Definition device_config : RealmConfig :=
  {| cfg_AutoDiscloseCaller := true; cfg_AutoDisclosePublisher := false; cfg_Meta := true;
     cfg_Authorizer := None;
     cfg_Roles := [{| Name := "owner"; Permissions := device_permissions |};
                   {| Name := "admin"; Permissions := device_permissions |};
                   {| Name := "member"; Permissions := device_permissions |}] |}.

(** The router is closed again when a step of setting it up fails. *)
Definition or_close {A} (m : M RouterW A) : M RouterW A :=
  r ← try m;
  match r with Err e => Close;; fail e | Ok x => mret x end.

Definition NewDeviceRouter (realm : string) (ids1 ids2 : Z * string) : M RouterW unit :=
  NewRouter (Some DefaultRouterConfig) ids1;;
  or_close (AddRealm realm (Some device_config) ids2).

Definition app_layer_config : RealmConfig :=
  {| cfg_AutoDiscloseCaller := true; cfg_AutoDisclosePublisher := false; cfg_Meta := true;
     cfg_Authorizer := None;
     cfg_Roles := [{| Name := "anonymous"; Permissions :=
       [{| URI := ""; MatchPolicy := MatchPrefix; AllowCall := true; AllowPublish := false;
           AllowRegister := true; AllowSubscribe := true |}] |}] |}.

Definition appLayerAuthorizer : Realm.Authorizer := λ _ msg,
  (bool_decide (Message_Type msg = MessageTypeCall ∨ Message_Type msg = MessageTypeRegister ∨
                Message_Type msg = MessageTypeSubscribe), None).

(** [StartAppLayer], up to the listener. *)
Definition app_layer_router (realm : string) (ids1 ids2 : Z * string) : M RouterW unit :=
  NewRouter (Some DefaultRouterConfig) ids1;;
  or_close (AddRealm realm (Some app_layer_config) ids2);;
  or_close (SetRealmAuthorizer realm appLayerAuthorizer).

End Routers.

(** ** The bridge *)

(** [opened] and [left_] record the calls of [NewSession] and [Leave]. *)
Record callerSessions := mkCallers {
  sessions : gmap Z nat;
  opened : list nat;
  left_ : list nat;
}.

Record App := { app_Session : nat; has_NewSession : bool;
                Procedures : list string; Prefixes : list string }.

Section Bridge.
Context `{WampConstants} `{FloatConv} `{MapRange}.
Context (application : App).
Implicit Types (inv : Invocation.Invocation).

(** [callerSessions.get]; [new] is what [NewSession] returns if it is called. *)
Definition callers_get inv (new : result nat) : M callerSessions nat :=
  let caller := Invocation.Caller inv in
  if negb (has_NewSession application) || bool_decide (caller = 0%Z) then mret (app_Session application)
  else
    found ← get (λ c, sessions c !! caller);
    match found with
    | Some session => mret session
    | None =>
        session ← of_result new;
        modify (λ c, mkCallers (<[caller := session]> (sessions c)) (opened c ++ [session])%list
          (left_ c));;
        mret session
    end.

Definition callers_leave (caller : Z) : M callerSessions unit :=
  session ← get (λ c, sessions c !! caller);
  modify (λ c, mkCallers (delete caller (sessions c)) (opened c) (left_ c));;
  match session with
  | Some session => modify (λ c, mkCallers (sessions c) (opened c) (left_ c ++ [session])%list)
  | None => mret tt
  end.

Definition callers_leaveAll : M callerSessions unit :=
  gone ← get sessions;
  modify (λ c, mkCallers ∅ (opened c) (left_ c));;
  for_M (λ e, modify (λ c, mkCallers (sessions c) (opened c) (left_ c ++ [e.2])%list))
    (range_entries gone).

(** A call through a session of the app layer: its arguments, whether progress
    is wanted, and what it returns. *)
Definition app_call : Type := nat → string → list any → dict → bool → result (list any).

Definition bridgeHandler (procedure : string) (Call : app_call) inv (new : result nat)
    : M callerSessions InvocationResult :=
  let called :=
    if bool_decide (procedure = "") then Invocation.Procedure inv else procedure in
  appSession ← try (callers_get inv new);
  match appSession with
  | Err err => mret (NewInvocationError errOperationFailed [AString err])
  | Ok appSession =>
      let receiveProgress := bool_at OptionReceiveProgress (Invocation.Details inv) in
      match Call appSession called (Invocation.Args inv) (Invocation.Kwargs inv) receiveProgress with
      | Err err => mret (NewInvocationError errOperationFailed [AString err])
      | Ok args => mret (NewInvocationResult args)
      end
  end.

(** What the bridge registers: the URI, the procedure its handler forwards to
    and the options. *)
Definition bridge_registrations (OptionMatch InvokeLast : string) : list (string * string * dict) :=
  (map (λ p, (p, p, {["invoke" := AString InvokeLast]})) (Procedures application) ++
   map (λ p, (p, "", <["invoke" := AString InvokeLast]> {[OptionMatch := AString MatchPrefix]}))
     (Prefixes application))%list.

(** [RegisterBridge] stops at the first registration that fails. *)
Definition RegisterBridge (OptionMatch InvokeLast : string)
    (register : string → string → dict → result unit) : result unit :=
  for_each (λ r, register r.1.1 r.1.2 r.2) (bridge_registrations OptionMatch InvokeLast).

End Bridge.

(** ** What is allowed *)

Section RoutersSpec.
Context `{WampMessagesOk} `{!WampSerializers} `{!WampRouting} `{WampConstantsOk}
  `{MapRange} `{FmtV} `{LogLevels}.
Implicit Types (r : Realm) (b : BaseSession) (msg : Message).

(** The roles that [AddRealm] gives a realm. *)
Definition has_roles (cfg : RealmConfig) r : Prop :=
  (∀ role, role ∈ trusted_role :: cfg_Roles cfg → roles r !! Name role = Some role) ∧
  ∀ n, n ∉ map Name (trusted_role :: cfg_Roles cfg) → roles r !! n = None.

Lemma MatchURI_prefix p uri :
  MatchPolicy p = MatchPrefix → MatchURI p uri = HasPrefix uri (URI p).
Proof.
  intros Hp. unfold MatchURI. rewrite Hp, MatchExact_spec, MatchPrefix_spec. done.
Qed.

Lemma Allows_spec p t :
  Allows p t = true ↔
  (t = MessageTypeCall ∧ AllowCall p = true) ∨ (t = MessageTypeRegister ∧ AllowRegister p = true) ∨
  (t = MessageTypeSubscribe ∧ AllowSubscribe p = true) ∨
  (t = MessageTypePublish ∧ AllowPublish p = true).
Proof.
  assert (MessageTypeCall ≠ MessageTypeRegister) by types_ne.
  assert (MessageTypeCall ≠ MessageTypeSubscribe) by types_ne.
  assert (MessageTypeCall ≠ MessageTypePublish) by types_ne.
  assert (MessageTypeRegister ≠ MessageTypeSubscribe) by types_ne.
  assert (MessageTypeRegister ≠ MessageTypePublish) by types_ne.
  assert (MessageTypeSubscribe ≠ MessageTypePublish) by types_ne.
  unfold Allows. repeat case_bool_decide; intuition congruence.
Qed.

(** What a role may do: what one of its permissions allows there. *)
Lemma role_policy roleName role t uri r :
  roles r !! roleName = Some role → Forall (λ p, MatchPolicy p = MatchPrefix) (Permissions role) →
  isAuthorized roleName t uri r = true ↔
  ∃ p, p ∈ Permissions role ∧ Allows p t = true ∧ ∃ rest, uri = URI p +:+ rest.
Proof.
  intros Hr Hp. rewrite Forall_forall in Hp. rewrite isAuthorized_spec. split.
  - intros (role' & p & Hr' & Hin & Ha & Hm). simplify_eq. exists p. split_and!; [done..|].
    rewrite MatchURI_prefix in Hm by auto. by apply HasPrefix_spec.
  - intros (p & Hin & Ha & Hrest). exists role, p. split_and!; [done..|].
    rewrite MatchURI_prefix by auto. by apply HasPrefix_spec.
Qed.

(** A remote client of the device realm may call the procedures below
    [io.xconn.], and publish and subscribe to the topics below
    [io.xconn.webrtc.], whatever its role among owner, admin and member; it may
    register nothing, and a client of any other role may do nothing. *)
Theorem device_realm_policy r b msg uri :
  has_roles device_config r → authorizer r = None → AuthRole b ≠ "trusted" →
  permitted r b msg uri = true ↔
  (AuthRole b = "owner" ∨ AuthRole b = "admin" ∨ AuthRole b = "member") ∧
  ((Message_Type msg = MessageTypeCall ∧ ∃ rest, uri = "io.xconn." +:+ rest) ∨
   ((Message_Type msg = MessageTypePublish ∨ Message_Type msg = MessageTypeSubscribe) ∧
    ∃ rest, uri = "io.xconn.webrtc." +:+ rest)).
Proof.
  intros [Hin Hout] Hauth Ht. unfold permitted, verdict. rewrite Hauth, orb_false_r.
  assert (∀ n, n = "owner" ∨ n = "admin" ∨ n = "member" →
    roles r !! n = Some {| Name := n; Permissions := device_permissions |}) as Hroles.
  { intros n [->|[->| ->]]; (eapply (Hin {| Name := _; Permissions := _ |}); simpl; types_in). }
  destruct (decide (AuthRole b = "owner" ∨ AuthRole b = "admin" ∨ AuthRole b = "member"))
    as [Hn|Hn].
  - rewrite (role_policy _ _ _ _ _ (Hroles _ Hn)) by (by repeat constructor).
    simpl. setoid_rewrite Allows_spec. split.
    + intros (p & [->|[->|[]%not_elem_of_nil]%elem_of_cons]%elem_of_cons & Ha & Hr);
        simpl in *; intuition congruence.
    + intros [_ [[Ht' Hr]|[Ht' Hr]]].
      * exists call_permission. split_and!; [by left|by left|done].
      * exists signaling_permission. split_and!; [right; by left|simpl; tauto|done].
  - split; [|by intros [? _]]. intros (role & p & Hr & _)%isAuthorized_spec.
    rewrite Hout in Hr; [done|]. simpl. rewrite !elem_of_cons. intros Hcase.
    destruct Hcase as [?|[?|[?|[?|[]%not_elem_of_nil]]]]; tauto.
Qed.

(** On the app layer every session may call, register and subscribe, to any
    URI and whatever its role, which is that of its remote caller; only a
    trusted one may publish. *)
Theorem app_layer_policy r b msg uri :
  has_roles app_layer_config r → authorizer r = Some appLayerAuthorizer →
  permitted r b msg uri = true ↔
  Message_Type msg = MessageTypeCall ∨ Message_Type msg = MessageTypeRegister ∨
  Message_Type msg = MessageTypeSubscribe ∨
  (Message_Type msg = MessageTypePublish ∧ AuthRole b = "trusted").
Proof.
  intros [Hin Hout] Hauth. unfold permitted, verdict. rewrite Hauth. simpl.
  rewrite orb_true_iff, bool_decide_eq_true.
  assert (isAuthorized (AuthRole b) (Message_Type msg) uri r = true →
    Message_Type msg = MessageTypeCall ∨ Message_Type msg = MessageTypeRegister ∨
    Message_Type msg = MessageTypeSubscribe ∨
    (Message_Type msg = MessageTypePublish ∧ AuthRole b = "trusted")) as Hrole.
  { intros (role & p & Hr & Hp & Ha & _)%isAuthorized_spec.
    destruct (decide (AuthRole b = "trusted")) as [Ht|Ht].
    - apply Allows_spec in Ha. tauto.
    - assert (Message_Type msg ≠ MessageTypePublish); [|apply Allows_spec in Ha; tauto].
      intros Hpub. destruct (decide (AuthRole b = "anonymous")) as [Hn|Hn].
      + assert (roles r !! "anonymous" = Some (List.hd trusted_role (cfg_Roles app_layer_config)))
          as Hr2 by (apply (Hin (List.hd trusted_role (cfg_Roles app_layer_config))); types_in).
        rewrite Hn, Hr2 in Hr. injection Hr as <-. simpl in Hp.
        apply list_elem_of_singleton in Hp as ->. apply Allows_spec in Ha. simpl in Ha.
        rewrite Hpub in Ha. assert (MessageTypePublish ≠ MessageTypeCall) by types_ne.
        assert (MessageTypePublish ≠ MessageTypeRegister) by types_ne.
        assert (MessageTypePublish ≠ MessageTypeSubscribe) by types_ne. intuition congruence.
      + rewrite Hout in Hr; [done|]. simpl. rewrite !elem_of_cons.
        intros [?|[?|[]%not_elem_of_nil]]; done. }
  split; [intros [?|?]; [by apply Hrole|tauto]|]. intros [?|[?|[?|[Hpub Ht]]]]; [tauto..|].
  left. rewrite isAuthorized_spec, Ht.
  exists trusted_role, (List.hd (Build_Permission "" "" false false false false)
    (Permissions trusted_role)).
  split_and!; [apply (Hin trusted_role); left|by left| |].
  - apply Allows_spec. simpl. tauto.
  - rewrite MatchURI_prefix by (simpl; by rewrite MatchPrefix_spec). done.
Qed.

End RoutersSpec.

(** ** The sessions of the callers *)

Section BridgeSpec.
Context `{WampConstants} `{FloatConv} `{MapRange}.
Context (application : App).
Implicit Types (c : callerSessions).

Definition no_callers : callerSessions := mkCallers ∅ [] [].

(** What happens to a bridge: calls, callers that leave, and its own end. *)
Inductive bridge_event :=
| Called (inv : Invocation.Invocation) (new : result nat)
| CallerLeft (caller : Z)
| BridgeGone.

Definition run_event (e : bridge_event) : M callerSessions unit :=
  match e with
  | Called inv new => callers_get application inv new;; mret tt
  | CallerLeft caller => callers_leave caller
  | BridgeGone => callers_leaveAll
  end.

(** Every session that was opened is the session of one caller, or was left. *)
Definition accounted c : Prop := opened c ≡ₚ left_ c ++ (map_to_list (sessions c)).*2.

Lemma no_callers_accounted : accounted no_callers.
Proof. unfold accounted. simpl. by rewrite map_to_list_empty. Qed.

Lemma for_left l c :
  for_M (λ e : Z * nat, modify (λ c, mkCallers (sessions c) (opened c) (left_ c ++ [e.2])%list)) l c =
  (mkCallers (sessions c) (opened c) (left_ c ++ l.*2)%list, Val tt).
Proof.
  revert c. induction l as [|e l IH]; intros c; cbn [for_M].
  - unfold mret, M_ret. simpl. rewrite app_nil_r. by destruct c.
  - erewrite bind_Val by done. rewrite IH. simpl. by rewrite <-(assoc_L app).
Qed.

Lemma leaveAll_run c :
  callers_leaveAll c = (mkCallers ∅ (opened c) (left_ c ++ (range_entries (sessions c)).*2)%list, Val tt).
Proof. unfold callers_leaveAll. do 2 (erewrite bind_Val by done). by rewrite for_left. Qed.

Lemma callers_get_run inv new c :
  callers_get application inv new c =
  if negb (has_NewSession application) || bool_decide (Invocation.Caller inv = 0%Z)
  then (c, Val (app_Session application))
  else
    match sessions c !! Invocation.Caller inv, new with
    | Some session, _ => (c, Val session)
    | None, Ok session =>
        (mkCallers (<[Invocation.Caller inv := session]> (sessions c)) (opened c ++ [session])%list
           (left_ c), Val session)
    | None, Err e => (c, Fail e)
    end.
Proof.
  unfold callers_get. destruct (_ || _); [done|]. erewrite bind_Val by done.
  destruct (sessions c !! _); [done|]. by destruct new.
Qed.

Lemma callers_leave_run caller c :
  callers_leave caller c =
  (mkCallers (delete caller (sessions c)) (opened c)
     (left_ c ++ match sessions c !! caller with Some s => [s] | None => [] end)%list, Val tt).
Proof.
  unfold callers_leave. do 2 (erewrite bind_Val by done).
  destruct (sessions c !! caller); [done|]. by rewrite app_nil_r.
Qed.

Lemma run_event_accounted e c : accounted c → accounted (run_event e c).1.
Proof.
  unfold accounted. intros Hc. destruct e as [inv new|caller|]; cbn [run_event].
  - rewrite bind_effect, callers_get_run. destruct (_ || _); [done|].
    destruct (sessions c !! _) as [s|] eqn:Hs; [done|]. destruct new as [s|e]; [|done]. simpl.
    rewrite map_to_list_insert by done. simpl. rewrite Hc. rewrite <-(assoc_L app).
    by rewrite (Permutation_app_comm _ [s]).
  - rewrite callers_leave_run. simpl. rewrite Hc. destruct (sessions c !! caller) as [s|] eqn:Hs.
    + rewrite <-(map_to_list_delete _ _ _ Hs). simpl. by rewrite <-(assoc_L app).
    + by rewrite delete_id, app_nil_r.
  - rewrite leaveAll_run. simpl. rewrite map_to_list_empty. simpl.
    by rewrite app_nil_r, Hc, (range_entries_perm (sessions c)).
Qed.

(** The sessions that [NewSession] makes are new ones. *)
Fixpoint new_sessions (es : list bridge_event) c : Prop :=
  match es with
  | [] => True
  | e :: es =>
      match e with Called _ (Ok s) => s ∉ opened c | _ => True end ∧
      new_sessions es (run_event e c).1
  end.

Definition run_events (es : list bridge_event) c : callerSessions :=
  for_state (λ c e, (run_event e c).1) es c.

Lemma run_event_opened e c :
  (opened (run_event e c).1 = opened c ∨
   ∃ s inv, e = Called inv (Ok s) ∧ opened (run_event e c).1 = (opened c ++ [s])%list).
Proof.
  destruct e as [inv new|caller|]; cbn [run_event].
  - rewrite bind_effect, callers_get_run. destruct (_ || _); [by left|].
    destruct (sessions c !! _); [by left|]. destruct new; [|by left]. right. by eauto.
  - rewrite callers_leave_run. by left.
  - rewrite leaveAll_run. by left.
Qed.

Lemma run_events_ok es c :
  accounted c → NoDup (opened c) → new_sessions es c →
  accounted (run_events es c) ∧ NoDup (opened (run_events es c)).
Proof.
  revert c. induction es as [|e es IH]; intros c Ha Hn Hes; [done|]. destruct Hes as [He Hes].
  apply IH; [by apply run_event_accounted| |done].
  destruct (run_event_opened e c) as [->|(s & inv & -> & ->)]; [done|].
  apply NoDup_app. split_and!; [done| |by apply NoDup_singleton].
  by intros x Hx ->%list_elem_of_singleton.
Qed.

(** C37. The bridge leaves every session it has opened for a caller at most once: what
    is open are the sessions of the callers at hand, one for each.  The event that a
    caller has left leaves the session that it has then, and the end of the bridge's
    own session all that are open then.  (A call that comes after that opens a session
    again, see [late_call_opens_a_session].) *)
Theorem app_sessions_are_left_once es :
  new_sessions es no_callers →
  let c := run_events es no_callers in
  NoDup (left_ c) ∧ (∀ s, s ∈ opened c ↔ s ∈ left_ c ∨ ∃ caller, sessions c !! caller = Some s) ∧
  (∀ s caller, sessions c !! caller = Some s → s ∉ left_ c) ∧
  (∀ caller s, sessions c !! caller = Some s → s ∈ left_ (run_event (CallerLeft caller) c).1) ∧
  ∀ s, s ∈ opened c → s ∈ left_ (run_event BridgeGone c).1.
Proof.
  intros Hes c. destruct (run_events_ok es no_callers) as [Ha Hn]; [apply no_callers_accounted|by constructor|done|].
  fold c in Ha, Hn. unfold accounted in Ha. rewrite Ha in Hn.
  apply NoDup_app in Hn as (Hl & Hdis & _).
  assert (∀ s, s ∈ (map_to_list (sessions c)).*2 ↔ ∃ caller, sessions c !! caller = Some s) as Hv.
  { intros s. rewrite list_elem_of_fmap. split.
    - intros ([k v] & -> & Hk%elem_of_map_to_list). by exists k.
    - intros [k Hk]. exists (k, s). by rewrite elem_of_map_to_list. }
  split_and!; [done|..].
  - intros s. by rewrite Ha, elem_of_app, Hv.
  - intros s caller Hs Hin. apply (Hdis s Hin), Hv. by exists caller.
  - intros caller s Hs. cbn [run_event]. rewrite callers_leave_run, Hs. simpl.
    apply elem_of_app. right. by left.
  - intros s Hs. cbn [run_event]. rewrite leaveAll_run. simpl.
    rewrite (range_entries_perm (sessions c)). by rewrite <-Ha.
Qed.

(** The bridge does not refuse calls once its session has ended: a call that
    is still on its way then opens a session of the app layer again, which
    nobody is left to close. *)
Theorem late_call_opens_a_session inv s es :
  has_NewSession application = true → Invocation.Caller inv ≠ 0%Z →
  new_sessions (es ++ [BridgeGone; Called inv (Ok s)]) no_callers →
  let c := run_events (es ++ [BridgeGone; Called inv (Ok s)]) no_callers in
  sessions c = {[Invocation.Caller inv := s]} ∧ s ∈ opened c ∧ s ∉ left_ c.
Proof.
  intros Hnew Hcaller Hes c.
  assert (sessions c = {[Invocation.Caller inv := s]} ∧ s ∈ opened c) as [Hs Hin].
  { unfold c, run_events. clear Hes. generalize no_callers.
    induction es as [|e es IH]; intros c0; [|by apply IH]. cbn [for_state app run_event fst].
    rewrite leaveAll_run, bind_effect, callers_get_run. rewrite Hnew. simpl.
    rewrite bool_decide_false by done. simpl. rewrite lookup_empty. simpl.
    split; [done|]. apply elem_of_app. right. by left. }
  split_and!; [done..|].
  destruct (run_events_ok (es ++ [BridgeGone; Called inv (Ok s)]) no_callers) as [Ha Hn]; [apply no_callers_accounted|by constructor|exact Hes|].
  fold c in Ha, Hn. unfold accounted in Ha. rewrite Ha, Hs, map_to_list_singleton in Hn.
  apply NoDup_app in Hn as (_ & Hdis & _). intros Hl. apply (Hdis s Hl). by left.
Qed.

End BridgeSpec.
