(* ===== verification/Cloud.v ===== *)
(** * The cloud-attached device (xconn/run.go)

    [start_device] is [runDeviceSession] up to its goroutine.  Then two
    goroutines run, a transition system here: the one that connects to the
    cloud, again and again, and the one that waits for the end.  A step is a
    call on the network, which may fail, or a critical section.  Connections
    are numbers; [open_conns] are those this side has not closed.  Delays are
    in seconds. *)

From S2P Require Import Prelude GoStd Wamp Peers Realm Router DeviceAuth Bridge Credentials.

Local Open Scope string_scope.

(** [Run] starts over as long as a cycle ends by a detach; [None]: it still runs. *)
Fixpoint Run (cycles : list (result bool)) : option (result unit) :=
  match cycles with
  | [] => None
  | Ok true :: cycles => Run cycles
  | Ok false :: _ => Some (Ok tt)
  | Err e :: _ => Some (Err e)
  end.

(** ** The start of a cycle *)

Section Start.
Context `{WampMessages} `{!WampSerializers} `{!WampRouting} `{WampConstants}
  `{MapRange} `{FmtV} `{LogLevels}.

(** [NewAuthenticator] on what [ReadPrincipalsFromFile] returns. *)
Definition read_principals (file : principals_file) : M RouterW Authenticator := λ w,
  match NewAuthenticator_from_file (mkAuth ∅ ∅ file) with
  | (a, Val _) => (w, Val a)
  | (_, Fail e) => (w, Fail e)
  | (_, Crash why) => (w, Crash why)
  | (_, Blocks) => (w, Blocks)
  end.

(** [runDeviceSession] before its goroutine; [None]: the process ended while it
    waited for the credentials.  [ended]: the parent context is done; [bridge]
    is [RegisterBridge] on the local session. *)
Definition start_device (cred : result Credentials) (ended : bool) (machineID : result string)
    (file : principals_file) (bridge : BaseSession → M RouterW unit) (ids1 ids2 ids3 : Z * string)
    : M RouterW (option (Credentials * string * Authenticator)) :=
  match cred with
  | Err e => if ended then mret None else fail e
  | Ok cred =>
      machineIDStr ← of_result (wrap "failed to read machine-id: " machineID);
      NewDeviceRouter (cred_Realm cred) ids1 ids2;;
      authenticator ← or_close (read_principals file);
      localSession ← or_close (ConnectInMemory (cred_Realm cred) ids3);
      or_close (bridge localSession);;
      mret (Some (cred, machineIDStr, authenticator))
  end.

End Start.

Section StartSpec.
Context `{WampMessagesOk} `{!WampSerializers} `{!WampRouting} `{!WampRoutingOk}
  `{WampConstants} `{MapRange} `{FmtV} `{LogLevels}.

#[local] Existing Instance preserves_pre.

Lemma or_close_fails {A} (m : M RouterW A) w w' e :
  keeps preserves m → router_wf w → or_close m w = (w', Fail e) → realms (rt w') = ∅.
Proof.
  intros Hm Hwf. specialize (Hm w Hwf). unfold or_close, try, mbind, M_bind.
  destruct (m w) as [w1 []]; simpl in *; try done.
  destruct (Close_run w1 Hm) as [_ [(Hv & He & _)|[Hv _]]]; intros Hrun;
    destruct (Close w1) as [w2 v]; simpl in *; subst v; unfold fail in Hrun; by simplify_eq.
Qed.

Lemma or_close_keeps {A} (m : M RouterW A) :
  keeps preserves m → keeps preserves (or_close m).
Proof. intros Hm. unfold or_close. go_effect; auto. apply Close_keeps. Qed.

Lemma read_principals_keeps file : keeps preserves (read_principals file).
Proof.
  intros w. unfold read_principals.
  by destruct (NewAuthenticator_from_file (mkAuth ∅ ∅ file)) as [a []].
Qed.

Lemma NewDeviceRouter_keeps realm ids1 ids2 :
  keeps preserves (NewDeviceRouter realm ids1 ids2).
Proof.
  apply keeps_bind; [apply _|apply router_op_keeps, op_new|intros _].
  apply or_close_keeps, AddRealm_keeps.
Qed.

Lemma NewDeviceRouter_fails realm ids1 ids2 w w' e :
  router_wf w → NewDeviceRouter realm ids1 ids2 w = (w', Fail e) → realms (rt w') = ∅.
Proof.
  intros Hwf [Hf|(x & w1 & Hn & Hr)]%bind_Fail_inv; [done|].
  eapply or_close_fails; [apply AddRealm_keeps| |exact Hr].
  pose proof (router_op_keeps _ (op_new (Some DefaultRouterConfig) ids1) w Hwf) as Hk.
  by rewrite Hn in Hk.
Qed.

Lemma kept {A} (m : M RouterW A) w w' v :
  keeps preserves m → router_wf w → m w = (w', v) → router_wf w'.
Proof. intros Hm Hwf Hr. specialize (Hm w Hwf). by rewrite Hr in Hm. Qed.

(** A cycle that fails to start leaves no router behind, whichever step
    fails: no realm is left in it. *)
Theorem failed_start_leaves_no_realm cred ended machineID file bridge ids1 ids2 ids3 w w' e :
  (∀ b, keeps preserves (bridge b)) → router_wf w → realms (rt w) = ∅ →
  start_device cred ended machineID file bridge ids1 ids2 ids3 w = (w', Fail e) →
  realms (rt w') = ∅.
Proof.
  intros Hbr Hwf He Hrun. unfold start_device in Hrun.
  destruct cred as [cred|e0]; [|destruct ended; unfold mret, M_ret, fail in Hrun; by simplify_eq].
  apply bind_Fail_inv in Hrun as [Hf|(id & w1 & E1 & Hrun)];
    [destruct machineID; unfold of_result, mret, M_ret, fail in Hf; by simplify_eq/=|].
  assert (router_wf w1) as Hwf1
    by (destruct machineID; unfold of_result, mret, M_ret, fail in E1; by simplify_eq/=).
  apply bind_Fail_inv in Hrun as [Hf|(x & w2 & E2 & Hrun)]; [by eapply NewDeviceRouter_fails|].
  pose proof (kept _ _ _ _ (NewDeviceRouter_keeps _ _ _) Hwf1 E2) as Hwf2.
  apply bind_Fail_inv in Hrun as [Hf|(a & w3 & E3 & Hrun)];
    [exact (or_close_fails _ _ _ _ (read_principals_keeps _) Hwf2 Hf)|].
  pose proof (kept _ _ _ _ (or_close_keeps _ (read_principals_keeps _)) Hwf2 E3) as Hwf3.
  apply bind_Fail_inv in Hrun as [Hf|(b & w4 & E4 & Hrun)];
    [exact (or_close_fails _ _ _ _ (ConnectInMemoryBase_keeps _ _ _ _ _ _) Hwf3 Hf)|].
  pose proof (kept _ _ _ _ (or_close_keeps _ (ConnectInMemoryBase_keeps _ _ _ _ _ _)) Hwf3 E4) as Hwf4.
  apply bind_Fail_inv in Hrun as [Hf|(y & w5 & E5 & Hrun)]; [|done].
  exact (or_close_fails _ _ _ _ (Hbr _) Hwf4 Hf).
Qed.

End StartSpec.

(** ** The reconnect loop *)

Definition maxDelay : Z := 30.
Definition next_delay (retryDelay : Z) : Z := Z.min (retryDelay * 2) maxDelay.

(** Where the loop is, with the connection it holds. *)
Inductive loop_pc :=
| LTop
| LAuth
| LDial
| LOpen (c : nat)        (* joining the cloud realm *)
| LPublish (c : nat)     (* setting the active sessions *)
| LBridge (c : nat)
| LList (c : nat)
| LEvents (c : nat)
| LWebRTC (c : nat)
| LServing (c : nat)
| LEnding (c : nat)      (* clearing the active sessions *)
| LSleep
| LExit
| LPanicked (c : nat).   (* recovered by [safeGo]: the goroutine has ended *)

Definition conn_of (l : loop_pc) : option nat :=
  match l with
  | LOpen c | LPublish c | LBridge c | LList c | LEvents c | LWebRTC c | LServing c
  | LEnding c | LPanicked c => Some c
  | _ => None
  end.

(** Whether the active sessions are those of the connection the loop holds. *)
Definition published (l : loop_pc) : bool :=
  match l with LOpen _ | LPublish _ => false | _ => true end.

Inductive main_pc :=
| MWait
| MClosing (again : bool)
| MReturned (again : bool).

#[global] Instance loop_pc_eq_dec : EqDecision loop_pc.
Proof. solve_decision. Defined.
#[global] Instance main_pc_eq_dec : EqDecision main_pc.
Proof. solve_decision. Defined.

Record device := mkDevice {
  loop : loop_pc;
  retryDelay : Z;
  fresh_conn : nat;
  open_conns : gset nat;
  activeDeviceSess : option nat;
  activeCloudSess : option nat;
  cancelled : bool;              (* ctx *)
  detachChan : bool;             (* a token in it *)
  main : main_pc;
  router_closed : bool;
  credentials : bool;            (* the file is there *)
  authenticator : Authenticator;
  (* ghost: failures since the last success, the delays slept, the connections
     on which the second session failed, and whether a detach was signalled *)
  failures : nat;
  slept : list Z;
  unjoined : gset nat;
  detached : bool;
}.

Definition start_loop (a : Authenticator) : device :=
  mkDevice LTop 1 0 ∅ None None false false MWait false true a 0 [] ∅ false.

Definition go (l : loop_pc) (s : device) : device :=
  mkDevice l (retryDelay s) (fresh_conn s) (open_conns s) (activeDeviceSess s)
    (activeCloudSess s) (cancelled s) (detachChan s) (main s) (router_closed s)
    (credentials s) (authenticator s) (failures s) (slept s) (unjoined s) (detached s).
(** [retryDelay = min(retryDelay*2, maxDelay); time.Sleep(retryDelay); continue] *)
Definition retry (s : device) : device :=
  mkDevice LSleep (next_delay (retryDelay s)) (fresh_conn s) (open_conns s)
    (activeDeviceSess s) (activeCloudSess s) (cancelled s) (detachChan s) (main s)
    (router_closed s) (credentials s) (authenticator s) (S (failures s))
    (slept s ++ [next_delay (retryDelay s)]) (unjoined s) (detached s).
Definition set_conns (cs : gset nat) (s : device) : device :=
  mkDevice (loop s) (retryDelay s) (fresh_conn s) cs (activeDeviceSess s)
    (activeCloudSess s) (cancelled s) (detachChan s) (main s) (router_closed s)
    (credentials s) (authenticator s) (failures s) (slept s) (unjoined s) (detached s).
(** [_ = deviceSess.Connection().Close()] *)
Definition close_conn (c : nat) (s : device) : device := set_conns (open_conns s ∖ {[c]}) s.
Definition dialed (s : device) : device :=
  mkDevice (LOpen (fresh_conn s)) (retryDelay s) (S (fresh_conn s))
    ({[fresh_conn s]} ∪ open_conns s) (activeDeviceSess s) (activeCloudSess s) (cancelled s)
    (detachChan s) (main s) (router_closed s) (credentials s) (authenticator s) (failures s)
    (slept s) (unjoined s) (detached s).
(** [_ = deviceSess.Close()] ends the session, not the connection. *)
Definition close_session (c : nat) (s : device) : device :=
  mkDevice (loop s) (retryDelay s) (fresh_conn s) (open_conns s) (activeDeviceSess s)
    (activeCloudSess s) (cancelled s) (detachChan s) (main s) (router_closed s)
    (credentials s) (authenticator s) (failures s) (slept s) ({[c]} ∪ unjoined s) (detached s).
Definition set_active (a : option nat) (s : device) : device :=
  mkDevice (loop s) (retryDelay s) (fresh_conn s) (open_conns s) a a (cancelled s)
    (detachChan s) (main s) (router_closed s) (credentials s) (authenticator s) (failures s)
    (slept s) (unjoined s) (detached s).
Definition set_authenticator (a : Authenticator) (s : device) : device :=
  mkDevice (loop s) (retryDelay s) (fresh_conn s) (open_conns s) (activeDeviceSess s)
    (activeCloudSess s) (cancelled s) (detachChan s) (main s) (router_closed s)
    (credentials s) a (failures s) (slept s) (unjoined s) (detached s).
Definition reset_delay (s : device) : device :=
  mkDevice (loop s) 1 (fresh_conn s) (open_conns s) (activeDeviceSess s)
    (activeCloudSess s) (cancelled s) (detachChan s) (main s) (router_closed s)
    (credentials s) (authenticator s) 0 (slept s) (unjoined s) (detached s).
(** [select { case detachChan <- struct{}{}: default: }] *)
Definition signal_detach (s : device) : device :=
  mkDevice (loop s) (retryDelay s) (fresh_conn s) (open_conns s) (activeDeviceSess s)
    (activeCloudSess s) (cancelled s) true (main s) (router_closed s)
    (credentials s) (authenticator s) (failures s) (slept s) (unjoined s) true.
(** The case of [parent.Done()], and the one of [detachChan], in which the
    credentials are removed if the file system allows it. *)
Definition parent_done (s : device) : device :=
  mkDevice (loop s) (retryDelay s) (fresh_conn s) (open_conns s) (activeDeviceSess s)
    (activeCloudSess s) true (detachChan s) (MClosing false) (router_closed s)
    (credentials s) (authenticator s) (failures s) (slept s) (unjoined s) (detached s).
Definition detach (removed : bool) (s : device) : device :=
  mkDevice (loop s) (retryDelay s) (fresh_conn s) (open_conns s) (activeDeviceSess s)
    (activeCloudSess s) true false (MClosing true) (router_closed s)
    (if removed then false else credentials s) (authenticator s) (failures s) (slept s)
    (unjoined s) (detached s).
(** The sessions that are active are closed, and the router. *)
Definition shut_down (again : bool) (s : device) : device :=
  mkDevice (loop s) (retryDelay s) (fresh_conn s)
    (match activeDeviceSess s with Some c => open_conns s ∖ {[c]} | None => open_conns s end)
    (activeDeviceSess s) (activeCloudSess s) (cancelled s) (detachChan s) (MReturned again) true
    (credentials s) (authenticator s) (failures s) (slept s) (unjoined s) (detached s).

Section Loop.
(** What the principals file reads as after a list has been written to it. *)
Context (disk : list (option CryptosignPrincipal) → principals_file).

(** The principals the cloud lists are written to the file, if it can be
    written, and replace those in force. *)
Definition install (written : bool) (ps : list (option CryptosignPrincipal))
    : M Authenticator unit :=
  cryptosignPrincipals ← allocate ps;
  (if written then modify (set_file (disk ps)) else mret tt);;
  SetPrincipals cryptosignPrincipals.

(** One action of the goroutine that connects to the cloud.  Dialing with a
    cancelled context fails. *)
Inductive loop_step : device → device → Prop :=
| top_done s : loop s = LTop → cancelled s = true → loop_step s (go LExit s)
| top_default s : loop s = LTop → cancelled s = false → loop_step s (go LAuth s)
| auth_failed s : loop s = LAuth → loop_step s (retry s)
| auth_made s : loop s = LAuth → loop_step s (go LDial s)
| no_such_realm s : loop s = LDial → loop_step s (retry (signal_detach s))
| dial_failed s : loop s = LDial → loop_step s (retry s)
| dial_ok s : loop s = LDial → cancelled s = false → loop_step s (dialed s)
| open_failed c s : loop s = LOpen c → loop_step s (retry (close_session c s))
| open_ok c s : loop s = LOpen c → loop_step s (go (LPublish c) s)
| publish c s : loop s = LPublish c → loop_step s (go (LBridge c) (set_active (Some c) s))
| bridge_failed c s : loop s = LBridge c → loop_step s (retry (close_conn c s))
| bridged c s : loop s = LBridge c → loop_step s (go (LList c) s)
| list_failed c s : loop s = LList c → loop_step s (retry (close_conn c s))
| listed c ps written a s :
    loop s = LList c → install written ps (authenticator s) = (a, Val tt) →
    loop_step s (go (LEvents c) (set_authenticator a s))
| list_panics c ps written a why s :
    loop s = LList c → install written ps (authenticator s) = (a, Crash why) →
    loop_step s (go (LPanicked c) (set_authenticator a s))
| subscribed c s : loop s = LEvents c → loop_step s (go (LWebRTC c) s)
| webrtc_failed c s : loop s = LWebRTC c → loop_step s (retry (close_conn c s))
| webrtc_ok c s : loop s = LWebRTC c → loop_step s (go (LServing c) (reset_delay s))
| session_done c s : loop s = LServing c → loop_step s (go (LEnding c) s)
| disconnected c s :
    loop s = LEnding c → loop_step s (go LTop (close_conn c (set_active None s)))
| slept_enough s : loop s = LSleep → loop_step s (go LTop s).

(** The handler of the detach topic, once it is subscribed. *)
Inductive event_step : device → device → Prop :=
| detach_event c s :
    loop s = LWebRTC c ∨ loop s = LServing c ∨ loop s = LEnding c →
    event_step s (signal_detach s).

(** The end of [runDeviceSession]. *)
Inductive main_step : device → device → Prop :=
| main_done s : main s = MWait → main_step s (parent_done s)
| main_detach removed s :
    main s = MWait → detachChan s = true → main_step s (detach removed s)
| main_close again s : main s = MClosing again → main_step s (shut_down again s).

Definition step (s s' : device) : Prop := loop_step s s' ∨ event_step s s' ∨ main_step s s'.

(** ** The delays *)

Definition delay_inv (s : device) : Prop :=
  retryDelay s = Z.min (2 ^ Z.of_nat (failures s)) maxDelay ∧
  Forall (λ d, 2 ≤ d ≤ maxDelay)%Z (slept s).

Lemma next_delay_double n :
  next_delay (Z.min (2 ^ Z.of_nat n) maxDelay) = Z.min (2 ^ Z.of_nat (S n)) maxDelay.
Proof.
  unfold next_delay, maxDelay. rewrite Nat2Z.inj_succ, Z.pow_succ_r by lia.
  pose proof (Z.pow_pos_nonneg 2 (Z.of_nat n)). lia.
Qed.

Lemma retry_delay s : delay_inv s → delay_inv (retry s).
Proof.
  intros [Hd Hs]. split; simpl; rewrite Hd, next_delay_double; [done|].
  apply Forall_app. split; [done|]. constructor; [|done].
  unfold maxDelay. rewrite Nat2Z.inj_succ, Z.pow_succ_r by lia.
  pose proof (Z.pow_pos_nonneg 2 (Z.of_nat (failures s))). lia.
Qed.

Lemma step_delay s s' : step s s' → delay_inv s → delay_inv s'.
Proof.
  intros [[]|[[]|[]]] [Hd Hs]; try (by split);
    try (by apply (retry_delay s0); split);
    by (apply (retry_delay (signal_detach s0)) || apply (retry_delay (close_session c s0))
        || apply (retry_delay (close_conn c s0))); split.
Qed.

(** The delay before an attempt to reach the cloud doubles with each failure
    in a row, from one second, and stays at thirty: after [n] failures it is
    [min(2^n, 30)], and every pause is from two to thirty seconds. *)
Theorem retries_back_off a s :
  rtc step (start_loop a) s →
  retryDelay s = Z.min (2 ^ Z.of_nat (failures s)) maxDelay ∧
  Forall (λ d, 2 ≤ d ≤ maxDelay)%Z (slept s).
Proof. intros Hr. apply (rtc_invariant _ _ _ _ step_delay Hr). by split. Qed.

(** ** The connections *)

Record conn_inv (s : device) : Prop := {
  inv_held c : conn_of (loop s) = Some c → (c < fresh_conn s)%nat ∧ c ∉ unjoined s;
  inv_open c : c ∈ open_conns s → c ∈ unjoined s ∨ conn_of (loop s) = Some c;
  inv_unjoined c : c ∈ unjoined s → (c < fresh_conn s)%nat ∧ c ∈ open_conns s;
  inv_active c : activeDeviceSess s = Some c → (c < fresh_conn s)%nat ∧ c ∉ unjoined s;
  inv_published c : conn_of (loop s) = Some c → published (loop s) = true →
    activeDeviceSess s = Some c;
  inv_unpublished c : conn_of (loop s) = Some c → published (loop s) = false →
    activeDeviceSess s ≠ Some c ∧ c ∈ open_conns s;
}.

(** The loop goes on with the connection it has, or without one. *)
Lemma go_conn l s :
  conn_of l = conn_of (loop s) → published l = published (loop s) →
  conn_inv s → conn_inv (go l s).
Proof. intros Hc Hp [Hh Ho Hu Ha Hpu Hun]. split; simpl; rewrite ?Hc, ?Hp; done. Qed.

Lemma retry_conn s :
  conn_of (loop s) = None → conn_inv s → conn_inv (retry s).
Proof.
  intros Hc [Hh Ho Hu Ha Hpu Hun]. split; simpl; try done. intros c Hin.
  left. destruct (Ho c Hin); [done|congruence].
Qed.

(** The connection the loop holds is closed. *)
Lemma closed_conn c l s :
  conn_of (loop s) = Some c → conn_of l = None → conn_inv s → conn_inv (go l (close_conn c s)).
Proof.
  intros Hc Hl [Hh Ho Hu Ha Hpu Hun]. destruct (Hh c Hc) as [Hf Hn].
  split; simpl; rewrite ?Hl; try done.
  - intros d Hd. destruct (Ho d); set_solver.
  - intros d Hd. destruct (Hu d Hd). set_solver.
Qed.
Lemma retry_closed c s :
  conn_of (loop s) = Some c → conn_inv s → conn_inv (retry (close_conn c s)).
Proof.
  intros Hc I. apply (retry_conn (go LSleep (close_conn c s))); [done|].
  by apply closed_conn.
Qed.

Lemma dialed_conn s :
  conn_of (loop s) = None → conn_inv s → conn_inv (dialed s).
Proof.
  intros Hc [Hh Ho Hu Ha Hpu Hun]. split; simpl; try done.
  - intros c [= <-]. split; [lia|]. intros Hin. apply Hu in Hin. lia.
  - intros c [->%elem_of_singleton|Hin]%elem_of_union; [by right|].
    destruct (Ho c Hin); [by left|congruence].
  - intros c Hin. destruct (Hu c Hin). split; [lia|set_solver].
  - intros c Hact. destruct (Ha c Hact). split; [lia|done].
  - intros c [= <-] _. split; [|set_solver]. intros Hact. apply Ha in Hact. lia.
Qed.

Lemma unjoined_conn c s :
  loop s = LOpen c → conn_inv s → conn_inv (retry (close_session c s)).
Proof.
  intros Hl [Hh Ho Hu Ha Hpu Hun]. rewrite Hl in *. simpl in *.
  destruct (Hh c eq_refl) as [Hf Hn]. destruct (Hun c eq_refl eq_refl) as [Hact Hin].
  split; simpl; try done.
  - intros d Hd. left. destruct (Ho d Hd) as [|[= ->]]; set_solver.
  - intros d [->%elem_of_singleton|Hd]%elem_of_union; [done|by apply Hu].
  - intros d Hd. destruct (Ha d Hd). split; [done|]. intros [->%elem_of_singleton|]%elem_of_union; done.
Qed.

Lemma published_conn c s :
  loop s = LPublish c → conn_inv s → conn_inv (go (LBridge c) (set_active (Some c) s)).
Proof.
  intros Hl [Hh Ho Hu Ha Hpu Hun]. rewrite Hl in *. simpl in *. split; simpl; try done.
Qed.

Lemma ended_conn c s :
  loop s = LEnding c → conn_inv s → conn_inv (go LTop (close_conn c (set_active None s))).
Proof.
  intros Hl [Hh Ho Hu Ha Hpu Hun]. rewrite Hl in *. simpl in *.
  destruct (Hh c eq_refl) as [Hf Hn]. split; simpl; try done.
  - intros d Hd. left. destruct (Ho d) as [|[= ->]]; set_solver.
  - intros d Hd. destruct (Hu d Hd). set_solver.
Qed.

Lemma loop_step_conn s s' : loop_step s s' → conn_inv s → conn_inv s'.
Proof.
  intros H I. destruct H;
    try (by apply go_conn; [simpl; rewrite H|simpl; rewrite H|destruct I; split]);
    try (by apply retry_conn; [simpl; rewrite H|destruct I; split]).
  - by apply dialed_conn; [rewrite H|].
  - by apply unjoined_conn.
  - by apply published_conn.
  - by apply retry_closed; [rewrite H|].
  - by apply retry_closed; [rewrite H|].
  - by apply retry_closed; [rewrite H|].
  - by apply ended_conn.
Qed.

Lemma shut_down_conn again s : conn_inv s → conn_inv (shut_down again s).
Proof.
  intros [Hh Ho Hu Ha Hpu Hun]. split; simpl; try done.
  - intros c Hin. apply Ho. destruct (activeDeviceSess s); set_solver.
  - intros c Hin. destruct (Hu c Hin). split; [done|].
    destruct (activeDeviceSess s) as [d|] eqn:Hd; [|done].
    destruct (Ha d eq_refl). set_solver.
  - intros c Hc Hp. destruct (Hun c Hc Hp) as [Hact Hin]. split; [done|].
    destruct (activeDeviceSess s) as [d|]; [|done]. set_solver.
Qed.

Lemma step_conn s s' : step s s' → conn_inv s → conn_inv s'.
Proof.
  intros [H|[[]|H]] I; [by eapply loop_step_conn|by destruct I; split|].
  destruct H; [by destruct I; split..|]. by apply shut_down_conn.
Qed.

Lemma start_conn a : conn_inv (start_loop a).
Proof. split; simpl; set_solver. Qed.

Lemma reachable_conn a s : rtc step (start_loop a) s → conn_inv s.
Proof. intros Hr. exact (rtc_invariant _ _ _ _ step_conn Hr (start_conn a)). Qed.

(** C38. The loop closes what it opens: the connections that are open are the one
    it holds, and those on which it could not open the session of the cloud
    realm. *)
Theorem connections_are_closed a s c :
  rtc step (start_loop a) s → c ∈ open_conns s → c ∈ unjoined s ∨ conn_of (loop s) = Some c.
Proof. intros Hr. apply (inv_open _ (reachable_conn _ _ Hr)). Qed.

(** At the moment [runDeviceSession] returns, every connection is closed but
    those without a second session, and the one of a loop that has not yet set
    the active sessions. *)
Theorem shutdown_closes_the_published a s again c :
  rtc step (start_loop a) s → main s = MClosing again → c ∈ open_conns (shut_down again s) →
  main_step s (shut_down again s) ∧ router_closed (shut_down again s) = true ∧
  (c ∈ unjoined s ∨ loop s = LOpen c ∨ loop s = LPublish c).
Proof.
  intros Hr%reachable_conn Hm Hc. split_and!; [by apply main_close|done|].
  pose proof (inv_published _ Hr) as Hp. pose proof (inv_open _ Hr c) as Ho. simpl in Hc.
  assert (c ∈ open_conns s) as Hin by (destruct (activeDeviceSess s); set_solver).
  destruct (Ho Hin) as [|Hl]; [by left|right].
  destruct (published (loop s)) eqn:Hpub.
  - rewrite (Hp c Hl eq_refl) in Hc. set_solver.
  - destruct (loop s); simplify_eq/=; auto.
Qed.

(** ** Stopping and detaching *)

Record main_inv (s : device) : Prop := {
  inv_ended : main s ≠ MWait → cancelled s = true;
  inv_router : router_closed s = bool_decide (main s = MReturned true ∨ main s = MReturned false);
  inv_token : detachChan s = true → detached s = true;
  inv_again : main s = MClosing true ∨ main s = MReturned true → detached s = true;
}.

Lemma step_main s s' : step s s' → main_inv s → main_inv s'.
Proof.
  intros [[]|[[]|H]]; try (by intros []; split).
  destruct H as [s H|removed s H Hd|again s H]; intros [He Hr Ht Ha]; split; simpl; try done.
  - by rewrite Hr, H.
  - by intros [].
  - by rewrite Hr, H.
  - intros _. by apply Ht.
  - intros _. apply He. congruence.
  - symmetry. apply bool_decide_eq_true. destruct again; auto.
  - intros [|[= ->]]; [done|]. auto.
Qed.

Lemma reachable_main a s : rtc step (start_loop a) s → main_inv s.
Proof. intros Hr. apply (rtc_invariant _ _ _ _ step_main Hr). split; naive_solver. Qed.

(** [runDeviceSession] can return at any time: with [false] when the process
    ends, and with [true] when a detach was signalled, the credentials being
    removed.  Whenever it has returned, the router is closed, the context is
    cancelled, and it asks for another cycle only after a detach. *)
Theorem device_session_ends a s :
  rtc step (start_loop a) s →
  (main s = MWait →
    (∃ s', rtc main_step s s' ∧ main s' = MReturned false) ∧
    (detachChan s = true →
      ∃ s', rtc main_step s s' ∧ main s' = MReturned true ∧ credentials s' = false)) ∧
  (∀ again, main s = MReturned again →
    router_closed s = true ∧ cancelled s = true ∧ (again = true → detached s = true)).
Proof.
  intros [He Hr Ht Ha]%reachable_main. split.
  - intros Hm. split.
    + eexists. split; [eapply rtc_l, rtc_once; [by apply main_done|by apply main_close]|done].
    + intros Hd. eexists. split; [|split].
      * eapply rtc_l, rtc_once; [by apply (main_detach true)|by apply main_close].
      * done.
      * done.
  - intros again Hm. split_and!.
    + rewrite Hr, Hm. apply bool_decide_eq_true. destruct again; auto.
    + apply He. congruence.
    + intros ->. auto.
Qed.

(** ** How it fails *)

Lemma step_unjoined s s' : step s s' → unjoined s ⊆ unjoined s'.
Proof. intros [[]|[[]|[]]]; simpl; set_solver. Qed.

Lemma unjoined_grows s s' : rtc step s s' → unjoined s ⊆ unjoined s'.
Proof. induction 1 as [|s t u Hs _ IH]; [done|]. etrans; [by apply step_unjoined|done]. Qed.

Lemma step_loop s s' : loop_step s s' → step s s'.
Proof. by left. Qed.

(** One connection on which the session of the cloud realm fails. *)
Lemma leak_round a s :
  rtc step (start_loop a) s → loop s = LTop → cancelled s = false → open_conns s = unjoined s →
  ∃ s', rtc step s s' ∧ loop s' = LTop ∧ cancelled s' = false ∧ open_conns s' = unjoined s' ∧
    size (open_conns s') = S (size (open_conns s)).
Proof.
  intros Hr Hl Hc Ho. pose proof (reachable_conn _ _ Hr) as I.
  set (s1 := dialed (go LDial (go LAuth s))).
  set (s2 := retry (close_session (fresh_conn s) s1)).
  exists (go LTop s2). split_and!; [|done|done|simpl; by rewrite Ho|].
  - eapply rtc_l; [by apply step_loop, top_default|].
    eapply rtc_l; [by apply step_loop, auth_made|].
    eapply rtc_l; [by apply step_loop, dial_ok|].
    eapply rtc_l; [by apply step_loop, (open_failed (fresh_conn s))|].
    by apply rtc_once, step_loop, slept_enough.
  - simpl. rewrite size_union, size_singleton; [done|].
    assert (fresh_conn s ∉ open_conns s); [|set_solver].
    rewrite Ho. intros Hin. apply (inv_unjoined _ I) in Hin. lia.
Qed.

(** When the session of the cloud realm cannot be opened, the loop closes
    the first session and not the connection, and then dials again: any number
    of connections can be open at once, and they stay open. *)
Theorem failed_sessions_leak_connections a n :
  ∃ s, rtc step (start_loop a) s ∧ size (open_conns s) = n ∧
    ∀ s', rtc step s s' → open_conns s ⊆ open_conns s'.
Proof.
  assert (∃ s, rtc step (start_loop a) s ∧ loop s = LTop ∧ cancelled s = false ∧
    open_conns s = unjoined s ∧ size (open_conns s) = n) as (s & Hr & _ & _ & Ho & Hn).
  { induction n as [|n (s & Hr & Hl & Hc & Ho & Hn)].
    - exists (start_loop a). split_and!; done.
    - destruct (leak_round a s Hr Hl Hc Ho) as (s' & Hr' & ? & ? & ? & Hn').
      exists s'. split_and!; try done; [by etrans|congruence]. }
  exists s. split_and!; [done..|]. intros s' Hr' c Hin. rewrite Ho in Hin.
  apply (unjoined_grows _ _ Hr') in Hin.
  assert (rtc step (start_loop a) s') as Hr2 by (by etrans).
  by apply (inv_unjoined _ (reachable_conn a s' Hr2)).
Qed.

Lemma install_nothing a : install false [] a = (set_table ∅ a, Val tt).
Proof. done. Qed.

(** A shutdown can be overtaken: when [runDeviceSession] returns while the
    loop has opened its sessions and not yet set them, the loop goes on, serves
    the cloud on a closed router, and only the other side can end that. *)
Theorem shutdown_can_be_overtaken a :
  ∃ s c, rtc step (start_loop a) s ∧ main s = MReturned false ∧ loop s = LServing c ∧
    c ∈ open_conns s ∧ router_closed s = true ∧
    ∀ s', step s s' → s' = go (LEnding c) s ∨
      loop s' = LServing c ∧ open_conns s' = open_conns s.
Proof.
  set (s1 := go (LPublish 0) (dialed (go LDial (go LAuth (start_loop a))))).
  set (s2 := shut_down false (parent_done s1)).
  set (s3 := go (LList 0) (go (LBridge 0) (set_active (Some 0%nat) s2))).
  set (s4 := go (LEvents 0) (set_authenticator (set_table ∅ a) s3)).
  set (s := go (LServing 0) (reset_delay (go (LWebRTC 0) s4))).
  exists s, 0%nat. split_and!; try done.
  - eapply rtc_l; [by apply step_loop, top_default|].
    eapply rtc_l; [by apply step_loop, auth_made|].
    eapply rtc_l; [by apply step_loop, dial_ok|].
    eapply rtc_l; [by apply step_loop, (open_ok 0)|].
    eapply rtc_l; [right; right; by apply main_done|].
    eapply rtc_l; [right; right; by apply (main_close false)|].
    eapply rtc_l; [by apply step_loop, (publish 0)|].
    eapply rtc_l; [by apply step_loop, (bridged 0)|].
    eapply rtc_l; [by apply step_loop, (listed 0 [] false (set_table ∅ a))|].
    eapply rtc_l; [by apply step_loop, (subscribed 0)|].
    by apply rtc_once, step_loop, (webrtc_ok 0).
  - assert (loop s = LServing 0 ∧ main s = MReturned false) as [Hl Hm] by done.
    clearbody s. intros s' [H|[H|H]]; destruct H; try congruence.
    + left. congruence.
    + by right.
Qed.

Lemma null_entry_panics ls t a :
  None ∈ ls → ∃ why, principals_table ls t a = (a, Crash why).
Proof.
  revert t. induction ls as [|p ls IH]; intros t; [by intros ?%elem_of_nil|].
  intros Hin. simpl. destruct p as [l|]; [|by eexists].
  apply elem_of_cons in Hin as [|Hin]; [done|]. unfold mbind, M_bind, deref.
  destruct (store a !! l); [by apply IH|by eexists].
Qed.

Lemma allocate_keeps_nulls ps a :
  ∃ a' ls, allocate ps a = (a', Val ls) ∧ (None ∈ ps → None ∈ ls).
Proof.
  revert a. induction ps as [|[p|] ps IH]; intros a; simpl.
  - exists a, []. by split; [|intros ?%elem_of_nil].
  - destruct (IH (set_store (<[fresh (dom (store a)) := p]> (store a)) a)) as (a' & ls & Hr & Hn).
    exists a', (Some (fresh (dom (store a))) :: ls). split.
    + erewrite bind_Val by done. erewrite bind_Val by done. by erewrite bind_Val by exact Hr.
    + intros [|?]%elem_of_cons; [done|]. right. auto.
  - destruct (IH a) as (a' & ls & Hr & _). exists a', (None :: ls). split; [|left].
    by erewrite bind_Val by exact Hr.
Qed.

Lemma install_null written ps a :
  None ∈ ps → ∃ a' why, install written ps a = (a', Crash why).
Proof.
  intros Hin. destruct (allocate_keeps_nulls ps a) as (a1 & ls & Hr & Hn).
  unfold install. erewrite bind_Val by exact Hr.
  set (a2 := if written then set_file (disk ps) a1 else a1).
  destruct (null_entry_panics ls ∅ a2 (Hn Hin)) as [why Hw].
  exists a2, why. erewrite (bind_Val _ _ _ a2) by (by destruct written).
  unfold SetPrincipals, mbind at 1, M_bind at 1. by rewrite Hw.
Qed.

Lemma panicked_stays c s s' : rtc step s s' → loop s = LPanicked c → loop s' = LPanicked c.
Proof.
  apply (rtc_invariant step (λ s, loop s = LPanicked c)).
  intros x y [[]|[[]|[]]] Hl; simpl; congruence.
Qed.

(** A null among the principals that the cloud lists panics in the loop:
    [safeGo] recovers, and the device never connects again. *)
Theorem null_principal_ends_the_loop a s c (ps : list (option CryptosignPrincipal)) :
  rtc step (start_loop a) s → loop s = LList c → None ∈ ps →
  ∃ s', step s s' ∧ ∀ s'', rtc step s' s'' → loop s'' = LPanicked c.
Proof.
  intros _ Hl Hn. destruct (install_null true ps (authenticator s) Hn) as (a' & why & Hi).
  exists (go (LPanicked c) (set_authenticator a' s)). split.
  - by eapply step_loop, list_panics.
  - intros s'' Hr. by apply (panicked_stays c _ _ Hr).
Qed.

End Loop.
