(* ===== verification/Wiring.v ===== *)
(** * Programs put together (nxt/util.go, xconn/router.go, xconn/standalone.go,
    xconn/xconn.go, xconn/webrtc.go)

    The functions that make a router and listen: what is open while they serve,
    and what they close when they end or fail.  A [machine] is the host and the
    router of the function that runs. *)

From S2P Require Import Prelude GoStd FilePath GoPath Wamp Accessors Permissions Peers Acceptor Dialing Realm Router RouterEnds Server Listeners Auth NxtAuth NxtConfig DeviceAuth Bridge Cloud.

Local Open Scope string_scope.

(** ** Authenticators *)

(** Who may connect: as the configuration of nxt says, with the keys and
    passwords of a device, or as an authenticator of the caller decides, which
    is a number. *)
Inductive authority :=
| Configured (a : NxtAuth.Types.Authenticators)
| Fixed (a : Standalone.standaloneAuthenticator)
| Given (n : nat).

Definition NewAuthenticator (a : NxtAuth.Types.Authenticators) : authority := Configured a.

(** ** Defer and clean up *)

(** [defer cleanup()]: it runs when the rest of the function is over, however it
    is over. *)
Definition defer {W B} (cleanup : M W unit) (body : M W B) : M W B := λ w,
  match body w with
  | (w, Blocks) => (w, Blocks)
  | (w, r) =>
      match cleanup w with
      | (w, Blocks) => (w, Blocks)
      | (w, Crash why) => (w, Crash why)
      | (w, _) => (w, r)
      end
  end.

(** [if err != nil { cleanup(); return err }] *)
Definition on_error {W B} (cleanup : M W unit) (m : M W B) : M W B :=
  r ← try m;
  match r with Err e => cleanup;; fail e | Ok x => mret x end.

(** ** Machines *)

Section Machine.
Context `{WampMessages} `{!WampSerializers} `{!WampRouting} `{WampConstants}
  `{MapRange} `{FmtV} `{LogLevels} `{OS authority}.

(** [relayed], [dropped]: the raw streams that a function passed to the app, and
    those it closed.  [channels]: the socket to which WebRTC channels go. *)
Record machine := mkMachine {
  host : Host authority;
  router : RouterW;
  relayed : list nat;
  dropped : list nat;
  channels : option string }.

Definition on_host {B} : M (Host authority) B → M machine B :=
  zoom host (λ h m, mkMachine h (router m) (relayed m) (dropped m) (channels m)).
Definition on_rt {B} : M RouterW B → M machine B :=
  zoom router (λ r m, mkMachine (host m) r (relayed m) (dropped m) (channels m)).

Definition close_listener (l : Listener) : M machine unit := ignore (on_host (Listener_Close l)).
Definition close_router : M machine unit := on_rt Router.Close.

(** ** nxt (nxt/util.go) *)

(** The environment of the process: [SNAP_REAL_HOME] and [os.UserHomeDir]. *)
Class Env := { SNAP_REAL_HOME : string; UserHomeDir : result string }.

Section Nxt.
Context `{Env} (fmt_U : nat → string).

Definition resolveUnixSocketPath (addr : string) : outcome (result string) :=
  match addr with
  | EmptyString => Panics "index out of range [0] with length 0"
  | String c rest =>
      if bool_decide (c ≠ "~"%char) then Returns (Ok addr)
      else
        let home := if bool_decide (SNAP_REAL_HOME = "") then UserHomeDir else Ok SNAP_REAL_HOME in
        Returns (rmap (λ home, filepath_Join home rest) home)
  end.

Definition of_outcome {W B} (o : outcome (result B)) : M W B :=
  match o with Returns r => of_result r | Panics why => crash why end.

(** [time.Duration(Interval) * time.Second] wraps around. *)
Definition transport_throttle (r : Config.RateLimit) : option Throttle :=
  if bool_decide (0 < Config.Rate r ∧ 0 < Config.Interval r)%Z then
    let strategy := if bool_decide (Config.Strategy r = LeakyBucketStrategy) then LeakyBucket else Burst in
    Some (NewThrottle (Config.Rate r) (wrap_int64 (Config.Interval r * Second)) strategy)
  else None.

Definition transport_server (a : authority) (t : Config.Transport) : server authority :=
  NewServer (Some a) (Some {| cfg_Throttle := transport_throttle (Config.RateLimit_ t);
    cfg_KeepAliveInterval := 0; cfg_KeepAliveTimeout := 0; cfg_OutQueueSize := 0 |}).

Definition transport_address (t : Config.Transport) : outcome (result string) :=
  if bool_decide (Config.Listener t = NxtConfig.NetworkUnix)
  then resolveUnixSocketPath (Config.Address t) else Returns (Ok (Config.Address t)).

(** One round of the loop over the transports: the listener that it appends is
    nil for a type that is none of the three. *)
Definition start_transport (a : authority) (t : Config.Transport) : M machine (option Listener) :=
  let s := transport_server a t in
  address ← of_outcome (transport_address t);
  let listen f := (l ← on_host (f s (Config.Listener t) address); mret (Some l)) in
  if bool_decide (Config.Type_ t = WebSocketTransport) then listen ListenAndServeWebSocket
  else if bool_decide (Config.Type_ t = UniversalTransport) then listen ListenAndServeUniversal
  else if bool_decide (Config.Type_ t = RawSocketTransport) then listen ListenAndServeRawSocket
  else mret None.

Fixpoint start_transports (a : authority) (ts : list Config.Transport)
    : M machine (list (option Listener)) :=
  match ts with
  | [] => mret []
  | t :: ts =>
      listener ← start_transport a t;
      closers ← start_transports a ts;
      mret (listener :: closers)
  end.

(** [data]: the file; [decode]: the YAML decoder, with unknown fields refused. *)
Definition StartServerFromConfigFile (data : result string) (decode : string → result Config.Config)
    (ids : Z * string) : M machine (list (option Listener)) :=
  data ← of_result (wrap "unable to read config file: " data);
  config ← of_result (wrap "unable to decode config file: " (decode data));
  on_rt (start_router fmt_U config ids);;
  start_transports (NewAuthenticator (Config.Authenticators_ config)) (Config.Transports config).

End Nxt.

(** ** The device (xconn/) *)

Definition ProcedureWebRTCOffer := "io.xconn.webrtc.offer".
Definition TopicAnswererOnCandidate := "io.xconn.webrtc.answerer.on_candidate".
Definition TopicOffererOnCandidate := "io.xconn.webrtc.offerer.on_candidate".
Definition DefaultSTUNServer := "stun:stun.l.google.com:19302".
Definition DefaultICEServers : list string := [DefaultSTUNServer].
Definition WebTransportPath := "/wamp".

(** What the WebRTC provider, a third-party package, is set up with. *)
Record ProviderConfig := {
  pc_Session : BaseSession; pc_Offer : string; pc_RemoteCandidates : string;
  pc_LocalCandidate : string; pc_Authenticator : authority; pc_ICEServers : list string }.

(** [Setup]: of the provider; [RegisterBridge]: of the app, on the local session. *)
Context (Setup : ProviderConfig → M RouterW unit) (RegisterBridge : BaseSession → M RouterW unit).

Definition SetupWebRTC (session : BaseSession) (authenticator : authority)
    (iceServers : list string) (streamSocket : string) : M machine unit :=
  let iceServers := match iceServers with [] => DefaultICEServers | _ => iceServers end in
  on_rt (Setup {| pc_Session := session; pc_Offer := ProcedureWebRTCOffer;
    pc_RemoteCandidates := TopicAnswererOnCandidate;
    pc_LocalCandidate := TopicOffererOnCandidate; pc_Authenticator := authenticator;
    pc_ICEServers := iceServers |});;
  if bool_decide (streamSocket ≠ "")
  then modify (λ m, mkMachine (host m) (router m) (relayed m) (dropped m) (Some streamSocket))
  else mret tt.

(** Which listener a scheme asks for. *)
Definition serve_url (s : server authority) (u : URL) : M (Host authority) Listener :=
  let scheme := Scheme u in
  if bool_decide (scheme = "ws") then ListenAndServeWebSocket s Listeners.NetworkTCP (URL_Host u)
  else if bool_decide (scheme = "rs") then ListenAndServeRawSocket s Listeners.NetworkTCP (URL_Host u)
  else if bool_decide (scheme = "unix+ws") then ListenAndServeWebSocket s Listeners.NetworkUnix (Path u)
  else if bool_decide (scheme = "unix" ∨ scheme = "unix+rs")
  then ListenAndServeRawSocket s Listeners.NetworkUnix (Path u)
  else fail ("unsupported url scheme " +:+ fmt_q scheme
             +:+ " (use ws, rs, unix, unix+ws or unix+rs)").

Definition stop (l : Listener) : M machine unit := close_listener l;; close_router.

(** [parse]: [url.Parse]. *)
Definition ServeRouter (parse : string → result URL) (rawURL realm : string) (keys : list string)
    (ids1 ids2 ids3 : Z * string) : M machine Listener :=
  if bool_decide (length keys = 0)%nat then fail "at least one key is required"
  else
    u ← of_result (wrap ("invalid url " +:+ fmt_q rawURL +:+ ": ") (parse rawURL));
    on_rt (NewDeviceRouter realm ids1 ids2);;
    let authenticator := Fixed (Standalone.NewStandaloneAuthenticator keys ∅) in
    let s := NewServer (Some authenticator) (Some default_server_config) in
    listener ← on_error close_router (on_host (serve_url s u));
    session ← on_error (stop listener) (on_rt (ConnectInMemory realm ids3));
    on_error (stop listener) (SetupWebRTC session authenticator [] "");;
    mret listener.

(** [StartAppLayer] *)
Definition StartAppLayer (realm socketPath : string) (ids1 ids2 ids3 : Z * string)
    : M machine (Listener * BaseSession) :=
  on_rt (app_layer_router realm ids1 ids2);;
  let s := NewServer None (Some default_server_config) in
  listener ← on_error close_router
               (on_host (ListenAndServeRawSocket s Listeners.NetworkUnix socketPath));
  session ← on_error (stop listener) (on_rt (ConnectInMemory realm ids3));
  mret (listener, session).

Record StandaloneConfig := {
  QUICAddress : string; WebTransportAddress : string; WebSocketAddress : string;
  TLSConfig : option tlsConfig; sa_Realm : string;
  Keys : list string; Passwords : gmap string string;
  Authenticator_ : option authority; ICEServers : list string }.

(** What the loop of [RunStandalone] selects: a stream, the end of a listener's
    channel, the end of the context. *)
Inductive selected :=
| QuicStream (s : nat) | QuicClosed | WtStream (s : nat) | WtClosed | CtxDone.

Definition relay (streamSocket : string) (s : nat) : M machine unit :=
  modify (λ m,
    if bool_decide (streamSocket = "")
    then mkMachine (host m) (router m) (relayed m) (dropped m ++ [s])%list (channels m)
    else mkMachine (host m) (router m) (relayed m ++ [s])%list (dropped m) (channels m)).

(** The channel of a transport that is not served is nil, and never ready. *)
Fixpoint select_loop (cfg : StandaloneConfig) (streamSocket : string) (evs : list selected)
    : M machine unit :=
  let quic := bool_decide (QUICAddress cfg ≠ "") in
  let wt := bool_decide (WebTransportAddress cfg ≠ "") in
  match evs with
  | [] => λ m, (m, Blocks)
  | QuicStream s :: evs =>
      if quic then relay streamSocket s;; select_loop cfg streamSocket evs
      else select_loop cfg streamSocket evs
  | WtStream s :: evs =>
      if wt then relay streamSocket s;; select_loop cfg streamSocket evs
      else select_loop cfg streamSocket evs
  | QuicClosed :: evs =>
      if quic then fail "QUIC listener stopped" else select_loop cfg streamSocket evs
  | WtClosed :: evs =>
      if wt then fail "WebTransport listener stopped" else select_loop cfg streamSocket evs
  | CtxDone :: _ => mret tt
  end.

(** A listener of [RunStandalone], when its address is set, which is closed
    after the rest of the function. *)
Definition with_listener (address : string) (listen : M (Host authority) Listener)
    (rest : M machine unit) : M machine unit :=
  if bool_decide (address ≠ "") then l ← on_host listen; defer (close_listener l) rest else rest.

Definition standalone_authenticator (cfg : StandaloneConfig) : authority :=
  default (Fixed (Standalone.NewStandaloneAuthenticator (Keys cfg) (Passwords cfg)))
    (Authenticator_ cfg).
Definition standalone_server (cfg : StandaloneConfig) : server authority :=
  NewServer (Some (standalone_authenticator cfg)) (Some default_server_config).

(** [RunStandalone] after the listeners. *)
Definition serve_standalone (streamSocket : string) (cfg : StandaloneConfig) (ids3 : Z * string)
    (evs : list selected) : M machine unit :=
  localSession ← on_rt (ConnectInMemory (sa_Realm cfg) ids3);
  on_rt (RegisterBridge localSession);;
  SetupWebRTC localSession (standalone_authenticator cfg) (ICEServers cfg) streamSocket;;
  select_loop cfg streamSocket evs.

Definition RunStandalone (streamSocket : string) (cfg : StandaloneConfig)
    (ids1 ids2 ids3 : Z * string) (evs : list selected) : M machine unit :=
  if bool_decide (QUICAddress cfg = "" ∧ WebTransportAddress cfg = "" ∧ WebSocketAddress cfg = "")
  then fail "standalone mode needs a QUIC, WebTransport or WebSocket address"
  else if bool_decide (TLSConfig cfg = None ∧ (QUICAddress cfg ≠ "" ∨ WebTransportAddress cfg ≠ ""))
  then fail "standalone mode needs a TLS config"
  else
    on_rt (NewDeviceRouter (sa_Realm cfg) ids1 ids2);;
    defer close_router
      (let s := standalone_server cfg in
       with_listener (QUICAddress cfg) (ListenAndServeQUIC s (QUICAddress cfg) (TLSConfig cfg))
       (with_listener (WebTransportAddress cfg)
          (ListenAndServeWebTransport s (WebTransportAddress cfg) (TLSConfig cfg) WebTransportPath)
       (with_listener (WebSocketAddress cfg)
          (ListenAndServeWebSocket s Listeners.NetworkTCP (WebSocketAddress cfg))
       (serve_standalone streamSocket cfg ids3 evs)))).

End Machine.

(** ** What is open *)

Section MachineSpec.
Context `{WampMessagesOk} `{!WampSerializers} `{!WampRouting} `{!WampRoutingOk}
  `{WampConstants} `{MapRange} `{FmtV} `{LogLevels} `{OS authority}.
Implicit Types (m : machine) (h : Host authority).

(** No writer of a session is stuck. *)
Definition machine_wf m : Prop := host_wf (host m) ∧ calm (router m).

(** When the call returns, the sockets are those that were open before it. *)
Definition tidy {B} (c : M machine B) : Prop := ∀ m, machine_wf m →
  match (c m).2 with
  | Blocks => True
  | Crash _ => False
  | _ => machine_wf (c m).1 ∧ sockets (host (c m).1) = sockets (host m)
  end.

Lemma tidy_bind {B C} (c : M machine B) (k : B → M machine C) :
  tidy c → (∀ x, tidy (k x)) → tidy (c ≫= k).
Proof.
  intros Hc Hk m Hwf. specialize (Hc m Hwf). rewrite bind_effect.
  destruct (c m) as [m1 [x|e|why|]]; simpl in *; try done.
  destruct Hc as [Hwf1 Hs]. specialize (Hk x m1 Hwf1).
  destruct (k x m1) as [m2 [y|e|why|]]; simpl in *; intuition congruence.
Qed.

Lemma tidy_ret {B} (x : B) : tidy (mret x).
Proof. by intros m Hwf. Qed.

Lemma tidy_fail {B} e : tidy (fail (A := B) e).
Proof. by intros m Hwf. Qed.

Lemma tidy_modify f : (∀ m, host (f m) = host m ∧ router (f m) = router m) → tidy (modify f).
Proof. intros Hf m [Hh Hr]. simpl. destruct (Hf m) as [Eh Er]. unfold machine_wf. by rewrite Eh, Er. Qed.

Lemma tidy_on_rt {B} (c : M RouterW B) : orderly c → tidy (on_rt c).
Proof.
  intros Hc m [Hh Hr]. unfold on_rt. rewrite zoom_run. simpl.
  by destruct (orderly_calm c _ Hc Hr) as [Hwf [[x ->]|[e ->]]].
Qed.

Lemma close_socket_wf k h : host_wf h → host_wf (close_socket k h).1.
Proof.
  intros Hwf. unfold close_socket. destruct (sockets h !! k) as [r|]; [|done].
  assert (∀ h', sockets h' ⊆ sockets h → next_socket h' = next_socket h → host_wf h') as Hsub.
  { intros h' Hs Hn k' r' Hk. rewrite Hn. by apply (Hwf k' r'), (lookup_weaken _ _ _ _ Hk). }
  apply Hsub.
  - destruct r; simpl; unfold unbind; repeat case_match; simpl;
      first [apply delete_subseteq|etrans; apply delete_subseteq].
  - destruct r; simpl; unfold unbind; by repeat case_match.
Qed.

(** Listening fails, or opens sockets, of which closing the listener closes that of the
    listener itself; the others are [left]. *)
Definition opens_and_leaves (left : gmap nat (resource authority) → Prop)
    (listen : M (Host authority) Listener) : Prop := ∀ h, host_wf h →
  match listen h with
  | (h', Val l) => host_wf h' ∧ ∃ r x, left x ∧ x ##ₘ sockets h ∧
      sockets h' = <[closer l := r]> (x ∪ sockets h) ∧ (x ∪ sockets h) !! closer l = None
  | (h', Fail _) => host_wf h' ∧ sockets h' = sockets h
  | _ => False
  end.

Definition nothing (x : gmap nat (resource authority)) : Prop := x = ∅.
Definition udp_socket (address : string) (x : gmap nat (resource authority)) : Prop :=
  address ≠ "" ∧ ∃ k, x = {[k := Unserved "udp" address]}.

Lemma opens_one listen r : (∀ h, opens_socket listen h r closer) → opens_and_leaves nothing listen.
Proof.
  intros Ho h Hwf. destruct (Ho h Hwf) as [(e & h' & -> & Hs & Hn)|(l & h' & -> & Hc & Hs & Hn)].
  - split; [|done]. intros k r'. rewrite Hs, Hn. apply Hwf.
  - split.
    + intros k r'. rewrite Hs, Hn, Hc. intros [[<- _]|[_ Hk]]%lookup_insert_Some; [lia|].
      specialize (Hwf _ _ Hk). lia.
    + exists r, ∅. rewrite (left_id_L ∅ (∪)). split_and!; [done|apply map_disjoint_empty_l|done|].
      rewrite Hc. by apply wf_fresh.
Qed.

Lemma webtransport_opens s address tls path :
  address ≠ "" → opens_and_leaves (udp_socket address) (ListenAndServeWebTransport s address tls path).
Proof.
  intros Hne h Hwf. pose proof (wf_fresh h Hwf) as Hf.
  destruct (ListenAndServeWebTransport_run s address tls path h Hwf)
    as [(e & h' & -> & Hs & Hn)|(l & h' & -> & Hc & Hs & Hn)].
  - split; [|done]. intros k r'. rewrite Hs, Hn. apply Hwf.
  - split.
    + intros k r'. rewrite Hs, Hn. rewrite !lookup_insert_Some.
      intros [[<- _]|[_ [[<- _]|[_ Hk]]]]; [lia|lia|]. specialize (Hwf _ _ Hk). lia.
    + eexists _, {[next_socket h := Unserved "udp" address]}.
      rewrite <-insert_union_singleton_l, Hc. split_and!; [by split; [|eexists]| |exact Hs|].
      * by apply map_disjoint_singleton_l.
      * rewrite lookup_insert_ne by lia. apply eq_None_not_Some. intros [r Hr]. specialize (Hwf _ _ Hr). lia.
Qed.

Lemma close_listener_run l m :
  close_listener l m =
  (mkMachine (Listener_Close l (host m)).1 (router m) (relayed m) (dropped m) (channels m), Val tt).
Proof.
  unfold close_listener. rewrite ignore_run.
  - unfold on_host. by rewrite zoom_run.
  - apply ends_zoom. intros h. unfold Listener_Close, close_socket.
    destruct (sockets h !! closer l); simpl; [by left; eauto|right; eauto].
Qed.

(** When the call returns, the sockets are those that were open before it, and some
    that it has left. *)
Definition leaves {B} (left : gmap nat (resource authority) → Prop) (c : M machine B) : Prop :=
  ∀ m, machine_wf m →
  match (c m).2 with
  | Blocks => True
  | Crash _ => False
  | _ => machine_wf (c m).1 ∧ ∃ x, left x ∧ x ##ₘ sockets (host m) ∧
      sockets (host (c m).1) = x ∪ sockets (host m)
  end.

Lemma tidy_leaves {B} (c : M machine B) : tidy c ↔ leaves nothing c.
Proof.
  unfold tidy, leaves, nothing. apply forall_proper. intros m.
  assert (∀ P : Prop, P ∧ sockets (host (c m).1) = sockets (host m) ↔
    P ∧ ∃ x, x = ∅ ∧ x ##ₘ sockets (host m) ∧ sockets (host (c m).1) = x ∪ sockets (host m)) as He.
  { intros P. split; intros [HP Hs]; (split; [done|]).
    - exists ∅. rewrite (left_id_L ∅ (∪)). split_and!; [done|apply map_disjoint_empty_l|done].
    - destruct Hs as (x & -> & _ & ->). apply (left_id_L ∅ (∪)). }
  specialize (He (machine_wf (c m).1)). destruct (c m).2; tauto.
Qed.

(** What a function with a listener leaves: what the rest of it leaves, and what the
    listener does, if it was opened. *)
Definition either (l1 l2 : gmap nat (resource authority) → Prop) x : Prop :=
  l2 x ∨ ∃ x1 x2, l1 x1 ∧ l2 x2 ∧ x1 ##ₘ x2 ∧ x = x2 ∪ x1.

Lemma with_listener_leaves address listen l1 l2 rest :
  l2 ∅ → (address ≠ "" → opens_and_leaves l1 listen) → leaves l2 rest →
  leaves (either l1 l2) (with_listener address listen rest).
Proof.
  intros He Hl Hrest m Hwf. unfold with_listener. case_bool_decide.
  2: { specialize (Hrest m Hwf). destruct (rest m) as [m2 [x|e|why|]]; cbn [fst snd] in *; try done;
       destruct Hrest as (Hwf2 & x2 & ? & ? & ?); (split; [done|]); exists x2; by split; [left|]. }
  unfold on_host. rewrite bind_effect, zoom_run. simpl.
  destruct Hwf as [Hh Hr]. specialize (Hl ltac:(done) _ Hh).
  destruct (listen (host m)) as [h' [l|e|why|]]; simpl in *; [| |done..].
  2: { destruct Hl as [Hh' Hs]. split; [done|]. exists ∅. rewrite (left_id_L ∅ (∪)).
       split_and!; [by left|apply map_disjoint_empty_l|done]. }
  destruct Hl as (Hh' & r & x & Hx & Hd & Hs & Hnone). unfold defer. set (m1 := mkMachine h' _ _ _ _).
  specialize (Hrest m1 (conj Hh' Hr)).
  assert (∀ m2 x2, machine_wf m2 → l2 x2 → x2 ##ₘ sockets h' → sockets (host m2) = x2 ∪ sockets h' →
    machine_wf (close_listener l m2).1 ∧ ∃ y, either l1 l2 y ∧ y ##ₘ sockets (host m) ∧
    sockets (host (close_listener l m2).1) = y ∪ sockets (host m)) as Hclose.
  { intros m2 x2 [Hh2 Hr2] Hx2 Hd2 Hs2. rewrite close_listener_run. cbn [fst host].
    rewrite Hs in Hd2, Hs2. apply map_disjoint_insert_r in Hd2 as [Hc2 Hd2].
    apply map_disjoint_union_r in Hd2 as [Hdx Hds].
    split; [by split; [apply close_socket_wf|]|]. exists (x2 ∪ x). split_and!.
    - right. exists x, x2. by split_and!.
    - by apply map_disjoint_union_l.
    - destruct (close_socket_run (closer l) r (host m2)) as (_ & Hdel & _).
      { rewrite Hs2. apply lookup_union_Some_raw. right. by rewrite lookup_insert_eq. }
      unfold Listener_Close. rewrite Hdel, Hs2, delete_union, delete_id by done.
      rewrite delete_insert_id by done. apply (assoc_L (∪)). }
  destruct (rest m1) as [m2 [y|e|why|]]; cbn [fst snd] in *; try done;
    destruct Hrest as (Hwf2 & x2 & Hx2 & Hd2 & Hs2); specialize (Hclose m2 x2 Hwf2 Hx2 Hd2 Hs2);
    rewrite close_listener_run in *; exact Hclose.
Qed.

(** *** The standalone device *)

Section Device.
Context (Setup : ProviderConfig → M RouterW unit) (RegisterBridge : BaseSession → M RouterW unit).
Context (Setup_orderly : ∀ p, orderly (Setup p)) (Bridge_orderly : ∀ b, orderly (RegisterBridge b)).

Lemma SetupWebRTC_tidy session a ice socket : tidy (SetupWebRTC Setup session a ice socket).
Proof.
  apply tidy_bind; [by apply tidy_on_rt|]. intros _.
  case_bool_decide; [by apply tidy_modify|apply tidy_ret].
Qed.

Lemma relay_tidy socket s : tidy (relay socket s).
Proof. apply tidy_modify. intros m. by case_bool_decide. Qed.

Lemma select_loop_tidy cfg socket evs : tidy (select_loop cfg socket evs).
Proof.
  induction evs as [|e evs IH]; [by intros m|]. cbn [select_loop]. cbv zeta.
  destruct e; try case_bool_decide; try apply IH; try apply tidy_fail; try apply tidy_ret;
    (apply tidy_bind; [apply relay_tidy|by intros _]).
Qed.

Lemma serve_standalone_tidy socket cfg ids evs :
  tidy (serve_standalone Setup RegisterBridge socket cfg ids evs).
Proof.
  apply tidy_bind; [apply tidy_on_rt, ConnectInMemory_orderly|]. intros b.
  apply tidy_bind; [by apply tidy_on_rt|]. intros _.
  apply tidy_bind; [apply SetupWebRTC_tidy|]. intros _. apply select_loop_tidy.
Qed.

Definition standalone_listeners socket cfg ids3 evs : M machine unit :=
  let s := standalone_server cfg in
  with_listener (QUICAddress cfg) (ListenAndServeQUIC s (QUICAddress cfg) (TLSConfig cfg))
  (with_listener (WebTransportAddress cfg)
     (ListenAndServeWebTransport s (WebTransportAddress cfg) (TLSConfig cfg) WebTransportPath)
  (with_listener (WebSocketAddress cfg)
     (ListenAndServeWebSocket s Listeners.NetworkTCP (WebSocketAddress cfg))
  (serve_standalone Setup RegisterBridge socket cfg ids3 evs))).

Lemma standalone_listeners_leave socket cfg ids evs :
  leaves (either nothing (either (udp_socket (WebTransportAddress cfg)) (either nothing nothing)))
    (standalone_listeners socket cfg ids evs).
Proof.
  assert (nothing ∅) as Hn by done.
  apply with_listener_leaves; [by do 2 left|intros _; by eapply opens_one, ListenAndServeQUIC_run|].
  apply with_listener_leaves; [by left|apply webtransport_opens|].
  apply with_listener_leaves; [done|intros _; by eapply opens_one, ListenAndServe_run|].
  apply tidy_leaves, serve_standalone_tidy.
Qed.

Lemma either_nothing l x : either nothing l x ↔ l x.
Proof.
  split; [|by left]. intros [?|(x1 & x2 & -> & Hx & _ & ->)]; [done|]. by rewrite (right_id_L ∅ (∪)).
Qed.

(** What [RunStandalone] can leave. *)
Lemma standalone_leak address (x y : gmap nat (resource authority)) :
  either nothing (either (udp_socket address) (either nothing nothing)) x → x ##ₘ y →
  x ∪ y = y ∨ address ≠ "" ∧ ∃ k, y !! k = None ∧ x ∪ y = <[k := Unserved "udp" address]> y.
Proof.
  rewrite either_nothing. intros Hx Hd.
  assert (∀ z, either nothing nothing z → z = ∅) as Hz by (intros z; by rewrite either_nothing).
  destruct Hx as [->%Hz|(x1 & x2 & [Hne [k ->]] & ->%Hz & _ & ->)]; [left; apply (left_id_L ∅ (∪))|right].
  rewrite (left_id_L ∅ (∪)) in Hd |- *. split; [done|]. exists k. rewrite <-insert_union_singleton_l.
  split; [|done]. by eapply map_disjoint_singleton_l.
Qed.

Lemma NewDeviceRouter_orderly realm ids1 ids2 : orderly (NewDeviceRouter realm ids1 ids2).
Proof.
  apply orderly_bind; [apply NewRouter_orderly|]. intros _.
  apply orderly_bind; [apply orderly_try, AddRealm_orderly|]. intros [x|e].
  - apply orderly_ret.
  - apply orderly_bind; [apply Close_orderly|]. intros _. apply orderly_fail.
Qed.

Lemma close_router_run m :
  machine_wf m →
  (close_router m).2 = Val tt ∧ realms (rt (router (close_router m).1)) = ∅ ∧
  host (close_router m).1 = host m ∧ machine_wf (close_router m).1.
Proof.
  intros [Hh Hr]. unfold close_router, on_rt. rewrite zoom_run. simpl.
  destruct (Close_calm _ Hr) as (Hv & He & Hc). split_and!; [done..|]. by split.
Qed.

(** C19. However [RunStandalone] ends, with an error of any of its steps or because its
    context is done, it has closed the listeners that it opened, in whatever number, and
    no realm is left in its router; of the sockets that it opened at most one is left,
    the UDP socket of the WebTransport listener. *)
Theorem standalone_closes_its_listeners socket cfg ids1 ids2 ids3 evs m :
  machine_wf m →
  let r := RunStandalone Setup RegisterBridge socket cfg ids1 ids2 ids3 evs m in
  r.2 ≠ Blocks →
  returned r.2 ∧
  (sockets (host r.1) = sockets (host m) ∨
   WebTransportAddress cfg ≠ "" ∧ ∃ k, sockets (host m) !! k = None ∧
     sockets (host r.1) = <[k := Unserved "udp" (WebTransportAddress cfg)]> (sockets (host m))) ∧
  (realms (rt (router r.1)) = ∅ ∨ r.1 = m).
Proof.
  intros Hwf. cbv zeta. unfold RunStandalone.
  case_bool_decide; [intros _; split_and!; [right; simpl; eauto|by left|by right]|].
  case_bool_decide; [intros _; split_and!; [right; simpl; eauto|by left|by right]|].
  destruct Hwf as [Hh Hr]. unfold on_rt at 1 2 3 4 5 6. rewrite bind_effect, zoom_run. simpl.
  pose proof (orderly_calm _ _ (NewDeviceRouter_orderly (sa_Realm cfg) ids1 ids2) Hr) as [Hr1 Hret].
  destruct (NewDeviceRouter (sa_Realm cfg) ids1 ids2 (router m)) as [w1 v] eqn:Hn. cbn [fst snd] in *.
  destruct Hret as [[[] ->]|[e ->]]; cbn [fst snd].
  2: { intros _. split_and!; [right; simpl; eauto|by left|left].
       exact (NewDeviceRouter_fails _ _ _ _ _ _ (proj1 Hr) Hn). }
  set (m1 := mkMachine (host m) w1 _ _ _). unfold defer.
  pose proof (standalone_listeners_leave socket cfg ids3 evs m1 (conj Hh Hr1)) as Ht.
  change (with_listener _ _ _) with (standalone_listeners socket cfg ids3 evs).
  destruct (standalone_listeners socket cfg ids3 evs m1) as [m2 [x|e|why|]]; simpl in *; try done;
    destruct Ht as (Hwf2 & x2 & Hx2 & Hd2 & Hs2);
    destruct (close_router_run m2 Hwf2) as (Hv & He & Hhost & _);
    destruct (close_router m2) as [m3 v3]; cbn [fst snd] in *; subst v3; intros _; cbn [fst snd];
    (split_and!; [|rewrite Hhost, Hs2; by apply standalone_leak|by left]); [left|right]; eauto.
Qed.

(** *** What is open while it serves *)

Lemma bind_Blocks_inv {W B C} (c : M W B) (k : B → M W C) w w' :
  (c ≫= k) w = (w', Blocks) → c w = (w', Blocks) ∨ ∃ x w1, c w = (w1, Val x) ∧ k x w1 = (w', Blocks).
Proof.
  unfold mbind, M_bind. destruct (c w) as [w1 [x|e|why|]]; intros; simplify_eq; eauto.
Qed.

(** The events that end the loop, and the streams that it handles. *)
Definition stops (cfg : StandaloneConfig) (e : selected) : Prop :=
  match e with
  | CtxDone => True
  | QuicClosed => QUICAddress cfg ≠ ""
  | WtClosed => WebTransportAddress cfg ≠ ""
  | _ => False
  end.

Definition stream_of (cfg : StandaloneConfig) (e : selected) : list nat :=
  match e with
  | QuicStream s => if bool_decide (QUICAddress cfg ≠ "") then [s] else []
  | WtStream s => if bool_decide (WebTransportAddress cfg ≠ "") then [s] else []
  | _ => []
  end.

(** [m'] is [m] after these streams. *)
Definition handles (socket : string) (ss : list nat) m m' : Prop :=
  host m' = host m ∧ router m' = router m ∧
  relayed m' = (relayed m ++ if bool_decide (socket = "") then [] else ss)%list ∧
  dropped m' = (dropped m ++ if bool_decide (socket = "") then ss else [])%list.

Lemma select_loop_waits cfg socket evs m m' :
  select_loop cfg socket evs m = (m', Blocks) →
  (∀ e, e ∈ evs → ¬ stops cfg e) ∧ handles socket (evs ≫= stream_of cfg) m m'.
Proof.
  revert m. induction evs as [|e evs IH]; intros m.
  { intros [= <-]. split; [set_solver|]. unfold handles. cbn.
    case_bool_decide; by rewrite !app_nil_r. }
  assert (∀ m1, handles socket (stream_of cfg e) m m1 → ¬ stops cfg e →
    select_loop cfg socket evs m1 = (m', Blocks) →
    (∀ e', e' ∈ e :: evs → ¬ stops cfg e') ∧ handles socket ((e :: evs) ≫= stream_of cfg) m m') as Hnext.
  { intros m1 (Hh & Hr & Hre & Hd) Hns Hl. destruct (IH m1 Hl) as (Hns' & Hh' & Hr' & Hre' & Hd').
    split; [set_solver|]. unfold handles. rewrite Hh', Hr', Hre', Hd', Hh, Hr, Hre, Hd. cbn.
    split_and!; [done..| |]; case_bool_decide; by rewrite <-?(assoc_L app). }
  assert (handles socket [] m m) as Hrefl.
  { unfold handles. case_bool_decide; by rewrite !app_nil_r. }
  cbn [select_loop]. cbv zeta. destruct e as [s| |s| |].
  - case_bool_decide as Hc; [|by apply Hnext; [unfold stream_of; rewrite bool_decide_eq_false_2 by (by intros [])|intros []]].
    unfold relay. erewrite bind_Val by done. apply Hnext; [|by intros []].
    unfold stream_of. rewrite bool_decide_eq_true_2 by done. unfold handles.
    case_bool_decide; simpl; by rewrite ?app_nil_r.
  - case_bool_decide as Hc; [done|]. apply Hnext; [done|by intros []].
  - case_bool_decide as Hc; [|by apply Hnext; [unfold stream_of; rewrite bool_decide_eq_false_2 by (by intros [])|intros []]].
    unfold relay. erewrite bind_Val by done. apply Hnext; [|by intros []].
    unfold stream_of. rewrite bool_decide_eq_true_2 by done. unfold handles.
    case_bool_decide; simpl; by rewrite ?app_nil_r.
  - case_bool_decide as Hc; [done|]. apply Hnext; [done|by intros []].
  - done.
Qed.

(** A call on the router that does not wait leaves the rest of the machine. *)
Lemma on_rt_then {B C} (c : M RouterW B) (k : B → M machine C) m m' :
  orderly c → machine_wf m → (on_rt c ≫= k) m = (m', Blocks) →
  ∃ x m1, machine_wf m1 ∧ host m1 = host m ∧ relayed m1 = relayed m ∧ dropped m1 = dropped m ∧
    k x m1 = (m', Blocks).
Proof.
  intros Hc [Hh Hr] Hrun. destruct (orderly_calm c _ Hc Hr) as [Hr1 Hret].
  unfold on_rt in Hrun. rewrite bind_effect, zoom_run in Hrun. cbn [fst snd] in Hrun.
  destruct (c (router m)) as [w1 v]. cbn [fst snd] in *.
  destruct Hret as [[x ->]|[e ->]]; [|done].
  exists x. eexists. split_and!; [..|exact Hrun]; done.
Qed.

Lemma serve_standalone_waits socket cfg ids evs m m' :
  machine_wf m → serve_standalone Setup RegisterBridge socket cfg ids evs m = (m', Blocks) →
  (∀ e, e ∈ evs → ¬ stops cfg e) ∧ host m' = host m ∧
  relayed m' = (relayed m ++ if bool_decide (socket = "") then [] else evs ≫= stream_of cfg)%list ∧
  dropped m' = (dropped m ++ if bool_decide (socket = "") then evs ≫= stream_of cfg else [])%list.
Proof.
  intros Hwf Hrun. unfold serve_standalone in Hrun.
  apply on_rt_then in Hrun as (b & m1 & Hwf1 & Hh1 & Hr1 & Hd1 & Hrun);
    [|apply ConnectInMemory_orderly|done].
  apply on_rt_then in Hrun as ([] & m2 & Hwf2 & Hh2 & Hr2 & Hd2 & Hrun); [|apply Bridge_orderly|done].
  unfold SetupWebRTC in Hrun.
  assert (∃ m3, host m3 = host m2 ∧ relayed m3 = relayed m2 ∧ dropped m3 = dropped m2 ∧
    select_loop cfg socket evs m3 = (m', Blocks)) as (m3 & Hh3 & Hr3 & Hd3 & Hl).
  { apply bind_Blocks_inv in Hrun as [Hrun|([] & m3 & Hrun & Hl)].
    - apply on_rt_then in Hrun as (x & m3 & _ & _ & _ & _ & Hrun); [|apply Setup_orderly|done].
      by case_bool_decide.
    - exists m3. unfold on_rt in Hrun. rewrite bind_effect, zoom_run in Hrun. cbn [fst snd] in Hrun.
      destruct (Setup _ _) as [w [x|e|why|]]; cbn [fst snd] in Hrun; try done.
      by case_bool_decide; unfold modify, mret, M_ret in Hrun; simplify_eq. }
  destruct (select_loop_waits _ _ _ _ _ Hl) as (Hns & Hh & _ & Hre & Hd).
  split; [done|]. rewrite Hh, Hre, Hd. split_and!; congruence.
Qed.

(** The sockets a configuration asks for, numbered from [n]. *)
Definition standalone_sockets cfg (n : nat) : list (resource authority) :=
  let s := standalone_server cfg in
  let quic := if bool_decide (QUICAddress cfg ≠ "")
              then [quic_socket s (QUICAddress cfg) (TLSConfig cfg)] else [] in
  let wt := if bool_decide (WebTransportAddress cfg ≠ "")
            then [Unserved "udp" (WebTransportAddress cfg);
                  WebTransportServer (n + length quic) (WebTransportAddress cfg) WebTransportPath
                    (default [] (with_proto NextProtoH3 <$> TLSConfig cfg)) s] else [] in
  let ws := if bool_decide (WebSocketAddress cfg ≠ "")
            then [Clients "tcp" (WebSocketAddress cfg) ListenerWebSocket s] else [] in
  quic ++ wt ++ ws.

Fixpoint add_sockets (n : nat) (rs : list (resource authority)) (x : gmap nat (resource authority))
    : gmap nat (resource authority) :=
  match rs with [] => x | r :: rs => add_sockets (S n) rs (<[n := r]> x) end.

(** [h'] has opened these sockets since [h]. *)
Definition grown (rs : list (resource authority)) h h' : Prop :=
  sockets h' = add_sockets (next_socket h) rs (sockets h) ∧
  next_socket h' = (next_socket h + length rs)%nat ∧ host_wf h'.

Lemma add_sockets_app n rs1 rs2 x :
  add_sockets n (rs1 ++ rs2) x = add_sockets (n + length rs1) rs2 (add_sockets n rs1 x).
Proof.
  revert n x. induction rs1 as [|r rs1 IH]; intros n x; simpl; [by rewrite Nat.add_0_r|].
  rewrite IH. by replace (S n + length rs1)%nat with (n + S (length rs1))%nat by lia.
Qed.

Lemma grown_trans rs1 rs2 h1 h2 h3 : grown rs1 h1 h2 → grown rs2 h2 h3 → grown (rs1 ++ rs2) h1 h3.
Proof.
  intros (Hs1 & Hn1 & _) (Hs2 & Hn2 & Hwf). split_and!; [|rewrite length_app; lia|done].
  by rewrite Hs2, Hs1, add_sockets_app, Hn1.
Qed.

Lemma grown_wf rs h h' :
  host_wf h → sockets h' = add_sockets (next_socket h) rs (sockets h) →
  next_socket h' = (next_socket h + length rs)%nat → grown rs h h'.
Proof.
  intros Hwf Hs Hn. split_and!; [done..|]. intros k r. rewrite Hs, Hn.
  assert (∀ rs n x, (∀ k r, x !! k = Some r → k < n) → ∀ k r,
    add_sockets n rs x !! k = Some r → k < n + length rs) as Hadd.
  { clear. induction rs as [|r rs IH]; intros n x Hx k r'; simpl.
    - intros Hk. specialize (Hx _ _ Hk). lia.
    - intros Hk. apply (IH (S n)) in Hk; [lia|].
      intros k' r''. intros [[<- _]|[_ Hk']]%lookup_insert_Some; [lia|]. specialize (Hx _ _ Hk'). lia. }
  by apply Hadd.
Qed.

(** The rest of the function waits in a host where the listener is open. *)
Lemma with_listener_waits address listen rest rs m m' :
  machine_wf m →
  (∀ h', (∃ l, listen (host m) = (h', Val l)) → grown rs (host m) h') →
  (listen (host m)).2 ≠ Blocks →
  with_listener address listen rest m = (m', Blocks) →
  ∃ m1, machine_wf m1 ∧ grown (if bool_decide (address ≠ "") then rs else []) (host m) (host m1) ∧
    relayed m1 = relayed m ∧ dropped m1 = dropped m ∧ rest m1 = (m', Blocks).
Proof.
  intros [Hh Hr] Hg Hnb. unfold with_listener. case_bool_decide.
  2: { intros Hrest. exists m. split_and!; [done| |done..]. apply grown_wf; simpl; [done..|lia]. }
  unfold on_host. rewrite bind_effect, zoom_run. cbn [fst snd].
  destruct (listen (host m)) as [h' [l|e|why|]] eqn:Hl; cbn [fst snd] in *; try done.
  unfold defer. set (m1 := mkMachine h' _ _ _ _).
  specialize (Hg h' (ex_intro _ l eq_refl)).
  destruct (rest m1) as [m2 [x|e|why|]] eqn:Hm1; rewrite ?close_listener_run; try done. intros [= <-].
  exists m1. split_and!; [split; [by apply Hg|done]|done..].
Qed.

Lemma opens_socket_grown (listen : M (Host authority) Listener) h r :
  host_wf h → opens_socket listen h r closer →
  (∀ h', (∃ l, listen h = (h', Val l)) → grown [r] h h') ∧ (listen h).2 ≠ Blocks.
Proof.
  intros Hwf Ho. destruct (Ho Hwf) as [(e & h1 & -> & _)|(l & h1 & -> & Hc & Hs & Hn)];
    (split; [|done]); intros h' [l' Hl']; [done|]. simplify_eq.
  apply grown_wf; simpl; [done| |lia]. by rewrite Hs, Hc.
Qed.

Lemma webtransport_grown s address tls path h :
  host_wf h →
  (∀ h', (∃ l, ListenAndServeWebTransport s address tls path h = (h', Val l)) →
    grown [Unserved "udp" address; WebTransportServer (next_socket h) address path
             (default [] (with_proto NextProtoH3 <$> tls)) s] h h') ∧
  (ListenAndServeWebTransport s address tls path h).2 ≠ Blocks.
Proof.
  intros Hwf. destruct (ListenAndServeWebTransport_run s address tls path h Hwf)
    as [(e & h1 & -> & _)|(l1 & h1 & -> & _ & Hs & Hn)]; (split; [|done]); intros h' [l Hl]; [done|].
  simplify_eq. apply grown_wf; [done|exact Hs|simpl; lia].
Qed.

(** While [RunStandalone] serves, the sockets that are open are those of the
    addresses that are set, no event has arrived that ends it, and every stream
    of a client has been relayed to the app's socket, or closed when there is
    none. *)
Theorem standalone_serves socket cfg ids1 ids2 ids3 evs m m' :
  machine_wf m →
  RunStandalone Setup RegisterBridge socket cfg ids1 ids2 ids3 evs m = (m', Blocks) →
  sockets (host m') =
    add_sockets (next_socket (host m)) (standalone_sockets cfg (next_socket (host m))) (sockets (host m)) ∧
  (∀ e, e ∈ evs → ¬ stops cfg e) ∧
  relayed m' = (relayed m ++ if bool_decide (socket = "") then [] else evs ≫= stream_of cfg)%list ∧
  dropped m' = (dropped m ++ if bool_decide (socket = "") then evs ≫= stream_of cfg else [])%list.
Proof.
  intros Hwf. unfold RunStandalone. do 2 (case_bool_decide; [done|]). intros Hrun.
  apply on_rt_then in Hrun as (x & m1 & Hwf1 & Hh1 & Hr1 & Hd1 & Hrun);
    [|apply NewDeviceRouter_orderly|done].
  unfold defer in Hrun. match type of Hrun with context [match ?c ?x with _ => _ end] =>
    destruct (c x) as [mx vx] eqn:Hl end.
  assert (mx = m' ∧ vx = Blocks) as [-> ->].
  { pose proof (standalone_listeners_leave socket cfg ids3 evs m1 Hwf1) as Ht.
    unfold standalone_listeners in Ht. rewrite Hl in Ht. cbn [fst snd] in Ht.
    destruct vx; [| |done|by simplify_eq]; destruct Ht as [Hw _];
      destruct (close_router_run mx Hw) as [Hv _]; destruct (close_router mx); simpl in Hv; by subst. }
  clear Hrun.
  pose proof Hwf1 as [Hwfh _].
  destruct (opens_socket_grown _ _ _ Hwfh
    (ListenAndServeQUIC_run (standalone_server cfg) (QUICAddress cfg) (TLSConfig cfg) (host m1)))
    as [Hg1 Hb1].
  apply (with_listener_waits _ _ _ _ _ _ Hwf1 Hg1 Hb1) in Hl
    as (m2 & Hwf2 & Hg2 & Hr2 & Hd2 & Hl).
  pose proof Hwf2 as [Hwfh2 _].
  destruct (webtransport_grown (standalone_server cfg) (WebTransportAddress cfg) (TLSConfig cfg)
    WebTransportPath _ Hwfh2) as [Hg3 Hb3].
  apply (with_listener_waits _ _ _ _ _ _ Hwf2 Hg3 Hb3) in Hl
    as (m3 & Hwf3 & Hg4 & Hr3 & Hd3 & Hl).
  pose proof Hwf3 as [Hwfh3 _].
  destruct (opens_socket_grown _ _ _ Hwfh3
    (ListenAndServe_run ListenerWebSocket (standalone_server cfg) "tcp" (WebSocketAddress cfg) (host m3)))
    as [Hg5 Hb5].
  apply (with_listener_waits _ _ _ _ _ _ Hwf3 Hg5 Hb5) in Hl
    as (m4 & Hwf4 & Hg6 & Hr4 & Hd4 & Hl).
  apply serve_standalone_waits in Hl as (Hns & Hh5 & Hr5 & Hd5); [|done].
  pose proof (grown_trans _ _ _ _ _ Hg2 (grown_trans _ _ _ _ _ Hg4 Hg6)) as (Hs & _ & _).
  rewrite Hh5, Hs, Hh1. split_and!; [|done|by rewrite Hr5, Hr4, Hr3, Hr2, Hr1|by rewrite Hd5, Hd4, Hd3, Hd2, Hd1].
  destruct Hg2 as (_ & Hn2 & _). unfold standalone_sockets. cbv zeta. rewrite Hn2, Hh1.
  done.
Qed.

(** *** A router on its own, and the app layer *)

(** The outcome of a function that starts a server: one more socket, which its
    [stop] closes together with the router; or an error, and all is closed. *)
Definition starts_one {B} (l_of : B → Listener) (r : resource authority) m (o : machine * exec B) : Prop :=
  match o with
  | (m', Val x) => machine_wf m' ∧ sockets (host m) !! closer (l_of x) = None ∧
      sockets (host m') = <[closer (l_of x) := r]> (sockets (host m)) ∧
      (stop (l_of x) m').2 = Val tt ∧ sockets (host (stop (l_of x) m').1) = sockets (host m) ∧
      realms (rt (router (stop (l_of x) m').1)) = ∅
  | (m', Fail _) => sockets (host m') = sockets (host m) ∧
      (realms (rt (router m')) = ∅ ∨ m' = m)
  | _ => False
  end.

Lemma stop_run l r h m :
  machine_wf m → host_wf h →
  closer l = next_socket h → sockets (host m) = <[closer l := r]> (sockets h) →
  (stop l m).2 = Val tt ∧ sockets (host (stop l m).1) = sockets h ∧
  realms (rt (router (stop l m).1)) = ∅.
Proof.
  intros [Hh Hr] Hwf Hc Hs. unfold stop. erewrite bind_Val by apply close_listener_run.
  destruct (close_socket_run (closer l) r (host m)) as (_ & Hd & _);
    [by rewrite Hs, lookup_insert_eq|].
  match goal with |- context [close_router ?x] => destruct (close_router_run x) as (Hv & He & Hhost & _) end.
  { split; [by apply close_socket_wf|done]. }
  split_and!; [done| |done]. rewrite Hhost. cbn [host]. unfold Listener_Close.
  rewrite Hd, Hs, delete_insert_id; [done|]. rewrite Hc. by apply wf_fresh.
Qed.

(** The steps that follow the listener, each of which stops the server when it
    fails. *)
Lemma on_error_step {B C} (c : M machine B) (k : B → M machine C) (l_of : C → Listener) l r m0 m :
  tidy c → machine_wf m0 → machine_wf m → (c m).2 ≠ Blocks →
  closer l = next_socket (host m0) → sockets (host m) = <[closer l := r]> (sockets (host m0)) →
  (∀ x m1, machine_wf m1 → sockets (host m1) = <[closer l := r]> (sockets (host m0)) →
     starts_one l_of r m0 (k x m1)) →
  starts_one l_of r m0 ((x ← on_error (stop l) c; k x) m).
Proof.
  intros Ht Hwf0 Hwf Hnb Hc Hs Hk. unfold on_error. specialize (Ht m Hwf).
  unfold mbind, M_bind, try. destruct (c m) as [m1 [x|e|why|]]; cbn [fst snd] in *; try done.
  - destruct Ht as [Hwf1 Hs1]. apply Hk; [done|congruence].
  - destruct Ht as [Hwf1 Hs1].
    destruct (stop_run l r (host m0) m1 Hwf1 (proj1 Hwf0) Hc) as (Hv & Hsk & He); [congruence|].
    destruct (stop l m1) as [m2 v]. cbn [fst snd] in *. subst v. simpl. split; [done|by left].
Qed.

(** Making the router and listening, before those steps. *)
Lemma start_listening {C} (new : M RouterW unit) (listen : M (Host authority) Listener) r
    (k : Listener → M machine C) (l_of : C → Listener) m :
  machine_wf m → orderly new →
  (∀ w w' e, router_wf w → new w = (w', Fail e) → realms (rt w') = ∅) →
  (opens_socket listen (host m) r closer ∨ ∃ e, listen (host m) = (host m, Fail e)) →
  (∀ l m1, machine_wf m1 → closer l = next_socket (host m) →
     sockets (host m1) = <[closer l := r]> (sockets (host m)) → starts_one l_of r m (k l m1)) →
  starts_one l_of r m ((on_rt new;; (l ← on_error close_router (on_host listen); k l)) m).
Proof.
  intros [Hh Hr] Hnew Hfail Ho Hk. unfold on_rt. rewrite bind_effect, zoom_run. cbn [fst snd].
  destruct (orderly_calm new _ Hnew Hr) as [Hr1 Hret]. destruct (new (router m)) as [w1 v] eqn:Hn. cbn [fst snd] in *.
  destruct Hret as [[[] ->]|[e ->]]; [|split; [done|left; exact (Hfail _ _ _ (proj1 Hr) Hn)]].
  unfold on_error, on_host, mbind, M_bind, try. rewrite !zoom_run. cbn [host].
  assert (∀ e h', listen (host m) = (h', Fail e) → sockets h' = sockets (host m) →
    next_socket h' = next_socket (host m) → starts_one l_of r m
    (let '(m2, v) := close_router (mkMachine h' w1 (relayed m) (dropped m) (channels m)) in
     match v with
     | Val _ => (m2, Fail e) | Fail e => (m2, Fail e) | Crash s => (m2, Crash s) | Blocks => (m2, Blocks)
     end)) as Hclose.
  { intros e h' _ Hs Hnx. match goal with |- context [close_router ?x] =>
      destruct (close_router_run x) as (Hv & He & Hhost & _); [split; [|done]|];
      [|destruct (close_router x) as [m2 v]] end.
    - intros k' r' Hk'. cbn [host] in *. rewrite Hnx. rewrite Hs in Hk'. by eapply Hh.
    - cbn [fst snd] in *. subst v. split; [by rewrite Hhost|by left]. }
  destruct Ho as [Ho|[e He]].
  - destruct (Ho Hh) as [(e & h' & He & Hs & Hnx)|(l & h' & He & Hc & Hs & Hnx)].
    + specialize (Hclose e h' He Hs Hnx). rewrite He. cbn [fst snd].
      destruct (close_router _) as [m2 [[]|e'|why|]]; done.
    + rewrite He. cbn [fst snd]. apply Hk; [split; [|done]|done|done].
      cbn [host]. intros k' r'. rewrite Hs, Hnx, Hc. intros [[<- _]|[_ Hk']]%lookup_insert_Some; [lia|].
      specialize (Hh _ _ Hk'). lia.
  - specialize (Hclose e (host m) He eq_refl eq_refl). rewrite He. cbn [fst snd].
    destruct (close_router _) as [m2 [[]|e'|why|]]; done.
Qed.

Lemma on_rt_nb {B} (c : M RouterW B) m : orderly c → machine_wf m → (on_rt c m).2 ≠ Blocks.
Proof.
  intros Hc [_ Hr]. unfold on_rt. rewrite zoom_run. cbn [snd].
  by destruct (orderly_calm c _ Hc Hr) as [_ [[x ->]|[e ->]]].
Qed.

(** What a URL asks for. *)
Definition url_socket (s : server authority) (u : URL) : option (resource authority) :=
  let scheme := Scheme u in
  if bool_decide (scheme = "ws") then Some (Clients "tcp" (URL_Host u) ListenerWebSocket s)
  else if bool_decide (scheme = "rs") then Some (Clients "tcp" (URL_Host u) ListenerRawSocket s)
  else if bool_decide (scheme = "unix+ws") then Some (Clients "unix" (Path u) ListenerWebSocket s)
  else if bool_decide (scheme = "unix" ∨ scheme = "unix+rs")
  then Some (Clients "unix" (Path u) ListenerRawSocket s) else None.

Lemma serve_url_run s u h :
  match url_socket s u with
  | Some r => opens_socket (serve_url s u) h r closer
  | None => ∃ e, serve_url s u h = (h, Fail e)
  end.
Proof.
  unfold url_socket, serve_url. repeat case_bool_decide; try apply ListenAndServe_run.
  by eexists.
Qed.

Lemma SetupWebRTC_nb session a ice m :
  machine_wf m → (SetupWebRTC Setup session a ice "" m).2 ≠ Blocks.
Proof.
  intros Hwf Hb. unfold SetupWebRTC in Hb.
  destruct ((on_rt _;; _) m) as [m' v] eqn:Hr in Hb. cbn [snd] in Hb. subst v.
  apply on_rt_then in Hr as (x & m1 & _ & _ & _ & _ & Hr); [|apply Setup_orderly|done]. done.
Qed.

(** [ServeRouter] either returns a listener, then exactly one socket more is
    open, that of the scheme of the URL, and [stop] closes it and the router; or
    it fails, and nothing it made is left open. *)
Theorem ServeRouter_starts_one parse rawURL realm keys ids1 ids2 ids3 m u r :
  machine_wf m → parse rawURL = Ok u →
  r = url_socket (NewServer (Some (Fixed (Standalone.NewStandaloneAuthenticator keys ∅)))
        (Some default_server_config)) u →
  match r with
  | Some r => starts_one id r m (ServeRouter Setup parse rawURL realm keys ids1 ids2 ids3 m)
  | None => ∃ m' e, ServeRouter Setup parse rawURL realm keys ids1 ids2 ids3 m = (m', Fail e) ∧
      sockets (host m') = sockets (host m) ∧ (realms (rt (router m')) = ∅ ∨ m' = m)
  end.
Proof.
  intros Hwf Hu Hres. unfold ServeRouter.
  case_bool_decide.
  { destruct r; [split; [done|by right]|]. do 2 eexists. split_and!; [done..|by right]. }
  rewrite Hu. cbn [wrap]. cbv zeta. set (s := NewServer _ _) in *.
  assert (∀ w w' e, router_wf w → NewDeviceRouter realm ids1 ids2 w = (w', Fail e) →
    realms (rt w') = ∅) as Hfail by (intros; by eapply NewDeviceRouter_fails).
  pose proof (serve_url_run s u (host m)) as Hl. rewrite <-Hres in Hl.
  destruct r as [r|].
  - erewrite bind_Val by done.
    apply start_listening; [done|apply NewDeviceRouter_orderly|done|by left|].
    intros l m1 Hwf1 Hc Hs.
    apply (on_error_step _ _ id l r m m1); try done.
    { apply tidy_on_rt, ConnectInMemory_orderly. }
    { by apply on_rt_nb; [apply ConnectInMemory_orderly|]. }
    intros b m2 Hwf2 Hs2. apply (on_error_step _ _ id l r m m2); try done.
    { apply SetupWebRTC_tidy. }
    { by apply SetupWebRTC_nb. }
    intros [] m3 Hwf3 Hs3.
    destruct (stop_run l r (host m) m3 Hwf3 (proj1 Hwf) Hc Hs3) as (? & ? & ?).
    split_and!; try done. simpl. rewrite Hc. by apply wf_fresh, Hwf.
  - destruct Hl as [e Hl]. erewrite bind_Val by done.
    destruct (orderly_calm _ _ (NewDeviceRouter_orderly realm ids1 ids2) (proj2 Hwf)) as [Hr1 Hret].
    destruct (NewDeviceRouter realm ids1 ids2 (router m)) as [w1 v] eqn:Hn. cbn [fst snd] in *.
    assert (on_rt (NewDeviceRouter realm ids1 ids2) m =
      (mkMachine (host m) w1 (relayed m) (dropped m) (channels m), v)) as Hon
      by (unfold on_rt; by rewrite zoom_run, Hn).
    destruct Hret as [[[] ->]|[e1 ->]].
    2: { do 2 eexists. split; [by apply bind_Fail|]. split; [done|left].
         exact (Hfail _ _ _ (proj1 (proj2 Hwf)) Hn). }
    rewrite (bind_Val _ _ _ _ _ Hon).
    unfold on_error, on_host, mbind, M_bind, try. rewrite zoom_run. cbn [host]. rewrite Hl.
    cbn [fst snd]. match goal with |- context [close_router ?x] =>
      destruct (close_router_run x (conj (proj1 Hwf) Hr1)) as (Hv & He & Hhost & _);
      destruct (close_router x) as [m2 v] end.
    cbn [fst snd] in *. subst v. do 2 eexists. split_and!; [done|by rewrite Hhost|by left].
Qed.

Lemma app_layer_router_orderly realm ids1 ids2 : orderly (app_layer_router realm ids1 ids2).
Proof.
  assert (∀ (c : M RouterW unit), orderly c → orderly (or_close c)) as Hoc.
  { intros c Hc. apply orderly_bind; [by apply orderly_try|]. intros [x|e]; [apply orderly_ret|].
    apply orderly_bind; [apply Close_orderly|]. intros _. apply orderly_fail. }
  apply orderly_bind; [apply NewRouter_orderly|]. intros _.
  apply orderly_bind; [apply Hoc, AddRealm_orderly|]. intros _. apply Hoc, SetRealmAuthorizer_orderly.
Qed.

Lemma app_layer_router_fails realm ids1 ids2 w w' e :
  router_wf w → app_layer_router realm ids1 ids2 w = (w', Fail e) → realms (rt w') = ∅.
Proof.
  intros Hwf [Hf|(x & w1 & Hn & Hr)]%bind_Fail_inv; [done|].
  assert (router_wf w1) as Hwf1.
  { destruct (NewRouter_orderly (Some DefaultRouterConfig) ids1 w Hwf) as (Hk & _). by rewrite Hn in Hk. }
  apply bind_Fail_inv in Hr as [Hr|(y & w2 & Hy & Hr)].
  - eapply or_close_fails; [apply AddRealm_keeps|exact Hwf1|exact Hr].
  - eapply or_close_fails; [|exact (kept _ _ _ _ (or_close_keeps _ (AddRealm_keeps _ _ _)) Hwf1 Hy)|exact Hr].
    apply orderly_keeps, SetRealmAuthorizer_orderly.
Qed.

(** [StartAppLayer] likewise: the app layer is served on one Unix socket, as a
    raw socket and without an authenticator, or nothing is left open. *)
Theorem StartAppLayer_starts_one realm socketPath ids1 ids2 ids3 m :
  machine_wf m →
  starts_one fst (Clients "unix" socketPath ListenerRawSocket (NewServer None (Some default_server_config)))
    m (StartAppLayer realm socketPath ids1 ids2 ids3 m).
Proof.
  intros Hwf. unfold StartAppLayer.
  apply start_listening; [done|apply app_layer_router_orderly|intros; by eapply app_layer_router_fails
    |left; apply ListenAndServe_run|].
  intros l m1 Hwf1 Hc Hs. set (r := Clients _ _ _ _) in *.
  apply (on_error_step _ _ fst l r m m1); try done.
  { apply tidy_on_rt, ConnectInMemory_orderly. }
  { by apply on_rt_nb; [apply ConnectInMemory_orderly|]. }
  intros b m2 Hwf2 Hs2.
  destruct (stop_run l r (host m) m2 Hwf2 (proj1 Hwf) Hc Hs2) as (? & ? & ?).
  split_and!; try done. simpl. rewrite Hc. by apply wf_fresh, Hwf.
Qed.
End Device.

(** *** The configured server *)

Section NxtSpec.
Context `{!WampConstantsOk} `{Env} (fmt_U : nat → string).
Implicit Types (a : authority).

Definition transport_protocol (t : Config.Transport) : ListenerType :=
  if bool_decide (Config.Type_ t = "websocket") then ListenerWebSocket
  else if bool_decide (Config.Type_ t = "universal") then ListenerUniversalTCP
  else ListenerRawSocket.

(** The socket of a transport. *)
Definition transport_socket a (t : Config.Transport) (r : resource authority) : Prop :=
  ∃ address, transport_address t = Returns (Ok address) ∧
    r = Clients (Config.Listener t) address (transport_protocol t) (transport_server a t).

Lemma transport_address_returns t :
  valid_transport t → ∃ r, transport_address t = Returns r.
Proof.
  intros Hv. unfold transport_address. case_bool_decide; [|by eexists].
  pose proof (vt_address t Hv) as [Hne _]. unfold resolveUnixSocketPath.
  destruct (Config.Address t); [done|]. case_bool_decide; by eexists.
Qed.

Lemma start_transport_run a t m :
  valid_transport t → host_wf (host m) →
  (∃ e h', start_transport a t m = (mkMachine h' (router m) (relayed m) (dropped m) (channels m), Fail e) ∧
     sockets h' = sockets (host m) ∧ next_socket h' = next_socket (host m)) ∨
  (∃ r l h', start_transport a t m =
       (mkMachine h' (router m) (relayed m) (dropped m) (channels m), Val (Some l)) ∧
     transport_socket a t r ∧ closer l = next_socket (host m) ∧ grown [r] (host m) h').
Proof.
  intros Hv Hwf. unfold start_transport.
  destruct (transport_address_returns t Hv) as [[address|e] Ha]; rewrite Ha.
  2: { left. exists e, (host m). split; [|done]. simpl. by destruct m. }
  assert (∀ f, f = ListenAndServe (transport_protocol t) →
    let run := (l ← on_host (f (transport_server a t) (Config.Listener t) address); mret (Some l)) m in
    (∃ e h', run = (mkMachine h' (router m) (relayed m) (dropped m) (channels m), Fail e) ∧
       sockets h' = sockets (host m) ∧ next_socket h' = next_socket (host m)) ∨
    (∃ r l h', run = (mkMachine h' (router m) (relayed m) (dropped m) (channels m), Val (Some l)) ∧
       transport_socket a t r ∧ closer l = next_socket (host m) ∧ grown [r] (host m) h')) as Hlisten.
  { intros f ->. cbv zeta. unfold on_host. rewrite bind_effect, zoom_run. cbn [fst snd].
    destruct (ListenAndServe_run (transport_protocol t) (transport_server a t) (Config.Listener t)
      address (host m) Hwf) as [(e & h' & He & Hs & Hn)|(l & h' & He & Hc & Hs & Hn)]; rewrite He.
    - left. by do 2 eexists.
    - right. do 3 eexists. split; [done|]. split; [by eexists|]. split; [done|].
      apply grown_wf; simpl; [done| |lia]. by rewrite Hs, Hc. }
  pose proof (vt_type t Hv) as Ht. rewrite !elem_of_cons in Ht. cbn [of_outcome of_result].
  erewrite bind_Val by done. unfold transport_protocol in *.
  destruct Ht as [Ht|[Ht|[Ht|[]%not_elem_of_nil]]]; rewrite Ht in *; by apply Hlisten.
Qed.

Lemma add_sockets_lookup n rs i r x :
  rs !! i = Some r → add_sockets n rs x !! (n + i)%nat = Some r.
Proof.
  assert (∀ rs n k x, k < n → add_sockets n rs x !! k = x !! k) as Hlow.
  { clear. induction rs as [|r rs IH]; intros n k x Hk; simpl; [done|].
    rewrite IH by lia. by rewrite lookup_insert_ne by lia. }
  revert n i x. induction rs as [|r0 rs IH]; intros n [|i] x; simpl; try done.
  - intros [= ->]. rewrite Hlow by lia. by rewrite Nat.add_0_r, lookup_insert_eq.
  - intros Hi. replace (n + S i)%nat with (S n + i)%nat by lia. by apply IH.
Qed.

(** The transports that were started when the loop ends: all of them, or those
    before the one that failed, whose sockets stay open. *)
Definition transports_outcome a (ts : list Config.Transport) m
    (o : machine * exec (list (option Listener))) : Prop :=
  ∃ rs, Forall2 (transport_socket a) (take (length rs) ts) rs ∧
    grown rs (host m) (host o.1) ∧ router o.1 = router m ∧
    match o.2 with
    | Val cs => length rs = length ts ∧
        map (fmap closer) cs = map Some (seq (next_socket (host m)) (length ts))
    | Fail _ => length rs < length ts
    | _ => False
    end.

Lemma start_transports_run a ts m :
  (∀ t, t ∈ ts → valid_transport t) → host_wf (host m) →
  transports_outcome a ts m (start_transports a ts m).
Proof.
  revert m. induction ts as [|t ts IH]; intros m Hv Hwf; cbn [start_transports].
  { exists []. split; [by apply Forall2_nil|]. split; [by apply grown_wf; simpl; [..|lia]|done]. }
  destruct (start_transport_run a t m) as [(e & h' & Hr & Hs & Hn)|(r & l & h' & Hr & Ht & Hc & Hg)];
    [apply Hv; set_solver|done|..].
  - rewrite (bind_Fail _ _ _ _ _ Hr). exists [].
    split; [by apply Forall2_nil|]. split; [apply grown_wf; simpl; [done|done|lia]|].
    split; [done|simpl; lia].
  - rewrite (bind_Val _ _ _ _ _ Hr). set (m1 := mkMachine h' _ _ _ _).
    destruct (IH m1) as (rs & Hf & Hg1 & Hro & Hm); [intros; apply Hv; set_solver|apply Hg|].
    pose proof (grown_trans _ _ _ _ _ Hg Hg1) as Hg2. unfold mbind, M_bind.
    destruct (start_transports a ts m1) as [m2 [cs|e|why|]]; simpl in *; try done.
    + exists (r :: rs). split_and!; [by apply Forall2_cons|done|done|]. destruct Hm as [Hlen Hcs].
      destruct Hg as (_ & Hn & _). simpl in *. split; [lia|]. rewrite Hcs, Hc, Hn.
      by rewrite Nat.add_1_r.
    + exists (r :: rs). split_and!; [by apply Forall2_cons|done|done|simpl; lia].
Qed.

(** A configuration that is valid gets its router and one socket for every
    transport, in their order, with its protocol, network, address and rate
    limit; the closers are theirs.  When a transport fails, the sockets of the
    transports before it stay open and the router keeps its realms: nobody
    holds what would close them. *)
Theorem configured_server_listens data text decode c ids m :
  host_wf (host m) → data = Ok text → decode text = Ok c → valid c →
  Config.Management c = false → is_ok (config_level c) = true →
  NoDup (map Config.Name (Config.Realms c)) → (∀ r, r ∈ Config.Realms c → distinct_roles r) →
  ∃ m1, host m1 = host m ∧ built (Config.Realms c) (router m1) ∧
    let a := NewAuthenticator (Config.Authenticators_ c) in
    transports_outcome a (Config.Transports c) m1
      (StartServerFromConfigFile fmt_U data decode ids m).
Proof.
  intros Hwf -> Hd Hv Hm Hl Hnd Hdr.
  destruct (start_router_builds fmt_U c ids (router m) Hv Hm Hl Hnd Hdr) as (w & Hw & Hb).
  exists (mkMachine (host m) w (relayed m) (dropped m) (channels m)). split_and!; [done..|].
  cbv zeta. unfold StartServerFromConfigFile. cbn [wrap]. erewrite bind_Val by done.
  rewrite Hd. cbn [wrap]. erewrite bind_Val by done.
  erewrite bind_Val by (unfold on_rt; rewrite zoom_run, Hw; done).
  apply start_transports_run; [apply Hv|done].
Qed.

End NxtSpec.

End MachineSpec.
