(* ===== verification/DemoServers.v ===== *)
(** * Example servers (examples/server/)

    The four programs make a router with one realm, listen, and serve until they
    are interrupted.  They differ in what they listen for, the realm and who may
    connect. *)

From S2P Require Import Prelude GoStd GoPath Wamp Accessors Permissions Peers Acceptor Dialing Realm Router RouterEnds Server Listeners Auth NxtAuth NxtConfig DeviceAuth Bridge Cloud Wiring.

Local Open Scope string_scope.

Section DemoServers.
Context `{WampMessages} `{!WampSerializers} `{!WampRouting} `{WampConstants}
  `{MapRange} `{FmtV} `{LogLevels} `{OS authority}.

(** How the process ends: [log.Fatal] writes the error and exits without the deferred
    calls. *)
Inductive process_end := Returned | Fatal (e : error).

(** [<-closeChan] *)
Definition wait_for_interrupt (interrupted : bool) : M machine process_end := λ m,
  if interrupted then (m, Val Returned) else (m, Blocks).

(** [listen]: the method of the server; [ids]: the ids that are generated. *)
Definition run_server (listen : server authority → string → string → M (Host authority) Listener)
    (a : option authority) (realm address : string) (ids : Z * string) (interrupted : bool) : M machine process_end :=
  r ← try (on_rt (NewRouter None ids));
  match r with
  | Err e => mret (Fatal e)
  | Ok _ =>
      r ← try (on_rt (AddRealm realm (Some DefaultRealmConfig) ids));
      match r with
      | Err e => mret (Fatal e)
      | Ok _ =>
          closer ← try (on_host (listen (NewServer a None) Listeners.NetworkTCP address));
          match closer with
          | Err e => mret (Fatal ("Failed to start server:" +:+ e))
          | Ok closer =>
              defer close_router (defer (close_listener closer) (wait_for_interrupt interrupted))
          end
      end
  end.

(** The flags of the programs: host, port and realm. *)
Definition websocket_main (host : string) (port : Z) (realm : string) :=
  run_server ListenAndServeWebSocket None realm (host +:+ ":" +:+ pretty port).
Definition rawsocket_main (host : string) (port : Z) (realm : string) :=
  run_server ListenAndServeRawSocket None realm (host +:+ ":" +:+ pretty port).
Definition universaltcp_main (host : string) (port : Z) (realm : string) :=
  run_server ListenAndServeUniversal None realm (host +:+ ":" +:+ pretty port).
Definition authenticator_main (authenticator : nat) :=
  run_server ListenAndServeWebSocket (Some (Given authenticator)) "realm1" "localhost:8080".

End DemoServers.

Section DemoServersSpec.
Context `{WampMessagesOk} `{!WampSerializers} `{!WampRouting} `{!WampRoutingOk}
  `{WampConstants} `{MapRange} `{FmtV} `{LogLevels} `{OS authority}.
Implicit Types (m : machine).

Lemma try_on_rt_run {B} (c : M RouterW B) m :
  orderly c → machine_wf m →
  ∃ m', machine_wf m' ∧ host m' = host m ∧
    ((∃ x, c (router m) = (router m', Val x) ∧ try (on_rt c) m = (m', Val (Ok x))) ∨
     (∃ e, c (router m) = (router m', Fail e) ∧ try (on_rt c) m = (m', Val (Err e)))).
Proof.
  intros Hc [Hh Hr]. unfold on_rt, try. rewrite zoom_run.
  destruct (orderly_calm c _ Hc Hr) as [Hwf Hv]. destruct (c (router m)) as [w v]. cbn [fst snd] in *.
  exists (mkMachine (host m) w (relayed m) (dropped m) (channels m)). split_and!; [by split|done|].
  destruct Hv as [[x ->]|[e ->]]; [left; by exists x|right; by exists e].
Qed.

Lemma added_realm realm cfg ids (w w' : RouterW) x :
  cfg_Authorizer cfg = None → cfg_Meta cfg = false →
  AddRealm realm (Some cfg) ids w = (w', Val x) → is_Some (realms (rt w') !! realm).
Proof.
  intros Ha Hm Hadd. destruct (realms (rt w) !! realm) as [q|] eqn:Hfree.
  - unfold AddRealm, load_realm in Hadd. erewrite bind_Val in Hadd by done. by rewrite Hfree in Hadd.
  - pose proof (AddRealm_adds realm cfg ids w Ha Hm Hfree) as Hadds. cbv zeta in Hadds.
    rewrite Hadd in Hadds. cbn [fst snd] in Hadds. case_bool_decide.
    + destruct Hadds as (_ & p & r & _ & _ & -> & _). rewrite lookup_insert_eq. by eexists.
    + by destruct Hadds as [_ [e ?]].
Qed.

(** One of the four servers: it listens for its kind of clients, with the
    authenticator that it was made with.  Unless the process exits with an error, when
    nothing was opened, it serves until it is interrupted, with the realm in its
    router and one socket more than before; then the socket is closed and no realm is
    left. *)
Theorem example_server_serves protocol a realm address ids interrupted m :
  machine_wf m →
  match run_server (ListenAndServe protocol) a realm address ids interrupted m with
  | (m', Val (Fatal e)) => sockets (host m') = sockets (host m)
  | (m', Val Returned) =>
      interrupted = true ∧ sockets (host m') = sockets (host m) ∧ realms (rt (router m')) = ∅
  | (m', Blocks) =>
      interrupted = false ∧ is_Some (realms (rt (router m')) !! realm) ∧
      ∃ k, sockets (host m) !! k = None ∧
        sockets (host m') = <[k := Clients Listeners.NetworkTCP address protocol (NewServer a None)]> (sockets (host m))
  | _ => False
  end.
Proof.
  intros Hwf. unfold run_server.
  destruct (try_on_rt_run _ m (NewRouter_orderly None ids) Hwf) as (m1 & Hwf1 & Hh1 & [(x & _ & E)|(e & _ & E)]);
    rewrite (bind_Val _ _ _ _ _ E); [|by cbn; rewrite Hh1].
  destruct (try_on_rt_run _ m1 (AddRealm_orderly realm (Some DefaultRealmConfig) ids) Hwf1)
    as (m2 & Hwf2 & Hh2 & [(y & Hadd & E2)|(e & _ & E2)]);
    rewrite (bind_Val _ _ _ _ _ E2); [|by cbn; rewrite Hh2, Hh1].
  assert (is_Some (realms (rt (router m2)) !! realm)) as Hrealm by exact (added_realm realm DefaultRealmConfig _ _ _ _ eq_refl eq_refl Hadd).
  destruct (ListenAndServe_run protocol (NewServer a None) Listeners.NetworkTCP address (host m2) (proj1 Hwf2))
    as [(e & h' & Hl & Hs & Hn)|(l & h' & Hl & Hc & Hs & Hn)];
    unfold on_host; rewrite bind_effect; unfold try; rewrite zoom_run, Hl; cbn [fst snd].
  { cbn. by rewrite Hs, Hh2, Hh1. }
  rewrite Hh2, Hh1 in Hs, Hc.
  assert (sockets (host m) !! closer l = None) as Hnone.
  { rewrite Hc. rewrite <-Hh1, <-Hh2. apply wf_fresh, Hwf2. }
  assert (host_wf h') as Hwf'.
  { intros k r'. rewrite Hs, Hn, Hc. destruct Hwf as [Hh _]. rewrite Hh2, Hh1.
    intros [[<- _]|[_ Hk]]%lookup_insert_Some; [lia|]. specialize (Hh _ _ Hk). lia. }
  set (m3 := mkMachine h' _ _ _ _). unfold defer, wait_for_interrupt. destruct interrupted.
  - rewrite close_listener_run. cbn [fst snd].
    destruct (close_socket_run (closer l) (Clients Listeners.NetworkTCP address protocol (NewServer a None)) h')
      as (_ & Hdel & _); [by rewrite Hs, lookup_insert_eq|].
    destruct (close_router_run (mkMachine (Listener_Close l (host m3)).1 (router m3) (relayed m3)
      (dropped m3) (channels m3))) as (Hv & He & Hhost & _); [split; [apply close_socket_wf, Hwf'|apply Hwf2]|].
    destruct (close_router _) as [m4 v4]. cbn [fst snd] in *. subst v4.
    split; [done|]. rewrite Hhost. split; [|exact He]. unfold Listener_Close. cbn [host m3].
    by rewrite Hdel, Hs, delete_insert_id.
  - split; [done|]. split; [exact Hrealm|]. by exists (closer l).
Qed.

End DemoServersSpec.
