(* ===== verification/Commands.v ===== *)
(** * The commands (cmd/nxt/main.go, cmd/xconn/main.go)

    [Run]: the flags as package flag reads them, the files of [init], and [start],
    which serves a configuration until it is interrupted.  [device_main] serves
    the device router on a URL; its flags are read by another module. *)

From S2P Require Import Prelude GoStd FilePath Wamp Values Accessors Permissions Peers Acceptor Realm Router RouterEnds Server Listeners Auth NxtAuth NxtConfig DeviceAuth Bridge Dialing Wiring.

Local Open Scope string_scope.

(** ** package flag *)

(** What [Parse] comes to with [flag.ExitOnError]: the value of the one variable,
    or the end of the process. *)
Inductive parsed := Parsed (value : string) | Exits (code : Z).

(** The index of the first [=] after the first byte splits a flag. *)
Fixpoint split_equals (s : string) : string * option string :=
  match s with
  | EmptyString => ("", None)
  | String c s =>
      if bool_decide (c = "="%char) then ("", Some s)
      else let '(n, v) := split_equals s in (String c n, v)
  end.

(** The name of a flag, after one or two dashes; [None]: not a flag. *)
Definition flag_name (s : string) : option string :=
  match s with
  | String "-" (String "-" name) => Some name
  | String "-" (String c name) => Some (String c name)
  | _ => None
  end.

(** [fs.Parse] with the flags [names], all of the same variable. *)
Fixpoint parse_flags (names : list string) (value : string) (args : list string) : parsed :=
  match args with
  | [] => Parsed value
  | s :: args =>
      match flag_name s with
      | None => Parsed value
      | Some name =>
          if bool_decide (s = "--") then Parsed value
          else if bool_decide (name = "" ∨ HasPrefix name "-" = true ∨ HasPrefix name "=" = true)
          then Exits 2
          else
            match split_equals name with
            | (name, given) =>
                if bool_decide (name ∈ names) then
                  match given, args with
                  | Some v, _ => parse_flags names v args
                  | None, v :: args => parse_flags names v args
                  | None, [] => Exits 2
                  end
                else if bool_decide (name = "help" ∨ name = "h") then Exits 0 else Exits 2
            end
      end
  end.

(** ** The command *)

Definition versionString : string := "0.1.0".
Definition DirectoryConfig : string := ".nxt".

Inductive output := Usage (cwd : string) | Version.
Inductive run_end := Returned | Exited (code : Z).

(** The path of the configuration. *)
Definition configFile (configDir : string) : string :=
  let configDirPath := Clean (filepath_Join configDir DirectoryConfig) in
  Clean (filepath_Join configDirPath "config.yaml").

Section Commands.
Context `{WampMessages} `{!WampSerializers} `{!WampRouting} `{WampConstants}
  `{MapRange} `{FmtV} `{LogLevels} `{OS authority} `{Env}.
Context (fmt_U : nat → string) (decode : string → result Config.Config) (ids : Z * string)
  (sampleConfig : string).

(** [disk]: the contents of the files, by their cleaned paths. *)
Record process := mkProcess {
  printed : list output; disk : gmap string string; mach : machine }.

Definition print (o : output) : M process unit :=
  modify (λ p, mkProcess (printed p ++ [o])%list (disk p) (mach p)).
Definition on_machine {B} : M machine B → M process B :=
  zoom mach (λ m p, mkProcess (printed p) (disk p) m).

(** The loop returns at the first flag that it knows, and the caller goes on. *)
Fixpoint handleGlobalFlags (cwd : string) (args : list string) : M process unit :=
  match args with
  | [] => mret tt
  | arg :: args =>
      if bool_decide (arg ∈ ["-v"; "--version"]) then print Version
      else if bool_decide (arg ∈ ["-h"; "--help"; "help"]) then print (Usage cwd)
      else handleGlobalFlags cwd args
  end.

(** The results of [OpenRoot], of [MkdirAll] and of [WriteFile] in the root. *)
Record init_results := { opened : result unit; made : result unit; wrote : result unit }.

Definition init_config (r : init_results) (configDir : string) : M process run_end :=
  of_result (opened r);;
  of_result (made r);;
  of_result (wrap "unable to write config: " (wrote r));;
  modify (λ p, mkProcess (printed p)
    (<[Clean (configDir +:+ "/" +:+ filepath_Join DirectoryConfig "config.yaml") := sampleConfig]> (disk p))
    (mach p));;
  mret Returned.

(** [closer.Close()] for every closer. *)
Definition close_all (closers : list (option Listener)) : M machine unit :=
  for_M (λ c, match c with
              | Some l => close_listener l
              | None => crash "invalid memory address or nil pointer dereference"
              end) closers.

Definition read_file (path : string) (p : process) : result string :=
  match disk p !! path with
  | Some text => Ok text
  | None => Err ("open " +:+ path +:+ ": no such file or directory")
  end.

(** [interrupted]: whether the signal comes. *)
Definition start (interrupted : bool) (configDir : string) : M process run_end :=
  data ← get (read_file (configFile configDir));
  closers ← on_machine (StartServerFromConfigFile fmt_U data decode ids);
  if interrupted then on_machine (close_all closers);; mret Returned
  else λ p, (p, Blocks).

Definition Run (cwd : string) (r : init_results) (interrupted : bool) (args : list string)
    : M process run_end :=
  match args with
  | _ :: cmd :: rest =>
      handleGlobalFlags cwd (cmd :: rest);;
      match parse_flags ["config"; "c"] cwd rest with
      | Exits code => mret (Exited code)
      | Parsed configDir =>
          if bool_decide (cmd = "init") then init_config r configDir
          else if bool_decide (cmd = "start") then start interrupted configDir
          else print (Usage cwd);; mret Returned
      end
  | _ => print (Usage cwd);; mret Returned
  end.

End Commands.

(** ** Paths *)

#[local] Arguments String.append : simpl nomatch.

Lemma split_slash_cons s : ∃ e es, split_slash s = e :: es.
Proof.
  induction s as [|c s (e & es & He)]; simpl; [by do 2 eexists|].
  case_bool_decide; [by do 2 eexists|]. rewrite He. by do 2 eexists.
Qed.

Lemma split_slash_app a b : split_slash (a +:+ String "/" b) = (split_slash a ++ split_slash b)%list.
Proof.
  induction a as [|c a IH]; [done|].
  change (String c a +:+ String "/" b) with (String c (a +:+ String "/" b)). cbn [split_slash].
  case_bool_decide; [by rewrite IH|]. rewrite IH. destruct (split_slash_cons a) as (e & es & ->). done.
Qed.

(** An element of a path: not empty, not a dot, without a slash. *)
Definition element (e : string) : Prop := e ≠ "" ∧ e ≠ "." ∧ split_slash e = [e].

(** The elements that cleaning leaves, last first. *)
Fixpoint reduced (rooted : bool) (acc : list string) : Prop :=
  match acc with
  | [] => True
  | e :: acc => element e ∧ reduced rooted acc ∧
      (e = ".." → rooted = false ∧ Forall (eq "..") acc)
  end.

Lemma split_slash_elements s e : e ∈ split_slash s → split_slash e = [e].
Proof.
  revert e. induction s as [|c s IH]; intros e; simpl.
  { intros [->|[]%not_elem_of_nil]%elem_of_cons. done. }
  case_bool_decide as Hc.
  { intros [->|He]%elem_of_cons; [done|by apply IH]. }
  destruct (split_slash_cons s) as (e0 & es & He). rewrite He in *.
  intros [->|Hin]%elem_of_cons; [|apply IH; by right].
  cbn [split_slash]. rewrite bool_decide_eq_false_2 by done. by rewrite (IH e0) by by left.
Qed.

Lemma clean_step_reduced rooted acc e :
  split_slash e = [e] → reduced rooted acc → reduced rooted (clean_step rooted acc e).
Proof.
  intros He Hr. unfold clean_step. case_bool_decide as Hd; [done|].
  assert (e ≠ "" ∧ e ≠ ".") as [Hne Hnd] by naive_solver. case_bool_decide as Hdd.
  - subst e. destruct acc as [|x acc].
    { destruct rooted; [done|]. simpl. split_and!; done. }
    destruct Hr as (Hx & Hr & Hxx). destruct (decide (x = "..")) as [->|Hn].
    + destruct (Hxx eq_refl) as [-> Hf]. simpl. split_and!; try done; by intros _; split; [|constructor].
    + repeat case_match; subst; try done; congruence.
  - simpl. split_and!; done.
Qed.

Lemma foldl_reduced rooted es acc :
  (∀ e, e ∈ es → split_slash e = [e]) → reduced rooted acc →
  reduced rooted (foldl (clean_step rooted) acc es).
Proof.
  revert acc. induction es as [|e es IH]; intros acc He Hr; [done|]. simpl.
  apply IH; [set_solver|]. apply clean_step_reduced; [set_solver|done].
Qed.

Lemma foldl_rev_reduced rooted acc :
  reduced rooted acc → foldl (clean_step rooted) [] (rev acc) = acc.
Proof.
  induction acc as [|e acc IH]; [done|]. intros ((Hne & Hnd & _) & Hr & Hdd). cbn [rev].
  rewrite foldl_app, IH by done. simpl. unfold clean_step.
  rewrite bool_decide_eq_false_2 by naive_solver. case_bool_decide as He; [|done].
  destruct (Hdd He) as [-> Hf]. subst e. destruct Hf as [|x acc <- Hf]; done.
Qed.

Lemma Join_elements es :
  es ≠ [] → (∀ e, e ∈ es → split_slash e = [e]) → split_slash (GoStd.Join es "/") = es.
Proof.
  induction es as [|e [|e2 es] IH]; intros Hne He; [done| |].
  - simpl. apply He. by left.
  - change (GoStd.Join (e :: e2 :: es) "/") with (e +:+ String "/" (GoStd.Join (e2 :: es) "/")).
    rewrite split_slash_app, (He e) by by left. rewrite IH; [done|done|set_solver].
Qed.

Lemma reduced_elements rooted acc e : reduced rooted acc → e ∈ rev acc → element e.
Proof.
  intros Hr. rewrite list_elem_of_In, <-in_rev, <-list_elem_of_In. revert Hr.
  induction acc as [|x acc IH]; [by intros _ []%not_elem_of_nil|].
  intros (Hx & Hr & _) [->|He]%elem_of_cons; [done|by apply IH].
Qed.

(** What cleaning a path comes to. *)
Definition elements (p : string) : list string :=
  foldl (clean_step (HasPrefix p "/")) [] (split_slash p).

Lemma HasPrefix_slash_app a b : a ≠ "" → HasPrefix (a +:+ b) "/" = HasPrefix a "/".
Proof. by destruct a. Qed.

Lemma Clean_elements p : reduced (HasPrefix p "/") (elements p).
Proof. apply foldl_reduced; [intros e He; by eapply split_slash_elements|done]. Qed.

(** Cleaning a path changes neither its elements nor whether it is rooted. *)
Lemma Clean_same p :
  p ≠ "" → Clean p ≠ "" ∧ HasPrefix (Clean p) "/" = HasPrefix p "/" ∧
  foldl (clean_step (HasPrefix p "/")) [] (split_slash (Clean p)) = elements p.
Proof.
  intros Hp. pose proof (Clean_elements p) as Hr. unfold Clean.
  fold (elements p). set (es := rev (elements p)).
  assert (∀ e, e ∈ es → element e) as Hel by (intros e; by apply reduced_elements with (HasPrefix p "/")).
  assert (foldl (clean_step (HasPrefix p "/")) [] es = elements p) as Hfold
    by by apply foldl_rev_reduced.
  assert (es ≠ [] → split_slash (GoStd.Join es "/") = es) as Hsplit.
  { intros Hne. apply Join_elements; [done|]. intros e He. by destruct (Hel e He) as (_ & _ & ?). }
  destruct (HasPrefix p "/") eqn:Hroot.
  - split_and!; [done|done|]. change ("/" +:+ ?s) with (String "/" s). cbn [split_slash].
    rewrite bool_decide_eq_true_2 by done. simpl.
    destruct es as [|e es'] eqn:Hes; [by rewrite <-Hfold|]. by rewrite Hsplit.
  - destruct es as [|e es'] eqn:Hes.
    + simpl. split_and!; [done|done|by rewrite <-Hfold].
    + rewrite <-Hes in *. assert (GoStd.Join es "/" ≠ "") as Hne.
      { rewrite Hes. destruct (Hel e) as (He & _); [rewrite Hes; by left|].
        destruct e as [|c e]; [done|]. by destruct es'. }
      rewrite bool_decide_eq_false_2 by done. split_and!; [done| |].
      * rewrite Hes. destruct (Hel e) as (He & _ & Hse); [rewrite Hes; by left|].
        destruct e as [|c e]; [done|]. cbn [split_slash] in Hse. case_bool_decide as Hc; [done|].
        destruct es'; simpl; by rewrite bool_decide_eq_false_2.
      * rewrite Hsplit by by rewrite Hes. done.
Qed.

(** The element [b] is joined to a path as it is joined to the cleaned path. *)
Lemma Clean_join a b : a ≠ "" → Clean (Clean a +:+ String "/" b) = Clean (a +:+ String "/" b).
Proof.
  intros Ha. destruct (Clean_same a Ha) as (Hne & Hroot & Hf). unfold Clean at 1 3.
  rewrite !HasPrefix_slash_app, Hroot by done. rewrite !split_slash_app, !foldl_app, Hf. done.
Qed.

Lemma Clean_idemp a : a ≠ "" → Clean (Clean a) = Clean a.
Proof.
  intros Ha. destruct (Clean_same a Ha) as (Hne & Hroot & Hf). unfold Clean at 1 3.
  by rewrite Hroot, Hf.
Qed.

(** [init] writes the file that [start] reads. *)
Lemma configFile_path dir :
  dir ≠ "" → configFile dir = Clean (dir +:+ "/" +:+ filepath_Join DirectoryConfig "config.yaml").
Proof.
  intros Hd. unfold configFile, filepath_Join at 2. rewrite bool_decide_eq_false_2 by done.
  change ("/" +:+ DirectoryConfig) with "/.nxt".
  assert (dir +:+ "/.nxt" ≠ "") as Hne by by destruct dir.
  rewrite Clean_idemp by done. unfold filepath_Join at 1.
  rewrite bool_decide_eq_false_2 by by apply (Clean_same _ Hne).
  change ("/" +:+ "config.yaml") with (String "/" "config.yaml").
  rewrite Clean_join by done. rewrite Clean_idemp by by destruct dir.
  by rewrite string_app_assoc.
Qed.

(** ** What the command does *)

Section CommandsSpec.
Context `{WampMessagesOk} `{!WampSerializers} `{!WampRouting} `{!WampRoutingOk} `{WampConstants}
  `{!WampConstantsOk} `{MapRange} `{FmtV} `{LogLevels} `{OS authority} `{Env}.
Context (fmt_U : nat → string) (decode : string → result Config.Config) (ids : Z * string)
  (sampleConfig : string).
Implicit Types (p : process) (m : machine).

Definition global_flags : list string := ["-v"; "--version"; "-h"; "--help"; "help"].

Lemma handleGlobalFlags_none cwd args p :
  Forall (λ a, a ∉ global_flags) args → handleGlobalFlags cwd args p = (p, Val tt).
Proof.
  induction 1 as [|a args Ha _ IH]; [done|]. cbn [handleGlobalFlags]. unfold global_flags in Ha.
  rewrite !bool_decide_eq_false_2 by set_solver. exact IH.
Qed.

(** [nxt init] writes its configuration where [nxt start], with the same flags,
    reads it, however the directory is spelled; it touches nothing else. *)
Theorem init_prepares_start cwd r i exe rest dir p :
  parse_flags ["config"; "c"] cwd rest = Parsed dir → dir ≠ "" →
  Forall (λ a, a ∉ global_flags) rest →
  is_ok (opened r) = true → is_ok (made r) = true → is_ok (wrote r) = true →
  ∃ p1, Run fmt_U decode ids sampleConfig cwd r i (exe :: "init" :: rest) p = (p1, Val Returned) ∧
    printed p1 = printed p ∧ mach p1 = mach p ∧
    disk p1 = <[configFile dir := sampleConfig]> (disk p) ∧
    Run fmt_U decode ids sampleConfig cwd r i (exe :: "start" :: rest) p1 =
      (closers ← on_machine (StartServerFromConfigFile fmt_U (Ok sampleConfig) decode ids);
       if i then on_machine (close_all closers);; mret Returned else λ p, (p, Blocks)) p1.
Proof.
  intros Hp Hd Hg Ho Hm Hw. cbn [Run]. rewrite Hp.
  assert (∀ cmd q, cmd ∈ ["init"; "start"] →
    handleGlobalFlags cwd (cmd :: rest) q = (q, Val tt)) as Hglobal.
  { intros cmd q Hc. apply handleGlobalFlags_none. constructor; [|done].
    rewrite !elem_of_cons in Hc. unfold global_flags. destruct Hc as [->|[->|[]%not_elem_of_nil]]; set_solver. }
  rewrite (bind_Val _ _ _ _ _ (Hglobal "init" p ltac:(set_solver))).
  rewrite bool_decide_eq_true_2 by done. unfold init_config.
  destruct (opened r) as [[]|]; [|done]. destruct (made r) as [[]|]; [|done].
  destruct (wrote r) as [[]|]; [|done]. eexists. split; [done|]. cbn [printed disk mach].
  split_and!; try done.
  - by rewrite configFile_path.
  - rewrite (bind_Val _ _ _ _ _ (Hglobal "start" _ ltac:(set_solver))).
    rewrite bool_decide_eq_false_2, bool_decide_eq_true_2 by done. unfold start.
    erewrite bind_Val by (unfold get; done). unfold read_file. cbn [disk].
    rewrite <-configFile_path by done. by rewrite lookup_insert_eq.
Qed.

Lemma delete_add_sockets n k rs (x : gmap nat (resource authority)) :
  n < k → delete n (add_sockets k rs x) = add_sockets k rs (delete n x).
Proof.
  revert k x. induction rs as [|r rs IH]; intros k x Hn; simpl; [done|].
  rewrite IH by lia. by rewrite delete_insert_ne by lia.
Qed.

Lemma closers_close rs cs n (x : gmap nat (resource authority)) m :
  (∀ k, is_Some (x !! k) → k < n) → sockets (host m) = add_sockets n rs x →
  Forall (λ r, ∃ net a pr s, r = Clients net a pr s) rs →
  map (fmap closer) cs = map Some (seq n (length rs)) →
  (close_all cs m).2 = Val tt ∧ sockets (host (close_all cs m).1) = x ∧
  router (close_all cs m).1 = router m.
Proof.
  intros Hx Hs Hr. revert n x m cs Hx Hs. induction Hr as [|r rs (net & a & pr & s & ->) _ IH];
    intros n x m cs Hx Hs Hc.
  { destruct cs; [done|]. simpl in Hc. done. }
  destruct cs as [|[l|] cs]; cbn in Hc; try done. injection Hc as Hl Hc.
  unfold close_all. cbn [for_M]. rewrite bind_effect, close_listener_run. cbn [fst snd].
  assert (sockets (host m) !! closer l = Some (Clients net a pr s)) as Hk.
  { rewrite Hs, Hl. pose proof (add_sockets_lookup n (Clients net a pr s :: rs) 0 _ x eq_refl) as Hlk.
    by rewrite Nat.add_0_r in Hlk. }
  destruct (close_socket_run (closer l) _ (host m) Hk) as (_ & Hdel & _).
  unfold Listener_Close. set (m1 := mkMachine _ _ _ _ _).
  destruct (IH (S n) x m1 cs) as (Hc1 & Hc2 & Hc3).
  - intros k Hin. specialize (Hx k Hin). lia.
  - simpl. rewrite Hdel, Hs, Hl. cbn [add_sockets]. rewrite delete_add_sockets by lia. f_equal.
    rewrite delete_insert_id; [done|]. destruct (x !! n) eqn:E; [|done].
    specialize (Hx n ltac:(by eexists)). lia.
  - done.
  - by split_and!.
Qed.

(** The start of a valid configuration: the router is built, and then the transports. *)
Lemma start_run cwd r exe rest dir text c p w i :
  parse_flags ["config"; "c"] cwd rest = Parsed dir → Forall (λ a, a ∉ global_flags) rest →
  disk p !! configFile dir = Some text → decode text = Ok c →
  start_router fmt_U c ids (router (mach p)) = (w, Val tt) →
  Run fmt_U decode ids sampleConfig cwd r i (exe :: "start" :: rest) p =
    (closers ← on_machine (start_transports (NewAuthenticator (Config.Authenticators_ c)) (Config.Transports c));
     if i then on_machine (close_all closers);; mret Returned else λ p, (p, Blocks))
      (mkProcess (printed p) (disk p) (mkMachine (host (mach p)) w (relayed (mach p)) (dropped (mach p)) (channels (mach p)))).
Proof.
  intros Hp Hg Hdisk Hdec Hw. cbn [Run]. rewrite Hp.
  rewrite (bind_Val _ _ _ _ _ (handleGlobalFlags_none cwd ("start" :: rest) p
    ltac:(constructor; [unfold global_flags; set_solver|done]))).
  rewrite bool_decide_eq_false_2, bool_decide_eq_true_2 by done. unfold start.
  erewrite bind_Val by (unfold get; done). unfold read_file. rewrite Hdisk.
  rewrite !bind_effect. unfold on_machine. rewrite !zoom_run. cbn [fst snd mach printed disk].
  assert (StartServerFromConfigFile fmt_U (Ok text) decode ids (mach p) =
          start_transports (NewAuthenticator (Config.Authenticators_ c)) (Config.Transports c)
            (mkMachine (host (mach p)) w (relayed (mach p)) (dropped (mach p)) (channels (mach p)))) as ->;
    [|done].
  unfold StartServerFromConfigFile. cbn [wrap]. erewrite bind_Val by done.
  rewrite Hdec. cbn [wrap]. erewrite bind_Val by done.
  by erewrite bind_Val by (unfold on_rt; rewrite zoom_run, Hw; done).
Qed.

(** C20. [nxt start] with a valid configuration, without the management API and with
    distinct names for its realms and for the roles of each, opens a socket for each
    transport, in order, over a router with these realms.  When all are open it waits;
    at the interrupt it closes every listener, and returns.  When one cannot be opened
    it returns the error at once, and the sockets before that one stay open. *)
Theorem start_serves_until_interrupted cwd r exe rest dir text c p :
  parse_flags ["config"; "c"] cwd rest = Parsed dir →
  Forall (λ a, a ∉ global_flags) rest →
  disk p !! configFile dir = Some text → decode text = Ok c → valid c → host_wf (host (mach p)) →
  Config.Management c = false → is_ok (config_level c) = true →
  NoDup (map Config.Name (Config.Realms c)) → (∀ r, r ∈ Config.Realms c → distinct_roles r) →
  let run i := Run fmt_U decode ids sampleConfig cwd r i (exe :: "start" :: rest) p in
  let waiting := (run false).1 in
  ∃ rs,
    Forall2 (transport_socket (NewAuthenticator (Config.Authenticators_ c)))
      (take (length rs) (Config.Transports c)) rs ∧
    grown rs (host (mach p)) (host (mach waiting)) ∧
    built (Config.Realms c) (router (mach waiting)) ∧
    (∀ i, printed (run i).1 = printed p ∧ disk (run i).1 = disk p ∧
       router (mach (run i).1) = router (mach waiting)) ∧
    (length rs = length (Config.Transports c) ∧ (run false).2 = Blocks ∧
     (run true).2 = Val Returned ∧ sockets (host (mach (run true).1)) = sockets (host (mach p)) ∨
     length rs < length (Config.Transports c) ∧ run true = run false ∧ ∃ e, (run false).2 = Fail e).
Proof.
  intros Hp Hg Hdisk Hdec Hv Hwf Hm Hl Hnd Hdr. cbv zeta.
  destruct (start_router_builds fmt_U c ids (router (mach p)) Hv Hm Hl Hnd Hdr) as (w & Hw & Hb).
  set (m0 := mach p) in *. set (m1 := mkMachine (host m0) w (relayed m0) (dropped m0) (channels m0)).
  set (a := NewAuthenticator (Config.Authenticators_ c)).
  pose proof (λ i, start_run cwd r exe rest dir text c p w i Hp Hg Hdisk Hdec Hw) as Hrun.
  fold m0 m1 a in Hrun.
  destruct (start_transports_run a (Config.Transports c) m1) as (rs & Hf & Hgr & Hro & Hout);
    [apply Hv|done|].
  destruct (start_transports a (Config.Transports c) m1) as [m2 v] eqn:Hst. cbn [fst snd] in *.
  assert (∀ i, Run fmt_U decode ids sampleConfig cwd r i (exe :: "start" :: rest) p =
    match v with
    | Val cs => if i then (mkProcess (printed p) (disk p) (close_all cs m2).1,
                           match (close_all cs m2).2 with
                           | Val _ => Val Returned | Fail e => Fail e
                           | Crash why => Crash why | Blocks => Blocks end)
                else (mkProcess (printed p) (disk p) m2, Blocks)
    | Fail e => (mkProcess (printed p) (disk p) m2, Fail e)
    | Crash why => (mkProcess (printed p) (disk p) m2, Crash why)
    | Blocks => (mkProcess (printed p) (disk p) m2, Blocks)
    end) as Hruns.
  { intros i. rewrite Hrun. unfold on_machine, mbind, M_bind. rewrite zoom_run. cbn [mach].
    rewrite Hst. cbn [fst snd printed disk mach]. destruct v; try done. destruct i; [|done].
    rewrite zoom_run. cbn [fst snd printed disk mach]. by destruct (close_all _ _) as [? []]. }
  exists rs. destruct v as [cs|e|why|]; try done.
  - destruct Hout as [Hlen Hcs].
    assert (Forall (λ r, ∃ net a pr s, r = Clients net a pr s) rs) as Hcl.
    { apply Forall_forall. intros r' Hin.
      destruct (list_elem_of_lookup_1 _ _ Hin) as (j & Hj).
      destruct (Forall2_lookup_r _ _ _ _ _ Hf Hj) as (t & _ & address & _ & ->). by do 4 eexists. }
    destruct (closers_close rs cs (next_socket (host m0)) (sockets (host m0)) m2) as (Hc1 & Hc2 & Hc3).
    + intros k [x Hk]. by apply (Hwf k x).
    + by destruct Hgr as (-> & _).
    + done.
    + by rewrite Hlen.
    + rewrite !Hruns, Hc1. cbn [fst snd mach]. split_and!; [done|done|by rewrite Hro| |by left].
      intros i. rewrite Hruns. by destruct i; cbn [fst printed disk mach].
  - rewrite !Hruns. cbn [fst snd mach].
    split_and!; [done|done|by rewrite Hro|intros i; by rewrite Hruns|right; by split_and!; [..|eexists]].
Qed.

(** A command that is neither prints the usage, so that flags before the command,
    which the usage announces, are taken for it: [nxt -c dir start] starts
    nothing, and [nxt -v] prints the usage after the version. *)
Theorem unknown_commands_print_the_usage cwd r i exe cmd rest dir p :
  cmd ∉ ["init"; "start"] → parse_flags ["config"; "c"] cwd rest = Parsed dir →
  ∃ o, Run fmt_U decode ids sampleConfig cwd r i (exe :: cmd :: rest) p =
    (mkProcess (printed p ++ o ++ [Usage cwd]) (disk p) (mach p), Val Returned).
Proof.
  intros Hc Hp. cbn [Run]. rewrite Hp.
  assert (∃ o, handleGlobalFlags cwd (cmd :: rest) p =
    (mkProcess (printed p ++ o) (disk p) (mach p), Val tt)) as (o & Ho).
  { generalize (cmd :: rest). intros l. induction l as [|x l IH]; cbn [handleGlobalFlags].
    { exists []. rewrite app_nil_r. by destruct p. }
    case_bool_decide; [by eexists|]. case_bool_decide; [by eexists|]. exact IH. }
  exists o. rewrite (bind_Val _ _ _ _ _ Ho). rewrite !bool_decide_eq_false_2 by set_solver.
  erewrite bind_Val by done. cbn [printed disk mach]. by rewrite <-(assoc_L app).
Qed.

End CommandsSpec.

(** ** The device router on a URL *)

Section DeviceCommand.
Context `{WampMessagesOk} `{!WampSerializers} `{!WampRouting} `{!WampRoutingOk} `{WampConstants}
  `{MapRange} `{FmtV} `{LogLevels} `{OS authority}.
Context (Setup : ProviderConfig → M RouterW unit) (Setup_orderly : ∀ p, orderly (Setup p)).
Context (parse : string → result URL) (rawURL realm : string) (keys : list string)
  (ids1 ids2 ids3 : Z * string).

(** [interrupted]: whether the signal comes. *)
Definition device_main (interrupted : bool) : M machine run_end :=
  started ← try (ServeRouter Setup parse rawURL realm keys ids1 ids2 ids3);
  match started with
  | Err _ => mret (Exited 1)
  | Ok listener => if interrupted then stop listener;; mret Returned else λ m, (m, Blocks)
  end.

(** Either the router cannot be served, then the command exits and has left
    nothing open; or it has one socket, that of the URL, until the interrupt, and
    then closes it and the router. *)
Theorem device_command_serves m u r :
  machine_wf m → parse rawURL = Ok u →
  url_socket (NewServer (Some (Fixed (Standalone.NewStandaloneAuthenticator keys ∅)))
    (Some default_server_config)) u = Some r →
  let ended := device_main true m in
  sockets (host ended.1) = sockets (host m) ∧
  (realms (rt (router ended.1)) = ∅ ∨ ended.1 = m) ∧
  (ended.2 = Val (Exited 1) ∧ device_main false m = ended ∨
   ended.2 = Val Returned ∧ (device_main false m).2 = Blocks ∧
   ∃ k, sockets (host m) !! k = None ∧
     sockets (host (device_main false m).1) = <[k := r]> (sockets (host m))).
Proof.
  intros Hwf Hu Hr.
  pose proof (ServeRouter_starts_one Setup Setup_orderly parse rawURL realm keys ids1 ids2 ids3 m u
    (Some r) Hwf Hu (eq_sym Hr)) as Hs.
  unfold device_main, mbind, M_bind, try, mret, M_ret.
  destruct (ServeRouter _ _ _ _ _ _ _ _ m) as [m' [l|e|why|]]; cbn in Hs |- *; try done.
  - destruct Hs as (_ & Hk & Hs & Hv & Hsk & Hro). destruct (stop l m') as [m2 v].
    cbn in *. subst v. split_and!; [done|by left|]. right. split_and!; [done..|]. by exists (closer l).
  - destruct Hs as [Hs Hro]. split_and!; [done|done|]. by left.
Qed.

End DeviceCommand.
