(* ===== verification/RealmExamples.v ===== *)
(** * A sample realm

    A realm with three clients of the role [user], who may use the URIs below
    [com.]; the queue of session 3 is full.  The hypotheses of the theorems of
    [Permissions] and [Realm] hold in it. *)

From S2P Require Import Prelude GoStd GoPath Wamp Sample Permissions Peers Realm.

Local Open Scope string_scope.

Definition sample_session (id : Z) (role : string) : BaseSession :=
  {| ID := id; Realm_ := "realm1"; AuthID := "john"; AuthRole := role;
     AuthMethod := "anonymous"; AuthExtra := ∅; ref := Z.to_nat id |}.

(** Session 3 has a full queue. *)
Definition sample_net (q : nat) : base_session :=
  NewBaseSession (mkPeer TransportInMemory [] (if bool_decide (q = 3)%nat then 0 else 16)%nat false false)
    tt.

Definition sample_role : RealmRole := {| Name := "user"; Permissions := [
  {| URI := "com."; MatchPolicy := "prefix"; AllowCall := true; AllowPublish := true;
     AllowRegister := false; AllowSubscribe := true |}] |}.

Definition sample_realm : Realm :=
  mkRealm {| sessions := [1; 2; 3]%Z; entries := [("com.topic", 2); ("com.topic", 3)]%Z |}
    {| sessions := [1; 2; 3]%Z; entries := [("com.proc", 3)]%Z |}
    (<[1%Z := sample_session 1 "user"]> (<[2%Z := sample_session 2 "user"]>
      {[3%Z := sample_session 3 "user"]}))
    {["user" := sample_role]} None.

Definition sample_world : RealmW (St := base_session) := mkW sample_realm sample_net.

Definition sample_publish_msg (uri : string) : Message :=
  Typed (VPublish {| publish_id := 1; publish_topic := uri;
                     publish_options := {["acknowledge" := ABool true]} |}).
Definition sample_call (uri : string) : Message :=
  Typed (VCall {| call_id := 7; call_procedure := uri |}).

Lemma sample_clients i c :
  clients sample_realm !! i = Some c → ID c = i ∧ ref c = Z.to_nat i ∧ (1 ≤ i ≤ 3)%Z.
Proof.
  unfold sample_realm. simpl. rewrite !lookup_insert_Some, lookup_singleton_Some.
  intros [[<- <-]|[_ [[<- <-]|[_ [<- <-]]]]]; split_and!; simpl; done || lia.
Qed.

Lemma sample_wf : realm_wf sample_realm.
Proof.
  split_and!.
  - intros i c Hc. by apply sample_clients.
  - intros n r. simpl. rewrite lookup_singleton_Some. naive_solver.
  - intros i j c c' (?&?&?)%sample_clients (?&?&?)%sample_clients ?. lia.
Qed.

(** Session 3 does not take the event; session 2 gets it all the same. *)
Example event_reaches_each_subscriber_witness :
  outbox (net (handlePublish (sample_session 1 "user") (sample_publish_msg "com.topic")
    sample_world).1 2) = ["EVENT"].
Proof.
  refine (eq_trans (proj1 (proj2 (proj2 (event_reaches_each_subscriber (sample_session 1 "user")
    (sample_publish_msg "com.topic") sample_world _ _ eq_refl _ _ _))
    2 (sample_session 2 "user") eq_refl) _) _)%Z.
  - apply sample_wf.
  - by apply (bool_decide_unpack _).
  - by apply (bool_decide_unpack _).
  - by apply (bool_decide_unpack _).
  - reflexivity.
Defined.

Example denied_message_not_routed_witness :
  outbox (net (ReceiveMessage (sample_session 1 "user") (sample_call "org.proc")
    sample_world).1 1) = ["ERROR wamp.error.authorization_failed"].
Proof.
  refine (eq_trans (proj2 (proj2 (denied_message_not_routed (sample_session 1 "user")
    (sample_call "org.proc") "org.proc" 7 true sample_world eq_refl eq_refl))) _).
  reflexivity.
Defined.

Example blocked_callee_is_reported_witness :
  outbox (net (ReceiveMessage (sample_session 1 "user") (sample_call "com.proc")
    sample_world).1 1) = ["ERROR wamp.error.network_failure"].
Proof.
  refine (eq_trans (proj2 (blocked_callee_is_reported (sample_session 1 "user")
    (sample_call "com.proc") {| call_id := 7; call_procedure := "com.proc" |} sample_world
    _ 3 _ (sample_session 3 "user") (sample_session 1 "user") eq_refl eq_refl eq_refl eq_refl
    eq_refl eq_refl _)) _); [discriminate|reflexivity].
Defined.

Example realm_reachable_wf_witness :
  let w := mkW NewRealm sample_net in
  realm_wf (rlm (AttachClient (sample_session 1 "user") w).1).
Proof.
  intros w. apply (realm_reachable_wf w); [done|].
  apply rtc_once, step_attach. intros i c. simpl. by rewrite lookup_empty.
Defined.

Example rejected_session_stays_attached_witness :
  (AttachClient (sample_session 2 "admin") sample_world).2 = Fail "session already exists".
Proof.
  by refine (proj1 (rejected_session_stays_attached (sample_session 2 "admin") sample_world
    _ _ _)).
Defined.

(** A star stands for several components of a URI. *)
Example MatchURI_covers_witness :
  covers {| URI := "com.*.get"; MatchPolicy := "wildcard"; AllowCall := true;
            AllowPublish := false; AllowRegister := false; AllowSubscribe := false |}
    "com.a.b.get".
Proof.
  apply MatchURI_covers; [|reflexivity]. intros _. split; simpl; unfold plain.
  - split_and!; try done; first [right; reflexivity | left; by apply (bool_decide_unpack _)].
  - split_and!; done.
Defined.
