(* ===== verification/RouterExamples.v ===== *)
(** * A sample router

    A router with one realm, its alias, and the clients of [RealmExamples]:
    the hypotheses of the theorems of [Router] hold in it. *)

From S2P Require Import Prelude GoStd Wamp Sample Permissions Peers Realm RealmExamples Router.

Local Open Scope string_scope.

#[global] Instance sample_levels : LogLevels := {|
  TraceLevel := 6; DebugLevel := 5; InfoLevel := 4; WarnLevel := 3; ErrorLevel := 2 |}%Z.

Definition sample_router : RouterW :=
  mkRouterW (mkRouter {["realm1" := 0%nat]} ∅ false true 0 0 1) {[0%nat := sample_realm]}
    sample_net 9 [] 4.

Definition empty_router : RouterW :=
  mkRouterW new_router ∅ sample_net 9 [] 4.

Definition sample_config (roles : list RealmRole) (a : option Realm.Authorizer) : RealmConfig :=
  {| cfg_AutoDiscloseCaller := true; cfg_AutoDisclosePublisher := false; cfg_Meta := false;
     cfg_Authorizer := a; cfg_Roles := roles |}.

Lemma sample_router_wf : router_wf sample_router.
Proof.
  split; simpl.
  - intros n p [<- <-]%lookup_singleton_Some. by eexists.
  - intros p r [<- <-]%lookup_singleton_Some. split; [apply sample_wf|].
    intros i c (_ & -> & Hi)%sample_clients. lia.
Qed.

Example alias_is_the_realm_witness :
  let w' := (AddRealmAlias "realm1" "realm2" sample_router).1 in
  (HasRealmRole "realm2" "user" w').2 = (HasRealmRole "realm1" "user" w').2.
Proof.
  intros w'. unfold HasRealmRole.
  destruct (alias_is_the_realm "realm1" "realm2" sample_router w' eq_refl) as (_ & _ & Hk).
  by rewrite Hk.
Defined.

Example AddRealm_adds_witness :
  (AddRealm "realm2" (Some (sample_config [sample_role] None)) (1, "x")%Z sample_router).2
    = Val tt.
Proof.
  exact (proj1 (AddRealm_adds "realm2" (sample_config [sample_role] None) (1, "x")%Z
    sample_router eq_refl eq_refl eq_refl)).
Defined.

Example AddRealm_with_authorizer_fails_witness :
  (AddRealm "realm2" (Some (sample_config [] (Some (λ _ _, (true, None))))) (1, "x")%Z
    sample_router).2 = Fail "could not find realm: realm2".
Proof.
  by rewrite (AddRealm_with_authorizer_fails "realm2"
    (sample_config [] (Some (λ _ _, (true, None)))) (1, "x")%Z sample_router
    (λ _ _, (true, None)) eq_refl eq_refl).
Defined.

Example message_stays_in_its_realm_witness :
  realms (rt (ReceiveMessage (sample_session 1 "user") (sample_call "com.proc")
    sample_router).1) = {["realm1" := 0%nat]}.
Proof.
  exact (proj1 (message_stays_in_its_realm (sample_session 1 "user") (sample_call "com.proc")
    sample_router 0 sample_realm eq_refl eq_refl)).
Defined.

Example router_reachable_wf_witness :
  router_wf (AddRealm "realm1" None (1, "x")%Z empty_router).1.
Proof.
  apply (router_reachable_wf empty_router); [done..|].
  apply rtc_once, rstep_op, op_add_realm.
Defined.

Example router_message_ends_witness :
  (ReceiveMessage (sample_session 1 "user") (sample_call "com.proc") sample_router).2
    ≠ Blocks.
Proof.
  destruct (router_message_ends (sample_session 1 "user") (sample_call "com.proc")
    sample_router sample_router_wf eq_refl) as [->|[e ->]]; discriminate.
Defined.

Example removed_realm_strands_clients_witness :
  (DetachClient (sample_session 1 "user") (RemoveRealm "realm1" sample_router).1).2
    = Fail "could not find realm: realm1".
Proof.
  by rewrite (proj2 (proj2 (removed_realm_strands_clients "realm1" (sample_session 1 "user")
    (sample_call "com.proc") sample_router eq_refl))).
Defined.


(** The same router with a client on a raw socket that does not read: [Close] waits for
    its writer, and the realm stays. *)
Definition stuck_router : RouterW :=
  mkRouterW (rt sample_router) (heap sample_router)
    (λ q, NewBaseSession (mkPeer TransportRawSocket [] 16 false (bool_decide (q = 2)%nat)) MsgPackSerializer)
    9 [] 4.

Example stuck_client_keeps_the_router_open :
  (Close stuck_router).2 = Blocks ∧ realms (rt (Close stuck_router).1) = {["realm1" := 0%nat]}.
Proof. vm_compute. split; reflexivity. Qed.

