(* ===== verification/ServerExamples.v ===== *)
(** * Sample handshakes

    An acceptor that welcomes anonymous clients at once and challenges the
    others, and connections to the router of [RouterExamples]: the hypotheses
    of the theorems of [Acceptor] and [Server] hold there. *)

From S2P Require Import Prelude GoStd Wamp Sample Peers Acceptor Realm RealmExamples Router RouterExamples Server.

Local Open Scope string_scope.

(** The authenticator says who the client is. *)
#[global] Instance sample_handshake : WampHandshake := {|
  hello_realm m := match m with Untyped 1 => Some "realm9" | _ => None end;
  NewAbort _ _ := Untyped 3;
  ErrNoSuchRealm := "wamp.error.no_such_realm";
  MAGIC := 127;
  ServerAuthenticator := details;
  Acceptor := details;
  NewAcceptor _ d := d;
  Acceptor_ReceiveMessage d _ :=
    (d, Ok (Untyped (if bool_decide (d_AuthMethod d = "anonymous") then 2 else 4)));
  Acceptor_Receive d _ := (d, Ok ("MESSAGE 2", true));
  Acceptor_SessionDetails d := Ok d;
  ClientAuthenticator := unit;
  Joiner := unit;
  NewJoiner _ _ _ := tt;
  Joiner_SendHello j := (j, Ok "HELLO");
  Joiner_Receive j _ := (j, Ok None);
  Joiner_SessionDetails _ := Err "no details";
|}.

Definition sample_hello : Message := Untyped 1.

Definition sample_serializer : Serializer := tt.

Definition sample_client (realm method : string) : details :=
  {| d_ID := 42; d_Realm := realm; d_AuthID := "john"; d_AuthRole := "user";
     d_AuthMethod := method; d_AuthExtra := ∅ |}.

Definition sample_authenticator (realm method : string) : ServerAuthenticator :=
  sample_client realm method.
Definition sample_acceptor (realm method : string) : Acceptor := sample_client realm method.

Example accepted_sessions_are_welcomed_witness :
  ∃ a' sent, exchange (sample_acceptor "realm1" "ticket") [Ok "AUTHENTICATE"] sent a' [] ∧
    (Accept sample_hello sample_serializer (sample_authenticator "realm1" "ticket") [Ok "AUTHENTICATE"]
      (NewWebSocketPeer 4)).1.(writeChan) = "MESSAGE 4" :: sent.
Proof.
  destruct (accepted_sessions_are_welcomed sample_hello sample_serializer (sample_authenticator "realm1" "ticket")
    [Ok "AUTHENTICATE"] (NewWebSocketPeer 4) _ (sample_client "realm1" "ticket") [] eq_refl)
    as (a & first & bytes & sent & a' & Ha & [[Hw _]|Hx] & _ & Hb & Hq).
  - injection Ha as <- <-. discriminate Hw.
  - injection Ha as <- <-. injection Hb as <-. exists a', sent. split; [exact Hx|exact Hq].
Defined.

Example raw_specs_are_shared_witness :
  let spec := NewSerializerSpec "wamp.2.capnproto" sample_serializer 4 in
  RawSocketAcceptor_Spec 4 (Server_RegisterSpec 0 spec initial_registries).1 = Ok sample_serializer.
Proof.
  exact (proj1 (proj2 (raw_specs_are_shared 0 1 (NewSerializerSpec "wamp.2.capnproto" sample_serializer 4)
    initial_registries _ (Nat.neq_0_succ 0) eq_refl eq_refl))).
Defined.


Definition sample_server : Server :=
  {| acceptor := 0; authenticator := sample_authenticator "realm9" "anonymous"; outQueueSize := 0 |}.

Definition sample_connection : connection :=
  {| first_byte := Ok MAGIC; upgraded := Ok JsonWebsocketProtocol; handshaken := Ok JsonSerializerID;
     incoming := [Ok "HELLO"] |}.

Example unknown_realm_by_transport_witness :
  ∃ peer, HandleClient initial_registries sample_server ListenerWebSocket sample_connection
      sample_router = (sample_router, Val (Refused peer "wamp.error.no_such_realm")) ∧
    writeChan peer = ["MESSAGE 3"].
Proof.
  exact (proj1 (unknown_realm_by_transport initial_registries sample_server sample_connection
    sample_router sample_serializer JsonWebsocketProtocol JsonSerializerID "HELLO" [] sample_hello "realm9"
    (sample_acceptor "realm9" "anonymous") (Untyped 2) (sample_client "realm9" "anonymous")
    "MESSAGE 2" "MESSAGE 3" eq_refl eq_refl eq_refl eq_refl eq_refl eq_refl eq_refl eq_refl
    eq_refl eq_refl eq_refl eq_refl eq_refl eq_refl eq_refl eq_refl)).
Defined.
