(* ===== verification/BridgeExamples.v ===== *)
(** * A sample device

    Realms with the roles of the device realm and of the app layer, and a
    bridge with two callers. *)

From S2P Require Import Prelude GoStd Wamp Values Accessors Sample Permissions Peers Realm RealmExamples Router RouterExamples Bridge.

Local Open Scope string_scope.

#[local] Existing Instance sample_floats.

Definition with_roles (roles : list RealmRole) (a : option Realm.Authorizer) : Realm :=
  mkRealm NewBroker NewDealer ∅
    (list_to_map (map (λ r, (Name r, r)) (trusted_role :: roles))) a.

Lemma roles_by_name (l : list RealmRole) :
  NoDup (map Name l) →
  (∀ role, role ∈ l → (list_to_map ((λ r, (Name r, r)) <$> l) : gmap string RealmRole)
     !! Name role = Some role) ∧
  ∀ n, n ∉ map Name l →
    (list_to_map ((λ r, (Name r, r)) <$> l) : gmap string RealmRole) !! n = None.
Proof.
  intros Hnd. assert (((λ r, (Name r, r)) <$> l).*1 = map Name l) as Hk.
  { by rewrite <-list_fmap_compose. }
  split.
  - intros role Hin. apply elem_of_list_to_map_1; [by rewrite Hk|].
    by apply (list_elem_of_fmap_2 (λ r, (Name r, r))).
  - intros n Hn. apply not_elem_of_list_to_map_1. by rewrite Hk.
Qed.

Lemma with_roles_ok cfg a :
  NoDup (map Name (trusted_role :: cfg_Roles cfg)) → has_roles cfg (with_roles (cfg_Roles cfg) a).
Proof. intros Hnd. by apply (roles_by_name (trusted_role :: cfg_Roles cfg)). Qed.

Example device_realm_policy_witness :
  permitted (with_roles (cfg_Roles device_config) None) (sample_session 1 "member")
    (sample_call "io.xconn.status") "io.xconn.status" = true.
Proof.
  apply device_realm_policy.
  - apply with_roles_ok. by apply (bool_decide_unpack _).
  - reflexivity.
  - discriminate.
  - split; [by right; right|]. left. split; [reflexivity|]. by exists "status".
Defined.

Example app_layer_policy_witness :
  permitted (with_roles (cfg_Roles app_layer_config) (Some appLayerAuthorizer))
    (sample_session 1 "guest") (sample_call "com.any") "com.any" = true.
Proof.
  apply app_layer_policy.
  - apply with_roles_ok. by apply (bool_decide_unpack _).
  - reflexivity.
  - by left.
Defined.

Definition sample_app : App :=
  {| app_Session := 0; has_NewSession := true; Procedures := ["com.a"]; Prefixes := [] |}.

Definition call_from (caller : Z) : Invocation.Invocation :=
  Invocation.NewInvocation [] ∅ {["caller" := AUint64 caller]}.

(** Two callers, of which one calls twice and one leaves. *)
Definition sample_events : list bridge_event :=
  [Called (call_from 5) (Ok 1%nat); Called (call_from 6) (Ok 2%nat);
   Called (call_from 5) (Ok 3%nat); CallerLeft 6].

Lemma sample_events_new es :
  es = [] ∨ es = [BridgeGone; Called (call_from 7) (Ok 4%nat)] →
  new_sessions sample_app (sample_events ++ es) no_callers.
Proof.
  intros [->| ->]; unfold sample_events; cbn [new_sessions app];
    repeat (split; [lazymatch goal with
      | |- True => exact I
      | |- _ => apply (bool_decide_unpack _); vm_compute; exact I
      end|]); exact I.
Qed.

Example app_sessions_are_left_once_witness :
  left_ (run_events sample_app sample_events no_callers) = [2%nat] ∧
  NoDup (left_ (run_events sample_app sample_events no_callers)).
Proof.
  split; [vm_compute; reflexivity|].
  exact (proj1 (app_sessions_are_left_once sample_app sample_events
    (sample_events_new [] (or_introl eq_refl)))).
Defined.

Example late_call_opens_a_session_witness :
  sessions (run_events sample_app
    (sample_events ++ [BridgeGone; Called (call_from 7) (Ok 4%nat)]) no_callers)
    = {[7%Z := 4%nat]}.
Proof.
  exact (proj1 (late_call_opens_a_session sample_app (call_from 7) 4 sample_events eq_refl
    ltac:(vm_compute; discriminate) (sample_events_new _ (or_intror eq_refl)))).
Defined.
