(* ===== verification/CloudExamples.v ===== *)
(** * A sample device in the cloud

    A device that has connected once, and one that cannot start. *)

From S2P Require Import Prelude GoStd Wamp Values Accessors Sample Permissions Peers Realm RealmExamples Router RouterExamples DeviceAuth DeviceExamples Bridge Credentials Cloud.

Local Open Scope string_scope.

(** ** A start that fails

    The dealer of [Sample] does not answer a REGISTER, so the meta API of the
    device realm cannot be set up. *)

Lemma empty_router_wf : router_wf empty_router.
Proof. split; intros ??; simpl; by rewrite lookup_empty. Qed.

Definition no_start : M RouterW (option (Credentials * string * Authenticator)) :=
  start_device (Ok (mkCredentials "io.device" "d1" "pub" "priv")) false (Ok "machine")
    NotExist (λ b, register_all b ["com.a"])
    (1, "a")%Z (2, "b")%Z (3, "c")%Z.

Lemma no_start_fails : (no_start empty_router).2 = Fail "register request timed out".
Proof. vm_compute. reflexivity. Qed.

Example failed_start_leaves_no_realm_witness :
  (no_start empty_router).2 = Fail "register request timed out" ∧
  realms (rt (no_start empty_router).1) = ∅.
Proof.
  split; [exact no_start_fails|].
  apply (failed_start_leaves_no_realm (Ok (mkCredentials "io.device" "d1" "pub" "priv")) false
    (Ok "machine") NotExist (λ b, register_all b ["com.a"])
    (1, "a")%Z (2, "b")%Z (3, "c")%Z empty_router (no_start empty_router).1 "register request timed out").
  - intros b. apply register_all_keeps.
  - exact empty_router_wf.
  - reflexivity.
  - rewrite <-no_start_fails. apply surjective_pairing.
Defined.

(** ** The loop *)

Definition at_top : device := start_loop sample_device.
Definition first_failure : device := retry (go LAuth at_top).
Definition connected : device := dialed (go LDial (go LAuth at_top)).
Definition shutting_down : device := parent_done (go (LPublish 0) connected).
Definition listing : device := go (LList 0) (go (LBridge 0) (set_active (Some 0%nat) (go (LPublish 0) connected))).

Lemma first_failure_reachable : rtc (step sample_disk) at_top first_failure.
Proof.
  eapply rtc_l; [by left; apply top_default|]. by apply rtc_once; left; apply auth_failed.
Qed.

Lemma connected_reachable : rtc (step sample_disk) at_top connected.
Proof.
  eapply rtc_l; [by left; apply top_default|].
  eapply rtc_l; [by left; apply auth_made|]. by apply rtc_once; left; apply dial_ok.
Qed.

Lemma joined_reachable : rtc (step sample_disk) at_top (go (LPublish 0) connected).
Proof. eapply rtc_r; [exact connected_reachable|]. by left; apply (open_ok _ 0). Qed.

Lemma shutting_down_reachable : rtc (step sample_disk) at_top shutting_down.
Proof.
  eapply rtc_r; [exact joined_reachable|]. by right; right; apply main_done.
Qed.

Lemma listing_reachable : rtc (step sample_disk) at_top listing.
Proof.
  eapply rtc_r; [eapply rtc_r; [exact joined_reachable|by left; apply (publish _ 0)]|].
  by left; apply (bridged _ 0).
Qed.

Example retries_back_off_witness :
  retryDelay first_failure = 2%Z ∧ Forall (λ d, 2 ≤ d ≤ maxDelay)%Z [2%Z].
Proof. exact (retries_back_off sample_disk sample_device first_failure first_failure_reachable). Defined.

Example connections_are_closed_witness :
  0%nat ∈ open_conns connected ∧
  (0%nat ∈ unjoined connected ∨ conn_of (LOpen 0) = Some 0%nat).
Proof.
  assert (0%nat ∈ open_conns connected) as Hin by (by apply elem_of_union_l, elem_of_singleton).
  split; [exact Hin|].
  exact (connections_are_closed sample_disk sample_device connected 0 connected_reachable Hin).
Defined.

Example shutdown_closes_the_published_witness :
  router_closed (shut_down false shutting_down) = true ∧
  (0%nat ∈ unjoined shutting_down ∨ loop shutting_down = LOpen 0 ∨ loop shutting_down = LPublish 0).
Proof.
  destruct (shutdown_closes_the_published sample_disk sample_device shutting_down false 0
    shutting_down_reachable eq_refl) as (_ & H1 & H2).
  - by apply elem_of_union_l, elem_of_singleton.
  - exact (conj H1 H2).
Defined.

Example device_session_ends_witness :
  ∃ s', rtc main_step at_top s' ∧ main s' = MReturned false.
Proof. apply (device_session_ends sample_disk sample_device at_top (rtc_refl _ _)). reflexivity. Defined.

Example null_principal_ends_the_loop_witness :
  ∃ s', step sample_disk listing s' ∧ ∀ s'', rtc (step sample_disk) s' s'' → loop s'' = LPanicked 0.
Proof.
  apply (null_principal_ends_the_loop sample_disk sample_device listing 0 [None]).
  - exact listing_reachable.
  - reflexivity.
  - by left.
Defined.
