(* ===== verification/NxtExamples.v ===== *)
(** * A sample configuration

    A configuration with a realm, a role, a transport and a key: it is valid,
    and the router of it is built. *)

From S2P Require Import Prelude GoStd Wamp Sample RealmExamples Router RouterExamples NxtAuth NxtConfig.

Import Config.

Local Open Scope string_scope.

Definition fmt_U (n : nat) : string := "U+" +:+ pretty n.

Definition sample_key : string :=
  "00112233445566778899aabbccddeeff00112233445566778899AABBCCDDEEFF".

Definition sample_nxt : Config := {|
  Loglevel := " Debug"; Management := false;
  Realms := [{| Name := "io.xconn.realm1";
                Roles := [{| role_Name := "device"; role_Permissions := [
                  {| URI := "io.xconn."; MatchPolicy := "prefix"; AllowCall := true;
                     AllowPublish := false; AllowRegister := true; AllowSubscribe := false |}] |}] |}];
  Transports := [{| Type_ := "universal"; Address := "0.0.0.0:8080"; Listener := "tcp";
                    Serializers := ["json"; "cbor"];
                    RateLimit_ := {| Rate := 0; Interval := 0; Strategy := "" |} |}];
  Authenticators_ := {| Types.cryptoSigns := [
      {| Types.cs_AuthID := "device"; Types.cs_Realm := "io.xconn.realm1";
         Types.cs_Role := "device"; Types.cs_AuthorizedKeys := [sample_key] |}];
    Types.wampcras := []; Types.tickets := []; Types.anonymouses := [] |} |}.

Example sample_nxt_checks : Validate fmt_U sample_nxt = Ok tt.
Proof. vm_compute. reflexivity. Qed.

Example odd_key_is_refused :
  DecodeString fmt_U "abc" = Err "encoding/hex: odd length hex string".
Proof. reflexivity. Qed.
Example no_break_space_is_blank :
  trims_to_nothing (String (ascii_of_nat 194) (String (ascii_of_nat 160) " ")) = true.
Proof. reflexivity. Qed.
Example realm_names :
  map URIRegex ["a.b"; "realm1"; ""; "a..b"; "a."; "a b"; "#a"] =
  [true; true; false; false; false; false; false].
Proof. reflexivity. Qed.

Example Validate_spec_witness : Validate fmt_U sample_nxt = Ok tt ↔ valid sample_nxt.
Proof. apply (Validate_spec fmt_U sample_nxt). Defined.

Example configuration_is_built_witness :
  ∃ w', start_router fmt_U sample_nxt (1%Z, "x") empty_router = (w', Val tt) ∧
    built (Realms sample_nxt) w'.
Proof.
  apply (configuration_is_built fmt_U sample_nxt).
  - apply (Validate_ok fmt_U). vm_compute. reflexivity.
  - reflexivity.
  - vm_compute. reflexivity.
  - by apply NoDup_singleton.
  - intros r ->%list_elem_of_singleton. apply (bool_decide_eq_true_1 _). vm_compute. reflexivity.
Defined.
