(* ===== verification/MetaExamples.v ===== *)
(** * Sample meta and management APIs

    The hypotheses of the theorems of [Meta] and [Management] hold for the APIs
    of the sample router. *)

From S2P Require Import Prelude GoStd Wamp Values Accessors Sample Permissions Peers Realm RealmExamples Router RouterExamples Meta Management.

Local Open Scope string_scope.

#[local] Existing Instance sample_floats.

Definition sample_meta : meta :=
  {| meta_realm := "realm1"; meta_session := sample_session 9 "trusted" |}.

Definition sample_invocation (args : list any) : Invocation.Invocation :=
  Invocation.NewInvocation args ∅ {["caller" := AUint64 1]}.

(** Two clients with room in their queues. *)
Definition small_realm : Realm :=
  mkRealm NewBroker NewDealer
    (<[1%Z := sample_session 1 "user"]> {[2%Z := sample_session 2 "user"]}) ∅ None.

Definition small_router : RouterW :=
  mkRouterW (mkRouter {["realm1" := 0%nat]} ∅ false false 0 0 0) {[0%nat := small_realm]}
    sample_net 9 [] 4.

Lemma small_clients i c :
  clients small_realm !! i = Some c → c = sample_session i "user" ∧ (1 ≤ i ≤ 2)%Z.
Proof.
  unfold small_realm. simpl. rewrite lookup_insert_Some, lookup_singleton_Some.
  intros [[<- <-]|[_ [<- <-]]]; split; done || lia.
Qed.

Lemma small_realm_wf : realm_wf small_realm.
Proof.
  split_and!.
  - by intros i c [-> _]%small_clients.
  - intros n r. simpl. by rewrite lookup_empty.
  - intros i j c c' [-> ?]%small_clients [-> ?]%small_clients. simpl. lia.
Qed.

Lemma small_router_wf : router_wf small_router.
Proof.
  split; simpl.
  - intros n p [<- <-]%lookup_singleton_Some. by eexists.
  - intros p r [<- <-]%lookup_singleton_Some. split; [apply small_realm_wf|].
    intros i c [-> ?]%small_clients. simpl. lia.
Qed.

(** Session 2 is killed, session 1 asked for it. *)
Example matching_sessions_are_killed_witness :
  session_closed (sess (handleSessionKillByAuthID sample_meta
    (sample_invocation [AString "john"]) small_router).1 2) = true.
Proof.
  refine (proj1 (proj2 (proj2 (matching_sessions_are_killed sample_meta
    (sample_invocation [AString "john"]) _ _ small_router 0 small_realm
    (kill_by_authid sample_meta (sample_invocation [AString "john"]) "john" eq_refl) small_router_wf eq_refl eq_refl _))
    2%Z (sample_session 2 "user") eq_refl)).
  intros i c [-> Hi]%small_clients _. exists "GOODBYE wamp.close.killed".
  assert (i = 1 ∨ i = 2)%Z as [-> | ->] by lia; split_and!; reflexivity.
Defined.

Example kill_waits_for_a_slow_client_witness :
  (Meta.handleSessionKill sample_meta (sample_invocation [AUint64 3]) sample_router).2 = Blocks.
Proof.
  apply (kill_waits_for_a_slow_client sample_meta (sample_invocation [AUint64 3]) sample_router
    0 sample_realm 3 (sample_session 3 "user") "GOODBYE wamp.close.killed"); done.
Defined.

Example session_count_and_list_witness :
  handleSessionCount sample_meta (sample_invocation []) small_router =
    (small_router, Val (NewInvocationResult [AUint64 2])).
Proof.
  exact (proj1 (session_count_and_list sample_meta (sample_invocation []) small_router 0
    small_realm eq_refl eq_refl eq_refl small_realm_wf)).
Defined.

#[global] Instance sample_host : Host := {|
  ParseLevel s := if bool_decide (s = "info") then Ok 4%Z else Err "not a valid log level";
  level_String _ := "info" |}.

Example paginateList_spec_witness :
  paginateList [10; 11; 12]%Z 1 5 = Returns ([11; 12], 3)%Z.
Proof.
  rewrite (paginateList_spec [10; 11; 12]%Z 1 5);
    [reflexivity|unfold in_int64, MinInt64, MaxInt64; simpl; lia..].
Defined.

Definition sample_mgmt : MgmtW :=
  mkMgmtW (newManagementAPI (sample_session 9 "trusted")) small_router ∅ 1 8.

Definition kwargs_invocation (args : list any) (kwargs : dict) : Invocation.Invocation :=
  Invocation.NewInvocation args kwargs {["caller" := AUint64 1]}.

Example negative_offset_panics_witness :
  (handleListSession (λ _, None)
    (kwargs_invocation [AString "realm1"] {["offset" := AInt64 (-1)]}) sample_mgmt).2
    = Crash "slice bounds out of range".
Proof.
  by apply (negative_offset_panics (λ _, None)
    (kwargs_invocation [AString "realm1"] {["offset" := AInt64 (-1)]}) "realm1" sample_mgmt
    0 small_realm).
Defined.

Example one_memory_loop_witness :
  mgmt_wf (handleSetStatsStatus (kwargs_invocation [] {["enable" := ABool true]}) true
    sample_mgmt).1.
Proof.
  apply (one_memory_loop (λ _, None) (sample_session 9 "trusted") sample_mgmt);
    [reflexivity..|].
  apply rtc_once. eexists. split; [apply mh_stats_set|reflexivity].
Defined.

Example bad_interval_panics_witness :
  (handleSetStatsStatus (kwargs_invocation []
    (<["enable" := ABool true]> {["interval" := AInt64 (-5)]})) true sample_mgmt).2
    = Val (NewInvocationResult []).
Proof.
  by apply (bad_interval_panics (kwargs_invocation []
    (<["enable" := ABool true]> {["interval" := AInt64 (-5)]})) true sample_mgmt (-5)%Z).
Defined.
