(* ===== verification/SessionExamples.v ===== *)
(** * A sample client session

    The hypotheses of the theorems of [Session] hold for a session over an
    in-memory peer that has one pending request. *)

From stdpp Require Import functions.
From S2P Require Import Prelude GoStd Wamp Values Accessors Sample Peers Session Progressive.

Local Open Scope string_scope.

#[local] Existing Instance sample_floats.

Definition sample_serializer : Serializer := tt.

Definition fresh_session : Session := NewSession (newLocalPeer 16) sample_serializer.

(** Waiting for the answer to UNREGISTER request 3. *)
Definition unregistering : Session := (unregister_send 3 9 fresh_session).1.

Lemma unregistering_wf : session_wf unregistering.
Proof.
  assert (keeps session_keeps (unregister_send 3 9)) as Hk
    by apply session_op_keeps, so_unregister.
  apply Hk. split; intros ?; intros; simpl in *; simplify_map_eq.
Qed.

Definition stray_ack : Message := Typed (VPublished 3).

Definition refusal : Message :=
  Typed (VError {| error_type := 66; error_id := 3; error_uri := "wamp.error.no_such_registration";
                   error_args := None; error_kwargs := None |}).

Example session_reachable_wf_witness : session_wf unregistering.
Proof.
  apply (session_reachable_wf (newLocalPeer 16) sample_serializer). apply rtc_once.
  exists nat, (unregister_send 3 9). split; [apply so_unregister|reflexivity].
Defined.

Example answers_reach_only_their_request_witness :
  requests (processIncomingMessage stray_ack unregistering).1 KUnregister !! 3%Z
    = Some 0%nat.
Proof.
  by apply (answers_reach_only_their_request KUnregister 3 0 stray_ack
    unregistering unregistering_wf).
Defined.

Example register_roundtrip_witness :
  let ack : Message := Typed (VRegistered {| registered_id := 1; registered_registration := 77 |}) in
  let s1 := (register_send 1 ∅ "com.proc" fresh_session).1 in
  registrations (register_wait 1 0 5 OnResponse (processIncomingMessage ack s1).1).1
    = {[77%Z := 5%nat]}.
Proof.
  intros ack s1.
  refine (eq_trans (proj1 (proj2 (proj2 (register_roundtrip 1 ∅ "com.proc" 5 ack
    {| registered_id := 1; registered_registration := 77 |} fresh_session s1 0
    eq_refl eq_refl eq_refl eq_refl)))) _). reflexivity.
Defined.

Example refused_unregister_times_out_witness :
  (unregister_wait 3 9 0 OnTimeout (processIncomingMessage refusal unregistering).1).2
    = Fail "unregister request timed".
Proof.
  apply (refused_unregister_times_out KUnregister
    {| error_type := 66; error_id := 3; error_uri := "wamp.error.no_such_registration";
       error_args := None; error_kwargs := None |} 3 0 refusal []
    "unregister request timed"
    (λ _, modify (λ s, with_registrations (delete 9%Z (registrations s)) s))
    unregistering unregistering_wf); try reflexivity.
  left. done.
Defined.

(** An EVENT for a subscription that is not there any more. *)
Example unexpected_message_deafens_the_session_witness :
  connected (reader_step (Ok "EVENT") fresh_session).1 = true.
Proof.
  refine (proj1 (unexpected_message_deafens_the_session "EVENT" fresh_session eq_refl eq_refl _)).
  right. do 2 eexists. split; reflexivity.
Defined.

Example unknown_registration_panics_witness :
  (processIncomingMessage (Typed (VInvocation {| invocation_id := 1;
    invocation_registration := 4; invocation_args := []; invocation_kwargs := ∅;
    invocation_details := ∅ |})) fresh_session).2
  = Crash "interface conversion: interface is nil, not xconn.InvocationHandler".
Proof. by eapply unknown_registration_panics. Defined.

Example raw_call_is_raw_once_witness :
  let options : dict := {["x_payload_raw" := ABool true]} in
  (callRaw 2 "com.proc" [ABytes "x"] ∅ (callRaw 1 "com.proc" [ABytes "x"] ∅ options).2).1
    = Ok (NewCall 2 ∅ "com.proc" [ABytes "x"] ∅).
Proof.
  intros options.
  refine (f_equal fst (proj2 (raw_call_is_raw_once 1 2 "com.proc" "x" options eq_refl eq_refl))).
Defined.

(** Three values, the last of them final; a fourth is never asked for. *)
Example progressive_calls_send_their_values_witness :
  ∃ s' c, progressive_call 1 "com.proc" (NewProgress [AInt64 1]) [NewProgress [AInt64 2];
      NewFinalProgress [AInt64 3]; NewProgress [AInt64 4]] fresh_session = (s', Val c) ∧
    writeChan (peer s') = ["MESSAGE 48"; "MESSAGE 48"; "MESSAGE 48"] ∧
    requests s' KCall !! 1%Z = Some c.
Proof.
  apply (progressive_calls_send_their_values 1 "com.proc" (NewProgress [AInt64 1])
    [NewProgress [AInt64 2]] (NewFinalProgress [AInt64 3]) [NewProgress [AInt64 4]]
    ["MESSAGE 48"; "MESSAGE 48"] "MESSAGE 48" fresh_session).
  - repeat constructor; apply NewProgress_in_progress.
  - repeat constructor.
  - split_and!; [done|apply (bool_decide_unpack _); vm_compute; done|repeat constructor].
  - split; [done|apply NewFinalProgress_final].
Defined.
