(* ===== verification/RequestsExamples.v ===== *)
(** * Sample requests

    Two publish requests that are built at the same time, and two call
    requests that share a map of options. *)

From S2P Require Import Prelude GoStd Wamp Values Accessors Sample Peers Session SessionExamples Requests.

Local Open Scope string_scope.

#[local] Existing Instance sample_floats.

(** [s.Publish("com.a")] and [s.Publish("com.b")] *)
Definition two_publishes : heap :=
  ((Session_Publish "com.a";; Session_Publish "com.b") (mkHeap ∅ ∅ ∅ ∅ ∅)).1.

Lemma two_publishes_private : private two_publishes.
Proof.
  assert (∀ c r b, publishes two_publishes !! c = Some r → map_of b r = None) as Hnone.
  { intros c r b. unfold two_publishes. simpl. rewrite !lookup_insert_Some, lookup_empty.
    intros [[_ <-]|[_ [[_ <-]|[_ ?]]]]; by destruct b. }
  split.
  - intros c r b l Hr Hl. by rewrite (Hnone c r b Hr) in Hl.
  - intros c r b c' r' b' l Hr _ Hl. by rewrite (Hnone c r b Hr) in Hl.
Qed.

(** [Acknowledge] on the first, [Kwarg] on the second, [Arg] on the first. *)
Definition interleaved : list (nat * publish_step) :=
  [(0%nat, BAcknowledge true); (1%nat, BKwarg "k" ANil); (0%nat, BArg ANil)].

Example publish_requests_are_values_witness :
  ∃ h, for_M (λ s, run_step s.1 s.2) interleaved two_publishes = (h, Val tt) ∧
    value_at h 0 = Some (mkPlain "com.a" [ANil] ∅ {["acknowledge" := ABool true]}) ∧
    value_at h 1 = Some (mkPlain "com.b" [] {["k" := ANil]} ∅).
Proof.
  destruct (publish_requests_are_values interleaved two_publishes two_publishes_private)
    as (h & Hrun & Hv).
  - intros s. unfold interleaved. rewrite !elem_of_cons. intros [->|[->|[->|[]%not_elem_of_nil]]];
      eexists; reflexivity.
  - exists h. split; [exact Hrun|]. rewrite !Hv. by split.
Defined.

Definition raw_request (procedure : string) : CallRequest :=
  mkCall procedure [ABytes "x"] None (Some 0%nat) None None.

Definition sharing : client :=
  mkClient (mkHeap {[0%nat := {["x_payload_raw" := ABool true]}]} ∅ ∅ ∅ ∅) fresh_session.

Example raw_call_strips_shared_options_witness :
  contents (requests_ (callWithRequest 1 (raw_request "com.a")
    {| prog_Args := []; prog_Kwargs := ∅; prog_Options := ∅; prog_Err := None |} sharing).1)
    (c_options (raw_request "com.b")) = ∅.
Proof.
  exact (proj1 (raw_call_strips_shared_options 1 (raw_request "com.a")
    {| prog_Args := []; prog_Kwargs := ∅; prog_Options := ∅; prog_Err := None |} sharing 0
    (raw_request "com.b") 2 [] ∅ eq_refl eq_refl eq_refl eq_refl eq_refl eq_refl)).
Defined.
