(* ===== verification/WiringExamples.v ===== *)
(** * Sample programs

    A host on which nothing fails, a device that serves three transports, a
    router on its own, and a configured server of which a transport fails. *)

From S2P Require Import Prelude GoStd FilePath Wamp Sample Permissions Peers Dialing Realm RealmExamples Router RouterEnds RouterExamples Server Listeners NxtAuth NxtConfig NxtExamples DeviceAuth Bridge Cloud Wiring.

Local Open Scope string_scope.

(** ** A serializer that registrations come back through

    [sample_serializers] with the request id of a REGISTERED in unary. *)

Fixpoint unary (n : nat) : string := match n with O => "" | S n => String "i" (unary n) end.

#[global] Instance answering_serializers : WampSerializers := {|
  Serializer := unit;
  Serialize _ m :=
    match m with
    | Typed (VRegistered r) => Ok (String "R" (unary (Z.to_nat (registered_id r))))
    | m => Serialize (WampSerializers := sample_serializers) tt m
    end;
  Deserialize _ p :=
    match p with
    | String "R" ids => Ok (Typed (VRegistered {| registered_id := Z.of_nat (String.length ids);
                                                  registered_registration := 1 |}))
    | p => Deserialize (WampSerializers := sample_serializers) tt p
    end;
  Static _ := false;
  JSONSerializer := tt; CBORSerializer := tt; Wamp.MsgPackSerializer := tt;
|}.

(** ** The host and the machine *)

(** Nothing fails but listening at the addresses in [bad]. *)
Definition quiet_os (bad : list string) : OS authority := {|
  dial_fault _ _ := None; lstat_fault _ _ := None; remove_fault _ _ := None;
  resolve_fault _ := None;
  listen_fault _ _ a := if bool_decide (a ∈ bad) then Some "cannot listen" else None;
  bound _ n a := if bool_decide (n = "unix") then UnixAddr a else TCPAddr a 8080 |}.

Definition new_host : Host authority := mkHost _ ∅ ∅ ∅ 0 [].
Definition old_router : RouterW :=
  mkRouterW new_router ∅ (λ _, NewBaseSession (newLocalPeer 0) tt) 0 [] 0.
Definition sample_machine : machine := mkMachine new_host old_router [] [] None.

Lemma sample_machine_wf : machine_wf sample_machine.
Proof.
  split; [intros k r; simpl; by rewrite lookup_empty|].
  split; [split; intros ??; simpl; by rewrite lookup_empty|]. by intros [q [? _]].
Qed.

Definition no_setup (p : ProviderConfig) : M RouterW unit := mret tt.
Definition sample_bridge (b : BaseSession) : M RouterW unit := register_all b ["io.xconn.a"].

Lemma no_setup_orderly p : orderly (no_setup p).
Proof. apply orderly_ret. Qed.
Lemma sample_bridge_orderly b : orderly (sample_bridge b).
Proof. unfold sample_bridge. apply register_all_orderly. Qed.

(** ** A device *)

Definition sample_device_config : StandaloneConfig := {|
  QUICAddress := ":1"; WebTransportAddress := ":2"; WebSocketAddress := ":3";
  TLSConfig := Some (mkTLS []); sa_Realm := "io.device"; Keys := ["k"]; Passwords := ∅;
  Authenticator_ := None; ICEServers := [] |}.

Definition run_device (bad : list string) (evs : list selected) : machine * exec unit :=
  let _ : OS authority := quiet_os bad in
  RunStandalone no_setup sample_bridge "/run/app" sample_device_config
    (1, "a")%Z (2, "b")%Z (3, "c")%Z evs sample_machine.

Example device_runs : (run_device [] [QuicStream 4; CtxDone]).2 = Val tt.
Proof. vm_compute. reflexivity. Qed.
Example device_fails : (run_device [":3"] []).2 = Fail "failed to listen: cannot listen".
Proof. vm_compute. reflexivity. Qed.

Example standalone_closes_its_listeners_witness :
  returned (run_device [":3"] []).2 ∧
  (sockets (host (run_device [":3"] []).1) = ∅ ∨
   ∃ k, sockets (host (run_device [":3"] []).1) = {[k := Unserved "udp" ":2"]}).
Proof.
  pose (os := quiet_os [":3"]).
  destruct (standalone_closes_its_listeners no_setup sample_bridge no_setup_orderly
    sample_bridge_orderly "/run/app" sample_device_config (1, "a")%Z (2, "b")%Z (3, "c")%Z []
    sample_machine sample_machine_wf) as (Hr & Hs & _).
  - change ((run_device [":3"] []).2 ≠ Blocks). rewrite device_fails. discriminate.
  - split; [exact Hr|]. destruct Hs as [Hs|(_ & k & _ & Hs)]; [left; exact Hs|right; exists k; exact Hs].
Defined.

Definition serving : machine := (run_device [] [QuicStream 4; WtStream 5]).1.

Example standalone_serves_witness :
  relayed serving = [4; 5]%nat ∧ size (sockets (host serving)) = 4%nat.
Proof.
  pose (os := quiet_os []).
  destruct (standalone_serves no_setup sample_bridge no_setup_orderly
    sample_bridge_orderly "/run/app" sample_device_config (1, "a")%Z (2, "b")%Z (3, "c")%Z
    [QuicStream 4; WtStream 5] sample_machine serving sample_machine_wf) as (Hs & _ & Hr & _).
  - change (run_device [] [QuicStream 4; WtStream 5] = (serving, Blocks)).
    assert ((run_device [] [QuicStream 4; WtStream 5]).2 = Blocks) as <- by (vm_compute; reflexivity).
    apply surjective_pairing.
  - rewrite Hr, Hs. split; reflexivity.
Defined.

Example standalone_without_tls :
  (let _ : OS authority := quiet_os [] in
   RunStandalone no_setup sample_bridge "" {| QUICAddress := ":1"; WebTransportAddress := "";
     WebSocketAddress := ""; TLSConfig := None; sa_Realm := "r"; Keys := []; Passwords := ∅;
     Authenticator_ := None; ICEServers := [] |} (1, "a")%Z (2, "b")%Z (3, "c")%Z []
     sample_machine).2 = Fail "standalone mode needs a TLS config".
Proof. reflexivity. Qed.

(** The WebTransport socket of the device stays open when it has stopped. *)
Example stopped_device_holds_a_socket :
  map_to_list (sockets (host (run_device [] [CtxDone]).1)) = [(1%nat, Unserved "udp" ":2")].
Proof. vm_compute. reflexivity. Qed.

Example webtransport_socket_stays_open_witness :
  let os := quiet_os [] in
  let s := standalone_server sample_device_config in
  let r := ListenAndServeWebTransport s ":2" (Some (mkTLS [])) "/wamp" new_host in
  sockets (Listener_Close (mkListener 1 (TCPAddr ":2" 8080)) r.1).1 = {[0%nat := Unserved "udp" ":2"]}.
Proof.
  pose (os := quiet_os []).
  exact (webtransport_socket_stays_open (standalone_server sample_device_config) ":2"
    (Some (mkTLS [])) "/wamp" new_host _ (mkListener 1 (TCPAddr ":2" 8080))
    (proj1 sample_machine_wf) eq_refl).
Defined.

(** ** A router on its own *)

Definition sample_parse (u : string) : result URL :=
  if bool_decide (u = "unix:///run/x") then Ok {| Scheme := "unix"; URL_Host := ""; Path := "/run/x" |}
  else Err "parse error".

Definition serve_router (parse : string → result URL) : machine * exec Listener :=
  let _ : OS authority := quiet_os [] in
  ServeRouter no_setup parse "unix:///run/x" "io.device" ["k"] (1, "a")%Z (2, "b")%Z (3, "c")%Z
    sample_machine.

Example router_is_served :
  files (host (serve_router sample_parse).1) = {["/run/x" := SocketFile true]} ∧
  is_ok match (serve_router sample_parse).2 with Val l => Ok l | _ => Err "" end = true.
Proof. vm_compute. split; reflexivity. Qed.

Example ServeRouter_starts_one_witness :
  let os := quiet_os [] in
  starts_one id (Clients "unix" "/run/x" ListenerRawSocket
    (NewServer (Some (Fixed (Standalone.NewStandaloneAuthenticator ["k"] ∅)))
       (Some default_server_config))) sample_machine (serve_router sample_parse).
Proof.
  pose (os := quiet_os []).
  exact (ServeRouter_starts_one no_setup no_setup_orderly sample_parse "unix:///run/x" "io.device"
    ["k"] (1, "a")%Z (2, "b")%Z (3, "c")%Z sample_machine
    {| Scheme := "unix"; URL_Host := ""; Path := "/run/x" |} _ sample_machine_wf eq_refl eq_refl).
Defined.

Example StartAppLayer_starts_one_witness :
  let os := quiet_os [] in
  starts_one fst (Clients "unix" "/run/app" ListenerRawSocket
    (NewServer None (Some default_server_config))) sample_machine
    (StartAppLayer "io.app" "/run/app" (1, "a")%Z (2, "b")%Z (3, "c")%Z sample_machine).
Proof.
  pose (os := quiet_os []).
  exact (StartAppLayer_starts_one "io.app" "/run/app" (1, "a")%Z (2, "b")%Z (3, "c")%Z
    sample_machine sample_machine_wf).
Defined.

(** ** A configured server *)

#[global] Instance sample_env : Env := {| SNAP_REAL_HOME := ""; UserHomeDir := Ok "/home/u" |}.

Example paths :
  map (λ p, filepath_Join "/home/u" p) ["/x.sock"; "x/../y"; ""; "../../../z"; "/./a//b"] =
  ["/home/u/x.sock"; "/home/u/y"; "/home/u"; "/z"; "/home/u/a/b"] ∧
  map Clean [""; "/"; "a/.."; "../a"; "/..//a/"] = ["."; "/"; "."; "../a"; "/a"].
Proof. vm_compute. split; reflexivity. Qed.
Example home_path : resolveUnixSocketPath "~/x.sock" = Returns (Ok "/home/u/x.sock").
Proof. vm_compute. reflexivity. Qed.

Definition two_transports : Config.Config := {|
  Config.Loglevel := ""; Config.Management := false; Config.Realms := Config.Realms sample_nxt;
  Config.Transports := [
    {| Config.Type_ := "websocket"; Config.Address := "~/x.sock"; Config.Listener := "unix";
       Config.Serializers := [];
       Config.RateLimit_ := {| Config.Rate := 10; Config.Interval := 1; Config.Strategy := "leakybucket" |} |};
    {| Config.Type_ := "rawsocket"; Config.Address := ":9"; Config.Listener := "tcp";
       Config.Serializers := [];
       Config.RateLimit_ := {| Config.Rate := 0; Config.Interval := 0; Config.Strategy := "" |} |}];
  Config.Authenticators_ := Config.Authenticators_ sample_nxt |}.

Definition start_two (bad : list string) : machine * exec (list (option Listener)) :=
  let _ : OS authority := quiet_os bad in
  StartServerFromConfigFile fmt_U (Ok "file") (λ _, Ok two_transports) (1%Z, "x") sample_machine.

Example two_are_started :
  match (start_two []).2 with Val cs => map (fmap closer) cs | _ => [] end = [Some 0%nat; Some 1%nat].
Proof. vm_compute. reflexivity. Qed.
(** The second transport fails: the first stays open, and the error says nothing of it. *)
Example the_first_stays_open :
  (start_two [":9"]).2 = Fail "failed to listen: cannot listen" ∧
  size (sockets (host (start_two [":9"]).1)) = 1%nat.
Proof. vm_compute. split; reflexivity. Qed.

Example configured_server_listens_witness :
  let os := quiet_os [":9"] in
  ∃ m1, host m1 = host sample_machine ∧ built (Config.Realms two_transports) (router m1) ∧
    transports_outcome (NewAuthenticator (Config.Authenticators_ two_transports))
      (Config.Transports two_transports) m1 (start_two [":9"]).
Proof.
  pose (os := quiet_os [":9"]).
  apply (configured_server_listens fmt_U (Ok "file") "file" (λ _, Ok two_transports) two_transports
    (1%Z, "x") sample_machine).
  - exact (proj1 sample_machine_wf).
  - reflexivity.
  - reflexivity.
  - apply (Validate_ok fmt_U). vm_compute. reflexivity.
  - reflexivity.
  - vm_compute. reflexivity.
  - by apply NoDup_singleton.
  - intros r ->%list_elem_of_singleton. apply (bool_decide_eq_true_1 _). vm_compute. reflexivity.
Defined.

(** ** Listening *)

Definition stale_host : Host authority :=
  mkHost _ {["/run/x" := SocketFile false]} ∅ ∅ 0 [].

Example listening_opens_one_socket_witness :
  let os := quiet_os [] in
  let r := ListenAndServeRawSocket (NewServer (Some (Given 0)) None) "unix" "/run/x" stale_host in
  sockets r.1 = {[0%nat := Clients "unix" "/run/x" ListenerRawSocket (NewServer (Some (Given 0)) None)]}.
Proof.
  pose (os := quiet_os []).
  destruct (listening_opens_one_socket ListenerRawSocket (NewServer (Some (Given 0)) None) "unix"
    "/run/x" stale_host) as (_ & Hs & _).
  - intros k r. simpl. by rewrite lookup_empty.
  - exact Hs.
Defined.

(** Another process listens at the path, but its queue is full. *)
Definition busy_os : OS authority := {|
  dial_fault _ _ := Some "resource temporarily unavailable"; lstat_fault _ _ := None;
  remove_fault _ _ := None; resolve_fault _ := None; listen_fault _ _ _ := None;
  bound _ n a := UnixAddr a |}.
Definition busy_host : Host authority :=
  mkHost _ {["/run/x" := SocketFile true]} ∅ ∅ 0 [].

Example busy_socket_is_replaced_witness :
  let os := busy_os in
  ∃ h' l, ListenAndServe ListenerRawSocket (NewServer (Some (Given 0)) None) NetworkUnix "/run/x"
            busy_host = (h', Val l) ∧
    files h' !! "/run/x" = Some (SocketFile true) ∧
    sockets h' !! closer l = Some (Clients NetworkUnix "/run/x" ListenerRawSocket
                                     (NewServer (Some (Given 0)) None)).
Proof.
  pose (os := busy_os).
  apply (busy_socket_is_replaced ListenerRawSocket (NewServer (Some (Given 0)) None) "/run/x"
    busy_host "resource temporarily unavailable"); try reflexivity.
  intros k r. simpl. by rewrite lookup_empty.
Defined.

Example accept_loop_closes_witness :
  let os := quiet_os [] in
  let h := (ListenAndServeRawSocket (NewServer (Some (Given 0)) None) "tcp" ":1" new_host).1 in
  handled (startConnectionLoop 0 [Ok 7; Ok 8; Err "closed"; Ok 9] h).1 = [(0, 7); (0, 8)]%nat.
Proof.
  pose (os := quiet_os []).
  exact (proj1 (proj2 (accept_loop_closes 0 [7; 8]%nat "closed" [Ok 9%nat] _
    (ListenAndServeRawSocket (NewServer (Some (Given 0)) None) "tcp" ":1" new_host).1 eq_refl))).
Defined.

(** ** Routers *)

