(* ===== verification/CommandsExamples.v ===== *)
(** * Sample command lines

    The router command on the machine and the configuration of WiringExamples. *)

From S2P Require Import Prelude GoStd FilePath Wamp Sample Values Accessors Permissions Peers Acceptor Realm RealmExamples Router RouterExamples Server Listeners Auth NxtAuth NxtConfig NxtExamples DeviceAuth Bridge Dialing Wiring WiringExamples Commands.

Local Open Scope string_scope.

Definition all_ok : init_results := {| opened := Ok tt; made := Ok tt; wrote := Ok tt |}.
Definition sample_process : process := mkProcess [] ∅ sample_machine.
Definition configured : process := mkProcess [] {["/etc/router/.nxt/config.yaml" := "file"]} sample_machine.

Example flags_are_parsed :
  (parse_flags ["config"; "c"] "/home/x" ["-c"; "/etc/router"],
   parse_flags ["config"; "c"] "/home/x" ["--config=/etc/router"; "rest"],
   parse_flags ["config"; "c"] "/home/x" ["-v"],
   parse_flags ["config"; "c"] "/home/x" ["-c"]) =
  (Parsed "/etc/router", Parsed "/etc/router", Exits 2, Exits 2).
Proof. vm_compute. reflexivity. Qed.

Example config_files :
  map configFile ["/etc/router"; "/etc/router/"; "./x/../y"; "."; ".."] =
  ["/etc/router/.nxt/config.yaml"; "/etc/router/.nxt/config.yaml"; "y/.nxt/config.yaml";
   ".nxt/config.yaml"; "../.nxt/config.yaml"].
Proof. vm_compute. reflexivity. Qed.

Section Quiet.
#[local] Instance os : OS authority := quiet_os [].

Definition run (args : list string) (p : process) : process * exec run_end :=
  Run fmt_U (λ _, Ok two_transports) (1%Z, "x") "realms: []" "/home/x" all_ok true args p.

Example init_prepares_start_witness :
  disk (run ["nxt"; "init"; "-c"; "/etc/router"] sample_process).1 !! "/etc/router/.nxt/config.yaml" =
    Some "realms: []".
Proof.
  destruct (init_prepares_start fmt_U (λ _, Ok two_transports) (1%Z, "x") "realms: []" "/home/x" all_ok true
    "nxt" ["-c"; "/etc/router"] "/etc/router" sample_process) as (p1 & Hr & _ & _ & Hd & _).
  - reflexivity.
  - done.
  - repeat constructor; unfold global_flags; set_solver.
  - reflexivity.
  - reflexivity.
  - reflexivity.
  - unfold run. rewrite Hr. cbn [fst]. rewrite Hd. apply lookup_insert_eq.
Defined.

(** The command on the configured machine, with the interrupt or before it. *)
Definition started (i : bool) : process * exec run_end :=
  let _ : OS authority := quiet_os [] in
  Run fmt_U (λ _, Ok two_transports) (1%Z, "x") "realms: []" "/home/x" all_ok i
    ["nxt"; "start"; "-c"; "/etc/router"] configured.

Example start_serves_until_interrupted_witness :
  (started false).2 = Blocks ∧ size (sockets (host (mach (started false).1))) = 2%nat ∧
  sockets (host (mach (started true).1)) = sockets (host sample_machine).
Proof.
  pose (os := quiet_os []).
  destruct (start_serves_until_interrupted fmt_U (λ _, Ok two_transports) (1%Z, "x") "realms: []" "/home/x"
    all_ok "nxt" ["-c"; "/etc/router"] "/etc/router" "file" two_transports configured)
    as (rs & _ & (Hs & _) & _ & _ & [(Hn & Hb & _ & Hc)|(_ & _ & e & He)]).
  - reflexivity.
  - repeat constructor; unfold global_flags; set_solver.
  - reflexivity.
  - reflexivity.
  - apply (Validate_ok fmt_U). vm_compute. reflexivity.
  - exact (proj1 sample_machine_wf).
  - reflexivity.
  - vm_compute. reflexivity.
  - by apply NoDup_singleton.
  - intros r ->%list_elem_of_singleton. apply (bool_decide_eq_true_1 _). vm_compute. reflexivity.
  - split_and!; [exact Hb| |exact Hc].
    change (sockets (host (mach (started false).1)) =
      add_sockets 0 rs ∅) in Hs. rewrite Hs.
    destruct rs as [|r1 [|r2 [|]]]; try discriminate Hn. reflexivity.
  - change ((started false).2 = Fail e) in He.
    assert ((started false).2 = Blocks) as Hb by (vm_compute; reflexivity). congruence.
Defined.

(** [nxt -c /etc/router start] *)
Example unknown_commands_print_the_usage_witness :
  ∃ o, run ["nxt"; "-c"; "/etc/router"; "start"] configured =
    (mkProcess (o ++ [Usage "/home/x"]) (disk configured) sample_machine, Val Returned).
Proof.
  apply (unknown_commands_print_the_usage fmt_U (λ _, Ok two_transports) (1%Z, "x") "realms: []" "/home/x"
    all_ok true "nxt" "-c" ["/etc/router"; "start"] "/home/x" configured).
  - set_solver.
  - reflexivity.
Defined.

Example version_prints_the_usage_too :
  (printed (run ["nxt"; "-v"] configured).1, (run ["nxt"; "start"; "-v"] configured).2) =
  ([Version; Usage "/home/x"], Val (Exited 2)).
Proof. vm_compute. reflexivity. Qed.

(** [xconn --url unix:///run/x --public-key k --realm io.device] *)
Example device_command_serves_witness :
  let ended := device_main no_setup sample_parse "unix:///run/x" "io.device" ["k"] (1, "a")%Z (2, "b")%Z
    (3, "c")%Z true sample_machine in
  sockets (host ended.1) = ∅ ∧ ended.2 = Val Returned.
Proof.
  intros ended.
  destruct (device_command_serves no_setup no_setup_orderly sample_parse "unix:///run/x" "io.device"
    ["k"] (1, "a")%Z (2, "b")%Z (3, "c")%Z sample_machine
    {| Scheme := "unix"; URL_Host := ""; Path := "/run/x" |}
    (Clients "unix" "/run/x" ListenerRawSocket
      (NewServer (Some (Fixed (Standalone.NewStandaloneAuthenticator ["k"] ∅)))
        (Some default_server_config))) sample_machine_wf eq_refl eq_refl) as [H1 _].
  split; [exact H1|vm_compute; reflexivity].
Defined.

End Quiet.
