(* ===== verification/DialingExamples.v ===== *)
(** * Sample connections

    The handshake bytes of the WAMP specification, a WebSocket library that takes
    the first acceptable subprotocol, and a joiner that the first message of the
    router satisfies. *)

From S2P Require Import Prelude GoStd GoPath Wamp Values Sample Peers Acceptor Relay Dialing Realm Session Progressive MuxSessions.

Local Open Scope string_scope.

(** ** The handshake of the specification *)

Definition nibbles (len s : Z) : ascii := ascii_of_nat (Z.to_nat (len * 16 + s)).

#[global] Instance spec_handshake : RawSocketHandshake := {|
  Handshake := Z * Z;
  NewHandshake s n := (s, n);
  Handshake_Serializer := fst;
  SendHandshake h :=
    if bool_decide (0 < h.1 < 16 ∧ 0 ≤ h.2 < 16)%Z
    then Ok (String (ascii_of_nat 127) (String (nibbles h.2 h.1) (zero_bytes 2)))
    else Err "invalid handshake";
  ReceiveHandshake b :=
    match b with
    | String m (String x (String y (String z ""))) =>
        if bool_decide (nat_of_ascii m ≠ 127%nat) then Err "invalid magic byte"
        else if bool_decide (nat_of_ascii y ≠ 0%nat ∨ nat_of_ascii z ≠ 0%nat) then Err "reserved bytes"
        else
          let v := Z.of_nat (nat_of_ascii x) in
          if bool_decide (v mod 16 = 0)%Z then Err "handshake error" else Ok (v mod 16, v / 16)%Z
    | _ => Err "handshake must be four bytes"
    end;
  DefaultMaxMsgSize := 15; ProtocolMaxMsgSize := 15 |}.

Lemma nibbles_value len s :
  (0 < s < 16)%Z → (0 ≤ len < 16)%Z → Z.of_nat (nat_of_ascii (nibbles len s)) = (len * 16 + s)%Z.
Proof. intros Hs Hl. unfold nibbles. rewrite nat_ascii_embedding by lia. lia. Qed.

#[global] Instance spec_handshake_ok : RawSocketHandshakeOk.
Proof.
  split.
  - done.
  - intros [s n] b. simpl. case_bool_decide; [|done]. by intros [= <-].
  - intros [s n] b. simpl. case_bool_decide as Hr; [|done]. simpl in Hr. intros [= <-]. simpl.
    rewrite nibbles_value by lia.
    replace ((n * 16 + s) mod 16)%Z with s by (rewrite Z.add_comm, Z_mod_plus_full, Z.mod_small; lia).
    replace ((n * 16 + s) / 16)%Z with n by (rewrite Z.div_add_l, Z.div_small by lia; lia).
    by rewrite bool_decide_eq_false_2 by lia.
Qed.

Definition client_hello : string := String (ascii_of_nat 127) (String (nibbles 15 3) (zero_bytes 2)).

Example raw_handshake_agrees_witness :
  UpgradeRawSocket 0 (mkStream [Ok client_hello; Ok "frame"] "") =
    (mkStream [Ok "frame"] client_hello, Val (NewRawSocketPeer 64, 3%Z)).
Proof.
  exact (proj1 (raw_handshake_agrees 3 0 0 client_hello client_hello [Ok "frame"]
    [client_hello +:+ "rest"] "rest" eq_refl eq_refl eq_refl)).
Defined.

(** The answer arrives one byte and three bytes at a time. *)
Example answer_in_pieces :
  (rawSocketClientHandshake 3 0 (mkStream [Ok (String (ascii_of_nat 127) "");
     Ok (String (nibbles 15 3) (zero_bytes 2))] "")).2 = Val (NewRawSocketPeer 16) ∧
  (DialRawSocket_handshake 3 0 (mkStream [Ok (String (ascii_of_nat 127) "");
     Ok (String (nibbles 15 3) (zero_bytes 2))] "")).2 = Fail "handshake error".
Proof. vm_compute. split; reflexivity. Qed.

Example split_handshake_leaves_its_end_witness :
  UpgradeRawSocket 0 (mkStream [Ok (String (ascii_of_nat 127) (String (nibbles 15 3) ""));
    Ok (zero_bytes 2)] "") =
    (mkStream [Ok (zero_bytes 2)] client_hello, Val (NewRawSocketPeer 64, 3%Z)).
Proof.
  exact (split_handshake_leaves_its_end (String (ascii_of_nat 127) (String (nibbles 15 3) "")) 2
    client_hello (3, 15)%Z 0 [] client_hello eq_refl eq_refl ltac:(lia) eq_refl eq_refl).
Defined.

Example answer_serializer_is_ignored_witness :
  DialRawSocket_handshake 1 0 (mkStream [Ok client_hello] "") =
    (mkStream [] (String (ascii_of_nat 127) (String (nibbles 15 1) (zero_bytes 2))),
     Val (NewRawSocketPeer 0)).
Proof.
  exact (answer_serializer_is_ignored 1 (3, 15)%Z 0 _ client_hello [] eq_refl eq_refl eq_refl
    ltac:(simpl; lia)).
Defined.

(** ** WebSockets *)

Definition first_of (offered : list string) (accept : string → bool) : string :=
  match filter (λ p, accept p = true) offered with p :: _ => p | [] => "" end.

#[global] Instance sample_websockets : WebSockets := {|
  Upgrade offered accept := Ok (first_of offered accept);
  ws_Dial q := match wr_protocols q with
               | p :: _ => Ok (p, [Ok "WELCOME"])
               | [] => Err "no protocol"
               end |}.

#[global] Instance sample_websockets_ok : WebSocketsOk.
Proof.
  split.
  - intros offered accept p [= <-]. unfold first_of.
    destruct (filter _ offered) as [|x l] eqn:Hf; [by left|]. right.
    assert (x ∈ filter (λ p, accept p = true) offered) as Hx by (rewrite Hf; by left).
    by apply list_elem_of_filter in Hx as [? ?].
  - intros q p rs. simpl. destruct (wr_protocols q) as [|x l]; [done|]. intros [= <- _]. right. by left.
Qed.

Example websocket_ends_agree_witness :
  WebSocketAcceptor_Spec 0 "wamp.2.cbor" initial_registries = Ok (tt : Serializer).
Proof.
  destruct (websocket_ends_agree None 0 initial_registries DefaultWebSocketServerConfig
    (NewWebSocketPeer 64) {| Protocol := "wamp.2.cbor"; Binary := true; Server_ := true;
      KeepAliveInterval := 0; KeepAliveTimeout := 0; OutQueueSize_ := 64 |})
    as [[Hp _]|(s & Hs & _)].
  - unfold specs_of. simpl. by rewrite lookup_empty.
  - discriminate.
  - reflexivity.
  - vm_compute. reflexivity.
  - discriminate Hp.
  - simpl in Hs. rewrite Hs. by destruct s.
Defined.

Example nil_websocket_config_panics_witness :
  ∃ why, UpgradeWebSocket ["wamp.2.json"] None = Panics why.
Proof. exact (nil_websocket_config_panics ["wamp.2.json"] "wamp.2.json" eq_refl). Defined.

(** ** Clients *)

#[global] Instance joining_handshake : WampHandshake := {|
  hello_realm _ := None; NewAbort _ _ := Untyped 3; ErrNoSuchRealm := ""; MAGIC := 127;
  ServerAuthenticator := unit; Acceptor := unit; NewAcceptor _ _ := tt;
  Acceptor_ReceiveMessage a _ := (a, Err ""); Acceptor_Receive a _ := (a, Err "");
  Acceptor_SessionDetails _ := Err "";
  ClientAuthenticator := string;
  Joiner := string * string;
  NewJoiner realm _ a := (realm, a);
  Joiner_SendHello j := (j, Ok "HELLO");
  Joiner_Receive j _ := (j, Ok None);
  Joiner_SessionDetails j := Ok {| d_ID := 1; d_Realm := j.1; d_AuthID := j.2; d_AuthRole := "";
                                   d_AuthMethod := ""; d_AuthExtra := ∅ |} |}.

#[global] Instance sample_auths : ClientAuths := {|
  NewAnonymousAuthenticator a := a; NewTicketAuthenticator a _ := a;
  NewWAMPCRAAuthenticator a _ := a;
  NewCryptoSignAuthenticator a key := if bool_decide (key = "") then Err "bad key" else Ok a |}.

Definition sample_urls (uri : string) : result URL :=
  if bool_decide (uri = "rs://h:1") then Ok {| Scheme := "rs"; URL_Host := "h:1"; Path := "" |}
  else if bool_decide (uri = "rss://h:1") then Ok {| Scheme := "rss"; URL_Host := "h:1"; Path := "" |}
  else Ok {| Scheme := "ws"; URL_Host := "h:2"; Path := "/ws" |}.

Definition sample_net (network address : string) : result stream :=
  Ok (mkStream [Ok client_hello; Ok "WELCOME"] "").
Definition no_join (realm : string) (a : ClientAuthenticator) (rs : list (result string))
    : M Peer (details * list (result string)) := fail "no serializer".

Definition plain_client : ClientW := mkClientW (mkClient None None None 0 0 0 0) [].
Definition careful_client : ClientW := mkClientW (mkClient None None (Some 7%nat) 5 0 0 0) [].

Definition sample_connect := Connect sample_urls sample_net id no_join.

Example ticket_client_joins :
  match ConnectTicket sample_urls sample_net id no_join "rs://h:1" "realm1" "joe" "secret" with
  | Val j => Some (d_AuthID (j_details j), d_Realm (j_details j))
  | _ => None
  end = Some ("joe", "realm1") ∧
  ConnectCryptosign sample_urls sample_net id no_join "rs://h:1" "realm1" "joe" "" = Fail "bad key" ∧
  (sample_connect "WS://h" "realm1" plain_client).2 = Fail "unsupported protocol: WS://h".
Proof. vm_compute. split_and!; reflexivity. Qed.

Example raw_dial_ignores_configuration_witness :
  dials (sample_connect "rs://h:1" "realm1" plain_client).1 = [NetDialed "tcp" "h:1"] ∧
  dials (sample_connect "rss://h:1" "realm1" careful_client).1 =
  dials (sample_connect "rs://h:1" "realm1" plain_client).1.
Proof.
  apply (raw_dial_ignores_configuration sample_urls sample_net id no_join "rs://h:1" "rss://h:1"
    "realm1" {| Scheme := "rs"; URL_Host := "h:1"; Path := "" |}
    {| Scheme := "rss"; URL_Host := "h:1"; Path := "" |} plain_client careful_client);
    try (split; reflexivity); try reflexivity; simpl; by apply (bool_decide_eq_true_1 _).
Defined.

Example raw_connect_narrows_websockets_witness :
  ∃ q, last (dials (sample_connect "ws://h:2" "realm1"
         (sample_connect "rs://h:1" "realm1" plain_client).1).1) = Some (WsDialed q) ∧
       wr_protocols q = ["wamp.2.cbor"].
Proof.
  exact (proj2 (raw_connect_narrows_websockets sample_urls sample_net id no_join "rs://h:1" "ws://h:2"
    "realm1" {| Scheme := "rs"; URL_Host := "h:1"; Path := "" |}
    {| Scheme := "ws"; URL_Host := "h:2"; Path := "/ws" |} plain_client
    (conj eq_refl eq_refl) eq_refl eq_refl eq_refl eq_refl)).
Defined.

(** ** Multiplexed sessions *)

Definition no_links : links := mkLinks ∅ ∅ 0.
Lemma no_links_wf : links_wf no_links.
Proof. split; [intros i c; simpl; by rewrite lookup_empty|intros c; simpl; set_solver]. Qed.

Definition answered : stream := mkStream [Ok client_hello; Ok "WELCOME"] "".
Definition hung_up : stream := mkStream [Ok (String (ascii_of_nat 127) ""); Err "EOF"] "".

Example quic_session_opens :
  match (ConnectQUIC id "h:3" (Ok tt) (Ok tt) answered "realm1" None no_links).2 with
  | Val s => Some (ms_conn s, ms_stream s) | _ => None end = Some (0, 1)%nat.
Proof. vm_compute. reflexivity. Qed.

Example mux_connection_is_closed_witness :
  (ConnectQUIC id "h:3" (Ok tt) (Ok tt) hung_up "realm1" None no_links).2 =
    Fail "failed to read handshake response: unexpected EOF" ∧
  open_conns (ConnectQUIC id "h:3" (Ok tt) (Ok tt) hung_up "realm1" None no_links).1 = ∅.
Proof.
  split; [vm_compute; reflexivity|].
  destruct (mux_connection_is_closed id "WAMP" (Ok tt) (Ok tt) hung_up "realm1" None no_links
    no_links_wf) as [Hc _]. exact Hc.
Defined.

Example failed_session_leaves_its_stream_witness :
  open_streams (openQUICSession id 0 (Ok tt) hung_up "realm1" None
    (mkLinks {[0%nat]} ∅ 1)).1 !! 1%nat = Some 0%nat.
Proof.
  exact (failed_session_leaves_its_stream id "WAMP" 0 hung_up "realm1" None (mkLinks {[0%nat]} ∅ 1)
    _ _ _ _ eq_refl eq_refl).
Defined.

Definition two_sessions : links := mkLinks {[0%nat]} {[1%nat := 0%nat; 2%nat := 0%nat]} 3.
Lemma two_sessions_wf : links_wf two_sessions.
Proof.
  split; [|intros c; simpl; set_solver by lia].
  intros i c. cbn. rewrite lookup_insert_Some, lookup_singleton_Some.
  intros [[<- <-]|[_ [<- <-]]]; split; set_solver by lia.
Qed.
Definition first_session : mux_session :=
  {| ms_conn := 0; ms_stream := 1; ms_peer := NewRawSocketPeer 4;
     ms_details := {| d_ID := 1; d_Realm := "realm1"; d_AuthID := "john"; d_AuthRole := "user";
                     d_AuthMethod := "anonymous"; d_AuthExtra := ∅ |}; ms_serializer := tt |}.

Example streams_of_a_connection_witness :
  open_streams (QUICConn_Close 0 two_sessions).1 !! 2%nat = None.
Proof.
  destruct (streams_of_a_connection first_session two_sessions two_sessions_wf)
    as (_ & _ & _ & _ & _ & _ & Hall).
  apply eq_None_not_Some. intros [c Hc]. apply Hall in Hc as [Hc Hne]. vm_compute in Hc. by simplify_eq.
Defined.

(** ** Closing one of two sessions *)

#[local] Existing Instance sample_floats.

Definition mux_client : Session := NewSession (NewRawSocketPeer 4) tt.
Definition two_clients : mux :=
  mkMux two_sessions
    (<[1%nat := mux_client]> {[2%nat := mux_client]}) ∅.
Lemma two_clients_wf : mux_wf two_clients.
Proof.
  split; [exact two_sessions_wf|]. intros i [s Hs]. simpl in *.
  rewrite lookup_insert_Some, lookup_singleton_Some in Hs. destruct Hs as [[<- _]|[_ [<- _]]]; lia.
Qed.

(** The router does not answer the GOODBYE: the first session is closed all the same,
    and the second one has its stream. *)
Example sessions_share_a_connection_witness :
  let r := mux_Close_wait 1 OnTimeout two_clients in
  r.2 = Fail "leave timeout" ∧ (1 ∈ ended r.1)%nat ∧
  sessions r.1 !! 2%nat = Some mux_client.
Proof.
  pose proof (sessions_share_a_connection id "WAMP" first_session (Ok tt) answered "realm1" None
    two_clients two_clients_wf) as [_ Hclose].
  destruct (Hclose 1%nat mux_client eq_refl) as [_ Hwait].
  destruct (Hwait OnTimeout) as [[_ Hels] Hres]. cbv zeta. split; [vm_compute; reflexivity|].
  split; [|by rewrite (proj1 (Hels 2%nat ltac:(done)))].
  assert ((mux_Close_wait 1 OnTimeout two_clients).2 = Fail "leave timeout") as Hv by (vm_compute; reflexivity).
  destruct (mux_Close_wait 1 OnTimeout two_clients) as [w' v]. cbn [fst snd] in *. subst v.
  destruct Hres as (_ & _ & _ & Hend). by apply Hend.
Defined.
