(* ===== verification/FramingExamples.v ===== *)
(** * Sample frames

    The header of the WAMP specification, a byte for the kind and three for the
    length: the theorems of Framing hold there.  And a stream of the sample
    router of RouterExamples. *)

From S2P Require Import Prelude GoStd GoPath Wamp Sample Permissions Peers Acceptor Relay Dialing Framing Realm RealmExamples Router RouterExamples Server ServerExamples Streams.

Local Open Scope string_scope.

(** ** Headers *)

(** The last byte of a number, and the number that a byte stands for. *)
Definition byte_of (z : Z) : ascii := ascii_of_nat (Z.to_nat (z mod 256)).
Definition of_byte (c : ascii) : Z := Z.of_nat (nat_of_ascii c).

Lemma of_byte_of z : of_byte (byte_of z) = (z mod 256)%Z.
Proof.
  unfold of_byte, byte_of. pose proof (Z.mod_pos_bound z 256 ltac:(lia)).
  rewrite nat_ascii_embedding; lia.
Qed.

Lemma of_byte_range c : (0 ≤ of_byte c < 256)%Z.
Proof. unfold of_byte. pose proof (nat_ascii_bounded c). lia. Qed.

#[global] Instance spec_headers : MessageHeaders := {|
  MessageHeader := Z * Z;
  MessageWamp := 0; MessagePing := 1; MessagePong := 2;
  NewMessageHeader k n := (k, n);
  Header_Kind := fst;
  Header_Length := snd;
  SendMessageHeader h :=
    String (byte_of h.1) (String (byte_of (h.2 / 65536)) (String (byte_of (h.2 / 256))
      (String (byte_of h.2) "")));
  ReceiveMessageHeader b :=
    match b with
    | String k (String x (String y (String z ""))) =>
        Ok (of_byte k, of_byte x * 65536 + of_byte y * 256 + of_byte z)%Z
    | _ => Err "header must be four bytes"
    end;
|}.

#[global] Instance spec_headers_ok : MessageHeadersOk.
Proof.
  split.
  - repeat constructor; set_solver.
  - done.
  - intros k n Hk Hn. eexists. split; [reflexivity|]. simpl. rewrite !of_byte_of. split.
    + rewrite !elem_of_cons in Hk. by destruct Hk as [->|[->|[->|[]%not_elem_of_nil]]].
    + Z.to_euclidean_division_equations; lia.
  - intros b h. simpl. repeat (destruct b as [|? b]; try done). intros [= <-]. simpl.
    pose proof (of_byte_range a0). pose proof (of_byte_range a1). pose proof (of_byte_range a2). lia.
Qed.

Example small_frame : frame (0%Z, "HELLO") =
  String (ascii_of_nat 0) (String (ascii_of_nat 0) (String (ascii_of_nat 0)
    (String (ascii_of_nat 5) "HELLO"))).
Proof. vm_compute. reflexivity. Qed.

(** ** Frames *)

(** A ping before the first message; the bytes arrive one by one, or in any other way. *)
Definition sample_frames : list (list (Z * string) * string) :=
  [([(1%Z, "are you there")], "HELLO"); ([], "GOODBYE")].

Lemma sample_frames_sendable : Forall sendable sample_frames.
Proof.
  repeat apply Forall_cons_2; try by apply Forall_nil.
  - split; [|by vm_compute]. apply Forall_singleton. split; [by left|by vm_compute].
  - split; [by apply Forall_nil|by vm_compute].
Qed.

Definition sample_bytes : string := frames (sample_frames ≫= message_frames).
Fixpoint single_bytes (s : string) : list string :=
  match s with "" => [] | String c s => String c "" :: single_bytes s end.

(** The writer's connection takes ten bytes at a time, the reader's gives them one by one. *)
Definition sample_wire : wire :=
  (write_frames (sample_frames ≫= message_frames) (mkWire (repeat (Ok 10%nat) 20) "")).1.

Example raw_frames_roundtrip_witness :
  ∃ segs, read_messages 2 (mkReader (mkStream (map Ok (single_bytes (sent sample_wire))) "") [] 0) =
    (mkReader (mkStream (map Ok segs) "") ["are you there"] 0, Val ["HELLO"; "GOODBYE"]) ∧ text segs = "".
Proof.
  refine (raw_frames_roundtrip sample_frames (repeat (Ok 10%nat) 20) sample_wire
    (single_bytes (sent sample_wire)) "" "" [] 0 sample_frames_sendable _ _ _).
  - by vm_compute.
  - by vm_compute.
  - vm_compute. lia.
Defined.

(** Three pings, and a writer that takes no pong. *)
Definition ping_flood : string := frames (repeat (1%Z, "?") 3).

Example ping_flood_blocks_the_reader_witness :
  (RawSocketPeer_Read (mkReader (mkStream [Ok ping_flood] "") [] 0)).2 = Blocks.
Proof.
  refine (ping_flood_blocks_the_reader (repeat (1%Z, "?") 2) (1%Z, "?") "" [ping_flood] "" [] 0
    _ eq_refl _ eq_refl _ _ eq_refl).
  - repeat apply Forall_cons_2; try by apply Forall_nil.
    all: split; [by right; left|by vm_compute].
  - split; [by right; left|by vm_compute].
  - vm_compute. lia.
  - vm_compute. lia.
Defined.

Example read_terminates_witness :
  read_rounds 100 (mkReader (mkStream [Ok sample_bytes] "") [] 0) =
  RawSocketPeer_Read (mkReader (mkStream [Ok sample_bytes] "") [] 0).
Proof. apply read_terminates. vm_compute. lia. Defined.

Definition pongs_then_hello : string := frames (repeat (2%Z, "") 4 ++ [(0%Z, "HELLO")]).

Example control_frames_nest_reads_witness :
  ∃ r, read_rounds 4 (mkReader (mkStream [Ok pongs_then_hello] "") [] 0) = (r, Blocks).
Proof.
  refine (proj1 (control_frames_nest_reads (repeat (2%Z, "") 4) "HELLO" "" [pongs_then_hello] "" [] 0 _ _ _)).
  - split; [|by vm_compute]. repeat apply Forall_cons_2; try by apply Forall_nil.
    all: split; [by right; left|by vm_compute].
  - vm_compute. lia.
  - by vm_compute.
Defined.

Fixpoint blank (n : nat) : string :=
  match n with O => "" | S n => String (ascii_of_nat 0) (blank n) end.
Lemma blen_blank n : blen (blank n) = Z.of_nat n.
Proof. induction n as [|n IH]; [done|]. cbn [blank blen]. rewrite IH. lia. Qed.

Example largest_payload_is_never_read_witness :
  ∃ data, blen data = maxRawSocketPayload ∧
    (RawSocketPeer_TryWrite data (NewRawSocketPeer 4)).2 = Val true.
Proof.
  assert (∃ data, blen data = maxRawSocketPayload) as (data & Hd).
  { exists (blank (Z.to_nat maxRawSocketPayload)). rewrite blen_blank. apply Z2Nat.id. done. }
  exists data. split; [exact Hd|].
  exact (proj1 (largest_payload_is_never_read data (NewRawSocketPeer 4) Hd eq_refl)).
Defined.

(** ** A stream *)

(** The client sends an event, then something that does not parse. *)
Definition sample_stream : connection :=
  {| first_byte := Ok MAGIC; upgraded := Err "no upgrade"; handshaken := Ok JsonSerializerID;
     incoming := [Ok "HELLO"; Ok "EVENT"; Ok "?"] |}.
Definition stream_server : Server :=
  {| acceptor := 0; authenticator := sample_authenticator "realm1" "anonymous"; outQueueSize := 0 |}.

Example streams_are_served_as_raw_sockets_witness :
  ∃ base, announced (dispatch initial_registries stream_server sample_stream
    (mkStreams sample_router None [])).1 = [base].
Proof.
  destruct (streams_are_served_as_raw_sockets initial_registries stream_server sample_stream
    (mkStreams sample_router None []) eq_refl) as (_ & _ & _ & l & [Hl _] & Hm).
  assert (∃ base, (HandleClient initial_registries stream_server ListenerRawSocket sample_stream
    sample_router).2 = Val (Detached base)) as (base & Hb) by (eexists; vm_compute; reflexivity).
  exists base. cbn [s_router] in Hm. rewrite Hb in Hm. rewrite Hl, Hm. reflexivity.
Defined.
