(* ===== verification/RawServingExamples.v ===== *)
(** * A sample raw-socket connection

    The handshake of the WAMP specification, a HELLO, a ping and an EVENT, whose
    bytes arrive one by one at the sample router of RouterExamples. *)

From S2P Require Import Prelude GoStd GoPath Wamp Sample Permissions Peers Acceptor Relay Dialing DialingExamples Framing Realm RealmExamples Router RouterExamples Server ServerExamples Streams FramingExamples RawServing.

Local Open Scope string_scope.

Definition raw_client_frames : list (list (Z * string) * string) :=
  [([], "HELLO"); ([(1%Z, "are you there")], "EVENT")].

Definition raw_client_bytes : string := frames (raw_client_frames ≫= message_frames).

Definition received_event : Message :=
  Typed (VEvent {| event_subscription := 1; event_args := []; event_kwargs := ∅; event_details := ∅ |}).

Definition raw_server : Server :=
  {| acceptor := 0; authenticator := sample_authenticator "realm1" "anonymous"; outQueueSize := 0 |}.

Lemma raw_client_frames_sendable : Forall sendable raw_client_frames.
Proof.
  repeat apply Forall_cons_2; try by apply Forall_nil.
  - split; [by apply Forall_nil|by vm_compute].
  - split; [|by vm_compute]. apply Forall_singleton. split; [by left|by vm_compute].
Qed.

