(* ===== verification/EndToEndExamples.v ===== *)
(** * A sample call and a sample publication

    Three clients of one realm, a dealer that knows one procedure and a broker that
    knows one topic: the theorems of EndToEnd hold there. *)

From stdpp Require Import functions.
From S2P Require Import Prelude GoStd Wamp Values Accessors Sample Permissions Peers Acceptor Realm Router RouterExamples Server ServerExamples Session EndToEnd.

Local Open Scope string_scope.

#[local] Existing Instance sample_floats.

Definition demo_invocation : invocation_msg :=
  {| invocation_id := 7; invocation_registration := 1; invocation_args := [AString "two"];
     invocation_kwargs := ∅; invocation_details := ∅ |}.
Definition demo_result : result_msg :=
  {| result_id := 5; result_args := [AString "four"]; result_kwargs := ∅; result_details := ∅ |}.
Definition demo_event : event_msg :=
  {| event_subscription := 1; event_args := [AString "news"]; event_kwargs := ∅; event_details := ∅ |}.
Definition demo_publish : publish_msg :=
  {| publish_id := 6; publish_topic := "topic"; publish_options := ∅ |}.

(** A serializer for the messages of the sample. *)
#[local] Instance demo_serializers : WampSerializers := {|
  Serializer := unit;
  Serialize _ m :=
    match m with
    | Typed (VCall _) => Ok "CALL"
    | Typed (VInvocation _) => Ok "INVOCATION"
    | Typed (VResult _) => Ok "RESULT"
    | Typed (VPublish _) => Ok "PUBLISH"
    | Typed (VEvent _) => Ok "EVENT"
    | Untyped 70 => Ok "YIELD"
    | _ => Err "cannot serialize"
    end;
  Deserialize _ p :=
    if bool_decide (p = "CALL") then Ok (Typed (VCall {| call_id := 5; call_procedure := "double" |}))
    else if bool_decide (p = "INVOCATION") then Ok (Typed (VInvocation demo_invocation))
    else if bool_decide (p = "RESULT") then Ok (Typed (VResult demo_result))
    else if bool_decide (p = "PUBLISH") then Ok (Typed (VPublish demo_publish))
    else if bool_decide (p = "EVENT") then Ok (Typed (VEvent demo_event))
    else if bool_decide (p = "YIELD") then Ok (Untyped 70)
    else Err "cannot parse";
  Static _ := false;
  JSONSerializer := tt; CBORSerializer := tt; MsgPackSerializer := tt;
|}.

(** Client 2 serves calls, and clients 2 and 3 want the events of everyone else. *)
Definition demo_dealer (id : Z) (m : Message) : M unit (option msg_to) :=
  match m with
  | Typed (VCall _) =>
      mret (Some {| mt_recipient := 2; mt_message := Typed (VInvocation demo_invocation) |})
  | Untyped 70 => mret (Some {| mt_recipient := 1; mt_message := Typed (VResult demo_result) |})
  | _ => fail "unexpected message"
  end.

#[local] Instance demo_routing : WampRouting := {|
  SessionDetails := Z;
  NewSessionDetails id _ _ _ _ _ _ := id;
  Broker := unit;
  NewBroker := tt;
  Broker_AddSession _ := mret tt;
  Broker_RemoveSession _ := mret tt;
  Broker_AutoDisclosePublisher _ b := b;
  Broker_ReceiveMessage _ _ := fail "unexpected message";
  Broker_ReceivePublish _ _ :=
    mret {| p_recipients := [2; 3]%Z; p_event := Typed (VEvent demo_event); p_ack := None |};
  Dealer := unit;
  NewDealer := tt;
  Dealer_AddSession _ := mret tt;
  Dealer_RemoveSession _ := mret tt;
  Dealer_AutoDiscloseCaller _ d := d;
  Dealer_ReceiveMessage := demo_dealer;
  Dealer_ReceiveCancel _ _ := mret [];
|}.

#[local] Instance demo_routing_ok : WampRoutingOk.
Proof. split; intros; simpl; unfold demo_dealer; go_effect. Qed.

Definition demo_client (id : Z) (p : nat) : BaseSession :=
  {| ID := id; Realm_ := "realm1"; AuthID := "john"; AuthRole := "trusted"; AuthMethod := "anonymous";
     AuthExtra := ∅; ref := p |}.
Definition caller : BaseSession := demo_client 1 0.
Definition callee : BaseSession := demo_client 2 1.
Definition reader : BaseSession := demo_client 3 2.

Definition demo_realm : Realm :=
  mkRealm tt tt {[1%Z := caller; 2%Z := callee; 3%Z := reader]} {["trusted" := trusted_role]} None.

Definition demo_router : RouterW :=
  mkRouterW (mkRouter {["realm1" := 0%nat]} ∅ false true 0 0 1) {[0%nat := demo_realm]}
    (λ _, NewBaseSession (newLocalPeer 16) tt) 3 [] 4.

(** A session with a registration and two handlers for one subscription. *)
Definition demo_session : Session :=
  with_subscriptions {[1%Z := {[1%nat := 21%nat; 2%nat := 22%nat]}]}
    (with_registrations {[1%Z := 11%nat]} (NewSession (newLocalPeer 16) tt)).

Definition demo_system : System := mkSystem demo_router (λ _, demo_session).

Definition doubled : InvocationResult := NewInvocationResult [AString "four"].

Lemma demo_quiet : quiet demo_session (newLocalPeer 16).
Proof. unfold quiet, idle. split_and!; try done; cbn; unfold queue_size; case_bool_decide; lia. Qed.

Example calls_are_answered_witness :
  (remote_call caller callee 5 (NewCall 5 ∅ "double" [AString "two"] ∅) (invocation_id demo_invocation) doubled
    demo_system).2 =
    Val (call_response demo_result).
Proof.
  destruct (calls_are_answered demo_system caller callee demo_session (newLocalPeer 16) tt demo_session
    (newLocalPeer 16) tt 0 demo_realm 5 (NewCall 5 ∅ "double" [AString "two"] ∅)
    (Typed (VCall {| call_id := 5; call_procedure := "double" |})) tt (Typed (VInvocation demo_invocation))
    (Typed (VInvocation demo_invocation)) demo_invocation 11 doubled (Untyped 70) (Untyped 70) tt
    (Typed (VResult demo_result)) (Typed (VResult demo_result))) as (y' & sa' & sb' & -> & _);
    try done; try by eexists.
  all: exact demo_quiet.
Defined.

Definition demo_publication : publication :=
  {| p_recipients := [2; 3]%Z; p_event := Typed (VEvent demo_event); p_ack := None |}.
Definition demo_handlers : gmap nat nat := {[1%nat := 21%nat; 2%nat := 22%nat]}.

Lemma demo_distinct : distinct_refs demo_realm.
Proof.
  assert (∀ i c, clients demo_realm !! i = Some c → Z.of_nat (ref c) = (i - 1)%Z) as Hr.
  { intros i c. simpl. rewrite !lookup_insert_Some, lookup_singleton_Some.
    intros [[<- <-]|[_ [[<- <-]|[_ [<- <-]]]]]; done. }
  intros i j c c' Hi%Hr Hj%Hr Heq. rewrite Heq in Hi. lia.
Qed.

Lemma demo_subscribers c :
  c ∈ [reader; callee] →
  subscriber demo_system demo_realm demo_publication c demo_event demo_handlers.
Proof.
  assert (idle (newLocalPeer 16)) as Hi by apply demo_quiet.
  rewrite !elem_of_cons. intros [->|[->|[]%not_elem_of_nil]]; split_and!; try done;
    try (by apply (bool_decide_unpack _)); exists (Typed (VEvent demo_event)); (split; [by eexists|done]).
Qed.

Example publications_are_delivered_witness :
  effects (EndToEnd.sessions (remote_publish caller 6 "topic" [AString "news"] ∅ ∅ [reader; callee] demo_system).1 (ref reader))
    = deliveries_of demo_event demo_handlers.
Proof.
  destruct (publications_are_delivered demo_system caller demo_session (newLocalPeer 16) tt 0 demo_realm 6
    "topic" [AString "news"] ∅ ∅ (Typed (VPublish demo_publish)) demo_publish tt demo_publication
    [reader; callee]) as (y' & -> & _ & Hall & _); try done; try by eexists.
  - apply demo_quiet.
  - exact demo_distinct.
  - by apply (bool_decide_unpack _).
  - by apply (bool_decide_unpack _).
  - intros c Hc. exists demo_event, demo_handlers. by apply demo_subscribers.
  - cbn [fst]. rewrite (Hall reader demo_event demo_handlers); [done|by left|].
    apply demo_subscribers. by left.
Defined.
