(* ===== verification/LogExamples.v ===== *)
(** * The lines of sample messages

    The names of the WAMP specification, and the messages of Sample with their
    fields: the hypotheses of LogText hold there. *)

From S2P Require Import Prelude GoStd Wamp Sample LogText.

Local Open Scope string_scope.

#[global] Instance sample_log : WampLog := {|
  view_log m :=
    match m with
    | Typed (VCall m) => LCall (call_procedure m) (call_id m) [] ∅ ∅
    | Typed (VRegister m) => LRegister (register_procedure m) (register_id m) ∅
    | Typed (VSubscribe m) => LSubscribe (subscribe_topic m) (subscribe_id m) ∅
    | Typed (VPublish m) => LPublish (publish_topic m) [] ∅ (publish_options m)
    | Typed (VRegistered m) => LRegistered (registered_id m) (registered_registration m)
    | Typed (VUnregistered id) => LUnregistered id
    | Typed (VSubscribed m) => LSubscribed (subscribed_id m) (subscribed_subscription m)
    | Typed (VUnsubscribed id) => LUnsubscribed id
    | Typed (VPublished id) => LPublished id 0
    | Typed (VResult m) => LResult (result_id m) (result_args m) (result_kwargs m) (result_details m)
    | Typed (VInvocation m) => LInvocation (invocation_id m) (invocation_registration m)
        (invocation_args m) (invocation_kwargs m) (invocation_details m)
    | Typed (VEvent m) => LEvent 0 (event_subscription m) (event_args m) (event_kwargs m) (event_details m)
    | Typed (VError m) => LError (error_type m) (error_uri m) (default [] (error_args m))
        (default ∅ (error_kwargs m)) ∅
    | Typed (VGoodbye m) => LGoodbye (goodbye_reason m)
    | Untyped 70 => LYield 0 [] ∅ ∅
    | Untyped 66 => LUnregister 0 0
    | Untyped 34 => LUnsubscribe 0 0
    | Untyped 3 => LAbort "" [] ∅ ∅
    | _ => LOther
    end;
  marshal_text m := "[" +:+ pretty (sample_type m) +:+ "]";
  MessageNameHello := "HELLO"; MessageNameWelcome := "WELCOME"; MessageNameAbort := "ABORT";
  MessageNameChallenge := "CHALLENGE"; MessageNameAuthenticate := "AUTHENTICATE";
  MessageNameGoodbye := "GOODBYE"; MessageNameError := "ERROR"; MessageNamePublish := "PUBLISH";
  MessageNamePublished := "PUBLISHED"; MessageNameSubscribe := "SUBSCRIBE";
  MessageNameSubscribed := "SUBSCRIBED"; MessageNameUnsubscribe := "UNSUBSCRIBE";
  MessageNameUnsubscribed := "UNSUBSCRIBED"; MessageNameEvent := "EVENT"; MessageNameCall := "CALL";
  MessageNameCancel := "CANCEL"; MessageNameResult := "RESULT"; MessageNameRegister := "REGISTER";
  MessageNameRegistered := "REGISTERED"; MessageNameUnregister := "UNREGISTER";
  MessageNameUnregistered := "UNREGISTERED"; MessageNameInvocation := "INVOCATION";
  MessageNameInterrupt := "INTERRUPT"; MessageNameYield := "YIELD" |}.

#[global] Instance sample_log_ok : WampLogOk.
Proof.
  split.
  - assert (∀ t : Z, t ∈ [0; 1; 2; 4; 5; 49; 69]%Z → t ∉ (received_types ++ sent_types)%list) as Hno.
    { refine (proj1 (list.Forall_forall _ _) _). by apply (bool_decide_unpack _). }
    intros [v|t] Hm.
    + destruct v; try done; exfalso; revert Hm; apply Hno; simpl; types_in.
    + simpl in Hm. case_bool_decide as Ht; [|exfalso; revert Hm; apply Hno; types_in].
      unfold untyped_types in Ht. rewrite !elem_of_cons in Ht.
      destruct_or? Ht; subst; try done; try (exfalso; revert Hm; apply Hno; types_in).
      by apply not_elem_of_nil in Ht.
  - by apply (bool_decide_unpack _).
  - intros n Hn. revert n Hn. refine (proj1 (list.Forall_forall _ _) _). by apply (bool_decide_unpack _).
Qed.

Example logged_call :
  constructReceivedMsgLog "noon" (Typed (VCall {| call_id := 5; call_procedure := "double" |})) =
    Returns ("[noon] RX: CALL for procedure 'double' with request_id=5 args=[]interface {}, kwargs=" +:+
      "map[string]interface {}, options=map[string]interface {}").
Proof. vm_compute. reflexivity. Qed.

Definition logged : Message := Typed (VCall {| call_id := 5; call_procedure := "x" |}).
Definition yielded : Message := Untyped 70.

Example lines_tell_the_type_witness :
  ∃ rest, constructReceivedMsgLog "noon" logged = Returns ("[noon] RX: CALL " +:+ rest).
Proof.
  refine (proj1 (proj1 (lines_tell_the_type "noon" logged yielded) _ _)); by apply (bool_decide_unpack _).
Defined.
