(* ===== verification/DemoExamples.v ===== *)
(** * Sample runs of the example programs

    The theorems of Demos and DemoServers applied to concrete sessions and to a
    machine on which nothing fails. *)

From stdpp Require Import functions.
From S2P Require Import Prelude GoStd Wamp Values Accessors Sample Permissions Peers Acceptor Realm RealmExamples Router RouterEnds RouterExamples Server ServerExamples Listeners Auth Session SessionExamples EndToEnd Progressive Demos DeviceAuth Wiring WiringExamples DemoServers.

Local Open Scope string_scope.

#[local] Existing Instance sample_floats.

(** ** server/authenticator *)

Definition ticket_request : Request :=
  TicketRequest {| Auth.AuthMethod := "ticket"; Auth.Realm := "realm7"; Auth.AuthID := "john" |} "ticket-pass".

Definition ticket_response : Response :=
  {| sr_authid := "john"; sr_role := "trusted"; sr_secret := ""; sr_ttl := 0 |}.

Example known_credentials_only_witness : Authenticator.credential ticket_request.
Proof.
  apply (Authenticator.known_credentials_only ticket_request ticket_response). by vm_compute.
Defined.

Example known_credentials_suffice_witness :
  ∃ response, Authenticator.Authenticate ticket_request = Ok response.
Proof.
  destruct (Authenticator.known_credentials_suffice ticket_request) as [Hr|(e & He & _)];
    [right; left; split; [done|by eexists]|exact Hr|discriminate He].
Defined.

(** ** reconnect *)

Example delays_are_bounded_witness : (1 * Second ≤ 16 * Second ≤ Reconnect.maxDelay)%Z.
Proof.
  apply (Reconnect.delays_are_bounded (repeat false 7) (1 * Second)); [by vm_compute|].
  apply (bool_decide_unpack _). by vm_compute.
Defined.

(** ** The progressive programs *)

#[local] Instance sample_util : WampUtil := {|
  AsUInt64 v := match v with AUint64 n => Some n | _ => None end;
  ToString v := match v with AString s => s | _ => "" end |}.

(** It serializes every YIELD. *)
#[local] Instance yielding_serializers : WampSerializers := {|
  Serializer := unit;
  Serialize _ m := Ok ("MESSAGE " +:+ pretty (sample_type m));
  Deserialize _ _ := Err "cannot parse";
  Static _ := false;
  JSONSerializer := tt; CBORSerializer := tt; MsgPackSerializer := tt |}.

Definition demo_session : Session := NewSession (newLocalPeer 16) tt.

Lemma demo_takes n d : (n ≤ 16)%nat → oversized d = false → takes (peer demo_session) (repeat d n).
Proof.
  intros Hn Hd. split; [done|]. split.
  - rewrite repeat_length. change (chan_cap (peer demo_session)) with 16%nat. simpl. lia.
  - by apply list.Forall_forall; intros x Hx%list_elem_of_In%repeat_spec; subst.
Qed.

Example every_chunk_is_uploaded_witness :
  ∃ first rest s' c, chunks 5 9 = first :: rest ∧
    progressive_call 1 "io.xconn.progress.upload" first rest demo_session = (s', Val c) ∧
    writeChan (peer s') = repeat "MESSAGE 48" 5 ∧ requests s' KCall !! 1%Z = Some c.
Proof.
  apply (every_chunk_is_uploaded 1 "io.xconn.progress.upload" 5 9 (repeat "MESSAGE 48" 5) demo_session);
    [lia|lia|repeat constructor|by apply demo_takes; [lia|]].
Defined.

Definition progress_invocation : Invocation.Invocation :=
  Invocation.mk (List.NewList []) (Dict.NewDict ∅) (Dict.NewDict ∅) (Some 7%Z).

Example download_tells_its_progress_witness :
  ∃ s', download_handler progress_invocation demo_session =
      (s', Val (NewInvocationResult [AString "Download complete!"])) ∧
    writeChan (peer s') = repeat "MESSAGE 70" 11.
Proof.
  apply (download_tells_its_progress progress_invocation 7 (repeat "MESSAGE 70" 11) demo_session);
    [done|repeat constructor|by apply demo_takes; [lia|]].
Defined.

Definition plain_invocation : invocation_msg :=
  {| invocation_id := 7; invocation_registration := 1; invocation_args := []; invocation_kwargs := ∅;
     invocation_details := ∅ |}.

Definition plain_message : Message := Typed (VInvocation plain_invocation).

Example plain_call_panics_the_callee_witness :
  ∃ s' inv, effects s' = [Invoke 11 7 false inv] ∧
    download_handler inv s' = (s', Crash "invalid memory address or nil pointer dereference").
Proof.
  destruct (plain_call_panics_the_callee plain_message plain_invocation 11
    (with_registrations {[1%Z := 11%nat]} demo_session) eq_refl (conj eq_refl eq_refl)
    (lookup_singleton_eq 1%Z 11%nat)) as (s' & inv & _ & He & Hr). by exists s', inv.
Defined.

(** ** handshake *)

(** The signature of a challenge names the key. *)
#[local] Instance sample_cryptosign : CryptoSign := {|
  VerifyCryptoSignSignature s k := Ok (bool_decide (s = pretty (length k)));
  SignCryptoSignChallenge c k := k;
  ErrCanceled := "wamp.error.canceled";
  ErrInvalidArgument := "wamp.error.invalid_argument" |}.

Definition demo_callee : Handshake.callee := Handshake.mkCallee "" demo_session.

Example any_signed_challenge_is_accepted_witness :
  (Handshake.handler pretty "another challenge" (Handshake.invocation_of (AString "1") false None)
    (Handshake.handler pretty "a challenge" (Handshake.invocation_of (AString "ff") true (Some 7%Z))
       demo_callee).1).2 = Val (NewInvocationResult []).
Proof.
  pose proof (Handshake.any_signed_challenge_is_accepted pretty "a challenge" "another challenge"
    (AString "ff") (AString "1") 7 None "MESSAGE 70" [] demo_callee eq_refl
    (demo_takes 1 "MESSAGE 70" ltac:(lia) eq_refl)) as H.
  destruct (Handshake.handler pretty "a challenge" _ demo_callee) as [c r]. destruct H as (_ & _ & H).
  cbn [fst]. rewrite H. by vm_compute.
Defined.

Example overlapping_handshakes_share_the_key_witness :
  let c1 := (Handshake.handler pretty "x" (Handshake.invocation_of (AString "ff") true (Some 7%Z)) demo_callee).1 in
  let c2 := (Handshake.handler pretty "y" (Handshake.invocation_of (AString "ffff") true (Some 8%Z)) c1).1 in
  (Handshake.handler pretty "x" (Handshake.invocation_of (AString "1") false None) c2).2 =
    Val (NewInvocationError "wamp.error.verification_failed" [AString "signature verification failed"]).
Proof.
  pose proof (Handshake.overlapping_handshakes_share_the_key pretty "x" "y" (AString "ff") (AString "ffff")
    (AString "1") 7 8 None "MESSAGE 70" "MESSAGE 70" [] demo_callee eq_refl eq_refl
    (demo_takes 2 "MESSAGE 70" ltac:(lia) eq_refl)) as H.
  cbv zeta in *. rewrite H. by vm_compute.
Defined.

(** ** The servers *)

#[local] Existing Instance answering_serializers.
#[local] Instance demo_os : OS authority := quiet_os [].

Example example_server_serves_witness :
  match run_server (ListenAndServe ListenerWebSocket) None "realm1" "localhost:8080" (1, "x")%Z true
    sample_machine with
  | (m', Val Returned) => sockets (host m') = ∅
  | _ => True
  end.
Proof.
  pose proof (example_server_serves ListenerWebSocket None "realm1" "localhost:8080" (1, "x")%Z true
    sample_machine sample_machine_wf) as H.
  destruct (run_server _ _ _ _ _ _ _) as [m' [[|e]|e|why|]]; try done. by destruct H as (_ & -> & _).
Defined.
