(* ===== verification/DemoClientExamples.v ===== *)
(** * Sample runs of the example clients

    The theorems of DemoConnect and DemoClients, on a client that joins and on a
    session whose router answers every request. *)

From stdpp Require Import functions.
From S2P Require Import Prelude GoStd Wamp Values Accessors Sample Peers Acceptor Dialing DialingExamples DemoConnect Session EndToEnd Progressive Requests Demos DemoClients.

Local Open Scope string_scope.

(** ** Connecting *)

Example clients_speak_their_serializer_witness :
  match connect_client sample_urls sample_net id no_join None JSONSerializerSpec "rs://h:1" "realm1" with
  | (_, Val j) => j_serializer j = JSONSerializer
  | _ => False
  end.
Proof.
  assert (match (connect_client sample_urls sample_net id no_join None JSONSerializerSpec "rs://h:1" "realm1").2 with
    Val _ => true | _ => false end = true) as Hval by (vm_compute; reflexivity).
  destruct (connect_client sample_urls sample_net id no_join None JSONSerializerSpec "rs://h:1" "realm1")
    as [w [j|e|why|]] eqn:Hrun; [|discriminate Hval..].
  exact (proj1 (clients_speak_their_serializer _ _ _ _ _ _ _ _ _ _ Hrun)).
Defined.

(** ** The life of a client *)

#[local] Existing Instance sample_floats.

Definition sample_event : event_msg :=
  {| event_subscription := 4; event_args := [AString "news"]; event_kwargs := ∅; event_details := ∅ |}.
Definition sample_answer (id : Z) (n : Z) : result_msg :=
  {| result_id := id; result_args := [AUint64 n]; result_kwargs := ∅; result_details := ∅ |}.
Definition sample_registered : registered_msg := {| registered_id := 1; registered_registration := 9 |}.
Definition sample_subscribed : subscribed_msg := {| subscribed_id := 1; subscribed_subscription := 4 |}.
Definition sample_goodbye : goodbye_msg := {| goodbye_details := ∅; goodbye_reason := "wamp.close.goodbye_and_out" |}.

#[local] Instance answering_router : WampSerializers := {|
  Serializer := unit;
  Serialize _ m := Ok ("MESSAGE " +:+ pretty (sample_type m));
  Deserialize _ p :=
    if bool_decide (p = "REGISTERED") then Ok (Typed (VRegistered sample_registered))
    else if bool_decide (p = "UNREGISTERED") then Ok (Typed (VUnregistered 2))
    else if bool_decide (p = "SUBSCRIBED") then Ok (Typed (VSubscribed sample_subscribed))
    else if bool_decide (p = "UNSUBSCRIBED") then Ok (Typed (VUnsubscribed 2))
    else if bool_decide (p = "EVENT") then Ok (Typed (VEvent sample_event))
    else if bool_decide (p = "ECHO") then Ok (Typed (VResult (sample_answer 1 0)))
    else if bool_decide (p = "SUM") then Ok (Typed (VResult (sample_answer 2 3)))
    else if bool_decide (p = "GOODBYE") then Ok (Typed (VGoodbye sample_goodbye))
    else Err "cannot parse";
  Static _ := false;
  JSONSerializer := tt; CBORSerializer := tt; MsgPackSerializer := tt |}.

Definition demo_client : client :=
  mkClient (mkHeap ∅ ∅ ∅ ∅ ∅) (NewSession (newLocalPeer 16) tt).

Lemma demo_online ds :
  (length ds ≤ 16)%nat → Forall (λ d, oversized d = false) ds → online ds (session_ demo_client).
Proof. intros Hl Hd. by split_and!. Qed.

Lemma demo_private : private (requests_ demo_client).
Proof. by split. Qed.

Definition goodbye_message : Message := Typed (VGoodbye sample_goodbye).

Definition said (p : string) : wait := mkWait [Ok p] OnResponse.

Lemma three_fit {d1 d2 d3 : string} : (length [d1; d2; d3] ≤ 16)%nat.
Proof. simpl. lia. Qed.

(** A payload that the router can have sent. *)
Lemma answers payload v :
  Deserialize tt payload = Ok (Typed v : Message) → answer_of (session_ demo_client) payload v.
Proof. intros Hp. by exists (Typed v). Qed.

Example publisher_publishes_and_leaves_witness :
  ∃ w', publisher_main [1; 2; 3; 4]%Z (said "GOODBYE") demo_client = (w', Val (Finished tt)) ∧
    writeChan (peer (session_ w')) = ["MESSAGE 16"; "MESSAGE 16"; "MESSAGE 16"; "MESSAGE 16"; "MESSAGE 6"].
Proof.
  destruct (publisher_publishes_and_leaves [1; 2; 3; 4]%Z (repeat "MESSAGE 16" 4) "MESSAGE 6" "GOODBYE"
    goodbye_message sample_goodbye demo_client) as (w' & Hrun & _ & Hw & _);
    [done|by apply demo_online; [simpl; lia|repeat constructor]|apply demo_private|done|repeat constructor|done..|].
  exists w'. split; [exact Hrun|exact Hw].
Defined.

Definition deaf_client : client :=
  mkClient (mkHeap ∅ ∅ ∅ ∅ ∅) (markDisconnected (session_ demo_client)).1.

Example publisher_hides_the_error_witness :
  (publisher_main [1; 2; 3; 4]%Z (said "GOODBYE") deaf_client).2 = Val (Died "Failed to publish: %!s(<nil>)").
Proof. by apply (publisher_hides_the_error 1 [2; 3; 4]%Z). Defined.

Example subscriber_hears_its_topic_witness :
  ∃ w', subscriber_main 1 2 30 31 (said "SUBSCRIBED") (said "UNSUBSCRIBED") (said "GOODBYE")
      [Ok "EVENT"; Ok "EVENT"] true demo_client = (w', Val (Finished tt)) ∧
    effects (session_ w') = deliver_all 31 [sample_event; sample_event].
Proof.
  destruct (subscriber_hears_its_topic 1 2 30 31 sample_subscribed ["EVENT"; "EVENT"] [sample_event; sample_event]
    "SUBSCRIBED" "UNSUBSCRIBED" "GOODBYE" "MESSAGE 32" "MESSAGE 34" "MESSAGE 6" sample_goodbye demo_client)
    as (w' & Hrun & _ & He & _); try done;
    [by apply demo_online; [simpl; lia|repeat constructor]|by eexists..|
     by repeat constructor; exists (Typed (VEvent sample_event))|].
  exists w'. split; [exact Hrun|exact He].
Defined.

Example callee_serves_until_interrupted_witness :
  (callee_main "Failed to register procedure: " "io.xconn.progress.upload" 11 1 2 (said "REGISTERED")
    (said "UNREGISTERED") (said "GOODBYE") [] true demo_client).2 = Val (Finished tt).
Proof.
  exact (proj1 (callee_serves_until_interrupted "Failed to register procedure: " "io.xconn.progress.upload" 11 1 2
    sample_registered "REGISTERED" "UNREGISTERED" "GOODBYE" "MESSAGE 64" "MESSAGE 66" "MESSAGE 6" sample_goodbye
    demo_client true (demo_online ["MESSAGE 64"; "MESSAGE 66"; "MESSAGE 6"] three_fit
      ltac:(by repeat constructor)) eq_refl eq_refl eq_refl eq_refl eq_refl eq_refl
    (answers "REGISTERED" (VRegistered sample_registered) eq_refl)
    (answers "UNREGISTERED" (VUnregistered 2) eq_refl) (answers "GOODBYE" (VGoodbye sample_goodbye) eq_refl))).
Defined.

Example caller_prints_the_sum_witness :
  ∃ w', rpc_caller_main 1 2 (said "ECHO") (said "SUM") (said "GOODBYE") demo_client = (w', Val (Finished 3%Z)).
Proof.
  assert (AsBool ANil = false) as Hnil by reflexivity.
  destruct (caller_prints_the_sum 1 2 (sample_answer 1 0) (sample_answer 2 3) "ECHO" "SUM" "GOODBYE"
    "MESSAGE 48" "MESSAGE 48" "MESSAGE 6" sample_goodbye demo_client
    Hnil (demo_online ["MESSAGE 48"; "MESSAGE 48"; "MESSAGE 6"] three_fit
      ltac:(by repeat constructor)) eq_refl eq_refl eq_refl eq_refl (answers "ECHO" (VResult (sample_answer 1 0)) eq_refl)
    (answers "SUM" (VResult (sample_answer 2 3)) eq_refl) (answers "GOODBYE" (VGoodbye sample_goodbye) eq_refl)
    eq_refl eq_refl eq_refl eq_refl) as (w' & Hrun & _).
  exists w'. exact Hrun.
Defined.
